(* ===== verification/_CoqProject ===== *)
-Q . S2P
Prelude.v
Text.v
TokenBudget.v
QuotaLimiter.v
Valkey.v
Lua.v
RefServer.v
Snapshot.v
Program.v
Effects.v
Json.v
Wire.v
RefCodec.v
StreamLog.v
Replies.v
Streams.v
Engine.v
Quota.v
QuotaLedger.v
Envelope.v
Frontend.v
EngineStream.v
EngineProps.v
KeyTypes.v
Lease.v
ResultStream.v
JobQueue.v
FrontendProps.v
Served.v
EndToEnd.v
Rejection.v
Smoke.v
