(* ===== verification/Prelude.v ===== *)
(** * Inference data plane: a verification library

    ** The program

    A platform that serves language models.  The request path is written in
    Rust: clients talk to a frontend, which checks and charges a request and
    publishes it as a job; engines take jobs, generate, and publish the
    result token by token; the frontend (the same or another replica)
    delivers the results.  The only shared state is a Valkey server: a
    request stream with a consumer group, one result stream, one status hash
    and one lease per generation, three counters per API key and minute, and
    one hash per quota reservation.

    ** Files and the code they model

    Library: this file (results, 64-bit integers, strings, sums over maps,
    the hint database [idp]), [Text] (the functions of Rust's [std] on
    strings: UTF-8, white space, splitting, integer parsing).

    Pure components:
    - [TokenBudget]: crates/token-budget-engine, [src/lib.rs] and the command
      of [src/main.rs].  The trait [TokenCounter] is a class.
    - [QuotaLimiter]: crates/generation-quota-limiter.  Each critical section
      of a mutex is a function; [System] interleaves them, with a clock that
      a task reads before it waits for the lock, so that the minute it brings
      may be an old one.
    - [Envelope]: the Connect framing of the frontend and its reader in
      [src/bin/connect_smoke.rs].
    - [Wire]: the messages of proto/inference.  prost is an interface
      ([Codec]) with laws ([CodecLaws]); [RefCodec] gives an instance.
    - [Json]: the request that travels as JSON.  What the two crates derive
      is modelled: the members the frontend's serializer writes
      ([serialize_request]) and the visitor with which the engine reads them
      ([deserialize_request]), with its errors.  serde_json's text is an
      interface ([SerdeJson]) with laws ([SerdeJsonLaws]): what is printed is
      parsed again.  [RefCodec] and [FrontendProps.Demo] give an instance.

    The broker and effects:
    - [Valkey]: the commands the program sends, as the class of a server and
      the laws it must satisfy; [RefServer] is a server that does; [Snapshot]
      turns the laws into rules of symbolic execution.
    - [Lua]: the five scripts of crates/inference-streams, on doubles.
    - [Program]: an [async fn] is a tree of effects.  [run] executes it in a
      world whose schedule says what other clients do in between and which
      requests or replies are lost; [traces] is what it can do against any
      environment.  [Effects] holds the reasoning about both.

    The data plane:
    - [Replies], [Streams]: crates/inference-streams/src/lib.rs, every parser
      of a reply and every operation of [StreamsClient], [JobConsumer] and
      [ResultSubscription].
    - [Engine]: crates/inference-engine/src/main.rs, from the configuration
      to the main loop, with both backends and the lease heartbeat.
    - [Frontend]: crates/inference-frontend/src/main.rs, from the state that
      [main] builds to the three RPCs and the router.
    - [Smoke]: the client of [src/bin/connect_smoke.rs], over an HTTP client
      that is a parameter ([HttpClient]).

    Definitions have the names of the functions they model.  Where a Rust
    function is split (the checks before the first effect of
    [admit_and_dispatch] are [Frontend.preflight], the end of [run_job] is
    [Engine.finish_job]), the parts are composed in the order of the code.

    ** What is proved

    - [EndToEnd]: a request is admitted, charged, queued, taken, run,
      acknowledged and answered, on a broker that answers, with the synthetic
      backend and no other job waiting.  It composes [Quota], [JobQueue] and
      [Served].
    - [Rejection]: a rejected request keeps no quota, whatever gets lost,
      provided that the broker answers the two quota scripts; if the answer
      of the reserving one is lost, the quota stays charged.
    - [JobQueue]: the request stream and its consumer group refine a queue;
      over any interleaving of frontends and engines no job is lost; the
      limit of [reclaim_stale].
    - [KeyTypes]: every key holds what its prefix says, a type system for
      commands, scripts and programs, with its soundness.
    - [Served]: a queued job is run, its response collected and its quota
      settled, whatever an engine that crashed before left behind; and the
      case in which a completed generation fails afterwards.
    - [Quota], [QuotaLedger]: the scripts refine a ledger of reservations;
      the counters stay within the limits and expire; a reservation is
      settled once.
    - [Lease]: the lease operations refine an owner with a deadline; nobody
      else gets a lease that is held; the heartbeat keeps it.
    - [StreamLog], [ResultStream]: append-only logs; a publication appends, a
      subscription delivers every later result once and in order while others
      publish; a read is tried four times at most.
    - [EngineProps]: attempts publish under the lease only, and a job is
      acknowledged only when it is over; a job that does not decode ends the
      engine.  [EngineStream]: the model server's answer is read line by
      line, whatever its chunks.
    - [Envelope], [FrontendProps]: framing round trip; what an admitted
      request has passed and cost; replay; collection, exact when attempts
      run one after the other; the prefix that keys the cache; cursors and
      API keys; the request an engine reads back.  [Smoke]: the smoke
      test passes when the replay is the live stream, as it is for a
      generation that is over.
    - [TokenBudget], [QuotaLimiter]: the decisions of the three policies and
      their bounds; the limits of the in-memory limiter under interleaving,
      what its counters cover, and what an old minute or a late refund does
      to them.

    A property that has hypotheses has a witness, [<name>_witness], that
    applies it to concrete data, on the reference server where there is a
    broker.

    ** Integers, fuel, time

    [u64] and [usize] are [N] with the wrap-around of release builds written
    out ([wadd]); Lua numbers are rounded to 53 bits ([Lua.lnum]).  A
    [Duration] is a number of milliseconds, cut to 64 bits where the code
    casts it ([Streams.as_millis_u64]).  Loops without a structural
    measure take fuel: [Engine.drain_lines] the length of its buffer and
    [Envelope.read_frames] the length of the buffer, which every round
    shortens; the loops that read a result stream
    ([Frontend.collect_loop], [Frontend.stream_loop]) one unit per result, and
    the theorems about them show that more than the number of stored results
    is enough; [Engine.engine_loop] and [Engine.heartbeat], which do not end
    by themselves, a number of rounds.

    ** Not modelled

    Sockets, HTTP, configuration files and logging ([main] from the parsed
    configuration on is modelled); the headers of a response are given as
    values, so a header value that the [http] crate refuses is not seen, and
    those of CORS are not modelled (its preflight requests are); the position
    in the text of a serde error, and the order of the members of a [Value]; the
    heartbeat runs as a program of its own, and a job only tells when it is
    started and stopped; a blocking read ([XREAD], [XREADGROUP]) answers at
    once, the time it waits and what others do meanwhile being part of the
    schedule of the world; of a consumer group, the laws describe entries
    that are not deleted, as the program deletes none.  The Go control plane,
    generated code, manifests and scripts are outside the request path.

    Possible extensions: the whole path with the heartbeat interleaved and
    with token delays; the same path for the OpenAI-compatible backend; a
    queue with other jobs waiting in front. *)
From Stdlib Require Import Ascii.
From stdpp Require Export strings pretty gmap prelude.
From stdpp Require Import options.

(** Errors: [Result<T, E>]. *)
Inductive result (E A : Type) : Type :=
| Ok (a : A)
| Err (e : E).
Arguments Ok {E A} a.
Arguments Err {E A} e.

#[export] Instance result_ret E : MRet (result E) := λ A a, Ok a.
#[export] Instance result_bind E : MBind (result E) := λ A B f r,
  match r with Ok a => f a | Err e => Err e end.
#[export] Instance result_fmap E : FMap (result E) := λ A B f r,
  match r with Ok a => Ok (f a) | Err e => Err e end.

#[export] Instance result_eq_dec E A `{EqDecision E, EqDecision A} :
  EqDecision (result E A).
Proof. solve_decision. Defined.

(** [map_err] and [ok_or] of the Rust standard library. *)
Definition map_err {E F A} (f : E → F) (r : result E A) : result F A :=
  match r with Ok a => Ok a | Err e => Err (f e) end.
Definition ok_or {E A} (e : E) (o : option A) : result E A :=
  match o with Some a => Ok a | None => Err e end.
Definition is_ok {E A} (r : result E A) : bool :=
  match r with Ok _ => true | Err _ => false end.

(** ** Machine integers

    [u64] and [usize] (64-bit targets) are [N]; [N.sub] is exactly
    [saturating_sub].  The binaries are built with [--release], where [+]
    wraps around. *)
Definition u64_modulus : N := 2 ^ 64.
Definition u64_max : N := u64_modulus - 1.
Definition wadd (a b : N) : N := (a + b) `mod` u64_modulus.
Definition div_ceil (a b : N) : N := (a + b - 1) `div` b.
Definition nlen {A} (l : list A) : N := N.of_nat (length l).

Lemma wadd_small a b : (a + b < u64_modulus)%N → wadd a b = (a + b)%N.
Proof. apply N.mod_small. Qed.

Lemma wadd_bound a b : (wadd a b < u64_modulus)%N.
Proof. unfold wadd. apply N.mod_lt. done. Qed.

Lemma wadd_le a b : (wadd a b ≤ a + b)%N.
Proof. unfold wadd. apply N.Div0.mod_le. Qed.

(** ** Lists *)
Lemma length_omap_le {A B} (f : A → option B) (l : list A) :
  length (omap f l) ≤ length l.
Proof.
  induction l as [|x l IH]; [done|]. cbn. destruct (f x); simpl; lia.
Qed.

Definition nsum (l : list N) : N := foldr N.add 0%N l.

Lemma nsum_cons x l : nsum (x :: l) = (x + nsum l)%N.
Proof. done. Qed.

Lemma nsum_app l k : nsum (l ++ k) = (nsum l + nsum k)%N.
Proof.
  induction l as [|x l IH]; [done|]. rewrite <-app_comm_cons, !nsum_cons, IH. lia.
Qed.

Lemma nsum_mono {A} (f g : A → N) (l : list A) :
  (∀ x, (f x ≤ g x)%N) → (nsum (f <$> l) ≤ nsum (g <$> l))%N.
Proof.
  intros H. induction l as [|x l IH]; [done|].
  rewrite !fmap_cons, !nsum_cons. specialize (H x). lia.
Qed.

Lemma nsum_drop {A} (f : A → N) k (l : list A) :
  (nsum (f <$> drop k l) ≤ nsum (f <$> l))%N.
Proof.
  rewrite <-(take_drop k l) at 2. rewrite fmap_app, nsum_app. lia.
Qed.

(** ** Sums over finite maps *)
Definition map_sum {A} (f : A → N) (m : gmap string A) : N :=
  map_fold (λ _ x acc, (f x + acc)%N) 0%N m.

Lemma map_sum_empty {A} (f : A → N) : map_sum f ∅ = 0%N.
Proof. apply map_fold_empty. Qed.

Lemma map_sum_insert {A} (f : A → N) m k x :
  m !! k = None → map_sum f (<[k:=x]> m) = (f x + map_sum f m)%N.
Proof. intros Hk. unfold map_sum. rewrite map_fold_insert_L; [done|lia|done]. Qed.

Lemma map_sum_delete {A} (f : A → N) m k x :
  m !! k = Some x → map_sum f m = (f x + map_sum f (delete k m))%N.
Proof. intros Hk. unfold map_sum. rewrite map_fold_delete_L with (i:=k) (x:=x); [done|lia|done]. Qed.

(** The same with integers. *)
Definition map_zsum {A} (f : A → Z) (m : gmap string A) : Z :=
  map_fold (λ _ x acc, (f x + acc)%Z) 0%Z m.

Lemma map_zsum_empty {A} (f : A → Z) : map_zsum f ∅ = 0%Z.
Proof. apply map_fold_empty. Qed.

Lemma map_zsum_insert {A} (f : A → Z) m k x :
  m !! k = None → map_zsum f (<[k:=x]> m) = (f x + map_zsum f m)%Z.
Proof. intros Hk. unfold map_zsum. rewrite map_fold_insert_L; [done|lia|done]. Qed.

Lemma map_zsum_delete {A} (f : A → Z) m k x :
  m !! k = Some x → map_zsum f (delete k m) = (map_zsum f m - f x)%Z.
Proof.
  intros Hk. rewrite <-(insert_delete_id m k x Hk) at 2.
  rewrite map_zsum_insert by apply lookup_delete_eq. lia.
Qed.

Lemma map_zsum_update {A} (f : A → Z) m k x y :
  m !! k = Some x → map_zsum f (<[k:=y]> m) = (map_zsum f m - f x + f y)%Z.
Proof.
  intros Hk. rewrite <-insert_delete_eq.
  rewrite map_zsum_insert by apply lookup_delete_eq.
  rewrite (map_zsum_delete _ _ _ _ Hk). lia.
Qed.

Lemma map_zsum_nonneg {A} (f : A → Z) m :
  map_Forall (λ _ x, (0 ≤ f x)%Z) m → (0 ≤ map_zsum f m)%Z.
Proof.
  induction m as [|k x m Hk IH] using map_ind; [by rewrite map_zsum_empty|].
  rewrite map_zsum_insert by done. intros [Hx Hm]%map_Forall_insert; [|done].
  specialize (IH Hm). lia.
Qed.

Lemma map_zsum_ge {A} (f : A → Z) m k x :
  map_Forall (λ _ x, (0 ≤ f x)%Z) m → m !! k = Some x → (f x ≤ map_zsum f m)%Z.
Proof.
  intros Hm Hk. pose proof (map_zsum_delete f m k x Hk) as Hd.
  assert (0 ≤ map_zsum f (delete k m))%Z; [|lia].
  by apply map_zsum_nonneg, map_Forall_delete.
Qed.

Lemma map_zsum_imap {A} (f : A → Z) (g : string → A → A) m :
  (∀ k x, f (g k x) = f x) → map_zsum f (map_imap (λ k x, Some (g k x)) m) = map_zsum f m.
Proof.
  intros Hg. induction m as [|k x m Hk IH] using map_ind; [done|].
  rewrite map_imap_insert_Some with (y := g k x) by done.
  rewrite !map_zsum_insert; [by rewrite Hg, IH|done|].
  by rewrite map_lookup_imap, Hk.
Qed.

(** ** Automation *)
Create HintDb idp.
Create Rewrite HintDb idp.
#[export] Hint Resolve wadd_bound wadd_le : idp.

(** Split every boolean test of the goal or of a hypothesis. *)
Ltac split_if :=
  repeat (case_match || case_decide); simplify_eq/=.

(** Normalise boolean comparisons on [N] to propositions. *)
Ltac bool_to_prop :=
  repeat match goal with
  | H : N.leb _ _ = true |- _ => apply N.leb_le in H
  | H : N.leb _ _ = false |- _ => apply N.leb_gt in H
  | H : N.ltb _ _ = true |- _ => apply N.ltb_lt in H
  | H : N.ltb _ _ = false |- _ => apply N.ltb_ge in H
  | H : N.eqb _ _ = true |- _ => apply N.eqb_eq in H
  | H : N.eqb _ _ = false |- _ => apply N.eqb_neq in H
  | H : Z.leb _ _ = true |- _ => apply Z.leb_le in H
  | H : Z.leb _ _ = false |- _ => apply Z.leb_gt in H
  | H : Z.ltb _ _ = true |- _ => apply Z.ltb_lt in H
  | H : Z.ltb _ _ = false |- _ => apply Z.ltb_ge in H
  | H : andb _ _ = true |- _ => apply andb_true_iff in H as [??]
  | H : andb _ _ = false |- _ => apply andb_false_iff in H
  | H : orb _ _ = false |- _ => apply orb_false_iff in H as [??]
  | H : negb _ = true |- _ => apply negb_true_iff in H
  | H : negb _ = false |- _ => apply negb_false_iff in H
  end.
