(* ===== verification/Text.v ===== *)
(** * Text: the Rust standard library's strings and integer parsing

    A Rust [String] or [&str] is the Rocq [string] of its UTF-8 bytes, a
    [Vec<u8>] or [Bytes] is the [string] of its bytes.  This file holds the
    functions of [std] that the crates call on them: UTF-8 validation and
    decoding ([String::from_utf8], [from_utf8_lossy], [chars]),
    [split_whitespace], [trim], [trim_end_matches], [strip_prefix],
    [split_once], [find], [str::parse::<u64>], and decimal formatting
    ([format!("{}")], stdpp's [pretty]). *)
From Stdlib Require Import Ascii.
From stdpp Require Import options.
From S2P Require Import Prelude.

Abbreviation bytes := string.

Definition byte_of (c : ascii) : N := N_of_ascii c.

(** ** UTF-8 (Unicode Table 3-7, well-formed byte sequences) *)
Inductive utf8_item : Type :=
| Char (enc : string) (cp : N)
| Malformed.

Definition in_range (lo hi b : N) : bool := (lo <=? b)%N && (b <=? hi)%N.
Definition is_cont (b : N) : bool := in_range 128 191 b.

(** Lead byte: number of continuation bytes, range of the first of them. *)
Definition lead (b : N) : option (nat * N * N) :=
  if in_range 194 223 b then Some (1%nat, 128%N, 191%N)
  else if (b =? 224)%N then Some (2%nat, 160%N, 191%N)
  else if (b =? 237)%N then Some (2%nat, 128%N, 159%N)
  else if in_range 225 239 b then Some (2%nat, 128%N, 191%N)
  else if (b =? 240)%N then Some (3%nat, 144%N, 191%N)
  else if (b =? 244)%N then Some (3%nat, 128%N, 143%N)
  else if in_range 241 243 b then Some (3%nat, 128%N, 191%N)
  else None.

(** Decode left to right; an ill-formed sequence is cut at its maximal
    subpart, as [from_utf8_lossy] does. *)
Fixpoint scan (s : string) : list utf8_item :=
  match s with
  | EmptyString => []
  | String c0 s1 =>
    let b0 := byte_of c0 in
    if (b0 <? 128)%N then Char (String c0 "") b0 :: scan s1 else
    match lead b0 with
    | None => Malformed :: scan s1
    | Some (n, lo, hi) =>
      match s1 with
      | EmptyString => [Malformed]
      | String c1 s2 =>
        let b1 := byte_of c1 in
        if in_range lo hi b1 then
          if (n =? 1)%nat
          then Char (String c0 (String c1 ""))
                    ((b0 - 192) * 64 + (b1 - 128))%N :: scan s2
          else
          match s2 with
          | EmptyString => [Malformed]
          | String c2 s3 =>
            let b2 := byte_of c2 in
            if is_cont b2 then
              if (n =? 2)%nat
              then Char (String c0 (String c1 (String c2 "")))
                        ((b0 - 224) * 4096 + (b1 - 128) * 64 + (b2 - 128))%N
                   :: scan s3
              else
              match s3 with
              | EmptyString => [Malformed]
              | String c3 s4 =>
                let b3 := byte_of c3 in
                if is_cont b3
                then Char (String c0 (String c1 (String c2 (String c3 ""))))
                          ((b0 - 240) * 262144 + (b1 - 128) * 4096
                           + (b2 - 128) * 64 + (b3 - 128))%N
                     :: scan s4
                else Malformed :: scan s3
              end
            else Malformed :: scan s2
          end
        else Malformed :: scan s1
      end
    end
  end.

Definition is_char (i : utf8_item) : bool :=
  match i with Char _ _ => true | Malformed => false end.
Definition valid_utf8 (s : string) : bool := forallb is_char (scan s).

Definition replacement : string :=
  String (ascii_of_N 239) (String (ascii_of_N 191) (String (ascii_of_N 189) "")).

Definition item_text (i : utf8_item) : string :=
  match i with Char e _ => e | Malformed => replacement end.

(** [String::from_utf8_lossy]. *)
Definition from_utf8_lossy (b : bytes) : string :=
  String.concat "" (item_text <$> scan b).

(** [str::chars]; each character is kept with its encoding. *)
Definition chars (s : string) : list (string * N) :=
  omap (λ i, match i with Char e cp => Some (e, cp) | Malformed => None end)
       (scan s).

(** [Iterator::collect::<String>] on characters. *)
Definition collect_chars (cs : list (string * N)) : string :=
  String.concat "" (cs.*1).

(** [char::is_whitespace]: Unicode [White_Space]. *)
Definition is_whitespace (cp : N) : bool :=
  in_range 9 13 cp || (cp =? 32)%N || (cp =? 133)%N || (cp =? 160)%N
  || (cp =? 5760)%N || in_range 8192 8202 cp || (cp =? 8232)%N
  || (cp =? 8233)%N || (cp =? 8239)%N || (cp =? 8287)%N || (cp =? 12288)%N.

(** ** Words, trimming, prefixes *)
Fixpoint words_go (cs : list (string * N)) (cur : string) : list string :=
  match cs with
  | [] => if decide (cur = "") then [] else [cur]
  | (e, cp) :: cs' =>
    if is_whitespace cp
    then if decide (cur = "") then words_go cs' "" else cur :: words_go cs' ""
    else words_go cs' (cur +:+ e)
  end.
Definition split_whitespace (s : string) : list string := words_go (chars s) "".

Fixpoint drop_white (cs : list (string * N)) : list (string * N) :=
  match cs with
  | (e, cp) :: cs' => if is_whitespace cp then drop_white cs' else cs
  | [] => []
  end.
Definition trim (s : string) : string :=
  collect_chars (reverse (drop_white (reverse (drop_white (chars s))))).

(** [trim_end_matches] with an ASCII character. *)
Fixpoint trim_end_char (c : ascii) (s : string) : string :=
  match s with
  | EmptyString => ""
  | String a s' =>
    let t := trim_end_char c s' in
    if decide (t = "") then if decide (a = c) then "" else String a "" else String a t
  end.

Fixpoint strip_prefix (p s : string) : option string :=
  match p, s with
  | EmptyString, _ => Some s
  | String a p', String b s' => if decide (a = b) then strip_prefix p' s' else None
  | String _ _, EmptyString => None
  end.

(** [split_once] with an ASCII character: the text before and after its
    first occurrence.  [buffer.find(c)] followed by [buffer[..i]] and
    [buffer.drain(..=i)] is the same split. *)
Fixpoint split_once (c : ascii) (s : string) : option (string * string) :=
  match s with
  | EmptyString => None
  | String a s' =>
    if decide (a = c) then Some ("", s')
    else '(l, r) ← split_once c s'; Some (String a l, r)
  end.

Definition starts_with (p s : string) : bool :=
  bool_decide (is_Some (strip_prefix p s)).

(** [str::contains]. *)
Fixpoint contains (p s : string) : bool :=
  starts_with p s ||
  match s with EmptyString => false | String _ s' => contains p s' end.

(** [str::split] with an ASCII character. *)
Fixpoint split_char (c : ascii) (s : string) : list string :=
  match s with
  | EmptyString => [""]
  | String a s' =>
    if decide (a = c) then "" :: split_char c s'
    else match split_char c s' with
         | w :: ws => String a w :: ws
         | [] => [String a ""]
         end
  end.

(** ** [str::parse::<u64>] *)
Definition digit (c : ascii) : option N :=
  let b := byte_of c in if in_range 48 57 b then Some (b - 48)%N else None.
Fixpoint parse_digits (s : string) (acc : N) : option N :=
  match s with
  | EmptyString => Some acc
  | String c s' =>
    d ← digit c;
    let acc' := (acc * 10 + d)%N in
    if (acc' <? u64_modulus)%N then parse_digits s' acc' else None
  end.
(** A leading [+] is accepted, the empty digit string is not. *)
Definition parse_u64 (s : string) : option N :=
  match s with
  | EmptyString => None
  | String "+" EmptyString => None
  | String "+" s' => parse_digits s' 0
  | _ => parse_digits s 0
  end.

(** ** Lemmas *)
Lemma append_cons c (a b : string) : String c a +:+ b = String c (a +:+ b).
Proof. done. Qed.

Lemma append_nil_l (a : string) : "" +:+ a = a.
Proof. done. Qed.

Lemma append_assoc (a b c : string) : (a +:+ b) +:+ c = a +:+ b +:+ c.
Proof. induction a as [|x a IH]; [done|]. by rewrite !append_cons, IH. Qed.

Lemma append_nil_r (a : string) : a +:+ "" = a.
Proof. induction a as [|x a IH]; [done|]. by rewrite append_cons, IH. Qed.

Lemma length_append (a b : string) :
  String.length (a +:+ b) = String.length a + String.length b.
Proof. induction a as [|x a IH]; [done|]. rewrite append_cons. simpl. by rewrite IH. Qed.

#[export] Instance append_inj (a : string) : Inj (=) (=) (String.append a).
Proof.
  induction a as [|c a IH]; intros x y; [done|].
  rewrite !append_cons. intros [= H]. by apply IH.
Qed.

Lemma concat_nil_cons (s : string) (l : list string) :
  String.concat "" (s :: l) = s +:+ String.concat "" l.
Proof. destruct l; simpl; [by rewrite append_nil_r | done]. Qed.

Lemma concat_nil_app (l k : list string) :
  String.concat "" (l ++ k) = String.concat "" l +:+ String.concat "" k.
Proof.
  induction l as [|s l IH]; [done|].
  rewrite <-app_comm_cons, !concat_nil_cons, IH. by rewrite append_assoc.
Qed.
#[export] Hint Rewrite append_cons append_nil_l append_assoc append_nil_r length_append concat_nil_cons : idp.

(** Induction on the length of a string: [scan] consumes up to four bytes. *)
Lemma string_len_ind (P : string → Prop) :
  (∀ s, (∀ t, String.length t < String.length s → P t) → P s) → ∀ s, P s.
Proof.
  intros H s. remember (String.length s) as n eqn:Hn. revert s Hn.
  induction (lt_wf n) as [n _ IH]. intros s ->. apply H. intros t Ht.
  by apply (IH (String.length t)).
Qed.

(** One step of the decoder: either the string starts with a well-formed
    character, whatever follows it, or with an ill-formed sequence. *)
Lemma scan_step c s :
  (∃ e cp rest, String c s = e +:+ rest
     ∧ String.length rest < String.length (String c s)
     ∧ ∀ t, scan (e +:+ t) = Char e cp :: scan t)
  ∨ (∃ rest, scan (String c s) = Malformed :: scan rest
       ∧ String.length rest ≤ String.length s).
Proof.
  assert (∀ e cp rest, String c s = e +:+ rest →
    String.length rest < String.length (String c s) →
    (∀ t, scan (e +:+ t) = Char e cp :: scan t) →
    (∃ e cp rest, String c s = e +:+ rest
     ∧ String.length rest < String.length (String c s)
     ∧ ∀ t, scan (e +:+ t) = Char e cp :: scan t)
    ∨ (∃ rest, scan (String c s) = Malformed :: scan rest
       ∧ String.length rest ≤ String.length s)) as good by eauto 10.
  destruct (byte_of c <? 128)%N eqn:E0.
  { refine (good (String c "") _ s eq_refl _ _); [simpl; lia|].
    intros t. rewrite append_cons. cbn [scan]. by rewrite E0. }
  destruct (lead (byte_of c)) as [[[n lo] hi]|] eqn:El.
  2:{ right. exists s. cbn [scan]. rewrite E0, El. auto. }
  destruct s as [|c1 s].
  { right. exists "". cbn [scan]. rewrite E0, El. auto. }
  destruct (in_range lo hi (byte_of c1)) eqn:E1.
  2:{ right. exists (String c1 s). cbn [scan]. rewrite E0, El, E1. auto. }
  destruct (n =? 1) eqn:En1.
  { refine (good (String c (String c1 "")) _ s eq_refl _ _); [simpl; lia|].
    intros t. rewrite !append_cons. cbn [scan]. by rewrite E0, El, E1, En1. }
  destruct s as [|c2 s].
  { right. exists "". cbn [scan]. rewrite E0, El, E1, En1. split; [done|simpl; lia]. }
  destruct (is_cont (byte_of c2)) eqn:E2.
  2:{ right. exists (String c2 s). cbn [scan]. rewrite E0, El, E1, En1, E2.
      split; [done|simpl; lia]. }
  destruct (n =? 2) eqn:En2.
  { refine (good (String c (String c1 (String c2 ""))) _ s eq_refl _ _); [simpl; lia|].
    intros t. rewrite !append_cons. cbn [scan]. by rewrite E0, El, E1, En1, E2, En2. }
  destruct s as [|c3 s].
  { right. exists "". cbn [scan]. rewrite E0, El, E1, En1, E2, En2.
    split; [done|simpl; lia]. }
  destruct (is_cont (byte_of c3)) eqn:E3.
  2:{ right. exists (String c3 s). cbn [scan]. rewrite E0, El, E1, En1, E2, En2, E3.
      split; [done|simpl; lia]. }
  refine (good (String c (String c1 (String c2 (String c3 "")))) _ s eq_refl _ _); [simpl; lia|].
  intros t. rewrite !append_cons. cbn [scan].
  by rewrite E0, El, E1, En1, E2, En2, E3.
Qed.

(** A well-formed string is empty or starts with a character. *)
Lemma valid_utf8_inv s :
  valid_utf8 s = true → s ≠ "" →
  ∃ e cp rest, s = e +:+ rest ∧ String.length rest < String.length s
    ∧ (∀ t, scan (e +:+ t) = Char e cp :: scan t)
    ∧ scan s = Char e cp :: scan rest ∧ valid_utf8 rest = true.
Proof.
  intros Hv Hne. destruct s as [|c s]; [done|].
  unfold valid_utf8 in *. destruct (scan_step c s) as [(e&cp&rest&Hs&Hlen&Hsc)|(rest&Hl&_)].
  - exists e, cp, rest. rewrite Hs, Hsc in *. eauto 10.
  - by rewrite Hl in Hv.
Qed.

(** Decoding is local: a well-formed prefix decodes on its own. *)
Lemma scan_app a b :
  valid_utf8 a = true → scan (a +:+ b) = scan a ++ scan b.
Proof.
  induction a as [a IH] using string_len_ind. intros Hv.
  destruct (decide (a = "")) as [->|Hne]; [done|].
  destruct (valid_utf8_inv a Hv Hne) as (e&cp&rest&Hs&Hlen&Hsc&->&Hr).
  rewrite Hs, append_assoc, Hsc. simpl. f_equal. auto.
Qed.

Lemma valid_utf8_app a b :
  valid_utf8 a = true → valid_utf8 (a +:+ b) = valid_utf8 b.
Proof.
  intros Ha. unfold valid_utf8 in *. rewrite scan_app by done.
  by rewrite forallb_app, Ha.
Qed.

(** The characters of a string spell the string. *)
Lemma scan_text s :
  valid_utf8 s = true → String.concat "" (item_text <$> scan s) = s.
Proof.
  induction s as [s IH] using string_len_ind. intros Hv.
  destruct (decide (s = "")) as [->|Hne]; [done|].
  destruct (valid_utf8_inv s Hv Hne) as (e&cp&rest&Hs&Hlen&_&->&Hr).
  rewrite fmap_cons, concat_nil_cons. simpl. by rewrite IH, <-Hs.
Qed.

Lemma from_utf8_lossy_valid s : valid_utf8 s = true → from_utf8_lossy s = s.
Proof. apply scan_text. Qed.

Lemma chars_items s :
  valid_utf8 s = true → (chars s).*1 = item_text <$> scan s.
Proof.
  unfold valid_utf8, chars. induction (scan s) as [|[e cp|] l IH]; simpl; [done| |done].
  intros H. f_equal. by apply IH.
Qed.

Lemma collect_chars_chars s : valid_utf8 s = true → collect_chars (chars s) = s.
Proof. intros H. unfold collect_chars. rewrite chars_items by done. by apply scan_text. Qed.

Lemma chars_app a b :
  valid_utf8 a = true → chars (a +:+ b) = chars a ++ chars b.
Proof. intros H. unfold chars. rewrite scan_app by done. apply omap_app. Qed.

(** ASCII text is well formed. *)
Definition is_ascii (c : ascii) : bool := (byte_of c <? 128)%N.
Fixpoint ascii_only (s : string) : bool :=
  match s with EmptyString => true | String c s' => is_ascii c && ascii_only s' end.

Lemma ascii_valid s : ascii_only s = true → valid_utf8 s = true.
Proof.
  unfold valid_utf8. induction s as [|c s IH]; [done|]. simpl.
  unfold is_ascii. intros [-> ?]%andb_true_iff. simpl. auto.
Qed.

(** ** A character cut in two

    What [from_utf8_lossy] makes of the two parts of a character: the first
    part is one ill-formed sequence, and so is every byte of the second. *)
Definition character (e : string) : Prop := ∃ cp, scan e = [Char e cp].

Fixpoint continuation (s : string) : bool :=
  match s with EmptyString => true | String c s' => is_cont (byte_of c) && continuation s' end.

(** One replacement character per byte. *)
Fixpoint replaced (s : string) : string :=
  match s with EmptyString => "" | String _ s' => replacement +:+ replaced s' end.

Lemma scan_continuation c s :
  is_cont (byte_of c) = true → scan (String c s) = Malformed :: scan s.
Proof. destruct c as [[] [] [] [] [] [] [] []]; intros Hc; done. Qed.

Lemma lead_continuation b n lo hi c :
  lead b = Some (n, lo, hi) → in_range lo hi c = true → is_cont c = true.
Proof.
  unfold is_cont, in_range. intros Hl [H1%N.leb_le H2%N.leb_le]%andb_true_iff.
  assert (128 ≤ lo ∧ hi ≤ 191)%N as [??].
  { unfold lead in Hl. repeat case_match; simplify_eq; lia. }
  apply andb_true_iff. rewrite !N.leb_le. lia.
Qed.

Lemma lossy_continuation s b :
  continuation s = true → from_utf8_lossy (s +:+ b) = replaced s +:+ from_utf8_lossy b.
Proof.
  induction s as [|c s IH]; [done|]. intros [Hc Hs]%andb_true_iff.
  rewrite append_cons. unfold from_utf8_lossy. rewrite scan_continuation by done.
  rewrite fmap_cons, concat_nil_cons. cbn [replaced item_text]. rewrite append_assoc.
  f_equal. by apply IH.
Qed.

Lemma cut_character h t :
  character (h +:+ t) → h ≠ "" → t ≠ "" → scan h = [Malformed] ∧ continuation t = true.
Proof.
  intros [cp Hs] Hh Ht. destruct h as [|c0 h]; [done|]. clear Hh.
  rewrite append_cons in Hs. cbn [scan] in *.
  destruct (byte_of c0 <? 128)%N.
  { simplify_eq. by destruct h, t. }
  destruct (lead (byte_of c0)) as [[[n lo] hi]|] eqn:El; [|done].
  pose proof (λ c, lead_continuation _ _ _ _ c El) as Hlead. clear El.
  destruct h as [|c1 h].
  - split; [done|]. rewrite append_nil_l in Hs. destruct t as [|c1 t]; [done|]. clear Ht.
    destruct (in_range lo hi (byte_of c1)) eqn:E1; [|done]. cbn [continuation].
    rewrite (Hlead _ E1). destruct (n =? 1); [by simplify_eq|].
    destruct t as [|c2 t]; [done|]. destruct (is_cont (byte_of c2)) eqn:E2; [|done].
    cbn [continuation]. rewrite E2. destruct (n =? 2); [by simplify_eq|].
    destruct t as [|c3 t]; [done|]. destruct (is_cont (byte_of c3)) eqn:E3; [|done].
    cbn [continuation]. rewrite E3. by simplify_eq.
  - rewrite append_cons in Hs. destruct (in_range lo hi (byte_of c1)) eqn:E1; [|done].
    destruct (n =? 1); [by simplify_eq; destruct h, t|]. destruct h as [|c2 h].
    + split; [done|]. rewrite append_nil_l in Hs. destruct t as [|c2 t]; [done|]. clear Ht.
      destruct (is_cont (byte_of c2)) eqn:E2; [|done]. cbn [continuation]. rewrite E2.
      destruct (n =? 2); [by simplify_eq|].
      destruct t as [|c3 t]; [done|]. destruct (is_cont (byte_of c3)) eqn:E3; [|done].
      cbn [continuation]. rewrite E3. by simplify_eq.
    + rewrite append_cons in Hs. destruct (is_cont (byte_of c2)) eqn:E2; [|done].
      destruct (n =? 2); [by simplify_eq; destruct h, t|]. destruct h as [|c3 h].
      * split; [done|]. rewrite append_nil_l in Hs. destruct t as [|c3 t]; [done|].
        destruct (is_cont (byte_of c3)) eqn:E3; [|done]. cbn [continuation]. rewrite E3.
        by simplify_eq.
      * rewrite append_cons in Hs. destruct (is_cont (byte_of c3)); [|done].
        by simplify_eq; destruct h, t.
Qed.

(** ** Decimal numbers: parsing inverts formatting *)
Lemma digit_pretty n : (n < 10)%N → digit (pretty_N_char n) = Some n.
Proof.
  intros H. assert (n = 0 ∨ n = 1 ∨ n = 2 ∨ n = 3 ∨ n = 4 ∨ n = 5 ∨ n = 6
    ∨ n = 7 ∨ n = 8 ∨ n = 9)%N as Hn by lia.
  by repeat destruct Hn as [->|Hn]; [..|rewrite Hn].
Qed.

Lemma parse_digits_pretty n s :
  (n < u64_modulus)%N → parse_digits (pretty_N_go n s) 0 = parse_digits s n.
Proof.
  revert s. induction (N.lt_wf_0 n) as [n _ IH]; intros s Hlt.
  destruct (decide (n = 0)%N) as [->|Hn]; [done|].
  rewrite pretty_N_go_step by lia.
  rewrite IH; [|apply N.div_lt; lia|].
  2:{ eapply N.le_lt_trans; [|done]. apply N.Div0.div_le_upper_bound. lia. }
  simpl. rewrite digit_pretty by (apply N.mod_lt; lia). simpl.
  pose proof (N.div_mod n 10 ltac:(done)) as Hdm.
  replace (n `div` 10 * 10 + n `mod` 10)%N with n by lia.
  by apply N.ltb_lt in Hlt as ->.
Qed.

Lemma pretty_N_go_head n s :
  (0 < n)%N → ∃ c s', pretty_N_go n s = String c s' ∧ is_Some (digit c).
Proof.
  revert s. induction (N.lt_wf_0 n) as [n _ IH]; intros s Hn.
  rewrite pretty_N_go_step by done.
  destruct (decide (n `div` 10 = 0)%N) as [Hz|Hz].
  - rewrite Hz, pretty_N_go_0. eexists _, _. split; [done|].
    rewrite digit_pretty by (apply N.mod_lt; lia). eauto.
  - apply IH; [apply N.div_lt; lia | by apply N.neq_0_lt_0].
Qed.

Lemma parse_u64_digit_head c s :
  is_Some (digit c) → parse_u64 (String c s) = parse_digits (String c s) 0.
Proof.
  intros [d Hd]. unfold parse_u64.
  destruct c as [[] [] [] [] [] [] [] []]; try done; by destruct s.
Qed.

(** [format!("{n}").parse::<u64>()] returns [n]. *)
Lemma parse_u64_pretty (n : N) :
  (n < u64_modulus)%N → parse_u64 (pretty n) = Some n.
Proof.
  intros Hn. unfold pretty, pretty_N. case_decide as H0; [by subst|].
  destruct (pretty_N_go_head n "" ltac:(lia)) as (c & s' & Heq & Hd).
  rewrite Heq, parse_u64_digit_head by done.
  by rewrite <-Heq, parse_digits_pretty.
Qed.

(** ** Splitting *)
Fixpoint char_in (c : ascii) (s : string) : bool :=
  match s with
  | EmptyString => false
  | String a s' => bool_decide (a = c) || char_in c s'
  end.

Lemma split_once_spec c s l r :
  split_once c s = Some (l, r) → s = l +:+ String c r ∧ char_in c l = false.
Proof.
  revert l r. induction s as [|a s IH]; simpl; [done|]. intros l r H.
  case_decide as Hac; simplify_eq/=; [done|].
  destruct (split_once c s) as [[l' r']|] eqn:E; simplify_eq/=.
  destruct (IH _ _ eq_refl) as [-> Hl]. split; [done|].
  by rewrite bool_decide_false, Hl.
Qed.

Lemma split_once_app c l r :
  char_in c l = false → split_once c (l +:+ String c r) = Some (l, r).
Proof.
  induction l as [|a l IH]; simpl; intros H; [by rewrite decide_True|].
  apply orb_false_iff in H as [Ha Hl]. apply bool_decide_eq_false in Ha.
  rewrite decide_False by done. by rewrite IH.
Qed.

Lemma split_once_none c s : split_once c s = None ↔ char_in c s = false.
Proof.
  induction s as [|a s IH]; simpl; [done|].
  case_decide as Hac.
  - split; [done|]. by rewrite bool_decide_true.
  - rewrite bool_decide_false by done. simpl.
    rewrite <-IH. by destruct (split_once c s) as [[??]|].
Qed.

Lemma split_once_length c s l r :
  split_once c s = Some (l, r) → String.length r < String.length s.
Proof. intros [-> _]%split_once_spec. rewrite length_append. simpl. lia. Qed.

Lemma char_in_app c a b : char_in c (a +:+ b) = char_in c a || char_in c b.
Proof. induction a as [|x a IH]; simpl; [done|]. by rewrite IH, orb_assoc. Qed.

Lemma strip_prefix_app p r : strip_prefix p (p +:+ r) = Some r.
Proof.
  induction p as [|a p IH]; [done|]. rewrite append_cons. simpl.
  by rewrite decide_True.
Qed.

Lemma strip_prefix_spec p s r : strip_prefix p s = Some r ↔ s = p +:+ r.
Proof.
  split; [|intros ->; apply strip_prefix_app].
  revert s. induction p as [|a p IH]; intros s; simpl.
  { by intros [= ->]. }
  destruct s as [|b s]; [done|]. case_decide as Hab; [|done].
  intros ->%IH. by subst.
Qed.

(** [split] cuts at the first occurrence and goes on. *)
Lemma split_char_ne c s : split_char c s ≠ [].
Proof. destruct s as [|a s]; simpl; [done|]. case_decide; [done|]. by case_match. Qed.

Lemma split_char_once c s :
  split_char c s =
  match split_once c s with Some (l, r) => l :: split_char c r | None => [s] end.
Proof.
  induction s as [|a s IH]; simpl; [done|]. case_decide; [done|]. rewrite IH.
  by destruct (split_once c s) as [[l r]|].
Qed.

(** ** Sizes *)
Lemma scan_length s : length (scan s) ≤ String.length s.
Proof.
  induction s as [s IH] using string_len_ind. destruct s as [|c s]; [done|].
  destruct (scan_step c s) as [(e&cp&rest&Hs&Hlen&Hsc)|(rest&Hl&Hlen)].
  - specialize (Hsc rest). rewrite <-Hs in Hsc. rewrite Hsc. simpl in *.
    pose proof (IH rest Hlen). lia.
  - rewrite Hl. simpl. pose proof (IH rest). simpl in *. lia.
Qed.

Lemma chars_length s : length (chars s) ≤ String.length s.
Proof.
  etrans; [|apply scan_length]. apply length_omap_le.
Qed.

Lemma words_go_length cs cur :
  length (words_go cs cur) ≤ length cs + (if decide (cur = "") then 0 else 1).
Proof.
  revert cur. induction cs as [|[e cp] cs IH]; intros cur; simpl.
  { by case_decide. }
  destruct (is_whitespace cp).
  - pose proof (IH "") as H. rewrite decide_True in H by done.
    case_decide; simpl; lia.
  - etrans; [apply IH|]. destruct (decide (cur = "")), (decide (cur +:+ e = "")); lia.
Qed.

(** A text has at most as many words as characters. *)
Lemma words_le_chars s : length (split_whitespace s) ≤ length (chars s).
Proof. etrans; [apply words_go_length|]. rewrite decide_True by done. lia. Qed.
