(* ===== verification/TokenBudget.v ===== *)
(** * Token budgets: crates/token-budget-engine

    [src/lib.rs]: the prompt and decision types, the [TokenCounter] trait
    (a type class), [ApproxTokenCounter] (its instance), [decide_budget] and
    the three policies; [src/main.rs]: the policy argument and the prompt
    parsing of the [budget] command.  [usize] is 64 bits wide and its
    unchecked [+] wraps around, as in the release build. *)
From stdpp Require Import options.
From S2P Require Import Prelude Text.

(** ** Data *)
Record ChatMessage := { role : string; content : string }.

Inductive Prompt : Type :=
| PText (text : string)
| PChat (messages : list ChatMessage).

Record ModelBudget := {
  mb_model : string;
  context_limit : N;
  default_max_tokens : N;
  max_output_tokens : N;
}.

Inductive BudgetPolicy : Type := StrictReject | TruncateOldest | ReserveOutputFirst.

Record BudgetRequest := {
  br_prompt : Prompt;
  br_requested_max_tokens : option N;
  br_policy : BudgetPolicy;
  br_model : ModelBudget;
}.

Record BudgetDecision := {
  admitted : bool;
  reason : string;
  bd_model : string;
  prompt_tokens : N;
  requested_max_tokens : N;
  admitted_max_tokens : N;
  available_generation_tokens : N;
  truncated_messages : N;
  bd_prompt : Prompt;
}.

Inductive BudgetError : Type := InvalidContextLimit | InvalidMaxOutputTokens.

(** The [#[error]] attributes. *)
Definition budget_error_to_string (e : BudgetError) : string :=
  match e with
  | InvalidContextLimit => "model context limit must be greater than zero"
  | InvalidMaxOutputTokens => "model max output tokens must be greater than zero"
  end.

#[export] Instance ChatMessage_eq_dec : EqDecision ChatMessage.
Proof. solve_decision. Defined.
#[export] Instance Prompt_eq_dec : EqDecision Prompt.
Proof. solve_decision. Defined.

Definition local_vllm (model : string) : ModelBudget :=
  {| mb_model := model; context_limit := 4096; default_max_tokens := 256;
     max_output_tokens := 1024 |}.

(** ** The [TokenCounter] trait and its approximate implementation *)
Class TokenCounter (C : Type) := {
  count_prompt : C → Prompt → N;
  count_text : C → string → N;
}.

Record ApproxTokenCounter := MkApproxTokenCounter {}.

Definition approx_count_text (text : string) : N :=
  let words := nlen (split_whitespace text) in
  let n_chars := nlen (chars text) in
  N.max (N.max words (div_ceil n_chars 4)) 1.

Definition approx_count_message (m : ChatMessage) : N :=
  wadd (wadd (approx_count_text (role m)) (approx_count_text (content m))) 4.

(** [Iterator::sum]. *)
Definition wsum (l : list N) : N := foldl wadd 0%N l.

Definition approx_count_prompt (p : Prompt) : N :=
  match p with
  | PText text => approx_count_text text
  | PChat messages => wadd (wsum (approx_count_message <$> messages)) 2
  end.

#[export] Instance approx_counter : TokenCounter ApproxTokenCounter := {|
  count_prompt _ := approx_count_prompt;
  count_text _ := approx_count_text;
|}.

(** ** The three policies *)
Section decide.
Context `{TokenCounter C} (counter : C).

Definition strict_decision (request : BudgetRequest) (requested : N)
    : result BudgetError BudgetDecision :=
  let limit := context_limit (br_model request) in
  let tokens := count_prompt counter (br_prompt request) in
  let available := (limit - tokens)%N in
  let ok := (wadd tokens requested <=? limit)%N in
  let why := if ok then "admitted"
    else "prompt_tokens (" +:+ pretty tokens +:+ ") + max_tokens ("
         +:+ pretty requested +:+ ") exceeds context_limit ("
         +:+ pretty limit +:+ ")" in
  Ok {| admitted := ok; reason := why; bd_model := mb_model (br_model request);
        prompt_tokens := tokens; requested_max_tokens := requested;
        admitted_max_tokens := if ok then requested else 0%N;
        available_generation_tokens := available; truncated_messages := 0;
        bd_prompt := br_prompt request |}.

Definition reserve_output_first (request : BudgetRequest) (requested : N)
    : result BudgetError BudgetDecision :=
  let limit := context_limit (br_model request) in
  let tokens := count_prompt counter (br_prompt request) in
  let prompt_budget := (limit - requested)%N in
  let ok := (tokens <=? prompt_budget)%N in
  let why := if ok then "admitted with requested output reserved"
    else "prompt_tokens (" +:+ pretty tokens
         +:+ ") exceeds prompt budget after reserving output ("
         +:+ pretty prompt_budget +:+ ")" in
  Ok {| admitted := ok; reason := why; bd_model := mb_model (br_model request);
        prompt_tokens := tokens; requested_max_tokens := requested;
        admitted_max_tokens := if ok then requested else 0%N;
        available_generation_tokens := (limit - tokens)%N; truncated_messages := 0;
        bd_prompt := br_prompt request |}.

(** The [while] loop: drop the oldest message while the rest does not fit. *)
Fixpoint truncate_loop (limit requested : N) (messages : list ChatMessage)
    (truncated : N) : list ChatMessage * N :=
  match messages with
  | [] => ([], truncated)
  | _ :: rest =>
    if (limit <? wadd (count_prompt counter (PChat messages)) requested)%N
    then truncate_loop limit requested rest (truncated + 1)%N
    else (messages, truncated)
  end.

Definition truncate_oldest (request : BudgetRequest) (requested : N)
    : result BudgetError BudgetDecision :=
  match br_prompt request with
  | PText _ => strict_decision request requested
  | PChat messages0 =>
    let limit := context_limit (br_model request) in
    let '(messages, truncated) := truncate_loop limit requested messages0 0 in
    let prompt := PChat messages in
    let tokens := count_prompt counter prompt in
    let ok := (wadd tokens requested <=? limit)%N in
    let why := if ok && (0 <? truncated)%N
      then "admitted after truncating " +:+ pretty truncated +:+ " oldest messages"
      else if ok then "admitted"
      else "request still exceeds context limit after truncating all messages" in
    Ok {| admitted := ok; reason := why; bd_model := mb_model (br_model request);
          prompt_tokens := tokens; requested_max_tokens := requested;
          admitted_max_tokens := if ok then requested else 0%N;
          available_generation_tokens := (limit - tokens)%N;
          truncated_messages := truncated; bd_prompt := prompt |}
  end.

(** The output tokens a request asks for, capped by the model. *)
Definition requested_tokens (request : BudgetRequest) : N :=
  N.min (default (default_max_tokens (br_model request))
                 (br_requested_max_tokens request))
        (max_output_tokens (br_model request)).

Definition decide_budget (request : BudgetRequest)
    : result BudgetError BudgetDecision :=
  if (context_limit (br_model request) =? 0)%N then Err InvalidContextLimit else
  if (max_output_tokens (br_model request) =? 0)%N then Err InvalidMaxOutputTokens else
  let requested := requested_tokens request in
  match br_policy request with
  | StrictReject => strict_decision request requested
  | ReserveOutputFirst => reserve_output_first request requested
  | TruncateOldest => truncate_oldest request requested
  end.

End decide.

(** ** The [budget] command (src/main.rs) *)
Inductive CliPolicy : Type := CliStrictReject | CliTruncateOldest | CliReserveOutputFirst.

Definition policy_from_cli (value : CliPolicy) : BudgetPolicy :=
  match value with
  | CliStrictReject => StrictReject
  | CliTruncateOldest => TruncateOldest
  | CliReserveOutputFirst => ReserveOutputFirst
  end.

(** [serde_json::from_str::<Vec<ChatMessage>>] is a parameter. *)
Definition parse_prompt (from_str : string → result string (list ChatMessage))
    (raw : string) : Prompt :=
  match from_str raw with
  | Ok messages => PChat messages
  | Err _ => PText raw
  end.

Record Cli := {
  cli_model : string;
  cli_context_limit : N;
  cli_default_max_tokens : N;
  cli_model_max_output_tokens : N;
  cli_max_tokens : option N;
  cli_policy : CliPolicy;
}.

(** [main], from the contents of the input file to the printed decision. *)
Definition budget_main (from_str : string → result string (list ChatMessage))
    (cli : Cli) (raw : string) : result BudgetError BudgetDecision :=
  decide_budget (MkApproxTokenCounter)
    {| br_prompt := parse_prompt from_str raw;
       br_requested_max_tokens := cli_max_tokens cli;
       br_policy := policy_from_cli (cli_policy cli);
       br_model := {| mb_model := cli_model cli;
                      context_limit := cli_context_limit cli;
                      default_max_tokens := cli_default_max_tokens cli;
                      max_output_tokens := cli_model_max_output_tokens cli |} |}.

(** ** Counting: bounds, no overflow *)

(** The size of a prompt in bytes, with the per-message overhead of the
    approximate counter. *)
Definition message_weight (m : ChatMessage) : N :=
  (N.of_nat (String.length (role m)) + N.of_nat (String.length (content m)) + 6)%N.
Definition prompt_weight (p : Prompt) : N :=
  match p with
  | PText text => (N.of_nat (String.length text) + 1)%N
  | PChat messages => (nsum (message_weight <$> messages) + 2)%N
  end.

Lemma approx_count_text_bounds s :
  (1 ≤ approx_count_text s ≤ N.of_nat (String.length s) + 1)%N.
Proof.
  unfold approx_count_text, nlen, div_ceil.
  pose proof (words_le_chars s). pose proof (chars_length s).
  pose proof (N.Div0.div_le_upper_bound
    (N.of_nat (length (chars s)) + 4 - 1) 4 (N.of_nat (length (chars s)) + 1)).
  lia.
Qed.

Lemma approx_count_message_le m : (approx_count_message m ≤ message_weight m)%N.
Proof.
  unfold approx_count_message, message_weight.
  pose proof (approx_count_text_bounds (role m)).
  pose proof (approx_count_text_bounds (content m)).
  pose proof (wadd_le (wadd (approx_count_text (role m)) (approx_count_text (content m))) 4).
  pose proof (wadd_le (approx_count_text (role m)) (approx_count_text (content m))).
  lia.
Qed.

Lemma wsum_le l : (wsum l ≤ nsum l)%N.
Proof.
  unfold wsum. enough (∀ a, (foldl wadd a l ≤ a + nsum l)%N) as H by apply (H 0%N).
  induction l as [|x l IH]; intros a; cbn [foldl]; [unfold nsum; simpl; lia|].
  rewrite nsum_cons. specialize (IH (wadd a x)). pose proof (wadd_le a x). lia.
Qed.

Lemma approx_count_messages_le ms :
  (wsum (approx_count_message <$> ms) ≤ nsum (message_weight <$> ms))%N.
Proof. etrans; [apply wsum_le|]. apply nsum_mono, approx_count_message_le. Qed.

Lemma approx_count_prompt_le p : (approx_count_prompt p ≤ prompt_weight p)%N.
Proof.
  destruct p as [t|ms]; unfold approx_count_prompt, prompt_weight.
  { apply approx_count_text_bounds. }
  etrans; [apply wadd_le|]. apply N.add_le_mono_r, approx_count_messages_le.
Qed.

Lemma approx_count_prompt_pos p :
  (prompt_weight p < u64_modulus)%N → (0 < approx_count_prompt p)%N.
Proof.
  destruct p as [t|ms]; unfold approx_count_prompt, prompt_weight; intros Hw.
  { pose proof (approx_count_text_bounds t). lia. }
  pose proof (approx_count_messages_le ms). rewrite wadd_small; lia.
Qed.

Lemma prompt_weight_drop k ms :
  (prompt_weight (PChat (drop k ms)) ≤ prompt_weight (PChat ms))%N.
Proof. unfold prompt_weight. apply N.add_le_mono_r, nsum_drop. Qed.

#[export] Hint Resolve approx_count_message_le approx_count_prompt_le
  approx_count_prompt_pos prompt_weight_drop : idp.

(** ** The truncation loop *)
Section loop.
Context `{TokenCounter C} (counter : C) (limit requested : N).

Definition fits (messages : list ChatMessage) : Prop :=
  (wadd (count_prompt counter (PChat messages)) requested ≤ limit)%N.

#[export] Instance fits_dec ms : Decision (fits ms).
Proof. unfold fits. apply _. Defined.

(** The loop drops the shortest prefix after which the rest fits, or
    everything; it counts what it drops. *)
Lemma truncate_loop_spec messages t :
  ∃ k, truncate_loop counter limit requested messages t
       = (drop k messages, (t + N.of_nat k)%N)
     ∧ k ≤ length messages
     ∧ (∀ j, j < k → ¬ fits (drop j messages))
     ∧ (fits (drop k messages) ∨ k = length messages).
Proof.
  revert t. induction messages as [|m ms IH]; intros t.
  { exists 0. rewrite N.add_0_r. split_and!; [done..| |by right]. lia. }
  cbn [truncate_loop]. case_match eqn:E; bool_to_prop.
  - destruct (IH (t + 1)%N) as (k & -> & Hk & Hno & Hend).
    exists (S k). split_and!; [f_equal; lia|simpl; lia| |].
    + intros [|j] Hj; [unfold fits; simpl; lia|]. apply Hno. lia.
    + destruct Hend as [?| ->]; simpl; auto.
  - exists 0. split_and!; [f_equal; lia|lia|lia|]. by left.
Qed.

End loop.

(** ** Properties *)
Section properties.
Context `{TokenCounter C} (counter : C).

(** What every admitted decision says about the prompt it returns, for any
    token counter whose counts do not overflow. *)
Lemma decision_within_limit r d :
  decide_budget counter r = Ok d →
  admitted d = true →
  (prompt_tokens d + requested_tokens r < u64_modulus)%N →
  (0 < prompt_tokens d)%N →
  prompt_tokens d = count_prompt counter (bd_prompt d)
  ∧ admitted_max_tokens d = requested_tokens r
  ∧ (prompt_tokens d + admitted_max_tokens d ≤ context_limit (br_model r))%N
  ∧ (admitted_max_tokens d ≤ available_generation_tokens d)%N.
Proof.
  unfold decide_budget, reserve_output_first, truncate_oldest, strict_decision.
  intros Hd Hadm Hov Hpos.
  repeat (case_match; simplify_eq/=); bool_to_prop;
    try (rewrite wadd_small in * by done); split_and!; lia || done.
Qed.

(** The prompt of a decision is the request's, or a suffix of its messages. *)
Lemma decision_prompt r d :
  decide_budget counter r = Ok d →
  prompt_tokens d = count_prompt counter (bd_prompt d)
  ∧ (bd_prompt d = br_prompt r ∧ truncated_messages d = 0%N
     ∨ ∃ ms k, br_prompt r = PChat ms ∧ bd_prompt d = PChat (drop k ms)
         ∧ truncated_messages d = N.of_nat k ∧ k ≤ length ms).
Proof.
  unfold decide_budget, reserve_output_first, truncate_oldest, strict_decision.
  intros Hd.
  repeat case_match; simplify_eq/=; try (split; [done|by left]).
  all: match goal with Htl : truncate_loop _ ?l ?q ?ms ?t = _ |- _ =>
    destruct (truncate_loop_spec counter l q ms t) as (k&Hk&Hle&_) end.
  all: rewrite Hk in *; split; [done|]; right; simplify_eq/=; eexists _, k; split_and!; auto.
Qed.

(** A request is refused as malformed exactly when the model's limits are. *)
Lemma decide_budget_errors r :
  (decide_budget counter r = Err InvalidContextLimit ↔ context_limit (br_model r) = 0%N)
  ∧ (decide_budget counter r = Err InvalidMaxOutputTokens
     ↔ context_limit (br_model r) ≠ 0%N ∧ max_output_tokens (br_model r) = 0%N).
Proof.
  unfold decide_budget, reserve_output_first, truncate_oldest, strict_decision.
  destruct (context_limit _ =? 0)%N eqn:E1; bool_to_prop.
  { split; split; [done..|by intros []]. }
  destruct (max_output_tokens _ =? 0)%N eqn:E2; bool_to_prop.
  { by split; split. }
  repeat case_match; split; split; try done; by intros [].
Qed.

End properties.

(** C23.  Whatever the policy, an admitted request fits the model's context:
    the prompt the decision returns, as counted, plus the output tokens it
    grants is at most [context_limit]; the grant is the requested amount (or
    the default) capped by the model.  The hypothesis keeps the counts
    within a [usize]. *)
Theorem approx_admission_sound r d :
  decide_budget MkApproxTokenCounter r = Ok d →
  admitted d = true →
  (prompt_weight (br_prompt r) + requested_tokens r < u64_modulus)%N →
  prompt_tokens d = approx_count_prompt (bd_prompt d)
  ∧ (prompt_tokens d + admitted_max_tokens d ≤ context_limit (br_model r))%N
  ∧ admitted_max_tokens d = requested_tokens r
  ∧ (admitted_max_tokens d ≤ max_output_tokens (br_model r))%N
  ∧ (admitted_max_tokens d ≤ available_generation_tokens d)%N.
Proof.
  intros Hd Hadm Hw. destruct (decision_prompt _ r d Hd) as [Hcount Hp].
  assert (prompt_weight (bd_prompt d) ≤ prompt_weight (br_prompt r))%N as Hle.
  { destruct Hp as [[-> _]|(ms&k&->&->&_)]; auto with idp. }
  pose proof (approx_count_prompt_le (bd_prompt d)).
  pose proof (approx_count_prompt_pos (bd_prompt d)).
  simpl in Hcount.
  edestruct (decision_within_limit MkApproxTokenCounter r d) as (?&Hm&?&?);
    [done..|lia|lia|]. rewrite Hm in *.
  split_and!; try done. unfold requested_tokens. lia.
Qed.


(** C33.  When a request fits, the three policies take the same decision: the
    truncating one returns the strict one's, and, if the sum of the two
    numbers does not wrap around, the reserving one the same numbers and
    prompt, with its own reason. *)
Theorem policies_agree_when_it_fits `{TokenCounter C} (counter : C) r requested d :
  strict_decision counter r requested = Ok d →
  admitted d = true →
  truncate_oldest counter r requested = Ok d
  ∧ ((count_prompt counter (br_prompt r) + requested < u64_modulus)%N →
     reserve_output_first counter r requested
     = Ok {| admitted := true; reason := "admitted with requested output reserved";
             bd_model := bd_model d; prompt_tokens := prompt_tokens d;
             requested_max_tokens := requested_max_tokens d;
             admitted_max_tokens := admitted_max_tokens d;
             available_generation_tokens := available_generation_tokens d;
             truncated_messages := truncated_messages d; bd_prompt := bd_prompt d |}).
Proof.
  unfold strict_decision, reserve_output_first, truncate_oldest.
  intros Hd Hadm. simplify_eq/=. rewrite Hadm. bool_to_prop. split.
  - destruct (br_prompt r) as [t|[|m ms]] eqn:Hp.
    + unfold strict_decision. rewrite Hp. by apply N.leb_le in Hadm as ->.
    + cbn [truncate_loop]. by apply N.leb_le in Hadm as ->.
    + cbn [truncate_loop]. assert ((context_limit (br_model r) <?
        wadd (count_prompt counter (PChat (m :: ms))) requested)%N = false) as ->
        by (apply N.ltb_ge; lia).
      by apply N.leb_le in Hadm as ->.
  - intros Hov. rewrite wadd_small in Hadm by done.
    assert ((count_prompt counter (br_prompt r)
      <=? context_limit (br_model r) - requested)%N = true) as -> by (apply N.leb_le; lia).
    done.
Qed.

(** The subtraction in [reserve_output_first] saturates, so what it
    admits fits the context for every request and every counter, with no
    bound on the numbers. *)
Theorem reserve_output_first_never_overcommits `{TokenCounter C} (counter : C) r requested d :
  reserve_output_first counter r requested = Ok d →
  admitted d = true → (0 < prompt_tokens d)%N →
  (prompt_tokens d + admitted_max_tokens d ≤ context_limit (br_model r))%N.
Proof.
  unfold reserve_output_first. intros Hd Hadm Hpos. simplify_eq/=.
  rewrite Hadm. bool_to_prop. lia.
Qed.

(** ** Concrete requests, for the examples below *)
Definition tiny_model : ModelBudget :=
  {| mb_model := "tiny"; context_limit := 40; default_max_tokens := 8;
     max_output_tokens := 16 |}.
Definition chat_request (p : BudgetPolicy) : BudgetRequest :=
  {| br_prompt := PChat
       [ {| role := "user"; content := "the oldest message of this conversation, which is rather long for a model with such a small context window, and goes on and on" |};
         {| role := "user"; content := "new" |} ];
     br_requested_max_tokens := Some 8%N; br_policy := p; br_model := tiny_model |}.
Definition text_request (p : BudgetPolicy) : BudgetRequest :=
  {| br_prompt := PText "hello world"; br_requested_max_tokens := Some 8%N;
     br_policy := p; br_model := tiny_model |}.
(** A model whose [max_output_tokens] is the largest [usize]. *)
Definition unbounded_model : ModelBudget :=
  {| mb_model := "m"; context_limit := 4096; default_max_tokens := 256;
     max_output_tokens := u64_max |}.
Definition wrapping_request (p : BudgetPolicy) : BudgetRequest :=
  {| br_prompt := PText "hello world"; br_requested_max_tokens := Some u64_max;
     br_policy := p; br_model := unbounded_model |}.
Definition decision_of (r : BudgetRequest) : BudgetDecision :=
  match decide_budget MkApproxTokenCounter r with
  | Ok d => d
  | Err _ => {| admitted := false; reason := ""; bd_model := ""; prompt_tokens := 0;
                requested_max_tokens := 0; admitted_max_tokens := 0;
                available_generation_tokens := 0; truncated_messages := 0;
                bd_prompt := PText "" |}
  end.

(** The sum in [strict_decision] is unchecked: with a model that caps
    the output at the largest [usize], a request for that many tokens wraps
    around and is admitted although it exceeds the context, while
    [reserve_output_first] refuses the same request. *)
Theorem strict_sum_wraps :
  admitted (decision_of (wrapping_request StrictReject)) = true
  ∧ (context_limit unbounded_model
     < admitted_max_tokens (decision_of (wrapping_request StrictReject)))%N
  ∧ admitted (decision_of (wrapping_request ReserveOutputFirst)) = false.
Proof. vm_compute. done. Qed.

(** ** Witnesses *)
Lemma approx_admission_sound_witness :
  prompt_tokens (decision_of (chat_request TruncateOldest)) = 8%N
  ∧ (8 + admitted_max_tokens (decision_of (chat_request TruncateOldest)) ≤ 40)%N.
Proof.
  pose proof (approx_admission_sound (chat_request TruncateOldest)
    (decision_of (chat_request TruncateOldest)) ltac:(vm_compute; reflexivity)
    ltac:(vm_compute; reflexivity) ltac:(vm_compute; reflexivity)) as (Hc&Hl&_).
  split; [by vm_compute | by vm_compute in Hl |- *].
Defined.


Lemma policies_agree_when_it_fits_witness :
  truncate_oldest MkApproxTokenCounter (text_request StrictReject) 8
  = Ok (decision_of (text_request StrictReject))
  ∧ ∃ d, reserve_output_first MkApproxTokenCounter (text_request StrictReject) 8 = Ok d
    ∧ prompt_tokens d = 3%N ∧ admitted_max_tokens d = 8%N.
Proof.
  destruct (@policies_agree_when_it_fits _ approx_counter MkApproxTokenCounter
    (text_request StrictReject) 8 (decision_of (text_request StrictReject)))
    as [Ht Hr]; [by vm_compute..|].
  split; [exact Ht|]. eexists. split; [apply Hr; by vm_compute|]. by split.
Defined.

Lemma reserve_output_first_never_overcommits_witness :
  (prompt_tokens (decision_of (text_request ReserveOutputFirst))
   + admitted_max_tokens (decision_of (text_request ReserveOutputFirst)) ≤ 40)%N.
Proof.
  apply (@reserve_output_first_never_overcommits _ approx_counter MkApproxTokenCounter
    (text_request ReserveOutputFirst) 8); vm_compute; reflexivity.
Defined.
