(* ===== verification/QuotaLimiter.v ===== *)
(** * The in-memory quota limiter: crates/generation-quota-limiter

    [src/lib.rs].  The two [Mutex<HashMap<_, _>>] are two maps; each critical
    section is one function, and [reconcile], which releases the
    reservations' lock before it takes the counters' lock, is two of them.
    The clock ([epoch_minute]) and the random identifiers ([Uuid::new_v4])
    are arguments.  [System] interleaves the critical sections of any number
    of tasks. *)
From stdpp Require Import options.
From S2P Require Import Prelude.

(** ** Data *)
Record QuotaLimits := {
  requests_per_minute : N;
  prompt_tokens_per_minute : N;
  generated_tokens_per_minute : N;
}.

Definition default_limits : QuotaLimits :=
  {| requests_per_minute := 60; prompt_tokens_per_minute := 120000;
     generated_tokens_per_minute := 60000 |}.

Record QuotaCheck := {
  qc_api_key : string;
  qc_prompt_tokens : N;
  qc_reserved_generated_tokens : N;
}.

Record QuotaReservation := {
  qr_id : string;
  qr_api_key : string;
  qr_prompt_tokens : N;
  qr_reserved_generated_tokens : N;
  remaining_requests : N;
  remaining_prompt_tokens : N;
  remaining_generated_tokens : N;
}.

Inductive QuotaError : Type :=
| RequestsExceeded (remaining : N)
| PromptTokensExceeded (remaining requested : N)
| GeneratedTokensExceeded (remaining requested : N)
| ReservationNotFound.

Record WindowCounters := {
  window_start_epoch_minute : N;
  requests : N;
  prompt_tokens : N;
  generated_tokens_reserved : N;
}.

(** [WindowCounters { window_start_epoch_minute: minute, ..default() }]. *)
Definition fresh_window (minute : N) : WindowCounters :=
  {| window_start_epoch_minute := minute; requests := 0; prompt_tokens := 0;
     generated_tokens_reserved := 0 |}.

Record InMemoryQuotaLimiter := {
  limits : QuotaLimits;
  state : gmap string WindowCounters;
  reservations : gmap string QuotaReservation;
}.

Definition new (l : QuotaLimits) : InMemoryQuotaLimiter :=
  {| limits := l; state := ∅; reservations := ∅ |}.

Definition set_counters (key : string) (c : WindowCounters)
    (l : InMemoryQuotaLimiter) : InMemoryQuotaLimiter :=
  {| limits := limits l; state := <[key := c]> (state l);
     reservations := reservations l |}.

Definition set_reservations (m : gmap string QuotaReservation)
    (l : InMemoryQuotaLimiter) : InMemoryQuotaLimiter :=
  {| limits := limits l; state := state l; reservations := m |}.

(** [state.entry(key).or_default()], reset when a new minute has begun. *)
Definition window_for (minute : N) (key : string) (l : InMemoryQuotaLimiter)
    : WindowCounters :=
  let counters := default (fresh_window 0) (state l !! key) in
  if (window_start_epoch_minute counters =? minute)%N then counters
  else fresh_window minute.

(** ** Operations *)

(** The entry of the key is created or reset even when the call is refused. *)
Definition reserve (minute : N) (id : string) (check : QuotaCheck)
    (l : InMemoryQuotaLimiter)
    : result QuotaError QuotaReservation * InMemoryQuotaLimiter :=
  let key := qc_api_key check in
  let counters := window_for minute key l in
  let l := set_counters key counters l in
  let left_requests := (requests_per_minute (limits l) - requests counters)%N in
  if (left_requests <? 1)%N then (Err (RequestsExceeded left_requests), l) else
  let left_prompt :=
    (prompt_tokens_per_minute (limits l) - prompt_tokens counters)%N in
  if (left_prompt <? qc_prompt_tokens check)%N
  then (Err (PromptTokensExceeded left_prompt (qc_prompt_tokens check)), l) else
  let left_generated :=
    (generated_tokens_per_minute (limits l) - generated_tokens_reserved counters)%N in
  if (left_generated <? qc_reserved_generated_tokens check)%N
  then (Err (GeneratedTokensExceeded left_generated
               (qc_reserved_generated_tokens check)), l) else
  let counters := {|
    window_start_epoch_minute := window_start_epoch_minute counters;
    requests := wadd (requests counters) 1;
    prompt_tokens := wadd (prompt_tokens counters) (qc_prompt_tokens check);
    generated_tokens_reserved :=
      wadd (generated_tokens_reserved counters) (qc_reserved_generated_tokens check) |} in
  let l := set_counters key counters l in
  let reservation := {|
    qr_id := id; qr_api_key := key;
    qr_prompt_tokens := qc_prompt_tokens check;
    qr_reserved_generated_tokens := qc_reserved_generated_tokens check;
    remaining_requests := (requests_per_minute (limits l) - requests counters)%N;
    remaining_prompt_tokens :=
      (prompt_tokens_per_minute (limits l) - prompt_tokens counters)%N;
    remaining_generated_tokens :=
      (generated_tokens_per_minute (limits l) - generated_tokens_reserved counters)%N |} in
  (Ok reservation, set_reservations (<[id := reservation]> (reservations l)) l).

(** [reconcile], first critical section: take the reservation out. *)
Definition reconcile_take (id : string) (l : InMemoryQuotaLimiter)
    : result QuotaError QuotaReservation * InMemoryQuotaLimiter :=
  (ok_or ReservationNotFound (reservations l !! id),
   set_reservations (delete id (reservations l)) l).

Definition refund_of (reservation : QuotaReservation) (actual : N) : N :=
  (qr_reserved_generated_tokens reservation - actual)%N.

(** [reconcile], second critical section: credit the refund to whatever
    window the key is in by now. *)
Definition reconcile_credit (key : string) (refund : N) (l : InMemoryQuotaLimiter)
    : InMemoryQuotaLimiter :=
  match state l !! key with
  | Some c => set_counters key {|
      window_start_epoch_minute := window_start_epoch_minute c;
      requests := requests c; prompt_tokens := prompt_tokens c;
      generated_tokens_reserved := (generated_tokens_reserved c - refund)%N |} l
  | None => l
  end.

Definition reconcile (id : string) (actual : N) (l : InMemoryQuotaLimiter)
    : result QuotaError N * InMemoryQuotaLimiter :=
  let '(r, l) := reconcile_take id l in
  match r with
  | Err e => (Err e, l)
  | Ok reservation =>
    let refund := refund_of reservation actual in
    if (refund =? 0)%N then (Ok 0%N, l)
    else (Ok refund, reconcile_credit (qr_api_key reservation) refund l)
  end.

Definition cancel (id : string) (l : InMemoryQuotaLimiter)
    : result QuotaError N * InMemoryQuotaLimiter := reconcile id 0 l.

(** ** Interleaving

    [reserve] reads the clock before it waits for the lock, so the minute it
    works with can be past by the time it has the lock. *)
Module System.

(** The limiter; the minute of the clock; the minutes that tasks waiting for
    the lock in [reserve] have read; and the refunds computed by tasks that
    are between the two critical sections of [reconcile]. *)
Record t := {
  limiter : InMemoryQuotaLimiter;
  minute : N;
  waiting : list N;
  in_flight : list (string * N);
}.

Inductive step : t → t → Prop :=
| step_clock s :
    step s {| limiter := limiter s; minute := minute s; waiting := minute s :: waiting s;
              in_flight := in_flight s |}
| step_reserve s l1 m l2 check id :
    waiting s = l1 ++ m :: l2 →
    reservations (limiter s) !! id = None →
    step s {| limiter := (reserve m id check (limiter s)).2;
              minute := minute s; waiting := l1 ++ l2; in_flight := in_flight s |}
| step_take s id reservation actual :
    (reconcile_take id (limiter s)).1 = Ok reservation →
    step s {| limiter := (reconcile_take id (limiter s)).2;
              minute := minute s; waiting := waiting s;
              in_flight :=
                if (refund_of reservation actual =? 0)%N then in_flight s
                else (qr_api_key reservation, refund_of reservation actual)
                     :: in_flight s |}
| step_credit s l1 l2 key refund :
    in_flight s = l1 ++ (key, refund) :: l2 →
    step s {| limiter := reconcile_credit key refund (limiter s);
              minute := minute s; waiting := waiting s; in_flight := l1 ++ l2 |}.

(** The clock shows another minute; it can be set back. *)
Inductive tick : t → t → Prop :=
| tick_minute s m :
    tick s {| limiter := limiter s; minute := m; waiting := waiting s;
              in_flight := in_flight s |}.

Definition any_step (s s' : t) : Prop := step s s' ∨ tick s s'.

Definition init (l : QuotaLimits) (m : N) : t :=
  {| limiter := new l; minute := m; waiting := []; in_flight := [] |}.

End System.

(** ** Well-formedness *)

(** The limits are [u64] values. *)
Definition limits_ok (l : QuotaLimits) : Prop :=
  (requests_per_minute l < u64_modulus ∧ prompt_tokens_per_minute l < u64_modulus
   ∧ generated_tokens_per_minute l < u64_modulus)%N.

Definition counters_ok (l : QuotaLimits) (c : WindowCounters) : Prop :=
  (requests c ≤ requests_per_minute l ∧ prompt_tokens c ≤ prompt_tokens_per_minute l
   ∧ generated_tokens_reserved c ≤ generated_tokens_per_minute l)%N.

(** No key is charged more than its limits. *)
Definition within_limits (l : InMemoryQuotaLimiter) : Prop :=
  map_Forall (λ _ c, counters_ok (limits l) c) (state l).

Lemma fresh_window_ok l m : counters_ok l (fresh_window m).
Proof. unfold counters_ok. simpl. lia. Qed.

Lemma window_for_ok m key l :
  within_limits l → counters_ok (limits l) (window_for m key l).
Proof.
  intros Hl. unfold window_for. case_match; [|apply fresh_window_ok].
  destruct (state l !! key) as [c|] eqn:Hc; simpl; [by eapply Hl|apply fresh_window_ok].
Qed.

Lemma window_for_start m key l :
  window_start_epoch_minute (window_for m key l) = m.
Proof. unfold window_for. case_match eqn:E; bool_to_prop; done. Qed.

Lemma set_counters_ok key c l :
  counters_ok (limits l) c → within_limits l → within_limits (set_counters key c l).
Proof. intros Hc Hl. by apply map_Forall_insert_2. Qed.

#[export] Hint Resolve fresh_window_ok window_for_ok set_counters_ok : idp.

(** ** Functional behaviour of each operation *)

(** The charge of an admitted request. *)
Definition charge (check : QuotaCheck) (c : WindowCounters) : WindowCounters :=
  {| window_start_epoch_minute := window_start_epoch_minute c;
     requests := requests c + 1;
     prompt_tokens := prompt_tokens c + qc_prompt_tokens check;
     generated_tokens_reserved :=
       generated_tokens_reserved c + qc_reserved_generated_tokens check |}.

Definition quota_left (l : QuotaLimits) (check : QuotaCheck) (c : WindowCounters) : Prop :=
  counters_ok l (charge check c).

(** All the cases of [reserve], under [limits_ok] and [within_limits]. *)
Ltac reserve_cases :=
  let Hc1 := fresh "Hc" in let Hc2 := fresh "Hd" in let Hc3 := fresh "He" in
  intros (?&?&?) Hl;
  lazymatch goal with |- context [reserve ?m _ ?check ?l] =>
    pose proof (window_for_ok m (qc_api_key check) l Hl) as (Hc1&Hc2&Hc3);
    unfold reserve, quota_left, counters_ok, charge; simpl;
    set (c := window_for m (qc_api_key check) l) in *; clearbody c;
    unfold counters_ok in *
  end;
  repeat case_match; bool_to_prop; simplify_eq/=;
  rewrite ?(wadd_small (requests _)), ?(wadd_small (prompt_tokens _)),
    ?(wadd_small (generated_tokens_reserved _)) by lia;
  rewrite ?insert_insert_eq; split_and!; try done; lia.

(** What [reserve] does to the two maps. *)
Lemma reserve_effect m id check l :
  limits_ok (limits l) → within_limits l →
  match reserve m id check l with
  | (Ok r, l') =>
      quota_left (limits l) check (window_for m (qc_api_key check) l)
      ∧ state l' = <[qc_api_key check := charge check (window_for m (qc_api_key check) l)]> (state l)
      ∧ reservations l' = <[id := r]> (reservations l)
      ∧ qr_api_key r = qc_api_key check
      ∧ qr_reserved_generated_tokens r = qc_reserved_generated_tokens check
  | (Err e, l') =>
      state l' = <[qc_api_key check := window_for m (qc_api_key check) l]> (state l)
      ∧ reservations l' = reservations l
  end.
Proof. reserve_cases. Qed.

(** C21.  [reserve] is decided by the three limits, in their order.  When the
    charge fits, the counters grow by exactly the charge ([u64] additions
    never wrap), the reservation reports what is left and is recorded under
    its identifier.  When it does not, nothing is charged or recorded; the
    error names the first limit that is exceeded, the limits before it
    having room, with exactly what is left of it and what was asked. *)
Theorem reserve_spec m id check l :
  limits_ok (limits l) → within_limits l →
  let c := window_for m (qc_api_key check) l in
  let lim := limits l in
  let asked_prompt := qc_prompt_tokens check in
  let asked_generated := qc_reserved_generated_tokens check in
  match reserve m id check l with
  | (Ok r, l') =>
      quota_left lim check c
      ∧ state l' = <[qc_api_key check := charge check c]> (state l)
      ∧ reservations l' = <[id := r]> (reservations l)
      ∧ qr_id r = id ∧ qr_api_key r = qc_api_key check
      ∧ qr_prompt_tokens r = asked_prompt
      ∧ qr_reserved_generated_tokens r = asked_generated
      ∧ (remaining_requests r + requests (charge check c) = requests_per_minute lim)%N
      ∧ (remaining_prompt_tokens r + prompt_tokens (charge check c)
         = prompt_tokens_per_minute lim)%N
      ∧ (remaining_generated_tokens r + generated_tokens_reserved (charge check c)
         = generated_tokens_per_minute lim)%N
  | (Err e, l') =>
      ¬ quota_left lim check c
      ∧ state l' = <[qc_api_key check := c]> (state l)
      ∧ reservations l' = reservations l
      ∧ match e with
        | RequestsExceeded rest =>
            rest = 0%N ∧ requests c = requests_per_minute lim
        | PromptTokensExceeded rest asked =>
            asked = asked_prompt ∧ (rest < asked)%N
            ∧ (requests c < requests_per_minute lim)%N
            ∧ (prompt_tokens c + rest = prompt_tokens_per_minute lim)%N
        | GeneratedTokensExceeded rest asked =>
            asked = asked_generated ∧ (rest < asked)%N
            ∧ (requests c < requests_per_minute lim)%N
            ∧ (prompt_tokens c + asked_prompt ≤ prompt_tokens_per_minute lim)%N
            ∧ (generated_tokens_reserved c + rest = generated_tokens_per_minute lim)%N
        | ReservationNotFound => False
        end
  end.
Proof. cbv zeta. reserve_cases. Qed.

(** The two outcomes, from the window the key is in. *)
Lemma reserve_admits m id check l :
  limits_ok (limits l) → within_limits l →
  quota_left (limits l) check (window_for m (qc_api_key check) l) →
  is_ok (reserve m id check l).1 = true.
Proof.
  intros Hlim Hl (Hq1 & Hq2 & Hq3). simpl in *.
  destruct (window_for_ok m (qc_api_key check) l Hl) as (?&?&?).
  unfold reserve. simpl. repeat (case_match; bool_to_prop; try lia; try done).
Qed.

Lemma reserve_refuses_generated m id check l :
  let c := window_for m (qc_api_key check) l in
  let lim := limits l in
  (requests c < requests_per_minute lim)%N →
  (prompt_tokens c + qc_prompt_tokens check ≤ prompt_tokens_per_minute lim)%N →
  (generated_tokens_reserved c ≤ generated_tokens_per_minute lim
   < generated_tokens_reserved c + qc_reserved_generated_tokens check)%N →
  (reserve m id check l).1
  = Err (GeneratedTokensExceeded (generated_tokens_per_minute lim - generated_tokens_reserved c)
           (qc_reserved_generated_tokens check)).
Proof.
  intros c lim H1 H2 H3. subst c lim. unfold reserve. simpl.
  repeat (case_match; bool_to_prop; try lia). done.
Qed.


(** The limits are fixed at construction. *)
Lemma reserve_limits m id check l : limits (reserve m id check l).2 = limits l.
Proof. unfold reserve. by repeat case_match; simplify_eq/=. Qed.

Lemma reconcile_credit_limits key refund l :
  limits (reconcile_credit key refund l) = limits l.
Proof. unfold reconcile_credit. by case_match. Qed.

Lemma reconcile_credit_reservations key refund l :
  reservations (reconcile_credit key refund l) = reservations l.
Proof. unfold reconcile_credit. by case_match. Qed.

Lemma reconcile_limits id actual l : limits (reconcile id actual l).2 = limits l.
Proof.
  unfold reconcile, reconcile_take. destruct (reservations l !! id); [|done]. simpl.
  case_match; [done|]. simpl; by rewrite reconcile_credit_limits.
Qed.

Lemma reserve_within_limits m id check l :
  limits_ok (limits l) → within_limits l → within_limits (reserve m id check l).2.
Proof.
  intros Hlim Hl. pose proof (reserve_effect m id check l Hlim Hl) as Hs.
  pose proof (reserve_limits m id check l) as Hlm.
  unfold within_limits in *. rewrite Hlm.
  destruct (reserve m id check l) as [[r|e] l'] eqn:E; simpl.
  - destruct Hs as (Hq & -> & _). by apply map_Forall_insert_2.
  - destruct Hs as [-> _]. apply map_Forall_insert_2; auto with idp.
Qed.

Lemma reconcile_credit_within_limits key refund l :
  within_limits l → within_limits (reconcile_credit key refund l).
Proof.
  intros Hl. unfold reconcile_credit. case_match eqn:E; [|done].
  apply set_counters_ok; [|done].
  destruct (Hl _ _ E) as (?&?&?). unfold counters_ok. simpl. lia.
Qed.

Lemma reconcile_within_limits id actual l :
  within_limits l → within_limits (reconcile id actual l).2.
Proof.
  intros Hl. unfold reconcile, reconcile_take. destruct (reservations l !! id); [|done]. simpl.
  case_match; [done|]. by apply reconcile_credit_within_limits.
Qed.

#[export] Hint Resolve reserve_within_limits reconcile_credit_within_limits : idp.

(** ** Every interleaving keeps every key within its limits *)
Lemma any_step_limits s s' :
  System.any_step s s' →
  limits (System.limiter s') = limits (System.limiter s).
Proof.
  intros [[]|[]]; simpl; auto using reserve_limits, reconcile_credit_limits.
Qed.

Lemma any_step_within_limits s s' :
  System.any_step s s' → limits_ok (limits (System.limiter s)) →
  within_limits (System.limiter s) → within_limits (System.limiter s').
Proof. intros [[]|[]]; simpl; auto with idp. Qed.

Lemma reachable_within_limits lim m s :
  limits_ok lim → rtc System.any_step (System.init lim m) s →
  limits (System.limiter s) = lim ∧ within_limits (System.limiter s).
Proof.
  intros Hok Hs. remember (System.init lim m) as s0 eqn:E0.
  assert (limits (System.limiter s0) = lim ∧ within_limits (System.limiter s0))
    as H0 by (subst; split; [done|apply map_Forall_empty]).
  clear E0. induction Hs as [|s1 s2 s3 Hstep _ IH]; [done|].
  destruct H0 as [<- Hw]. apply IH.
  split; [by apply any_step_limits|by eapply any_step_within_limits].
Qed.

(** C20.  In every state that any number of tasks can reach, whatever the
    order of their critical sections, the clock and the minutes they have
    read before they got the lock, no window of a key is charged more
    requests, prompt tokens or generated tokens than the limits. *)
Theorem limiter_never_exceeds_limits lim m s :
  limits_ok lim → rtc System.any_step (System.init lim m) s →
  limits (System.limiter s) = lim ∧ within_limits (System.limiter s).
Proof. apply reachable_within_limits. Qed.

(** A task that read the clock in another minute replaces the window of the
    current one: whatever was charged to it is forgotten, and the minute
    starts again from nothing. *)
Lemma stale_minute_restarts_window m m' id check l :
  limits_ok (limits l) → within_limits l → m ≠ m' →
  window_for m' (qc_api_key check) (reserve m id check l).2 = fresh_window m'.
Proof.
  intros Hlim Hl Hne. pose proof (reserve_effect m id check l Hlim Hl) as Hs.
  pose proof (window_for_start m (qc_api_key check) l) as Hst. unfold window_for at 1.
  destruct (reserve m id check l) as [[r|e] l']; simpl;
    [destruct Hs as (_ & -> & _)|destruct Hs as [-> _]];
    rewrite lookup_insert_eq; simpl; rewrite ?Hst;
    (assert ((m =? m')%N = false) as -> by by apply N.eqb_neq); done.
Qed.

(** ** Within one minute, the counters cover what is outstanding *)
Definition owned_by (key : string) (r : QuotaReservation) : N :=
  if decide (qr_api_key r = key) then qr_reserved_generated_tokens r else 0%N.

(** Generated tokens reserved by live reservations of a key. *)
Definition outstanding (key : string) (m : gmap string QuotaReservation) : N :=
  map_sum (owned_by key) m.

(** Refunds of a key that are computed and not yet credited. *)
Definition pending_refund (key : string) (l : list (string * N)) : N :=
  nsum ((λ p : string * N, if decide (p.1 = key) then p.2 else 0%N) <$> l).

Definition charged (m : N) (key : string) (l : InMemoryQuotaLimiter) : N :=
  generated_tokens_reserved (window_for m key l).

(** What a key has been promised and what of that no counter covers. *)
Definition promised (key : string) (s : System.t) : N :=
  (outstanding key (reservations (System.limiter s)) + pending_refund key (System.in_flight s))%N.
Definition uncovered (key : string) (s : System.t) : N :=
  (promised key s - charged (System.minute s) key (System.limiter s))%N.

(** Every task that waits for the lock has read the current minute. *)
Definition up_to_date (s : System.t) : Prop :=
  Forall (λ m, m = System.minute s) (System.waiting s).

Lemma pending_refund_cons key p l :
  pending_refund key (p :: l)
  = ((if decide (p.1 = key) then p.2 else 0) + pending_refund key l)%N.
Proof. done. Qed.

Lemma pending_refund_middle key p l1 l2 :
  pending_refund key (l1 ++ p :: l2)
  = ((if decide (p.1 = key) then p.2 else 0) + pending_refund key (l1 ++ l2))%N.
Proof.
  unfold pending_refund. rewrite !fmap_app, fmap_cons, !nsum_app, nsum_cons. lia.
Qed.

Lemma charged_insert m key key' c l l' :
  window_start_epoch_minute c = m → state l' = <[key := c]> (state l) →
  charged m key' l'
  = if decide (key = key') then generated_tokens_reserved c else charged m key' l.
Proof.
  intros Hc Hs. unfold charged, window_for. rewrite Hs, lookup_insert.
  case_decide; simpl; [|done]. by rewrite Hc, N.eqb_refl.
Qed.

Lemma charged_ext m key l l' :
  state l' = state l → charged m key l' = charged m key l.
Proof. unfold charged, window_for. by intros ->. Qed.

Lemma outstanding_insert key m id r :
  m !! id = None →
  outstanding key (<[id := r]> m) = (owned_by key r + outstanding key m)%N.
Proof. apply map_sum_insert. Qed.

Lemma outstanding_delete key m id r :
  m !! id = Some r →
  outstanding key m = (owned_by key r + outstanding key (delete id m))%N.
Proof. apply map_sum_delete. Qed.

(** [reserve] charges the tokens it adds to the outstanding ones. *)
Lemma reserve_covered m id check l key :
  limits_ok (limits l) → within_limits l → reservations l !! id = None →
  (charged m key (reserve m id check l).2 + outstanding key (reservations l)
   = charged m key l + outstanding key (reservations (reserve m id check l).2))%N.
Proof.
  intros Hlim Hl Hid. pose proof (reserve_effect m id check l Hlim Hl) as Hs.
  pose proof (window_for_start m (qc_api_key check) l) as Hst.
  destruct (reserve m id check l) as [[r|e] l'] eqn:E; simpl.
  - destruct Hs as (_ & Hstate & -> & Hkey & Hres).
    rewrite outstanding_insert by done. unfold owned_by. rewrite Hkey, Hres.
    rewrite (charged_insert m (qc_api_key check) key
      (charge check (window_for m (qc_api_key check) l)) l l' Hst Hstate).
    unfold charged. case_decide; subst; simpl; lia.
  - destruct Hs as [Hstate ->].
    rewrite (charged_insert m _ key _ l l' Hst Hstate).
    unfold charged. case_decide; subst; lia.
Qed.

(** A credit never takes more than the refund off a key. *)
Lemma reconcile_credit_covered m key refund l key' :
  (charged m key' l
   ≤ charged m key' (reconcile_credit key refund l)
     + (if decide (key = key') then refund else 0))%N.
Proof.
  unfold reconcile_credit. destruct (state l !! key) as [c|] eqn:Hc; [|lia].
  unfold charged, window_for. simpl. rewrite lookup_insert.
  case_decide; [subst|lia]. rewrite Hc. simpl. case_match; simpl; lia.
Qed.

(** Within a minute, promises grow no faster than the counter. *)
Lemma step_promised s s' key :
  System.step s s' → limits_ok (limits (System.limiter s)) → within_limits (System.limiter s) →
  up_to_date s →
  (promised key s' + charged (System.minute s) key (System.limiter s)
   ≤ promised key s + charged (System.minute s') key (System.limiter s'))%N
  ∧ System.minute s' = System.minute s ∧ up_to_date s'.
Proof.
  intros Hstep Hlim Hl Hup. unfold up_to_date, promised in *.
  destruct Hstep as [s|s l1 m l2 check id Hw Hid|s id r actual Hr|s l1 l2 k refund Hf]; simpl in *.
  - split_and!; [lia|done|by constructor].
  - rewrite Hw in Hup. apply Forall_app in Hup as [Hl1 [-> Hl2]%Forall_cons].
    pose proof (reserve_covered (System.minute s) id check (System.limiter s) key Hlim Hl Hid).
    split_and!; [lia|done|by apply Forall_app].
  - destruct (reservations (System.limiter s) !! id) as [r'|] eqn:E; simplify_eq/=.
    split_and!; [|done..]. rewrite (outstanding_delete key _ _ _ E).
    rewrite (charged_ext _ _ (System.limiter s) (set_reservations _ _)) by done.
    unfold owned_by, refund_of in *.
    case_match; rewrite ?pending_refund_cons; simpl; case_decide; lia.
  - split_and!; [|done..]. rewrite Hf, pending_refund_middle. simpl.
    pose proof (reconcile_credit_covered (System.minute s) k refund (System.limiter s) key) as Hc.
    rewrite reconcile_credit_reservations. revert Hc. case_decide; lia.
Qed.

Lemma steps_promised s s' key :
  rtc System.step s s' → limits_ok (limits (System.limiter s)) → within_limits (System.limiter s) →
  up_to_date s →
  (promised key s' + charged (System.minute s) key (System.limiter s)
   ≤ promised key s + charged (System.minute s') key (System.limiter s'))%N.
Proof.
  intros Hs. induction Hs as [s|s1 s2 s3 Hstep _ IH]; intros Hlim Hl Hup; [lia|].
  destruct (step_promised s1 s2 key Hstep Hlim Hl Hup) as (Hle & _ & Hup').
  assert (System.any_step s1 s2) as Hany by by left.
  specialize (IH ltac:(by rewrite (any_step_limits s1 s2))
    ltac:(by eapply any_step_within_limits) Hup'). lia.
Qed.

(** C22.  In any minute of a limiter that is in use, the counter of a key
    covers what the key is promised: its live reservations and the refunds
    under way exceed the counter by no more than they did when the minute
    began, whatever the interleaving; and the counter stays within the limit.
    In particular, if nothing was outstanding when the minute began, no more
    than the limit is promised.  The tasks must have read the clock in this
    minute. *)
Theorem outstanding_within_limit lim m0 s0 s key :
  limits_ok lim → rtc System.any_step (System.init lim m0) s0 → up_to_date s0 →
  rtc System.step s0 s →
  let counter := charged (System.minute s) key (System.limiter s) in
  (uncovered key s ≤ uncovered key s0)%N
  ∧ (counter ≤ generated_tokens_per_minute lim)%N
  ∧ (promised key s ≤ counter + uncovered key s0)%N
  ∧ (promised key s0 = 0%N → (promised key s ≤ generated_tokens_per_minute lim)%N).
Proof.
  intros Hok H0 Hup Hs counter.
  destruct (reachable_within_limits lim m0 s0 Hok H0) as [Hlim0 Hl0].
  destruct (reachable_within_limits lim m0 s Hok) as [Hlim Hl].
  { etrans; [exact H0|]. eapply rtc_subrel; [|exact Hs]. by left. }
  pose proof (steps_promised s0 s key Hs) as Hle. rewrite Hlim0 in Hle.
  specialize (Hle Hok Hl0 Hup). fold counter in Hle.
  destruct (window_for_ok (System.minute s) key _ Hl) as (_&_&Hg). rewrite Hlim in Hg.
  change (counter ≤ generated_tokens_per_minute lim)%N in Hg.
  unfold uncovered. fold counter. split_and!; lia.
Qed.

Lemma reconcile_settles id actual l r :
  reservations l !! id = Some r →
  ∃ l', reconcile id actual l
        = (Ok (qr_reserved_generated_tokens r - actual)%N, l')
     ∧ reservations l' = delete id (reservations l)
     ∧ state l' = (if (qr_reserved_generated_tokens r - actual =? 0)%N then state l
                   else alter (λ c, {|
                     window_start_epoch_minute := window_start_epoch_minute c;
                     requests := requests c; prompt_tokens := prompt_tokens c;
                     generated_tokens_reserved := generated_tokens_reserved c
                       - (qr_reserved_generated_tokens r - actual) |})
                     (qr_api_key r) (state l))
     ∧ ∀ again, (reconcile id again l').1 = Err ReservationNotFound
         ∧ (cancel id l').1 = Err ReservationNotFound.
Proof.
  intros Hr. unfold cancel, reconcile, reconcile_take. rewrite Hr. simpl.
  unfold refund_of. case_match eqn:E; bool_to_prop.
  - rewrite E. eexists. split_and!; [done..|]. simpl. intros again.
    by rewrite lookup_delete_eq.
  - eexists. split; [done|]. rewrite reconcile_credit_reservations. simpl.
    split_and!; [done| |intros again; by rewrite lookup_delete_eq].
    unfold reconcile_credit. simpl. apply map_eq. intros k.
    rewrite lookup_alter. destruct (state l !! qr_api_key r) as [c|] eqn:Hc; simpl.
    + rewrite lookup_insert. by case_decide; subst.
    + case_decide; subst; [by simpl; rewrite Hc|done].
Qed.

(** C32.  [reconcile] settles a reservation exactly once.  It refunds what the
    generation did not use, to the key's current counters, and removes the
    reservation, so that any later [reconcile] or [cancel] of it is refused. *)
Theorem reconcile_exactly_once id actual l r :
  reservations l !! id = Some r →
  ∃ l', reconcile id actual l
        = (Ok (qr_reserved_generated_tokens r - actual)%N, l')
     ∧ reservations l' = delete id (reservations l)
     ∧ state l' = (if (qr_reserved_generated_tokens r - actual =? 0)%N then state l
                   else alter (λ c, {|
                     window_start_epoch_minute := window_start_epoch_minute c;
                     requests := requests c; prompt_tokens := prompt_tokens c;
                     generated_tokens_reserved := generated_tokens_reserved c
                       - (qr_reserved_generated_tokens r - actual) |})
                     (qr_api_key r) (state l))
     ∧ ∀ again, (reconcile id again l').1 = Err ReservationNotFound
         ∧ (cancel id l').1 = Err ReservationNotFound.
Proof. apply reconcile_settles. Qed.

(** ** A refund that outlives its minute *)

(** A key that has reserved in two minutes, in the second of them. *)
Lemma two_minutes l m1 m2 id1 id2 c1 c2 r1 l1 r2 l2 :
  limits_ok (limits l) → within_limits l → m1 ≠ m2 → id1 ≠ id2 →
  qc_api_key c2 = qc_api_key c1 →
  reserve m1 id1 c1 l = (Ok r1, l1) → reserve m2 id2 c2 l1 = (Ok r2, l2) →
  let c := {| window_start_epoch_minute := m2; requests := 1;
              prompt_tokens := qc_prompt_tokens c2;
              generated_tokens_reserved := qc_reserved_generated_tokens c2 |} in
  limits l2 = limits l ∧ within_limits l2
  ∧ window_for m2 (qc_api_key c1) l2 = c
  ∧ reservations l2 !! id1 = Some r1
  ∧ qr_reserved_generated_tokens r1 = qc_reserved_generated_tokens c1
  ∧ state l2 !! qc_api_key c1 = Some c
  ∧ qr_api_key r1 = qc_api_key c1.
Proof.
  intros Hlim Hl Hm Hid Hk2 E1 E2 c.
  pose proof (reserve_effect m1 id1 c1 l Hlim Hl) as H1.
  pose proof (reserve_limits m1 id1 c1 l) as Hlim1.
  pose proof (reserve_within_limits m1 id1 c1 l Hlim Hl) as Hl1.
  pose proof (stale_minute_restarts_window m1 m2 id1 c1 l Hlim Hl Hm) as Hw1.
  rewrite E1 in H1, Hlim1, Hl1, Hw1. simpl in Hlim1, Hl1, Hw1.
  destruct H1 as (_ & _ & Hr1 & Hkr & Hg1).
  assert (limits_ok (limits l1)) as Hok1 by by rewrite Hlim1.
  pose proof (reserve_effect m2 id2 c2 l1 Hok1 Hl1) as H2.
  pose proof (reserve_limits m2 id2 c2 l1) as Hlim2.
  pose proof (reserve_within_limits m2 id2 c2 l1 Hok1 Hl1) as Hl2.
  rewrite E2 in H2, Hlim2, Hl2. simpl in Hlim2, Hl2. rewrite Hk2, Hw1 in H2.
  destruct H2 as (_ & Hs2 & Hr2 & _).
  assert (state l2 !! qc_api_key c1 = Some c) as Hkey by (rewrite Hs2, lookup_insert_eq; done).
  split_and!; try done; [congruence| |].
  - unfold window_for. rewrite Hkey. simpl. by rewrite N.eqb_refl.
  - by rewrite Hr2, lookup_insert_ne, Hr1, lookup_insert_eq.
Qed.


(** ** Witnesses *)
Definition test_limits : QuotaLimits :=
  {| requests_per_minute := 2; prompt_tokens_per_minute := 100;
     generated_tokens_per_minute := 50 |}.
Definition forty : QuotaCheck :=
  {| qc_api_key := "key"; qc_prompt_tokens := 10; qc_reserved_generated_tokens := 40 |}.
Definition one_reservation := (reserve 7 "r" forty (new test_limits)).2.

Lemma test_limits_ok : limits_ok test_limits.
Proof. done. Defined.

Lemma reserve_spec_witness :
  state one_reservation
  = <["key" := charge forty (fresh_window 7)]> (state (new test_limits)).
Proof.
  pose proof (reserve_spec 7 "r" forty (new test_limits) test_limits_ok
    (map_Forall_empty _)) as H.
  destruct H as (_ & Hs & _). exact Hs.
Defined.

Definition one_waits : System.t :=
  {| System.limiter := new test_limits; System.minute := 7; System.waiting := [7%N];
     System.in_flight := [] |}.
Definition one_reservation_system : System.t :=
  {| System.limiter := one_reservation; System.minute := 7; System.waiting := [];
     System.in_flight := [] |}.

Lemma one_reservation_steps :
  rtc System.step (System.init test_limits 7) one_reservation_system.
Proof.
  eapply rtc_l; [exact (System.step_clock (System.init test_limits 7))|].
  eapply rtc_once. by apply (System.step_reserve one_waits [] 7 [] forty "r").
Defined.

(** A task that reserves for the minute that is over by now. *)
Lemma limiter_never_exceeds_limits_witness : within_limits one_reservation.
Proof.
  apply (limiter_never_exceeds_limits test_limits 7
    {| System.limiter := one_reservation; System.minute := 8; System.waiting := [];
       System.in_flight := [] |} test_limits_ok).
  eapply rtc_l; [left; exact (System.step_clock (System.init test_limits 7))|].
  eapply rtc_l; [right; exact (System.tick_minute one_waits 8)|].
  eapply rtc_once. left.
  by apply (System.step_reserve {| System.limiter := new test_limits; System.minute := 8;
    System.waiting := [7%N]; System.in_flight := [] |} [] 7 [] forty "r").
Defined.

Lemma outstanding_within_limit_witness :
  (promised "key" one_reservation_system = 40 ∧ charged 7 "key" one_reservation = 40
   ∧ promised "key" one_reservation_system ≤ 50)%N.
Proof.
  split_and!; [by vm_compute|by vm_compute|].
  destruct (outstanding_within_limit test_limits 7 (System.init test_limits 7)
    one_reservation_system "key" test_limits_ok (rtc_refl _ _) (Forall_nil_2 _)
    one_reservation_steps) as (_ & _ & _ & H).
  apply H. reflexivity.
Defined.

(** Key ["k"] may reserve 50 tokens a minute. *)
Definition rollover_limits : QuotaLimits :=
  {| requests_per_minute := 10; prompt_tokens_per_minute := 100;
     generated_tokens_per_minute := 50 |}.
Definition fifty : QuotaCheck :=
  {| qc_api_key := "k"; qc_prompt_tokens := 1; qc_reserved_generated_tokens := 50 |}.
Definition rollover_1 := reserve 1 "a" fifty (new rollover_limits).
Definition rollover_2 := reserve 2 "b" fifty rollover_1.2.
Definition granted (p : result QuotaError QuotaReservation * InMemoryQuotaLimiter)
    : QuotaReservation :=
  match p.1 with
  | Ok r => r
  | Err _ => {| qr_id := ""; qr_api_key := ""; qr_prompt_tokens := 0;
                qr_reserved_generated_tokens := 0; remaining_requests := 0;
                remaining_prompt_tokens := 0; remaining_generated_tokens := 0 |}
  end.


Lemma reconcile_exactly_once_witness :
  ∃ l', reconcile "r" 12 one_reservation = (Ok 28%N, l')
    ∧ (cancel "r" l').1 = Err ReservationNotFound.
Proof.
  destruct (reconcile_exactly_once "r" 12 one_reservation
    {| qr_id := "r"; qr_api_key := "key"; qr_prompt_tokens := 10;
       qr_reserved_generated_tokens := 40; remaining_requests := 1;
       remaining_prompt_tokens := 90; remaining_generated_tokens := 10 |})
    as (l' & Hl & _ & _ & Hagain); [by vm_compute|].
  exists l'. split; [done|apply (Hagain 0%N)].
Defined.
