(* ===== verification/Valkey.v ===== *)
(** * The broker: the Valkey commands the program sends

    Valkey is a service and not part of the repository.  This file names the
    commands the program sends with the replies it reads ([command],
    [reply]), and states, as an interface, the documented behaviour the
    program relies on: [Valkey] is the server (what a command does to its
    data set), [ValkeyView] what can be observed of a data set, and
    [ValkeyLaws] the laws of each command.  Every definition of the program
    takes the server as a parameter; [RefServer] shows that the laws can be
    met. *)
From stdpp Require Import options.
From S2P Require Import Prelude Text.
Set Warnings "-register-all".

(** ** Replies *)

(** [redis::Value].  The program tells arrays and bulk strings from anything
    else; the variants it never looks at are lumped into [VOther]. *)
Inductive Value : Type :=
| VNil
| VInt (n : Z)
| VBulkString (b : bytes)
| VArray (l : list Value)
| VSimpleString (s : string)
| VOkay
| VOther (debug : string).

(** A field of a stream entry or of a hash. *)
Abbreviation field := (string * string)%type.

(** ** Commands

    [SET_NX_PX] is [SET key value NX PX ms]; [XGROUP_CREATE] has [MKSTREAM];
    the reads have [COUNT 1] and the number of milliseconds they block;
    [XADD] is called with the identifier [*]. *)
Inductive counter_op : Type := INCR | INCRBY (by_ : string) | DECR | DECRBY (by_ : string).

Inductive command : Type :=
| GET (k : string)
| SET_NX_PX (k v : string) (ms : N)
| DEL (k : string)
| EXISTS (ks : list string)
| EXPIRE (k : string) (secs : N)
| PEXPIRE (k : string) (ms : N)
| COUNTER (op : counter_op) (k : string)
| HSET (k : string) (fs : list field)
| HGET (k f : string)
| HMGET (k : string) (fs : list string)
| XADD (k : string) (fs : list field)
| XGROUP_CREATE (k group start : string)
| XREADGROUP (group consumer : string) (block : N) (k : string)
| XAUTOCLAIM (k group consumer : string) (idle : N) (start : string)
| XACK (k group id : string)
| XREAD (block : N) (k after : string).

Definition reply (c : command) : Type :=
  match c with
  | GET _ | SET_NX_PX _ _ _ | HGET _ _ => option string
  | HMGET _ _ => list (option string)
  | XADD _ _ => string
  | XGROUP_CREATE _ _ _ | XREADGROUP _ _ _ _ | XAUTOCLAIM _ _ _ _ _
  | XREAD _ _ _ => Value
  | _ => Z
  end.

(** The server: a command either answers or fails, and acts on the data set;
    [elapse] lets time pass (in milliseconds). *)
Class Valkey (DB : Type) := {
  exec (c : command) : DB → result string (reply c) * DB;
  elapse : N → DB → DB;
}.

(** ** Observations *)

(** Stream identifiers: milliseconds and sequence number. *)
Abbreviation stream_id := (N * N)%type.
Definition show_id (i : stream_id) : string := pretty i.1 +:+ "-" +:+ pretty i.2.
Definition id_lt (i j : stream_id) : Prop := (i.1 < j.1 ∨ i.1 = j.1 ∧ i.2 < j.2)%N.
#[export] Instance id_lt_dec i j : Decision (id_lt i j).
Proof. unfold id_lt. apply _. Defined.

Definition id_ok (i : stream_id) : Prop := (i.1 < u64_modulus ∧ i.2 < u64_modulus)%N.

(** A pending entry of a consumer group: its owner and the server time of its
    last delivery. *)
Record pending_entry := { pe_id : stream_id; pe_consumer : string; pe_delivered : N }.
Record group := { g_delivered : stream_id; g_pending : list pending_entry }.
Record stream := {
  s_entries : list (stream_id * list field);
  s_last : stream_id;
  s_groups : gmap string group;
}.
Definition empty_stream : stream :=
  {| s_entries := []; s_last := (0, 0)%N; s_groups := ∅ |}.

Inductive obj : Type :=
| OString (s : string)
| OHash (h : gmap string string)
| OStream (s : stream).

(** What is stored under a live key, and how long it lives ([None]: no
    expiry); the server's clock, in milliseconds. *)
Class ValkeyView (DB : Type) := {
  obj_at : DB → string → option obj;
  ttl_at : DB → string → option N;
  server_time : DB → N;
}.

(** ** Helpers to state the laws *)
Section view.
Context `{ValkeyView DB}.

Definition same_key (k : string) (db db' : DB) : Prop :=
  obj_at db' k = obj_at db k ∧ ttl_at db' k = ttl_at db k.
(** Only [k] may differ. *)
Definition only (k : string) (db db' : DB) : Prop :=
  ∀ k', k' ≠ k → same_key k' db db'.

Definition string_at (db : DB) (k : string) : option string :=
  match obj_at db k with Some (OString s) => Some s | _ => None end.
Definition hash_at (db : DB) (k : string) : option (gmap string string) :=
  match obj_at db k with
  | None => Some ∅ | Some (OHash h) => Some h | Some _ => None end.
Definition stream_at (db : DB) (k : string) : option stream :=
  match obj_at db k with
  | None => Some empty_stream | Some (OStream s) => Some s | Some _ => None end.

(** The integer a counter holds; a missing key counts as 0. *)
Definition counter_at (db : DB) (k : string) (z : Z) : Prop :=
  match obj_at db k with
  | None => z = 0%Z | Some (OString s) => s = pretty z | Some _ => False end.

End view.

Definition i64 (z : Z) : Prop := (- 2 ^ 63 ≤ z < 2 ^ 63)%Z.

(** The signed amount of a counter operation; the argument is sent as a
    decimal [i64]. *)
Definition counter_amount (op : counter_op) (d : Z) : Prop :=
  match op with
  | INCR => d = 1%Z
  | DECR => d = (-1)%Z
  | INCRBY by_ => i64 d ∧ by_ = pretty d
  | DECRBY by_ => i64 (- d) ∧ by_ = pretty (- d)%Z
  end.

(** [HSET] keeps the fields it does not name; the last value of a field wins. *)
Definition hset_fields (fs : list field) (h : gmap string string) : gmap string string :=
  foldl (λ h f, <[f.1 := f.2]> h) h fs.

(** The array a stream entry is sent as. *)
Definition fields_value (fs : list field) : Value :=
  VArray (concat ((λ f : field, [VBulkString f.1; VBulkString f.2]) <$> fs)).
Definition entry_value (e : stream_id * list field) : Value :=
  VArray [VBulkString (show_id e.1); fields_value e.2].
(** The reply of [XREAD] and [XREADGROUP] for one stream and one entry. *)
Definition read_value (k : string) (e : option (stream_id * list field)) : Value :=
  match e with
  | None => VNil
  | Some e => VArray [VArray [VBulkString k; VArray [entry_value e]]]
  end.
(** The first entry after an identifier. *)
Definition first_after (i : stream_id) (s : stream) : option (stream_id * list field) :=
  head (filter (λ e, id_lt i e.1) (s_entries s)).

(** ** Consumer groups

    A group delivers the entries of a stream in order; a delivered entry is
    pending, in the order of the identifiers, until it is acknowledged.
    [XAUTOCLAIM] with [COUNT 1] looks at ten pending entries at most, from
    [start] on, and hands over the first one that has been idle for long
    enough. *)
Definition with_group (s : stream) (g : string) (grp : group) : stream :=
  {| s_entries := s_entries s; s_last := s_last s; s_groups := <[g := grp]> (s_groups s) |}.
Definition new_group : group := {| g_delivered := (0, 0)%N; g_pending := [] |}.

Definition group_deliver (consumer : string) (now : N) (i : stream_id) (grp : group) : group :=
  {| g_delivered := i;
     g_pending := g_pending grp
       ++ [{| pe_id := i; pe_consumer := consumer; pe_delivered := now |}] |}.

Definition claim_scan : nat := 10.
Definition claimable (idle now : N) (start : stream_id) (grp : group) : option pending_entry :=
  head (filter (λ p, (idle ≤ now - pe_delivered p)%N)
    (take claim_scan (filter (λ p, ¬ id_lt (pe_id p) start) (g_pending grp)))).
Definition group_claim (consumer : string) (now : N) (i : stream_id) (grp : group) : group :=
  {| g_delivered := g_delivered grp;
     g_pending := (λ p, if decide (pe_id p = i)
       then {| pe_id := i; pe_consumer := consumer; pe_delivered := now |} else p)
       <$> g_pending grp |}.

Definition group_ack (i : stream_id) (grp : group) : group :=
  {| g_delivered := g_delivered grp; g_pending := filter (λ p, pe_id p ≠ i) (g_pending grp) |}.

(** The reply of [XAUTOCLAIM] for one entry, or none, with the cursor to go
    on from. *)
Definition claim_value (cursor : string) (e : option (stream_id * list field)) : Value :=
  VArray [VBulkString cursor; VArray (entry_value <$> option_list e); VArray []].

(** ** The laws

    One field per command, for the arguments and the states the program
    meets; a command of a missing or mistyped key may do anything the law
    does not say. *)
Class ValkeyLaws (DB : Type) `{Valkey DB, ValkeyView DB} := {
  (** Time: a key dies when its time to live runs out. *)
  elapse_obj d db k : obj_at (elapse d db) k =
    match ttl_at db k with
    | Some t => if (t <=? d)%N then None else obj_at db k
    | None => obj_at db k
    end;
  elapse_ttl d db k : ttl_at (elapse d db) k =
    match ttl_at db k with
    | Some t => if (t <=? d)%N then None else Some (t - d)%N
    | None => None
    end;
  ttl_dead db k : obj_at db k = None → ttl_at db k = None;
  elapse_time d db : server_time (elapse d db) = (server_time db + d)%N;
  exec_time c db : server_time (exec c db).2 = server_time db;
  (** Reads. *)
  exec_get_none db k : obj_at db k = None → exec (GET k) db = (Ok None, db);
  exec_get_some db k s : obj_at db k = Some (OString s) →
    exec (GET k) db = (Ok (Some s), db);
  exec_hget db k h f : hash_at db k = Some h →
    exec (HGET k f) db = (Ok (h !! f), db);
  exec_hmget db k h fs : hash_at db k = Some h →
    exec (HMGET k fs) db = (Ok ((λ f, h !! f) <$> fs), db);
  exec_exists db ks :
    exec (EXISTS ks) db
    = (Ok (Z.of_nat (length (filter (λ k, is_Some (obj_at db k)) ks))), db);
  exec_xread db block k i s : stream_at db k = Some s → id_ok i →
    exec (XREAD block k (show_id i)) db = (Ok (read_value k (first_after i s)), db);
  (** Strings and expiry. *)
  exec_set_nx_taken db k v ms : (0 < ms)%N → is_Some (obj_at db k) →
    exec (SET_NX_PX k v ms) db = (Ok None, db);
  exec_set_nx_free db k v ms : (0 < ms < 2 ^ 62)%N → obj_at db k = None →
    ∃ db', exec (SET_NX_PX k v ms) db = (Ok (Some "OK"), db')
      ∧ obj_at db' k = Some (OString v) ∧ ttl_at db' k = Some ms ∧ only k db db';
  exec_del db k :
    ∃ db', exec (DEL k) db = (Ok (if obj_at db k is Some _ then 1 else 0)%Z, db')
      ∧ obj_at db' k = None ∧ only k db db';
  exec_pexpire db k ms : (0 < ms < 2 ^ 62)%N → is_Some (obj_at db k) →
    ∃ db', exec (PEXPIRE k ms) db = (Ok 1%Z, db')
      ∧ obj_at db' k = obj_at db k ∧ ttl_at db' k = Some ms ∧ only k db db';
  exec_expire db k secs : (0 < secs < 2 ^ 52)%N → is_Some (obj_at db k) →
    ∃ db', exec (EXPIRE k secs) db = (Ok 1%Z, db')
      ∧ obj_at db' k = obj_at db k ∧ ttl_at db' k = Some (secs * 1000)%N
      ∧ only k db db';
  (** Counters: the amount is added; a new counter has no expiry. *)
  exec_counter db op k d z :
    counter_amount op d → counter_at db k z → i64 z → i64 (z + d) →
    ∃ db', exec (COUNTER op k) db = (Ok (z + d)%Z, db')
      ∧ obj_at db' k = Some (OString (pretty (z + d)%Z))
      ∧ ttl_at db' k = ttl_at db k ∧ only k db db';
  (** Hashes. *)
  exec_hset db k h fs : hash_at db k = Some h → fs ≠ [] →
    ∃ n db', exec (HSET k fs) db = (Ok n, db')
      ∧ obj_at db' k = Some (OHash (hset_fields fs h))
      ∧ ttl_at db' k = ttl_at db k ∧ only k db db';
  (** Streams: an entry is appended with an identifier above all others,
      whose time is the clock's, or follows the last one. *)
  exec_xadd db k s fs : stream_at db k = Some s → fs ≠ [] →
    id_ok (s_last s) → (fst (s_last s) < u64_max)%N →
    ∃ i db', exec (XADD k fs) db = (Ok (show_id i), db')
      ∧ id_lt (s_last s) i ∧ id_ok i
      ∧ (i.1 ≤ N.max (server_time db) (s_last s).1 + 1)%N
      ∧ obj_at db' k = Some (OStream {| s_entries := s_entries s ++ [(i, fs)];
                                        s_last := i; s_groups := s_groups s |})
      ∧ ttl_at db' k = ttl_at db k ∧ only k db db';
  (** Consumer groups. *)
  exec_xgroup_new db k g s : stream_at db k = Some s → s_groups s !! g = None →
    ∃ db', exec (XGROUP_CREATE k g "0-0") db = (Ok VOkay, db')
      ∧ obj_at db' k = Some (OStream (with_group s g new_group))
      ∧ ttl_at db' k = ttl_at db k ∧ only k db db';
  exec_xgroup_busy db k g s : stream_at db k = Some s → is_Some (s_groups s !! g) →
    exec (XGROUP_CREATE k g "0-0") db
    = (Err "BUSYGROUP Consumer Group name already exists", db);
  exec_xreadgroup_none db g c block k s grp :
    stream_at db k = Some s → s_groups s !! g = Some grp →
    first_after (g_delivered grp) s = None →
    exec (XREADGROUP g c block k) db = (Ok VNil, db);
  exec_xreadgroup_some db g c block k s grp e :
    stream_at db k = Some s → s_groups s !! g = Some grp →
    first_after (g_delivered grp) s = Some e →
    ∃ db', exec (XREADGROUP g c block k) db = (Ok (read_value k (Some e)), db')
      ∧ obj_at db' k
        = Some (OStream (with_group s g (group_deliver c (server_time db) e.1 grp)))
      ∧ ttl_at db' k = ttl_at db k ∧ only k db db';
  exec_xautoclaim_none db k g c idle start s grp : id_ok start →
    stream_at db k = Some s → s_groups s !! g = Some grp →
    claimable idle (server_time db) start grp = None →
    ∃ cursor, exec (XAUTOCLAIM k g c idle (show_id start)) db
      = (Ok (claim_value cursor None), db);
  exec_xautoclaim_some db k g c idle start s grp p fs : id_ok start →
    stream_at db k = Some s → s_groups s !! g = Some grp →
    claimable idle (server_time db) start grp = Some p →
    (pe_id p, fs) ∈ s_entries s → NoDup (s_entries s).*1 →
    ∃ cursor db', exec (XAUTOCLAIM k g c idle (show_id start)) db
        = (Ok (claim_value cursor (Some (pe_id p, fs))), db')
      ∧ obj_at db' k
        = Some (OStream (with_group s g (group_claim c (server_time db) (pe_id p) grp)))
      ∧ ttl_at db' k = ttl_at db k ∧ only k db db';
  exec_xack db k g i s grp : id_ok i →
    stream_at db k = Some s → s_groups s !! g = Some grp → NoDup (pe_id <$> g_pending grp) →
    ∃ db', exec (XACK k g (show_id i)) db
        = (Ok (if decide (i ∈ pe_id <$> g_pending grp) then 1 else 0)%Z, db')
      ∧ obj_at db' k = Some (OStream (with_group s g (group_ack i grp)))
      ∧ ttl_at db' k = ttl_at db k ∧ only k db db';
}.
