(* ===== verification/Lua.v ===== *)
(** * The Lua scripts of crates/inference-streams/src/lib.rs

    [RESERVE_QUOTA_LUA], [RECONCILE_QUOTA_LUA], [CANCEL_QUOTA_LUA] and the
    two lease scripts run inside the server, atomically.  A script is a tree
    of [redis.call]s ([lua]); a failing call or an arithmetic operation on
    [nil] aborts it, and what it did before stays done.

    Lua numbers are doubles.  The scripts only compute with integers, so a
    number is a [Z] that every operation rounds to the nearest double
    ([lnum]); below [2^53] nothing is rounded ([lnum_exact]). *)
From stdpp Require Import options.
From S2P Require Import Prelude Text Valkey.

(** ** Numbers *)

(** Round an integer to 53 significant bits, ties to even. *)
Definition lnum (z : Z) : Z :=
  let a := Z.abs z in
  if (a <=? 2 ^ 53)%Z then z else
  let unit_ := (2 ^ (Z.log2 a - 52))%Z in
  let q := (a / unit_)%Z in
  let r := (a mod unit_)%Z in
  let up := (unit_ <? 2 * r)%Z || ((2 * r =? unit_)%Z && Z.odd q) in
  (Z.sgn z * ((if up then q + 1 else q) * unit_))%Z.

(** The server's and the interpreter's conversions: [tonumber], the text of
    a number passed to [redis.call], the integer reply of a returned number. *)
Class LuaNumbers := {
  tonumber : string → option Z;
  lua_show : Z → string;
  to_reply : Z → Z;
}.

(** The integers on which no conversion loses anything. *)
Definition exact (z : Z) : Prop := (- 2 ^ 53 ≤ z ≤ 2 ^ 53)%Z.

Class LuaNumberLaws `{LuaNumbers} := {
  tonumber_pretty z : exact z → tonumber (pretty z) = Some z;
  lua_show_exact z : exact z → lua_show z = pretty z;
  to_reply_exact z : exact z → to_reply z = z;
}.

(** ** Scripts *)
Inductive lua (A : Type) : Type :=
| LRet (a : A)
| LRaise (e : string)
| LCall (c : command) (k : reply c → lua A).
Arguments LRet {A} a.
Arguments LRaise {A} e.
Arguments LCall {A} c k.

Fixpoint lua_bind {A B} (p : lua A) (f : A → lua B) : lua B :=
  match p with
  | LRet a => f a
  | LRaise e => LRaise e
  | LCall c k => LCall c (λ r, lua_bind (k r) f)
  end.
#[export] Instance lua_ret : MRet lua := @LRet.
#[export] Instance lua_mbind : MBind lua := λ A B f p, lua_bind p f.

Definition redis_call (c : command) : lua (reply c) := LCall c LRet.

(** Arithmetic on [nil] raises. *)
Definition num (x : option Z) : lua Z :=
  match x with
  | Some z => LRet z
  | None => LRaise "attempt to perform arithmetic on a nil value"
  end.

(** Run a script on the data set of a server. *)
Fixpoint run_lua `{Valkey DB} {A} (p : lua A) (db : DB) : result string A * DB :=
  match p with
  | LRet a => (Ok a, db)
  | LRaise e => (Err e, db)
  | LCall c k =>
    match exec c db with
    | (Ok r, db) => run_lua (k r) db
    | (Err e, db) => (Err e, db)
    end
  end.

(** The reply of a script: an integer or an array of integers. *)
Inductive lua_reply : Type := RInt (z : Z) | RInts (l : list Z).

(** An integer argument as the server reads it. *)
Definition int_arg (a : string) : N := default 0%N (parse_u64 a).

Section scripts.
Context `{LuaNumbers}.

(** [tonumber(redis.call('GET', key) or '0')] *)
Definition get_number (key : string) : lua (option Z) :=
  v ← redis_call (GET key);
  mret (tonumber (default "0" v)).

(** [tonumber(redis.call('HGET', key, f) or '0')] *)
Definition hget_number (key f : string) : lua (option Z) :=
  v ← redis_call (HGET key f);
  mret (tonumber (default "0" v)).

(** The writes of [RESERVE_QUOTA_LUA], after its three tests. *)
Definition reserve_commit (key1 key2 key3 key4 arg6 : string)
    (requests prompt generated prompt_add generated_add limit3 limit4 limit5 : Z)
    : lua lua_reply :=
  redis_call (COUNTER INCR key1);;
  redis_call (COUNTER (INCRBY (lua_show prompt_add)) key2);;
  redis_call (COUNTER (INCRBY (lua_show generated_add)) key3);;
  redis_call (EXPIRE key1 (int_arg arg6));;
  redis_call (EXPIRE key2 (int_arg arg6));;
  redis_call (EXPIRE key3 (int_arg arg6));;
  redis_call (HSET key4 [("status", "reserved"); ("requests_key", key1);
    ("prompt_key", key2); ("generated_key", key3);
    ("prompt", lua_show prompt_add); ("generated", lua_show generated_add)]);;
  redis_call (EXPIRE key4 (int_arg arg6));;
  mret (RInts [1;
    to_reply (lnum (lnum (limit3 - requests) - 1));
    to_reply (lnum (lnum (limit4 - prompt) - prompt_add));
    to_reply (lnum (lnum (limit5 - generated) - generated_add))]%Z).

Definition reserve_quota_lua (key1 key2 key3 key4 : string)
    (arg1 arg2 arg3 arg4 arg5 arg6 : string) : lua lua_reply :=
  requests ← get_number key1;
  prompt ← get_number key2;
  generated ← get_number key3;
  let prompt_add := tonumber arg1 in
  let generated_add := tonumber arg2 in
  requests ← num requests;
  limit3 ← num (tonumber arg3);
  if (limit3 <? lnum (requests + 1))%Z then mret (RInts [0; 1]%Z) else
  prompt ← num prompt; prompt_add ← num prompt_add;
  limit4 ← num (tonumber arg4);
  if (limit4 <? lnum (prompt + prompt_add))%Z then mret (RInts [0; 2]%Z) else
  generated ← num generated; generated_add ← num generated_add;
  limit5 ← num (tonumber arg5);
  if (limit5 <? lnum (generated + generated_add))%Z then mret (RInts [0; 3]%Z) else
  reserve_commit key1 key2 key3 key4 arg6
    requests prompt generated prompt_add generated_add limit3 limit4 limit5.

(** [if key then redis.call('DECRBY', key, amount) end] *)
Definition decrby_if (key : option string) (amount : option Z) : lua unit :=
  match key with
  | Some key => amount ← num amount;
                redis_call (COUNTER (DECRBY (lua_show amount)) key);; mret tt
  | None => mret tt
  end.

Definition reconcile_quota_lua (key1 arg1 : string) : lua lua_reply :=
  status ← redis_call (HGET key1 "status");
  if decide (status = Some "reserved") then
    reserved ← hget_number key1 "generated";
    reserved ← num reserved; actual ← num (tonumber arg1);
    let refund := Z.max (lnum (reserved - actual)) 0 in
    generated_key ← redis_call (HGET key1 "generated_key");
    (if (0 <? refund)%Z then decrby_if generated_key (Some refund) else mret tt);;
    redis_call (HSET key1 [("status", "reconciled");
      ("actual_generated", lua_show actual); ("refunded", lua_show refund)]);;
    mret (RInt (to_reply refund))
  else mret (RInt 0).

Definition cancel_quota_lua (key1 : string) : lua lua_reply :=
  status ← redis_call (HGET key1 "status");
  if decide (status = Some "reserved") then
    requests_key ← redis_call (HGET key1 "requests_key");
    prompt_key ← redis_call (HGET key1 "prompt_key");
    generated_key ← redis_call (HGET key1 "generated_key");
    prompt ← hget_number key1 "prompt";
    generated ← hget_number key1 "generated";
    (match requests_key with
     | Some key => redis_call (COUNTER DECR key);; mret tt
     | None => mret tt
     end);;
    decrby_if prompt_key prompt;;
    decrby_if generated_key generated;;
    redis_call (HSET key1 [("status", "cancelled")]);;
    mret (RInt 1)
  else mret (RInt 0).

Definition release_lease_lua (key1 arg1 : string) : lua lua_reply :=
  v ← redis_call (GET key1);
  if decide (v = Some arg1)
  then n ← redis_call (DEL key1); mret (RInt n)
  else mret (RInt 0).

Definition renew_lease_lua (key1 arg1 arg2 : string) : lua lua_reply :=
  v ← redis_call (GET key1);
  if decide (v = Some arg1)
  then redis_call (PEXPIRE key1 (int_arg arg2));; mret (RInt 1)
  else mret (RInt 0).

(** The scripts by name, with their keys and arguments. *)
Inductive script : Type :=
| ReserveQuota (key1 key2 key3 key4 arg1 arg2 arg3 arg4 arg5 arg6 : string)
| ReconcileQuota (key1 arg1 : string)
| CancelQuota (key1 : string)
| ReleaseLease (key1 arg1 : string)
| RenewLease (key1 arg1 arg2 : string).

Definition script_body (s : script) : lua lua_reply :=
  match s with
  | ReserveQuota k1 k2 k3 k4 a1 a2 a3 a4 a5 a6 =>
      reserve_quota_lua k1 k2 k3 k4 a1 a2 a3 a4 a5 a6
  | ReconcileQuota k1 a1 => reconcile_quota_lua k1 a1
  | CancelQuota k1 => cancel_quota_lua k1
  | ReleaseLease k1 a1 => release_lease_lua k1 a1
  | RenewLease k1 a1 a2 => renew_lease_lua k1 a1 a2
  end.

End scripts.

(** ** Lemmas *)
Lemma lnum_exact z : exact z → lnum z = z.
Proof.
  intros Hz. unfold lnum. destruct (Z.abs z <=? 2 ^ 53)%Z eqn:E; [done|].
  apply Z.leb_gt in E. unfold exact in Hz. lia.
Qed.

Lemma run_lua_bind `{Valkey DB} {A B} (p : lua A) (f : A → lua B) (db : DB) :
  run_lua (p ≫= f) db =
  match run_lua p db with
  | (Ok a, db) => run_lua (f a) db
  | (Err e, db) => (Err e, db)
  end.
Proof.
  revert db. induction p as [a|e|c k IH]; intros db; [done..|].
  change (run_lua (LCall c (λ r, lua_bind (k r) f)) db = match run_lua (LCall c k) db with
    | (Ok a, db) => run_lua (f a) db | (Err e, db) => (Err e, db) end).
  simpl. destruct (exec c db) as [[r|e] db']; [apply IH|done].
Qed.

Lemma run_lua_ret `{Valkey DB} {A} (a : A) (db : DB) : run_lua (mret a) db = (Ok a, db).
Proof. done. Qed.

Lemma run_lua_call `{Valkey DB} c (db : DB) : run_lua (redis_call c) db = exec c db.
Proof. unfold redis_call. simpl. by destruct (exec c db) as [[]]. Qed.
#[export] Hint Rewrite @run_lua_bind @run_lua_ret @run_lua_call : idp.
