(* ===== verification/RefServer.v ===== *)
(** * A reference broker

    An executable server that satisfies [ValkeyLaws], and number conversions
    that satisfy [LuaNumberLaws].  No theorem about the program depends on
    it: it shows that the interface can be implemented, and the examples run
    on it. *)
From Stdlib Require Import Ascii.
From stdpp Require Import options.
From S2P Require Import Prelude Text Valkey Lua.

Record ref_db := {
  r_keys : gmap string (obj * option N);
  r_now : N;
}.

Definition ref_empty (now : N) : ref_db := {| r_keys := ∅; r_now := now |}.

Definition put (k : string) (o : obj) (t : option N) (db : ref_db) : ref_db :=
  {| r_keys := <[k := (o, t)]> (r_keys db); r_now := r_now db |}.
Definition del (k : string) (db : ref_db) : ref_db :=
  {| r_keys := delete k (r_keys db); r_now := r_now db |}.

Definition ref_obj (db : ref_db) (k : string) : option obj := fst <$> r_keys db !! k.
Definition ref_ttl (db : ref_db) (k : string) : option N := (r_keys db !! k) ≫= snd.

Definition age (d : N) (v : obj * option N) : option (obj * option N) :=
  match v.2 with
  | Some t => if (t <=? d)%N then None else Some (v.1, Some (t - d)%N)
  | None => Some v
  end.
Definition ref_elapse (d : N) (db : ref_db) : ref_db :=
  {| r_keys := omap (age d) (r_keys db); r_now := r_now db + d |}.

(** Signed decimal numbers. *)
Definition parse_z (s : string) : option Z :=
  match s with
  | String "-"%char s' => n ← parse_digits s' 0; Some (- Z.of_N n)%Z
  | EmptyString => None
  | _ => n ← parse_digits s 0; Some (Z.of_N n)
  end.

Definition parse_id (s : string) : option stream_id :=
  '(a, b) ← split_once "-"%char s;
  match a, b with
  | EmptyString, _ | _, EmptyString => None
  | _, _ => x ← parse_digits a 0; y ← parse_digits b 0; Some (x, y)
  end.

Definition wrongtype {A} : result string A :=
  Err "WRONGTYPE Operation against a key holding the wrong kind of value".

Definition op_amount (op : counter_op) : option Z :=
  match op with
  | INCR => Some 1%Z
  | DECR => Some (-1)%Z
  | INCRBY s => parse_z s
  | DECRBY s => Z.opp <$> parse_z s
  end.

Definition is_i64 (z : Z) : bool := (- 2 ^ 63 <=? z)%Z && (z <? 2 ^ 63)%Z.

Definition ref_counter (op : counter_op) (k : string) (db : ref_db) : result string Z * ref_db :=
  let value := match ref_obj db k with
    | None => Some 0%Z | Some (OString s) => parse_z s | Some _ => None end in
  match op_amount op, value with
  | Some d, Some z =>
      if is_i64 (z + d)
      then (Ok (z + d)%Z, put k (OString (pretty (z + d)%Z)) (ref_ttl db k) db)
      else (Err "ERR increment or decrement would overflow", db)
  | _, _ => (Err "ERR value is not an integer or out of range", db)
  end.

Definition ref_stream (db : ref_db) (k : string) : option stream :=
  match ref_obj db k with
  | None => Some empty_stream | Some (OStream s) => Some s | Some _ => None end.

Definition next_id (now : N) (last : stream_id) : stream_id :=
  if (last.1 <? now)%N && (now <? u64_modulus)%N then (now, 0%N)
  else if (last.2 <? u64_max)%N then (last.1, last.2 + 1)%N
  else (last.1 + 1, 0)%N.

Definition ref_group (k g : string) (db : ref_db) : option (stream * group) :=
  s ← ref_stream db k; grp ← s_groups s !! g; Some (s, grp).
Definition put_group (k g : string) (s : stream) (grp : group) (db : ref_db) : ref_db :=
  put k (OStream (with_group s g grp)) (ref_ttl db k) db.

Definition ref_xreadgroup (g consumer k : string) (db : ref_db) : result string Value * ref_db :=
  match ref_group k g db with
  | None => (Err "NOGROUP No such key or consumer group", db)
  | Some (s, grp) =>
    match first_after (g_delivered grp) s with
    | None => (Ok VNil, db)
    | Some e =>
      (Ok (read_value k (Some e)),
       put_group k g s (group_deliver consumer (r_now db) e.1 grp) db)
    end
  end.

Definition ref_xautoclaim (k g consumer : string) (idle : N) (start : stream_id) (db : ref_db)
    : result string Value * ref_db :=
  match ref_group k g db with
  | None => (Err "NOGROUP No such key or consumer group", db)
  | Some (s, grp) =>
    match claimable idle (r_now db) start grp with
    | None => (Ok (claim_value "0-0" None), db)
    | Some p =>
      let found := head (filter (λ e : stream_id * list field, e.1 = pe_id p) (s_entries s)) in
      (Ok (claim_value "0-0" found),
       put_group k g s (group_claim consumer (r_now db) (pe_id p) grp) db)
    end
  end.

Definition ref_xack (k g id : string) (db : ref_db) : result string Z * ref_db :=
  match x ← ref_group k g db; i ← parse_id id; Some (x, i) with
  | None => (Ok 0%Z, db)
  | Some (s, grp, i) =>
    (Ok (if decide (i ∈ pe_id <$> g_pending grp) then 1 else 0)%Z,
     put_group k g s (group_ack i grp) db)
  end.

Definition ref_exec (c : command) (db : ref_db) : result string (reply c) * ref_db :=
  match c return result string (reply c) * ref_db with
  | GET k =>
    match ref_obj db k with
    | None => (Ok None, db) | Some (OString s) => (Ok (Some s), db) | _ => (wrongtype, db) end
  | SET_NX_PX k v ms =>
    if (ms =? 0)%N then (Err "ERR invalid expire time in 'set' command", db) else
    match ref_obj db k with
    | Some _ => (Ok None, db)
    | None => (Ok (Some "OK"), put k (OString v) (Some ms) db) end
  | DEL k => (Ok (if ref_obj db k is Some _ then 1 else 0)%Z, del k db)
  | EXISTS ks =>
    (Ok (Z.of_nat (length (filter (λ k, is_Some (ref_obj db k)) ks))), db)
  | EXPIRE k secs =>
    match ref_obj db k with
    | None => (Ok 0%Z, db)
    | Some o => (Ok 1%Z, if (secs =? 0)%N then del k db
                         else put k o (Some (secs * 1000)%N) db) end
  | PEXPIRE k ms =>
    match ref_obj db k with
    | None => (Ok 0%Z, db)
    | Some o => (Ok 1%Z, if (ms =? 0)%N then del k db else put k o (Some ms) db) end
  | COUNTER op k => ref_counter op k db
  | HSET k fs =>
    match ref_obj db k with
    | None => (Ok (Z.of_nat (length fs)), put k (OHash (hset_fields fs ∅)) None db)
    | Some (OHash h) =>
      (Ok (Z.of_nat (length (filter (λ f : field, h !! f.1 = None) fs))),
       put k (OHash (hset_fields fs h)) (ref_ttl db k) db)
    | _ => (wrongtype, db) end
  | HGET k f =>
    match ref_obj db k with
    | None => (Ok None, db) | Some (OHash h) => (Ok (h !! f), db) | _ => (wrongtype, db) end
  | HMGET k fs =>
    match ref_obj db k with
    | None => (Ok ((λ _, None) <$> fs), db)
    | Some (OHash h) => (Ok ((λ f, h !! f) <$> fs), db)
    | _ => (wrongtype, db) end
  | XADD k fs =>
    match ref_stream db k with
    | None => (wrongtype, db)
    | Some s =>
      let i := next_id (r_now db) (s_last s) in
      (Ok (show_id i),
       put k (OStream {| s_entries := s_entries s ++ [(i, fs)]; s_last := i;
                         s_groups := s_groups s |}) (ref_ttl db k) db) end
  | XGROUP_CREATE k g start =>
    match s ← ref_stream db k; i ← parse_id start; Some (s, i) with
    | None => (Err "ERR Invalid stream ID specified as stream command argument", db)
    | Some (s, i) =>
      match s_groups s !! g with
      | Some _ => (Err "BUSYGROUP Consumer Group name already exists", db)
      | None => (Ok VOkay, put_group k g s
          {| g_delivered := i; g_pending := [] |} db)
      end end
  | XREADGROUP g consumer _ k => ref_xreadgroup g consumer k db
  | XAUTOCLAIM k g consumer idle start =>
    match parse_id start with
    | Some i => ref_xautoclaim k g consumer idle i db
    | None => (Err "ERR Invalid stream ID specified as stream command argument", db) end
  | XACK k g id => ref_xack k g id db
  | XREAD _ k after =>
    match s ← ref_stream db k; i ← parse_id after; Some (s, i) with
    | Some (s, i) => (Ok (read_value k (first_after i s)), db)
    | None => (Err "ERR Invalid stream ID specified as stream command argument", db) end
  end.

#[export] Instance ref_valkey : Valkey ref_db := {| exec := ref_exec; elapse := ref_elapse |}.
#[export] Instance ref_view : ValkeyView ref_db := 
  {| obj_at := ref_obj; ttl_at := ref_ttl; server_time := r_now |}.
#[export] Instance ref_numbers : LuaNumbers := {|
  tonumber s := lnum <$> parse_z s; lua_show := pretty; to_reply z := z |}.

(** ** Parsing *)
Lemma pretty_N_nonzero (p : positive) :
  ∃ c s', pretty (Npos p) = String c s' ∧ is_Some (digit c).
Proof. unfold pretty, pretty_N. rewrite decide_False by done. by apply pretty_N_go_head. Qed.

Lemma pretty_N_digits (n : N) :
  (n < u64_modulus)%N → parse_digits (pretty n) 0 = Some n.
Proof.
  intros Hn. unfold pretty, pretty_N. case_decide as H0; [by subst|].
  by rewrite parse_digits_pretty.
Qed.

Lemma parse_z_digits c s :
  is_Some (digit c) → parse_z (String c s) = n ← parse_digits (String c s) 0; Some (Z.of_N n).
Proof.
  intros [d Hd]. unfold parse_z. by destruct c as [[] [] [] [] [] [] [] []].
Qed.

Lemma parse_z_pretty z :
  (- Z.of_N u64_modulus < z < Z.of_N u64_modulus)%Z → parse_z (pretty z) = Some z.
Proof.
  intros Hz. destruct z as [|p|p]; [done| |].
  - change (pretty (Zpos p)) with (pretty (Npos p)).
    destruct (pretty_N_nonzero p) as (c & s' & Heq & Hd).
    rewrite Heq, parse_z_digits by done. rewrite <-Heq, pretty_N_digits by lia. done.
  - change ((n ← parse_digits (pretty (Npos p)) 0; Some (- Z.of_N n)%Z)
      = Some (Zneg p)).
    rewrite pretty_N_digits by lia. done.
Qed.

Lemma i64_bound z : i64 z → (- Z.of_N u64_modulus < z < Z.of_N u64_modulus)%Z.
Proof. unfold i64. change (Z.of_N u64_modulus) with (2 ^ 64)%Z. lia. Qed.

Lemma no_dash_pretty n s :
  char_in "-" s = false → char_in "-" (pretty_N_go n s) = false.
Proof.
  revert s. induction (N.lt_wf_0 n) as [n _ IH]; intros s Hs.
  destruct (decide (n = 0)%N) as [->|Hn]; [done|].
  rewrite pretty_N_go_step by lia. apply IH; [apply N.div_lt; lia|].
  simpl. rewrite Hs, orb_false_r. apply bool_decide_eq_false_2.
  unfold pretty_N_char. by repeat case_match.
Qed.

Lemma split_show_id (i : stream_id) :
  split_once "-" (show_id i) = Some (pretty i.1, pretty i.2).
Proof.
  unfold show_id. apply split_once_app. unfold pretty, pretty_N.
  case_decide; [done|]. by apply no_dash_pretty.
Qed.

Lemma parse_id_show i : id_ok i → parse_id (show_id i) = Some i.
Proof.
  intros [H1 H2]. unfold parse_id. rewrite split_show_id. simpl.
  pose proof (pretty_N_digits _ H1) as E1. pose proof (pretty_N_digits _ H2) as E2.
  destruct (pretty i.1) as [|c1 s1] eqn:P1; [|destruct (pretty i.2) as [|c2 s2] eqn:P2].
  - unfold pretty, pretty_N in P1. case_decide; [done|].
    destruct (pretty_N_go_head i.1 "" ltac:(lia)) as (?&?&Hc&_). congruence.
  - unfold pretty, pretty_N in P2. case_decide; [done|].
    destruct (pretty_N_go_head i.2 "" ltac:(lia)) as (?&?&Hc&_). congruence.
  - rewrite E1. cbn [mbind option_bind]. rewrite E2. by destruct i.
Qed.

(** ** The laws *)
Lemma ref_obj_put k o t db k' :
  ref_obj (put k o t db) k' = if decide (k = k') then Some o else ref_obj db k'.
Proof. unfold ref_obj, put. simpl. rewrite lookup_insert. by case_decide. Qed.
Lemma ref_ttl_put k o t db k' :
  ref_ttl (put k o t db) k' = if decide (k = k') then t else ref_ttl db k'.
Proof. unfold ref_ttl, put. simpl. rewrite lookup_insert. by case_decide. Qed.
Lemma ref_obj_del k db k' :
  ref_obj (del k db) k' = if decide (k = k') then None else ref_obj db k'.
Proof. unfold ref_obj, del. simpl. rewrite lookup_delete. by case_decide. Qed.
Lemma ref_ttl_del k db k' :
  ref_ttl (del k db) k' = if decide (k = k') then None else ref_ttl db k'.
Proof. unfold ref_ttl, del. simpl. rewrite lookup_delete. by case_decide. Qed.

Lemma only_put k o t db : only k db (put k o t db).
Proof.
  intros k' Hk. split; simpl; [rewrite ref_obj_put|rewrite ref_ttl_put];
    by rewrite decide_False.
Qed.
Lemma only_del k db : only k db (del k db).
Proof.
  intros k' Hk. split; simpl; [rewrite ref_obj_del|rewrite ref_ttl_del];
    by rewrite decide_False.
Qed.
Lemma ref_obj_put_eq k o t db : ref_obj (put k o t db) k = Some o.
Proof. rewrite ref_obj_put. by rewrite decide_True. Qed.
Lemma ref_ttl_put_eq k o t db : ref_ttl (put k o t db) k = t.
Proof. rewrite ref_ttl_put. by rewrite decide_True. Qed.
#[local] Hint Resolve only_put only_del ref_obj_put_eq ref_ttl_put_eq : core.

Lemma ref_ttl_dead db k : ref_obj db k = None → ref_ttl db k = None.
Proof. unfold ref_obj, ref_ttl. by destruct (r_keys db !! k). Qed.

Lemma ref_elapse_obj d db k : ref_obj (ref_elapse d db) k =
  match ref_ttl db k with
  | Some t => if (t <=? d)%N then None else ref_obj db k
  | None => ref_obj db k
  end.
Proof.
  unfold ref_obj, ref_ttl, ref_elapse. simpl. rewrite lookup_omap.
  destruct (r_keys db !! k) as [[o [t|]]|]; simpl; [|done..].
  unfold age. simpl. by case_match.
Qed.

Lemma ref_elapse_ttl d db k : ref_ttl (ref_elapse d db) k =
  match ref_ttl db k with
  | Some t => if (t <=? d)%N then None else Some (t - d)%N
  | None => None
  end.
Proof.
  unfold ref_ttl, ref_elapse. simpl. rewrite lookup_omap.
  destruct (r_keys db !! k) as [[o [t|]]|]; simpl; [|done..].
  unfold age. simpl. by case_match.
Qed.

Lemma next_id_ok now last :
  id_ok last → (fst last < u64_max)%N →
  id_lt last (next_id now last) ∧ id_ok (next_id now last)
  ∧ ((next_id now last).1 ≤ N.max now last.1 + 1)%N.
Proof.
  unfold id_ok, id_lt, next_id. intros [H1 H2] H3.
  repeat case_match; bool_to_prop; simpl; unfold u64_max in *;
    assert (0 < u64_modulus)%N by done; lia.
Qed.

Lemma op_amount_spec op d : counter_amount op d → op_amount op = Some d.
Proof.
  destruct op; simpl; try (intros; by subst).
  - intros [Hi ->]. by apply parse_z_pretty, i64_bound.
  - intros [Hi ->]. rewrite parse_z_pretty by (by apply i64_bound). simpl. f_equal. lia.
Qed.

Lemma is_i64_spec z : i64 z → is_i64 z = true.
Proof. unfold i64, is_i64. intros [??]. apply andb_true_iff. split; [by apply Z.leb_le|by apply Z.ltb_lt]. Qed.

Lemma ref_counter_spec db op k d z :
  counter_amount op d → counter_at db k z → i64 z → i64 (z + d) →
  ref_counter op k db
  = (Ok (z + d)%Z, put k (OString (pretty (z + d)%Z)) (ref_ttl db k) db).
Proof.
  intros Hop Hz Hi Hs. unfold ref_counter. rewrite (op_amount_spec _ _ Hop).
  unfold counter_at in Hz. simpl in Hz.
  destruct (ref_obj db k) as [[s|h|s]|] eqn:E; try done.
  - subst s. rewrite parse_z_pretty by (by apply i64_bound). by rewrite is_i64_spec.
  - subst z. by rewrite is_i64_spec.
Qed.

Lemma ref_group_at db k g s grp :
  stream_at db k = Some s → s_groups s !! g = Some grp → ref_group k g db = Some (s, grp).
Proof. intros Hs Hg. change (ref_stream db k = Some s) in Hs. unfold ref_group. by simplify_option_eq. Qed.

Lemma head_filter_id (l : list (stream_id * list field)) i fs :
  (i, fs) ∈ l → NoDup l.*1 → head (filter (λ e, e.1 = i) l) = Some (i, fs).
Proof.
  induction l as [|[j gs] l IH]; intros Hin Hnd; [by apply elem_of_nil in Hin|].
  rewrite fmap_cons in Hnd. apply NoDup_cons in Hnd as [Hj Hnd].
  apply elem_of_cons in Hin as [[= <- <-]|Hin].
  - by rewrite filter_cons_True.
  - rewrite filter_cons_False; [by apply IH|]. simpl. intros ->.
    apply Hj, list_elem_of_fmap. by exists (i, fs).
Qed.

(** No command touches the clock. *)
Lemma ref_exec_time c db : r_now (ref_exec c db).2 = r_now db.
Proof.
  destruct c; simpl; unfold ref_counter, ref_xreadgroup, ref_xautoclaim, ref_xack;
    by repeat case_match.
Qed.

#[export] Instance ref_laws : ValkeyLaws ref_db.
Proof.
  split; simpl.
  - apply ref_elapse_obj.
  - apply ref_elapse_ttl.
  - apply ref_ttl_dead.
  - done.
  - apply ref_exec_time.
  - by intros db k ->.
  - by intros db k s ->.
  - intros db k h f. unfold hash_at. simpl.
    destruct (ref_obj db k) as [[]|] eqn:E; intros; simplify_eq; [done|].
    by rewrite lookup_empty.
  - intros db k h fs. unfold hash_at. simpl.
    destruct (ref_obj db k) as [[]|] eqn:E; intros; simplify_eq; [done|].
    repeat f_equal.
  - done.
  - intros db block k i s Hs Hi. change (ref_stream db k = Some s) in Hs.
    rewrite Hs. simpl. by rewrite parse_id_show.
  - intros db k v ms Hms [o Ho]. rewrite Ho. by case_match eqn:E; bool_to_prop; [lia|].
  - intros db k v ms Hms Ho. rewrite Ho. case_match eqn:E; bool_to_prop; [lia|]. eauto 10.
  - intros db k. eexists. split; [done|]. split; [|done].
    rewrite ref_obj_del. by rewrite decide_True.
  - intros db k ms Hms [o Ho]. rewrite Ho. case_match eqn:E; bool_to_prop; [lia|]. eauto 10.
  - intros db k ms Hms [o Ho]. rewrite Ho. case_match eqn:E; bool_to_prop; [lia|]. eauto 10.
  - intros db op k d z Hop Hz Hi Hs. rewrite (ref_counter_spec db op k d z) by done. eauto 10.
  - intros db k h fs. unfold hash_at. simpl. intros Hh Hfs.
    destruct (ref_obj db k) as [[]|] eqn:E; simplify_eq; eauto 10.
    do 2 eexists. split; [done|]. split_and!; eauto.
    by rewrite ref_ttl_put_eq, ref_ttl_dead.
  - intros db k s fs Hs Hfs Hok Hlast. change (ref_stream db k = Some s) in Hs.
    rewrite Hs. destruct (next_id_ok (r_now db) (s_last s)) as (?&?&?); [done..|]. eauto 12.
  - intros db k g s Hs Hg. change (ref_stream db k = Some s) in Hs.
    rewrite Hs. simpl. rewrite Hg. unfold put_group. eauto 10.
  - intros db k g s Hs [grp Hg]. change (ref_stream db k = Some s) in Hs.
    rewrite Hs. simpl. by rewrite Hg.
  - intros db g c block k s grp Hs Hg He. unfold ref_xreadgroup.
    rewrite (ref_group_at db k g s grp) by done. by rewrite He.
  - intros db g c block k s grp e Hs Hg He. unfold ref_xreadgroup.
    rewrite (ref_group_at db k g s grp) by done. rewrite He. unfold put_group. eauto 10.
  - intros db k g c idle start s grp Hi Hs Hg Hp. rewrite parse_id_show by done.
    unfold ref_xautoclaim. rewrite (ref_group_at db k g s grp) by done. rewrite Hp. eauto.
  - intros db k g c idle start s grp p fs Hi Hs Hg Hp Hin Hnd. rewrite parse_id_show by done.
    unfold ref_xautoclaim. rewrite (ref_group_at db k g s grp) by done.
    rewrite Hp, (head_filter_id (s_entries s) (pe_id p) fs) by done. unfold put_group. eauto 10.
  - intros db k g i s grp Hi Hs Hg Hnd. unfold ref_xack.
    rewrite (ref_group_at db k g s grp) by done. simpl. rewrite parse_id_show by done.
    unfold put_group. eauto 10.
Qed.

#[export] Instance ref_number_laws : LuaNumberLaws.
Proof.
  split; simpl; [|done..]. intros z Hz.
  rewrite parse_z_pretty by (unfold exact in Hz; change (Z.of_N u64_modulus) with (2 ^ 64)%Z; lia).
  simpl. by rewrite lnum_exact.
Qed.
