(* ===== verification/Snapshot.v ===== *)
(** * Symbolic execution of commands and scripts

    A [snapshot] is what can be observed of a data set: the object and the
    time to live of every key.  The laws of [ValkeyLaws] become rules that
    step through a Lua script on a snapshot ([lua_wp]), so that the proofs
    about scripts are executions, not chains of frame conditions. *)
From stdpp Require Import functions options.
From S2P Require Import Prelude Text Valkey Lua.

#[local] Set Default Proof Using "Type*".

Abbreviation cell := (option obj * option N)%type.
Abbreviation snapshot := (string → cell).

(** What a cell holds. *)
Definition cell_string (c : cell) : option string :=
  match c.1 with Some (OString s) => Some s | _ => None end.
Definition cell_hash (c : cell) : option (gmap string string) :=
  match c.1 with None => Some ∅ | Some (OHash h) => Some h | Some _ => None end.
Definition cell_counter (c : cell) (z : Z) : Prop :=
  match c.1 with
  | None => z = 0%Z | Some (OString s) => s = pretty z | Some _ => False end.
Definition cell_stream (c : cell) : option stream :=
  match c.1 with
  | None => Some empty_stream | Some (OStream s) => Some s | Some _ => None end.

Section snapshot.
Context {DB : Type} `{ValkeyLaws DB}.

Definition snap (db : DB) : snapshot := λ k, (obj_at db k, ttl_at db k).

Definition sees (db : DB) (f : snapshot) : Prop := ∀ k, snap db k = f k.

Lemma sees_snap db : sees db (snap db).
Proof. done. Qed.

Lemma sees_obj db f k : sees db f → obj_at db k = (f k).1.
Proof. intros Hs. by rewrite <-(Hs k). Qed.

Lemma sees_ttl db f k : sees db f → ttl_at db k = (f k).2.
Proof. intros Hs. by rewrite <-(Hs k). Qed.

(** A change of one key is an update of the snapshot. *)
Lemma sees_only db db' f k c :
  sees db f → only k db db' → snap db' k = c → sees db' (<[k := c]> f).
Proof.
  intros Hs Ho Hc k'. destruct (decide (k = k')) as [->|Hne].
  - by rewrite fn_lookup_insert.
  - rewrite fn_lookup_insert_ne by done. rewrite <-(Hs k').
    destruct (Ho k' ltac:(done)) as [H1' H2']. unfold snap. by rewrite H1', H2'.
Qed.

(** Time on a snapshot. *)
Definition aged (d : N) (f : snapshot) : snapshot := λ k,
  match (f k).2 with
  | Some t => if (t <=? d)%N then (None, None) else ((f k).1, Some (t - d)%N)
  | None => f k
  end.

Lemma sees_elapse d db f : sees db f → sees (elapse d db) (aged d f).
Proof.
  intros Hs k. unfold snap, aged. rewrite elapse_obj, elapse_ttl, <-(Hs k). simpl.
  destruct (ttl_at db k) as [t|] eqn:Ht; [by case_match|]. unfold snap. by rewrite Ht.
Qed.

(** ** One command *)

(** [command_does c f r f']: on a data set that looks like [f], the command
    answers [r] and leaves one that looks like [f']. *)
Definition command_does (c : command) (f : snapshot) (r : reply c) (f' : snapshot) : Prop :=
  ∀ db, sees db f → ∃ db', exec c db = (Ok r, db') ∧ sees db' f'.

Lemma does_get k f v :
  (f k).1 = None ∧ v = None ∨ (∃ s, (f k).1 = Some (OString s) ∧ v = Some s) →
  command_does (GET k) f v f.
Proof.
  intros Hv db Hs. exists db. split; [|done].
  destruct Hv as [[Hn ->]|(s & Hk & ->)].
  - apply exec_get_none. by rewrite (sees_obj _ f).
  - apply exec_get_some. by rewrite (sees_obj _ f).
Qed.

Lemma does_hget k f h fld :
  cell_hash (f k) = Some h → command_does (HGET k fld) f (h !! fld) f.
Proof.
  intros Hh db Hs. exists db. split; [|done]. apply exec_hget.
  unfold hash_at. by rewrite (sees_obj _ f).
Qed.

Lemma does_hmget k f h fs :
  cell_hash (f k) = Some h → command_does (HMGET k fs) f ((λ fld, h !! fld) <$> fs) f.
Proof.
  intros Hh db Hs. exists db. split; [|done]. apply exec_hmget.
  unfold hash_at. by rewrite (sees_obj _ f).
Qed.

Lemma does_set_nx_free k v ms f :
  (0 < ms < 2 ^ 62)%N → (f k).1 = None →
  command_does (SET_NX_PX k v ms) f (Some "OK") (<[k := (Some (OString v), Some ms)]> f).
Proof.
  intros Hms Hk db Hs.
  destruct (exec_set_nx_free db k v ms Hms) as (db' & He & Ho & Ht & Hf).
  { by rewrite (sees_obj _ f). }
  exists db'. split; [done|]. eapply sees_only; [done..|]. unfold snap. by rewrite Ho, Ht.
Qed.

Lemma does_set_nx_taken k v ms f :
  (0 < ms)%N → is_Some (f k).1 → command_does (SET_NX_PX k v ms) f None f.
Proof.
  intros Hms Hk db Hs. exists db. split; [|done]. apply exec_set_nx_taken; [done|].
  by rewrite (sees_obj _ f).
Qed.

Lemma does_del k f :
  command_does (DEL k) f (if (f k).1 is Some _ then 1 else 0)%Z (<[k := (None, None)]> f).
Proof.
  intros db Hs. destruct (exec_del db k) as (db' & He & Ho & Hf).
  exists db'. split; [by rewrite He, (sees_obj _ f)|].
  eapply sees_only; [done..|]. unfold snap. by rewrite Ho, ttl_dead.
Qed.

Lemma does_pexpire k ms f :
  (0 < ms < 2 ^ 62)%N → is_Some (f k).1 →
  command_does (PEXPIRE k ms) f 1%Z (<[k := ((f k).1, Some ms)]> f).
Proof.
  intros Hms Hk db Hs. destruct (exec_pexpire db k ms Hms) as (db' & He & Ho & Ht & Hf).
  { by rewrite (sees_obj _ f). }
  exists db'. split; [done|]. eapply sees_only; [done..|].
  unfold snap. by rewrite Ho, Ht, (sees_obj _ f).
Qed.

Lemma does_expire k secs f :
  (0 < secs < 2 ^ 52)%N → is_Some (f k).1 →
  command_does (EXPIRE k secs) f 1%Z (<[k := ((f k).1, Some (secs * 1000)%N)]> f).
Proof.
  intros Hms Hk db Hs. destruct (exec_expire db k secs Hms) as (db' & He & Ho & Ht & Hf).
  { by rewrite (sees_obj _ f). }
  exists db'. split; [done|]. eapply sees_only; [done..|].
  unfold snap. by rewrite Ho, Ht, (sees_obj _ f).
Qed.

Lemma does_counter op k d z f :
  counter_amount op d → cell_counter (f k) z → i64 z → i64 (z + d) →
  command_does (COUNTER op k) f (z + d)%Z
    (<[k := (Some (OString (pretty (z + d)%Z)), (f k).2)]> f).
Proof.
  intros Hop Hz Hi Hi' db Hs.
  destruct (exec_counter db op k d z Hop) as (db' & He & Ho & Ht & Hf); [|done..|].
  { unfold counter_at. by rewrite (sees_obj _ f). }
  exists db'. split; [done|]. eapply sees_only; [done..|].
  unfold snap. by rewrite Ho, Ht, (sees_ttl _ f).
Qed.

Lemma does_hset k f h fs :
  cell_hash (f k) = Some h → fs ≠ [] →
  ∀ db, sees db f → ∃ n db', exec (HSET k fs) db = (Ok n, db')
    ∧ sees db' (<[k := (Some (OHash (hset_fields fs h)), (f k).2)]> f).
Proof.
  intros Hh Hfs db Hs.
  destruct (exec_hset db k h fs) as (n & db' & He & Ho & Ht & Hf); [|done|].
  { unfold hash_at. by rewrite (sees_obj _ f). }
  exists n, db'. split; [done|]. eapply sees_only; [done..|].
  unfold snap. by rewrite Ho, Ht, (sees_ttl _ f).
Qed.

(** ** Scripts *)

(** On a data set that looks like [f], the script succeeds with a value and a
    snapshot in [Q]. *)
Definition lua_wp {A} (p : lua A) (f : snapshot) (Q : A → snapshot → Prop) : Prop :=
  ∀ db, sees db f → ∃ a db' f', run_lua p db = (Ok a, db') ∧ sees db' f' ∧ Q a f'.

Lemma wp_ret {A} (a : A) f (Q : A → snapshot → Prop) : Q a f → lua_wp (mret a) f Q.
Proof. intros HQ db Hs. by exists a, db, f. Qed.

Lemma wp_bind {A B} (p : lua A) (k : A → lua B) f Q :
  lua_wp p f (λ a f', lua_wp (k a) f' Q) → lua_wp (p ≫= k) f Q.
Proof.
  intros Hp db Hs. destruct (Hp db Hs) as (a & db' & f' & He & Hs' & Hk).
  destruct (Hk db' Hs') as (b & db'' & f'' & He' & ?). exists b, db'', f''.
  by rewrite run_lua_bind, He.
Qed.

Lemma wp_mono {A} (p : lua A) f (Q Q' : A → snapshot → Prop) :
  lua_wp p f Q → (∀ a f', Q a f' → Q' a f') → lua_wp p f Q'.
Proof. intros Hp HQ db Hs. destruct (Hp db Hs) as (a&db'&f'&?&?&?). exists a, db', f'. auto. Qed.

Lemma wp_call c f r f' (Q : reply c → snapshot → Prop) :
  command_does c f r f' → Q r f' → lua_wp (redis_call c) f Q.
Proof.
  intros Hc HQ db Hs. destruct (Hc db Hs) as (db' & He & Hs').
  exists r, db', f'. by rewrite run_lua_call.
Qed.

Lemma wp_hset k f h fs (Q : Z → snapshot → Prop) :
  cell_hash (f k) = Some h → fs ≠ [] →
  (∀ n, Q n (<[k := (Some (OHash (hset_fields fs h)), (f k).2)]> f)) →
  lua_wp (redis_call (HSET k fs)) f Q.
Proof.
  intros Hh Hfs HQ db Hs.
  destruct (does_hset k f h fs Hh Hfs db Hs) as (n & db' & He & Hs').
  eexists n, db', _. split; [by rewrite run_lua_call|]. split; [done|]. apply HQ.
Qed.

Lemma wp_num z f (Q : Z → snapshot → Prop) : Q z f → lua_wp (num (Some z)) f Q.
Proof. apply wp_ret. Qed.

Lemma wp_get_number `{LuaNumberLaws} k f z (Q : option Z → snapshot → Prop) :
  cell_counter (f k) z → exact z → Q (Some z) f → lua_wp (get_number k) f Q.
Proof.
  intros Hz Hx HQ. unfold get_number. apply wp_bind.
  unfold cell_counter in Hz. destruct ((f k).1) as [[s|h|s]|] eqn:E; try done.
  - eapply (wp_call (GET k)); [apply does_get; eauto|]. apply wp_ret. simpl. subst s.
    by rewrite tonumber_pretty.
  - eapply (wp_call (GET k)); [apply does_get; eauto|]. apply wp_ret. simpl.
    change "0" with (pretty 0%Z). subst z. by rewrite tonumber_pretty.
Qed.

Lemma wp_hget_number `{LuaNumberLaws} k fld f h z (Q : option Z → snapshot → Prop) :
  cell_hash (f k) = Some h → h !! fld = Some (pretty z) → exact z →
  Q (Some z) f → lua_wp (hget_number k fld) f Q.
Proof.
  intros Hh Hz Hx HQ. unfold hget_number. apply wp_bind.
  eapply (wp_call (HGET k fld)); [by apply does_hget|]. rewrite Hz. apply wp_ret. simpl.
  by rewrite tonumber_pretty.
Qed.

(** Scripts take no time. *)
Lemma run_lua_time {A} (p : lua A) (db : DB) : server_time (run_lua p db).2 = server_time db.
Proof.
  revert db. induction p as [a|e|c k IH]; intros db; simpl; [done..|].
  pose proof (exec_time c db) as Hc. destruct (exec c db) as [[r|e] db']; simpl in *; [|done].
  by rewrite IH.
Qed.

(** From a symbolic execution to a run. *)
Lemma wp_run {A} (p : lua A) (db : DB) (Q : A → snapshot → Prop) :
  lua_wp p (snap db) Q →
  ∃ a db' f', run_lua p db = (Ok a, db') ∧ sees db' f' ∧ Q a f'.
Proof. intros Hp. apply Hp, sees_snap. Qed.

End snapshot.

(** Step over a command: name it, then prove what it does. *)
Ltac wp_command :=
  lazymatch goal with |- lua_wp (redis_call ?c) _ _ => eapply (wp_call c) end.

(** Lookups in an updated snapshot, for keys that are known to differ. *)
Ltac snap_simpl :=
  repeat first
    [ rewrite fn_lookup_insert
    | rewrite fn_lookup_insert_ne by (done || congruence) ].
