(* ===== verification/Program.v ===== *)
(** * Asynchronous programs

    An [async fn] is a [prog]: a tree whose nodes are the effects it awaits
    ([effect]) and whose branches are the answers.  Programs are given two
    meanings.  [run] executes one against a world: a broker, a clock, a
    supply of identifiers, the responses of the model server, and a schedule
    that says, before each effect, how much time passes and what other
    clients do to the data set, and whether the effect's request or reply is
    lost.  [traces] is the set of the event sequences a program can produce
    against any environment whatsoever. *)
From stdpp Require Import options.
From S2P Require Import Prelude Text Valkey Lua.

(** [anyhow::Error]: the chain of messages, outermost first. *)
Abbreviation error := (list string).

(** [format!("{error:#}")] and [error.to_string()]. *)
Definition error_chain (e : error) : string := String.concat ": " e.
Definition error_to_string (e : error) : string := default "" (head e).
(** [.context(msg)]. *)
Definition context {A} (msg : string) (r : result error A) : result error A :=
  map_err (cons msg) r.

(** ** Effects *)
Inductive effect : Type :=
| Call (c : command)              (* one command, one round trip *)
| Eval (s : script)               (* a Lua script *)
| Multi (cs : list command)       (* redis::pipe().atomic(): MULTI ... EXEC *)
| Connect                         (* a new dedicated connection *)
| NowMs                           (* SystemTime::now(), in milliseconds *)
| NewUuid                         (* Uuid::new_v4() *)
| Sleep (ms : N)
| HttpPost (url body : string)    (* POST, status check, streamed body *)
| SpawnHeartbeat (request_id owner : string)
| StopHeartbeat (request_id owner : string).

(** The body of a model server's response arrives in chunks and can break. *)
Abbreviation chunks := (list (result error bytes)).

Definition answer (e : effect) : Type :=
  match e with
  | Call c => result error (reply c)
  | Eval _ => result error lua_reply
  | Multi _ => result error unit
  | Connect => result error unit
  | NowMs => N
  | NewUuid => string
  | Sleep _ => unit
  | HttpPost _ _ => result error chunks
  | SpawnHeartbeat _ _ | StopHeartbeat _ _ => unit
  end.

Inductive prog (A : Type) : Type :=
| Ret (a : A)
| Vis (e : effect) (k : answer e → prog A).
Arguments Ret {A} a.
Arguments Vis {A} e k.

Fixpoint prog_bind {A B} (p : prog A) (f : A → prog B) : prog B :=
  match p with
  | Ret a => f a
  | Vis e k => Vis e (λ x, prog_bind (k x) f)
  end.
#[export] Instance prog_ret : MRet prog := @Ret.
#[export] Instance prog_mbind : MBind prog := λ A B f p, prog_bind p f.

Definition perform (e : effect) : prog (answer e) := Vis e Ret.

(** The [?] operator. *)
Definition try_bind {E A B} (p : prog (result E A)) (f : A → prog (result E B))
    : prog (result E B) :=
  r ← p; match r with Ok a => f a | Err e => Ret (Err e) end.
Notation "x ?← p ; k" := (try_bind p (λ x, k))
  (at level 20, p at level 100, k at level 200, only parsing) : stdpp_scope.
Notation "' x ?← p ; k" := (try_bind p (λ x, k))
  (at level 20, x pattern, p at level 100, k at level 200, only parsing) : stdpp_scope.
Notation "p ?; k" := (try_bind p (λ _, k))
  (at level 100, k at level 200, only parsing) : stdpp_scope.

(** [?] on a value that is already there. *)
Definition lift {E A} (r : result E A) : prog (result E A) := Ret r.

(** ** Equivalence

    Two programs are equivalent when they perform the same effects and, on
    the same answers, return the same value: the continuations are compared
    pointwise. *)
Inductive prog_equiv {A} : Equiv (prog A) :=
| ret_equiv a : Ret a ≡ Ret a
| vis_equiv e (k k' : answer e → prog A) : (∀ x, k x ≡ k' x) → Vis e k ≡ Vis e k'.
#[export] Existing Instance prog_equiv.

Lemma prog_equiv_inv {A} (p q : prog A) : p ≡ q →
  match p with
  | Ret a => q = Ret a
  | Vis e k => ∃ k', q = Vis e k' ∧ ∀ x, k x ≡ k' x
  end.
Proof. destruct 1; eauto. Qed.

#[export] Instance prog_equivalence {A} : Equivalence (≡@{prog A}).
Proof.
  split.
  - intros p. induction p; by constructor.
  - induction 1; by constructor.
  - intros p q r Hpq. revert r. induction Hpq as [a|e k k' _ IH]; intros r Hqr; [done|].
    destruct (prog_equiv_inv _ _ Hqr) as (k'' & -> & Hk). constructor. auto.
Qed.

#[export] Instance prog_bind_proper {A B} :
  Proper ((≡) ==> pointwise_relation A (≡) ==> (≡)) (@prog_bind A B).
Proof.
  intros p q Hpq f g Hfg. induction Hpq as [a|e k k' _ IH]; simpl; [apply Hfg|].
  by constructor.
Qed.

Lemma prog_bind_assoc {A B C} (p : prog A) (f : A → prog B) (g : B → prog C) :
  (p ≫= f) ≫= g ≡ p ≫= (λ a, f a ≫= g).
Proof. induction p as [a|e k IH]; simpl; [done|]. constructor. apply IH. Qed.

Lemma prog_bind_ret {A} (p : prog A) : p ≫= mret ≡ p.
Proof. induction p as [a|e k IH]; [done|]. constructor. apply IH. Qed.

Lemma try_bind_mono {E A B} (p : prog (result E A)) (f g : A → prog (result E B)) :
  (∀ a, f a ≡ g a) → try_bind p f ≡ try_bind p g.
Proof.
  intros Hfg. unfold try_bind. apply prog_bind_proper; [done|]. by intros [a|e].
Qed.

Lemma try_bind_assoc {E A B C} (p : prog (result E A)) (f : A → prog (result E B))
    (g : B → prog (result E C)) :
  try_bind (try_bind p f) g ≡ try_bind p (λ a, try_bind (f a) g).
Proof.
  unfold try_bind. rewrite prog_bind_assoc. apply prog_bind_proper; [done|].
  by intros [a|e].
Qed.

(** ** Running a program *)
Section run.
Context {DB : Type} `{Valkey DB, LuaNumbers}.

(** What happens to the request and the reply of an effect. *)
Inductive fate : Type :=
| Delivered
| LostRequest (e : error)   (* never reached the broker *)
| LostReply (e : error).    (* executed, but the caller sees an error *)

(** What happens between two effects: time, and the other clients. *)
Inductive env_step : Type :=
| Elapse (ms : N)
| Foreign (f : DB → DB).

Record turn := { t_before : list env_step; t_fate : fate }.

Record world := {
  db : DB;
  clock : N;                              (* unix milliseconds *)
  uuids : list string;                    (* identifiers still to be drawn *)
  responses : list (result error chunks); (* of the model server *)
  sched : list turn;
}.

Definition set_db (d : DB) (w : world) : world :=
  {| db := d; clock := clock w; uuids := uuids w; responses := responses w;
     sched := sched w |}.

Definition env_apply (w : world) (s : env_step) : world :=
  match s with
  | Elapse ms => {| db := elapse ms (db w); clock := clock w + ms; uuids := uuids w;
                    responses := responses w; sched := sched w |}
  | Foreign f => set_db (f (db w)) w
  end.

(** MULTI ... EXEC: every command is executed; one failure fails the reply. *)
Fixpoint exec_multi (cs : list command) (d : DB) : result string unit * DB :=
  match cs with
  | [] => (Ok tt, d)
  | c :: cs =>
    let '(r, d) := exec c d in
    let '(r', d) := exec_multi cs d in
    (match r with Ok _ => r' | Err e => Err e end, d)
  end.

(** An error reply of the broker, as the client reports it. *)
Definition broker {A} (r : result string A) : result error A := map_err (λ e, [e]) r.

(** The effect of an effect, once it reaches its destination. *)
Definition deliver (e : effect) (w : world) : answer e * world :=
  match e with
  | Call c => let '(r, d) := exec c (db w) in (broker r, set_db d w)
  | Eval s => let '(r, d) := run_lua (script_body s) (db w) in (broker r, set_db d w)
  | Multi cs => let '(r, d) := exec_multi cs (db w) in (broker r, set_db d w)
  | Connect => (Ok tt, w)
  | NowMs => (clock w, w)
  | NewUuid => (default "" (head (uuids w)),
      {| db := db w; clock := clock w; uuids := tail (uuids w);
         responses := responses w; sched := sched w |})
  | Sleep ms => (tt, env_apply w (Elapse ms))
  | HttpPost _ _ => (default (Err ["connection refused"]) (head (responses w)),
      {| db := db w; clock := clock w; uuids := uuids w;
         responses := tail (responses w); sched := sched w |})
  | SpawnHeartbeat _ _ | StopHeartbeat _ _ => (tt, w)
  end.

(** The answer of an effect that fails on the way; local effects cannot. *)
Definition failed (e : effect) (err : error) : option (answer e) :=
  match e with
  | Call _ | Eval _ | Multi _ | Connect | HttpPost _ _ => Some (Err err)
  | _ => None
  end.

Definition step_effect (e : effect) (w : world) : answer e * world :=
  let t := default {| t_before := []; t_fate := Delivered |} (head (sched w)) in
  let w := {| db := db w; clock := clock w; uuids := uuids w;
              responses := responses w; sched := tail (sched w) |} in
  let w := foldl env_apply w (t_before t) in
  match t_fate t with
  | Delivered => deliver e w
  | LostRequest err =>
      match failed e err with Some x => (x, w) | None => deliver e w end
  | LostReply err =>
      let '(x, w) := deliver e w in
      (default x (failed e err), w)
  end.

Fixpoint run {A} (p : prog A) (w : world) : A * world :=
  match p with
  | Ret a => (a, w)
  | Vis e k => let '(x, w) := step_effect e w in run (k x) w
  end.

Lemma run_bind {A B} (p : prog A) (f : A → prog B) w :
  run (p ≫= f) w = let '(a, w) := run p w in run (f a) w.
Proof.
  revert w. induction p as [a|e k IH]; intros w; [done|].
  change (run (Vis e (λ x, prog_bind (k x) f)) w =
    let '(a, w) := run (Vis e k) w in run (f a) w).
  simpl. destruct (step_effect e w) as [x w']. apply IH.
Qed.

Lemma run_try_bind {E A B} (p : prog (result E A)) (f : A → prog (result E B)) w :
  run (try_bind p f) w =
  match run p w with
  | (Ok a, w) => run (f a) w
  | (Err e, w) => (Err e, w)
  end.
Proof. unfold try_bind. rewrite run_bind. by destruct (run p w) as [[]]. Qed.

Lemma run_perform e w : run (perform e) w = step_effect e w.
Proof. simpl. by destruct (step_effect e w). Qed.

(** A run, from the answer it is known to give. *)
Lemma run_answers {A} (p : prog A) w a : (run p w).1 = a → run p w = (a, (run p w).2).
Proof. intros <-. by destruct (run p w). Qed.

(** A calm world: nothing fails and nobody else acts. *)
Definition calm (w : world) : Prop := sched w = [].

Lemma step_calm e w : calm w → step_effect e w = deliver e w.
Proof. unfold calm. destruct w; simpl. by intros ->. Qed.

Lemma calm_deliver e w : calm w → calm (deliver e w).2.
Proof.
  unfold calm. destruct e; simpl; intros Hw; try done.
  - by destruct (exec c (db w)).
  - by destruct (run_lua _ _).
  - by destruct (exec_multi _ _).
Qed.

Lemma run_call {B} (c : command) (f : reply c → prog (result error B)) w :
  calm w →
  run (try_bind (perform (Call c)) f) w =
  match exec c (db w) with
  | (Ok r, d) => run (f r) (set_db d w)
  | (Err e, d) => (Err [e], set_db d w)
  end.
Proof.
  intros Hw. simpl. rewrite step_calm by done. simpl.
  by destruct (exec c (db w)) as [[]].
Qed.

Lemma run_eval {B} s (f : lua_reply → prog (result error B)) w :
  calm w →
  run (try_bind (perform (Eval s)) f) w =
  match run_lua (script_body s) (db w) with
  | (Ok r, d) => run (f r) (set_db d w)
  | (Err e, d) => (Err [e], set_db d w)
  end.
Proof.
  intros Hw. simpl. rewrite step_calm by done. simpl.
  by destruct (run_lua (script_body s) (db w)) as [[]].
Qed.

Lemma run_multi {B} cs (f : unit → prog (result error B)) w :
  calm w →
  run (try_bind (perform (Multi cs)) f) w =
  match exec_multi cs (db w) with
  | (Ok r, d) => run (f r) (set_db d w)
  | (Err e, d) => (Err [e], set_db d w)
  end.
Proof.
  intros Hw. simpl. rewrite step_calm by done. simpl.
  by destruct (exec_multi cs (db w)) as [[]].
Qed.

Lemma run_connect {B} (f : unit → prog (result error B)) w :
  calm w → run (try_bind (perform Connect) f) w = run (f tt) w.
Proof. intros Hw. simpl. by rewrite step_calm. Qed.

(** Equivalent programs run alike. *)
#[export] Instance run_proper {A} : Proper ((≡) ==> (=) ==> (=)) (@run A).
Proof.
  intros p q Hpq w ? <-. revert w. induction Hpq as [a|e k k' _ IH]; intros w; [done|].
  simpl. destruct (step_effect e w). apply IH.
Qed.

End run.
Arguments world : clear implicits.
Arguments turn : clear implicits.
Arguments env_step : clear implicits.

(** ** Traces *)
Record event := Ev { ev_effect : effect; ev_answer : answer ev_effect }.

(** The program can produce this sequence of events and return this value,
    whatever the environment answers. *)
Fixpoint traces {A} (p : prog A) (t : list event) (a : A) : Prop :=
  match p with
  | Ret b => t = [] ∧ a = b
  | Vis e k => ∃ x t', t = Ev e x :: t' ∧ traces (k x) t' a
  end.

Lemma traces_bind {A B} (p : prog A) (f : A → prog B) t b :
  traces (p ≫= f) t b ↔
  ∃ t1 t2 a, t = t1 ++ t2 ∧ traces p t1 a ∧ traces (f a) t2 b.
Proof.
  revert t. induction p as [a|e k IH]; intros t.
  - change (traces (f a) t b ↔ ∃ t1 t2 a0, t = t1 ++ t2 ∧ (t1 = [] ∧ a0 = a)
      ∧ traces (f a0) t2 b).
    split; [intros Ht; by exists [], t, a|by intros (?&?&?&->&[-> ->]&?)].
  - change ((∃ x t', t = Ev e x :: t' ∧ traces (k x ≫= f) t' b) ↔
      ∃ t1 t2 a, t = t1 ++ t2 ∧ (∃ x t', t1 = Ev e x :: t' ∧ traces (k x) t' a)
        ∧ traces (f a) t2 b).
    setoid_rewrite IH. split.
    + intros (x & t' & -> & t1 & t2 & a & -> & H1 & H2).
      exists (Ev e x :: t1), t2, a. eauto 10.
    + intros (t1 & t2 & a & -> & (x & t' & -> & H1) & H2). eauto 10.
Qed.

Lemma traces_try_bind {E A B} (p : prog (result E A)) (f : A → prog (result E B)) t b :
  traces (try_bind p f) t b ↔
  (∃ t1 t2 a, t = t1 ++ t2 ∧ traces p t1 (Ok a) ∧ traces (f a) t2 b)
  ∨ (∃ e, traces p t (Err e) ∧ b = Err e).
Proof.
  unfold try_bind. rewrite traces_bind. split.
  - intros (t1 & t2 & [a|e] & -> & H1 & H2); [by left; eauto 10|].
    destruct H2 as [-> ->]. rewrite app_nil_r. by right; eauto.
  - intros [(t1&t2&a&->&H1&H2)|(e&H1&->)]; [by exists t1, t2, (Ok a)|].
    exists t, [], (Err e). by rewrite app_nil_r.
Qed.

Lemma traces_ret {A} (a b : A) t : traces (mret a) t b ↔ t = [] ∧ b = a.
Proof. done. Qed.

Lemma traces_perform e t (x : answer e) :
  traces (perform e) t x ↔ t = [Ev e x].
Proof.
  simpl. split; [by intros (y & t' & -> & -> & ->)|intros ->; eauto].
Qed.

(** A run is one of the traces. *)
Fixpoint run_trace `{Valkey DB, LuaNumbers} {A} (p : prog A) (w : world DB) : list event :=
  match p with
  | Ret _ => []
  | Vis e k => let '(x, w) := step_effect e w in Ev e x :: run_trace (k x) w
  end.

Lemma run_traces `{Valkey DB, LuaNumbers} {A} (p : prog A) (w : world DB) :
  traces p (run_trace p w) (run p w).1.
Proof.
  revert w. induction p as [a|e k IH]; intros w; simpl; [done|].
  destruct (step_effect e w) as [x w']. eauto.
Qed.

(** Trace properties: [p] only produces traces and results in [Q]. *)
Definition always {A} (p : prog A) (Q : list event → A → Prop) : Prop :=
  ∀ t a, traces p t a → Q t a.

#[export] Instance traces_proper {A} : Proper ((≡) ==> (=) ==> (=) ==> iff) (@traces A).
Proof.
  intros p q Hpq t ? <- a ? <-. revert t.
  induction Hpq as [b|e k k' _ IH]; intros t; [done|]. simpl. by setoid_rewrite IH.
Qed.

#[global] Arguments traces {A} p t a : simpl never.
