(* ===== verification/Effects.v ===== *)
(** * Reasoning about the effects of a program

    [effects_in P p]: every effect [p] can perform, whatever it is answered,
    satisfies [P].  [results_in Q p]: every value [p] can return satisfies
    [Q]; [succeeds_in], every value it can succeed with.  The tactic [trace_inv] takes
    a trace of a composed program apart. *)
From stdpp Require Import options.
From Stdlib Require Eqdep_dec.
From S2P Require Import Prelude Valkey Lua Program.

(** ** Which effects *)
Fixpoint effects_in {A} (P : effect → Prop) (p : prog A) : Prop :=
  match p with
  | Ret _ => True
  | Vis e k => P e ∧ ∀ x, effects_in P (k x)
  end.

Lemma effects_in_ret {A} P (a : A) : effects_in P (mret a).
Proof. done. Qed.
Lemma effects_in_lift {E A} P (r : result E A) : effects_in P (lift r).
Proof. done. Qed.
Lemma effects_in_perform P e : P e → effects_in P (perform e).
Proof. by split. Qed.
Lemma effects_in_bind {A B} P (p : prog A) (f : A → prog B) :
  effects_in P p → (∀ a, effects_in P (f a)) → effects_in P (p ≫= f).
Proof.
  intros Hp Hf. induction p as [a|e k IH]; [apply Hf|].
  destruct Hp as [He Hk]. split; [done|]. intros x. apply IH, Hk.
Qed.
Lemma effects_in_try {E A B} P (p : prog (result E A)) (f : A → prog (result E B)) :
  effects_in P p → (∀ a, effects_in P (f a)) → effects_in P (try_bind p f).
Proof. intros Hp Hf. apply effects_in_bind; [done|]. by intros [a|e]. Qed.
Lemma effects_in_mono {A} (P Q : effect → Prop) (p : prog A) :
  (∀ e, P e → Q e) → effects_in P p → effects_in Q p.
Proof. intros HPQ. induction p as [a|e k IH]; [done|]. intros [??]. split; auto. Qed.

Lemma effects_in_traces {A} P (p : prog A) t a :
  effects_in P p → traces p t a → Forall (λ ev, P (ev_effect ev)) t.
Proof.
  revert t. induction p as [b|e k IH]; intros t; [by intros _ [-> _]|].
  intros [He Hk] (x & t' & -> & Ht). constructor; [done|]. by eapply IH.
Qed.

#[global] Arguments effects_in {A} P p : simpl never.
Create HintDb effects.
#[export] Hint Resolve effects_in_ret effects_in_lift effects_in_perform : effects.
#[export] Hint Extern 5 (effects_in _ (_ ≫= _)) => apply effects_in_bind : effects.
#[export] Hint Extern 4 (effects_in _ (try_bind _ _)) => apply effects_in_try : effects.

(** ** Which results *)
Fixpoint results_in {A} (Q : A → Prop) (p : prog A) : Prop :=
  match p with
  | Ret a => Q a
  | Vis e k => ∀ x, results_in Q (k x)
  end.

(** A successful result satisfies [Q]. *)
Definition succeeds_in {E A} (Q : A → Prop) (p : prog (result E A)) : Prop :=
  results_in (λ r, match r with Ok a => Q a | Err _ => True end) p.

Lemma results_in_bind {A B} (Q : A → Prop) (R : B → Prop) p (f : A → prog B) :
  results_in Q p → (∀ a, Q a → results_in R (f a)) → results_in R (p ≫= f).
Proof.
  intros Hp Hf. induction p as [a|e k IH]; [by apply Hf|]. intros x. apply IH, Hp.
Qed.

(** The effects of the rest, knowing what comes first. *)
Lemma effects_in_bind_in {A B} P (Q : A → Prop) (p : prog A) (f : A → prog B) :
  effects_in P p → results_in Q p → (∀ a, Q a → effects_in P (f a)) → effects_in P (p ≫= f).
Proof.
  intros Hp HQ Hf. induction p as [a|e k IH]; [by apply Hf|].
  destruct Hp as [He Hk]. split; [done|]. intros x. apply IH; [apply Hk|apply HQ].
Qed.

Lemma succeeds_in_try {E A B} (Q : A → Prop) (R : B → Prop) p (f : A → prog (result E B)) :
  succeeds_in Q p → (∀ a, Q a → succeeds_in R (f a)) → succeeds_in R (try_bind p f).
Proof. intros Hp Hf. eapply results_in_bind; [done|]. intros [a|e] Ha; [by apply Hf|done]. Qed.

Lemma results_in_true {A} (p : prog A) : results_in (λ _, True) p.
Proof. induction p; simpl; auto. Qed.

Lemma results_in_mono {A} (Q R : A → Prop) p :
  (∀ a, Q a → R a) → results_in Q p → results_in R p.
Proof. intros HQR. induction p; simpl; auto. Qed.

Lemma succeeds_in_true {E A} (p : prog (result E A)) : succeeds_in (λ _, True) p.
Proof. eapply results_in_mono, results_in_true. by intros [a|e]. Qed.

Lemma results_in_traces {A} (Q : A → Prop) p t a : results_in Q p → traces p t a → Q a.
Proof.
  revert t. induction p as [b|e k IH]; intros t Hp; [by intros [_ ->]|].
  intros (x & t' & _ & Ht). eapply IH; [apply Hp|done].
Qed.

(** Rewriting after [?←], knowing what comes out of it. *)
Lemma try_bind_mono_in {E A B} (Q : A → Prop) p (f g : A → prog (result E B)) :
  succeeds_in Q p → (∀ a, Q a → f a ≡ g a) → try_bind p f ≡ try_bind p g.
Proof.
  intros Hp Hfg. unfold try_bind. induction p as [[a|e]|e k IH]; simpl in *; [auto|done|].
  constructor. intros x. apply IH, Hp.
Qed.

(** ** Taking traces apart *)
Lemma traces_lift {E A} (r r' : result E A) t : traces (lift r) t r' ↔ t = [] ∧ r' = r.
Proof. done. Qed.

Lemma traces_bind_perform {B} e (f : answer e → prog B) t b :
  traces (perform e ≫= f) t b → ∃ x t', t = Ev e x :: t' ∧ traces (f x) t' b.
Proof. done. Qed.

Lemma traces_vis {B} e (k : answer e → prog B) t b :
  traces (Vis e k) t b → ∃ x t', t = Ev e x :: t' ∧ traces (k x) t' b.
Proof. done. Qed.

(** Effects can be compared, so an event determines its answer. *)
#[export] Instance counter_op_eq_dec : EqDecision counter_op.
Proof. solve_decision. Defined.
#[export] Instance command_eq_dec : EqDecision command.
Proof. solve_decision. Defined.
#[export] Instance script_eq_dec : EqDecision script.
Proof. solve_decision. Defined.
#[export] Instance effect_eq_dec : EqDecision effect.
Proof. solve_decision. Defined.

Lemma event_inj e (x y : answer e) : Ev e x = Ev e y → x = y.
Proof.
  intros He. apply (Eqdep_dec.inj_pair2_eq_dec _ effect_eq_dec answer).
  exact (f_equal (λ ev, existT (ev_effect ev) (ev_answer ev)) He).
Qed.

(** A program's next event, when it is known. *)
Lemma traces_next {B} e (k : answer e → prog B) x t b :
  traces (Vis e k) (Ev e x :: t) b ↔ traces (k x) t b.
Proof.
  split.
  - intros (y & t' & Heq & Ht). assert (Ev e x = Ev e y) as He by congruence.
    apply event_inj in He as <-. by simplify_eq.
  - intros Ht. by exists x, t.
Qed.

(** [?←] over an effect. *)
Lemma traces_try_ok {E A B} (p : prog (result E A)) (f : A → prog (result E B)) t b :
  traces (try_bind p f) t (Ok b) ↔
  ∃ t1 t2 a, t = t1 ++ t2 ∧ traces p t1 (Ok a) ∧ traces (f a) t2 (Ok b).
Proof.
  rewrite traces_try_bind. split; [|by left].
  intros [H|(e & _ & [=])]; [done].
Qed.

Lemma traces_perform_ok e t (x : answer e) : traces (perform e) t x ↔ t = [Ev e x].
Proof. apply traces_perform. Qed.

(** Successful runs only: decompose the hypothesis. *)
Ltac trace_inv :=
  repeat match goal with
  | H : traces _ _ _ |- _ => progress cbv beta in H
  | H : traces (try_bind _ _) _ (Ok _) |- _ =>
      apply traces_try_ok in H as (? & ? & ? & -> & ? & ?)
  | H : traces (mbind _ (perform _)) _ _ |- _ =>
      apply traces_bind_perform in H as (? & ? & -> & ?)
  | H : traces (Vis _ _) _ _ |- _ => apply traces_vis in H as (? & ? & -> & ?)
  | H : traces (mbind _ _) _ _ |- _ =>
      apply traces_bind in H as (? & ? & ? & -> & ? & ?)
  | H : traces (perform _) _ _ |- _ => apply traces_perform_ok in H as ->
  | H : traces (lift _) _ _ |- _ => apply traces_lift in H as [-> ?]
  | H : traces (mret _) _ _ |- _ => apply traces_ret in H as [-> ?]
  end; simplify_eq/=;
  repeat match goal with x : unit |- _ => destruct x end.
