(* ===== verification/Json.v ===== *)
(** * JSON: serde_json, and the request that travels as JSON

    [serde_json::Value] as data, with the accessors the engine calls on it.
    Parsing and printing text are serde_json's and are parameters
    ([SerdeJson]).  What the two crates declare is modelled: the serializer
    that [#[derive(Serialize)]] makes of the frontend's [RuntimeRequest] and
    the visitor that [#[derive(Deserialize)]] makes of the engine's. *)
From stdpp Require Import options.
From S2P Require Import Prelude Text TokenBudget.
#[local] Set Default Proof Using "Type*".
Set Warnings "-register-all".

Inductive json : Type :=
| JNull
| JBool (b : bool)
| JU64 (n : N)
| JNumber (text : string)   (* a number that is not a [u64] *)
| JString (s : string)
| JArray (l : list json)
| JObject (fields : list (string * json)).

(** [Value::get] with a string key. *)
Fixpoint lookup_field (key : string) (fields : list (string * json)) : option json :=
  match fields with
  | [] => None
  | (k, v) :: fields => if decide (k = key) then Some v else lookup_field key fields
  end.
Definition get (key : string) (v : json) : option json :=
  match v with JObject fields => lookup_field key fields | _ => None end.
Definition as_str (v : json) : option string :=
  match v with JString s => Some s | _ => None end.
Definition as_u64 (v : json) : option N :=
  match v with JU64 n => Some n | _ => None end.
Definition as_array (v : json) : option (list json) :=
  match v with JArray l => Some l | _ => None end.

(** The request as the engine reads it; the [f32] is kept as its bits. *)
Record RuntimeRequest := {
  rr_model : string;
  rr_messages : option (list json);
  rr_prompt : option string;
  rr_max_tokens : N;
  rr_temperature : N;
}.

(** The request as the frontend writes it. *)
Record FrontendRuntimeRequest := {
  fr_model : string;
  fr_messages : option (list ChatMessage);
  fr_prompt : option string;
  fr_max_tokens : N;
  fr_temperature : N;
  fr_stream : bool;
}.

(** What a visitor complains about. *)
Inductive read_error : Type :=
| InvalidType (found : json) (expected : string)
| InvalidLength (n : nat)
| TrailingElements
| DuplicateField (name : string)
| MissingField (name : string).

(** [serde_json::from_str::<Value>], [to_string] (and [to_vec], the same
    bytes); an [f32] as it is serialized to text, and as a [Value], where it
    is widened to an [f64] first; [from_slice] as a tree, with the members of
    an object in the order of the text; a number as an [f32]; and the text of
    an error, with its position. *)
Class SerdeJson := {
  json_from_str : string → result string json;
  json_to_string : json → string;
  json_of_f32 : N → json;
  value_of_f32 : N → json;
  json_from_slice : bytes → result string json;
  f32_of_number : json → N;
  json_error : bytes → read_error → string;
}.

(** A tree as a [Value]: of the members with the same key the last one
    counts.  The order of the members, which [serde_json::Map] sorts, is
    not modelled. *)
Fixpoint last_wins (fields : list (string * json)) : list (string * json) :=
  match fields with
  | [] => []
  | (k, v) :: fields =>
    if decide (k ∈ fields.*1) then last_wins fields else (k, v) :: last_wins fields
  end.
Fixpoint to_value (v : json) : json :=
  match v with
  | JArray l => JArray (map to_value l)
  | JObject fields => JObject (last_wins (map (λ '(k, v), (k, to_value v)) fields))
  | v => v
  end.

(** ** Writing: [#[derive(Serialize)]] *)
Section serialize.
Context `{SerdeJson}.

Definition message_json (m : ChatMessage) : json :=
  JObject [("role", JString (role m)); ("content", JString (content m))].

Definition json_option {A} (f : A → json) (o : option A) : json :=
  match o with Some a => f a | None => JNull end.

Definition serialize_request (r : FrontendRuntimeRequest) : json :=
  JObject [("model", JString (fr_model r));
           ("messages", json_option (λ ms, JArray (map message_json ms)) (fr_messages r));
           ("prompt", json_option JString (fr_prompt r));
           ("max_tokens", JU64 (fr_max_tokens r));
           ("temperature", json_of_f32 (fr_temperature r));
           ("stream", JBool (fr_stream r))].

Definition request_to_vec (r : FrontendRuntimeRequest) : bytes :=
  json_to_string (serialize_request r).
End serialize.

(** ** Reading: [#[derive(Deserialize)]] *)
Section deserialize.
Context `{SerdeJson}.

Definition read_string (v : json) : result read_error string :=
  match v with JString s => Ok s | _ => Err (InvalidType v "a string") end.
Definition read_usize (v : json) : result read_error N :=
  match v with JU64 n => Ok n | _ => Err (InvalidType v "usize") end.
Definition read_f32 (v : json) : result read_error N :=
  match v with
  | JU64 _ | JNumber _ => Ok (f32_of_number v)
  | _ => Err (InvalidType v "f32")
  end.
Definition read_values (v : json) : result read_error (list json) :=
  match v with JArray l => Ok (map to_value l) | _ => Err (InvalidType v "a sequence") end.
(** [Option<T>]: [null] is [None]. *)
Definition read_option {A} (read : json → result read_error A) (v : json)
    : result read_error (option A) :=
  match v with JNull => Ok None | _ => Some <$> read v end.

(** The fields that have been read so far. *)
Record partial_request := {
  p_model : option string;
  p_messages : option (option (list json));
  p_prompt : option (option string);
  p_max_tokens : option N;
  p_temperature : option N;
}.
Definition no_field : partial_request :=
  {| p_model := None; p_messages := None; p_prompt := None; p_max_tokens := None;
     p_temperature := None |}.

Definition once {A} (name : string) (slot : option A) (value : result read_error A)
    : result read_error (option A) :=
  match slot with Some _ => Err (DuplicateField name) | None => Some <$> value end.

(** One member; an unknown one, such as ["stream"], is skipped. *)
Definition visit_member (key : string) (v : json) (p : partial_request)
    : result read_error partial_request :=
  let '{| p_model := m; p_messages := ms; p_prompt := t; p_max_tokens := n;
          p_temperature := x |} := p in
  if decide (key = "model") then
    m ← once key m (read_string v); Ok (Build_partial_request m ms t n x)
  else if decide (key = "messages") then
    ms ← once key ms (read_option read_values v); Ok (Build_partial_request m ms t n x)
  else if decide (key = "prompt") then
    t ← once key t (read_option read_string v); Ok (Build_partial_request m ms t n x)
  else if decide (key = "max_tokens") then
    n ← once key n (read_usize v); Ok (Build_partial_request m ms t n x)
  else if decide (key = "temperature") then
    x ← once key x (read_f32 v); Ok (Build_partial_request m ms t n x)
  else Ok p.

Fixpoint visit_map (fields : list (string * json)) (p : partial_request)
    : result read_error partial_request :=
  match fields with
  | [] => Ok p
  | (key, v) :: fields => p ← visit_member key v p; visit_map fields p
  end.

(** Missing members are errors, unless they are optional. *)
Definition complete (p : partial_request) : result read_error RuntimeRequest :=
  model ← ok_or (MissingField "model") (p_model p);
  max_tokens ← ok_or (MissingField "max_tokens") (p_max_tokens p);
  temperature ← ok_or (MissingField "temperature") (p_temperature p);
  Ok {| rr_model := model; rr_messages := default None (p_messages p);
        rr_prompt := default None (p_prompt p); rr_max_tokens := max_tokens;
        rr_temperature := temperature |}.

(** A struct is also read from an array of its fields. *)
Definition next_element {A} (i : nat) (read : json → result read_error A) (l : list json)
    : result read_error (A * list json) :=
  match l with
  | [] => Err (InvalidLength i)
  | v :: l => a ← read v; Ok (a, l)
  end.
Definition visit_seq (l : list json) : result read_error RuntimeRequest :=
  '(model, l) ← next_element 0 read_string l;
  '(messages, l) ← next_element 1 (read_option read_values) l;
  '(prompt, l) ← next_element 2 (read_option read_string) l;
  '(max_tokens, l) ← next_element 3 read_usize l;
  '(temperature, l) ← next_element 4 read_f32 l;
  match l with
  | [] => Ok (Build_RuntimeRequest model messages prompt max_tokens temperature)
  | _ => Err TrailingElements
  end.

Definition deserialize_request (v : json) : result read_error RuntimeRequest :=
  match v with
  | JObject fields => p ← visit_map fields no_field; complete p
  | JArray l => visit_seq l
  | _ => Err (InvalidType v "struct RuntimeRequest")
  end.

Definition request_from_slice (b : bytes) : result string RuntimeRequest :=
  v ← json_from_slice b; map_err (json_error b) (deserialize_request v).
End deserialize.

(** ** The laws of serde_json *)

(** Not an infinity, not a NaN. *)
Definition finite_f32 (bits : N) : bool := negb (N.land (N.shiftr bits 23) 255 =? 255)%N.

(** A tree whose numbers are integers or come from an [f32]. *)
Fixpoint printable `{SerdeJson} (v : json) : Prop :=
  match v with
  | JNumber s => ∃ b, json_of_f32 b = JNumber s
  | JArray l => foldr (λ v P, printable v ∧ P) True l
  | JObject fields => foldr (λ '(_, v) P, printable v ∧ P) True fields
  | _ => True
  end.

(** What is printed is parsed again; an [f32] is serialized as a number, or
    as null if it is an infinity or a NaN. *)
Class SerdeJsonLaws `{SerdeJson} := {
  json_roundtrip v : printable v → json_from_slice (json_to_string v) = Ok v;
  json_of_finite b : finite_f32 b = true → ∃ s, json_of_f32 b = JNumber s;
  json_of_not_finite b : finite_f32 b = false → json_of_f32 b = JNull;
}.

(** ** What the engine reads of what the frontend wrote *)
Section received.
Context `{SerdeJsonLaws}.

Definition received (r : FrontendRuntimeRequest) : RuntimeRequest :=
  {| rr_model := fr_model r; rr_messages := option_map (map message_json) (fr_messages r);
     rr_prompt := fr_prompt r; rr_max_tokens := fr_max_tokens r;
     rr_temperature := f32_of_number (json_of_f32 (fr_temperature r)) |}.

Lemma messages_value (ms : list ChatMessage) :
  map to_value (map message_json ms) = map message_json ms.
Proof. rewrite map_map. by apply map_ext. Qed.

Lemma messages_printable (ms : list ChatMessage) :
  foldr (λ v P, printable v ∧ P) True (map message_json ms).
Proof. by induction ms as [|m ms IH]. Qed.

Lemma read_messages (o : option (list ChatMessage)) :
  read_option read_values (json_option (λ ms, JArray (map message_json ms)) o)
  = Ok (option_map (map message_json) o).
Proof. destruct o as [ms|]; [|done]. simpl. by rewrite messages_value. Qed.

Lemma read_prompt (o : option string) : read_option read_string (json_option JString o) = Ok o.
Proof. by destruct o. Qed.

Lemma serialized_printable r : printable (serialize_request r).
Proof.
  unfold serialize_request. cbn. split_and!; try done.
  - destruct (fr_messages r) as [ms|]; [|done]. apply messages_printable.
  - by destruct (fr_prompt r).
  - destruct (finite_f32 (fr_temperature r)) eqn:Hf.
    + destruct (json_of_finite _ Hf) as [s E]. rewrite E. by exists (fr_temperature r).
    + by rewrite json_of_not_finite.
Qed.

(** The visitor on the members, in the order the serializer writes them. *)
Lemma read_serialized r :
  deserialize_request (serialize_request r) =
  match read_f32 (json_of_f32 (fr_temperature r)) with
  | Ok x => Ok {| rr_model := fr_model r; rr_messages := option_map (map message_json) (fr_messages r);
                  rr_prompt := fr_prompt r; rr_max_tokens := fr_max_tokens r; rr_temperature := x |}
  | Err e => Err e
  end.
Proof.
  unfold deserialize_request, serialize_request, visit_map, visit_member, no_field.
  repeat first [rewrite decide_True by done | rewrite decide_False by done
    | rewrite read_messages | rewrite read_prompt | progress cbn -[read_option json_option read_f32]].
  destruct (read_f32 (json_of_f32 _)) as [x|e]; [|done]. cbn. by rewrite !decide_False by done.
Qed.

Lemma request_roundtrip r : finite_f32 (fr_temperature r) = true →
  request_from_slice (request_to_vec r) = Ok (received r).
Proof.
  intros Hf. unfold request_from_slice, request_to_vec, received.
  rewrite json_roundtrip by apply serialized_printable.
  change (map_err (json_error (json_to_string (serialize_request r)))
    (deserialize_request (serialize_request r)) = Ok (received r)).
  rewrite read_serialized. destruct (json_of_finite _ Hf) as [s E].
  unfold received. by rewrite E.
Qed.

Lemma request_not_finite r : finite_f32 (fr_temperature r) = false →
  request_from_slice (request_to_vec r)
  = Err (json_error (request_to_vec r) (InvalidType JNull "f32")).
Proof.
  intros Hf. unfold request_from_slice, request_to_vec.
  rewrite json_roundtrip by apply serialized_printable.
  change (map_err (json_error (json_to_string (serialize_request r)))
    (deserialize_request (serialize_request r))
    = Err (json_error (json_to_string (serialize_request r)) (InvalidType JNull "f32"))).
  rewrite read_serialized. by rewrite json_of_not_finite.
Qed.
End received.

(** Induction on a tree and its subtrees. *)
Section json_induction.
Context (P : json → Prop).
Context (Pnull : P JNull) (Pbool : ∀ b, P (JBool b)) (Pu64 : ∀ n, P (JU64 n))
  (Pnumber : ∀ s, P (JNumber s)) (Pstring : ∀ s, P (JString s))
  (Parray : ∀ l, Forall P l → P (JArray l))
  (Pobject : ∀ fs, Forall (λ f : string * json, P f.2) fs → P (JObject fs)).

Fixpoint json_tree_ind (v : json) : P v :=
  match v with
  | JNull => Pnull
  | JBool b => Pbool b
  | JU64 n => Pu64 n
  | JNumber s => Pnumber s
  | JString s => Pstring s
  | JArray l => Parray l
      ((fix go l : Forall P l := match l with
        | [] => Forall_nil_2 _ | v :: l => Forall_cons_2 _ v l (json_tree_ind v) (go l) end) l)
  | JObject fs => Pobject fs
      ((fix go fs : Forall (λ f : string * json, P f.2) fs := match fs with
        | [] => Forall_nil_2 _
        | (k, v) :: fs => Forall_cons_2 _ (k, v) fs (json_tree_ind v) (go fs) end) fs)
  end.
End json_induction.
