(* ===== verification/Wire.v ===== *)
(** * Messages: proto/inference

    The records the [.proto] files declare (prost generates the Rust types
    from them) and, as an interface, prost's [encode_to_vec] and [decode]
    ([Proto], [Codec]); the law the program relies on is that decoding
    inverts encoding ([CodecLaws]).  [RefCodec] is an instance. *)
From stdpp Require Import options.
From S2P Require Import Prelude Text.

(** ** proto/inference/internal/v1/streams.proto *)
Record CacheMetadata := { cache_key : string; prefix_tokens_estimate : N }.

Record GenerationJob := {
  job_schema_version : N;
  job_request_id : string;
  job_model_id : string;
  job_model_revision : string;
  job_model_endpoint : string;
  job_request_json : bytes;
  job_deadline_unix_ms : N;
  job_reservation_id : string;
  job_cache : option CacheMetadata;
}.

Record TokenChunk := { text : string; cumulative_generated_tokens : N }.
Record GenerationCompleted := {
  done_prompt_tokens : N; done_generated_tokens : N; done_finish_reason : string }.
Record GenerationFailed := { code : string; message : string; retryable : bool }.

(** [generation_result::Event]. *)
Inductive Event : Type :=
| AttemptStarted
| Token (chunk : TokenChunk)
| Completed (done : GenerationCompleted)
| Failed (failure : GenerationFailed).

Record GenerationResult := {
  res_schema_version : N;
  res_request_id : string;
  res_attempt_id : string;
  res_event : option Event;
}.

(** ** proto/inference/v1/inference.proto *)
Record ApiChatMessage := { api_role : string; api_content : string }.

(** The [float] is kept as its 32 bits. *)
Record GenerateRequest := {
  req_model : string;
  req_messages : list ApiChatMessage;
  req_prompt : string;
  req_max_tokens : N;
  req_temperature : N;
}.

Record GenerateResponse := {
  rsp_request_id : string;
  rsp_model : string;
  rsp_text : string;
  rsp_prompt_tokens : N;
  rsp_generated_tokens : N;
  rsp_finish_reason : string;
}.

Record SubscribeGenerationRequest := {
  sub_request_id : string;
  sub_after_event_id : option string;
}.

Record GenerationEvent := {
  ev_request_id : string;
  ev_model : string;
  ev_delta : string;
  ev_generated_tokens : N;
  ev_finish_reason : string;
  ev_event_id : string;
  ev_attempt_id : string;
  ev_prompt_tokens : N;
  ev_terminal : bool;
}.

#[export] Instance CacheMetadata_eq_dec : EqDecision CacheMetadata.
Proof. solve_decision. Defined.
#[export] Instance GenerationJob_eq_dec : EqDecision GenerationJob.
Proof. solve_decision. Defined.
#[export] Instance TokenChunk_eq_dec : EqDecision TokenChunk.
Proof. solve_decision. Defined.
#[export] Instance GenerationCompleted_eq_dec : EqDecision GenerationCompleted.
Proof. solve_decision. Defined.
#[export] Instance GenerationFailed_eq_dec : EqDecision GenerationFailed.
Proof. solve_decision. Defined.
#[export] Instance Event_eq_dec : EqDecision Event.
Proof. solve_decision. Defined.
#[export] Instance GenerationResult_eq_dec : EqDecision GenerationResult.
Proof. solve_decision. Defined.
#[export] Instance GenerationEvent_eq_dec : EqDecision GenerationEvent.
Proof. solve_decision. Defined.

(** ** prost *)
Class Proto (M : Type) := {
  encode : M → bytes;
  decode : bytes → result string M;
}.
(** Decoding inverts encoding. *)
Class ProtoLaws (M : Type) `{Proto M} := {
  decode_encode (m : M) : decode (encode m) = Ok m;
}.

(** The messages the data plane sends. *)
Class Codec := {
  #[global] codec_job :: Proto GenerationJob;
  #[global] codec_result :: Proto GenerationResult;
  #[global] codec_request :: Proto GenerateRequest;
  #[global] codec_response :: Proto GenerateResponse;
  #[global] codec_subscribe :: Proto SubscribeGenerationRequest;
  #[global] codec_event :: Proto GenerationEvent;
}.
Class CodecLaws `{Codec} := {
  #[global] codec_job_laws :: ProtoLaws GenerationJob;
  #[global] codec_result_laws :: ProtoLaws GenerationResult;
  #[global] codec_request_laws :: ProtoLaws GenerateRequest;
  #[global] codec_response_laws :: ProtoLaws GenerateResponse;
  #[global] codec_subscribe_laws :: ProtoLaws SubscribeGenerationRequest;
  #[global] codec_event_laws :: ProtoLaws GenerationEvent;
}.
