(* ===== verification/RefCodec.v ===== *)
(** * A reference codec

    A codec that satisfies [CodecLaws], so that the properties of the
    program can be run on concrete messages.  It is not protobuf: a message
    is numbered by stdpp's [Countable] and written in binary digits. *)
From Stdlib Require Import Ascii.
From stdpp Require Import options.
From S2P Require Import Prelude Text TokenBudget Json Wire.

Fixpoint bits_of (p : positive) : string :=
  match p with
  | xH => ""
  | xO p => String "0"%char (bits_of p)
  | xI p => String "1"%char (bits_of p)
  end.
Fixpoint of_bits (s : string) : option positive :=
  match s with
  | EmptyString => Some xH
  | String "0"%char s => xO <$> of_bits s
  | String "1"%char s => xI <$> of_bits s
  | _ => None
  end.

Lemma of_bits_of p : of_bits (bits_of p) = Some p.
Proof. induction p as [p IH|p IH|]; simpl; by rewrite ?IH. Qed.

Definition ref_proto {M} `{Countable M} : Proto M := {|
  encode m := bits_of (countable.encode m);
  decode b := match of_bits b ≫= countable.decode with
              | Some m => Ok m | None => Err "invalid wire type" end |}.

Lemma ref_proto_laws {M} `{Countable M} : @ProtoLaws M ref_proto.
Proof.
  split. intros m. simpl. rewrite of_bits_of. simpl. by rewrite countable.decode_encode.
Qed.

(** ** Every message is countable *)
#[export] Instance ApiChatMessage_eq_dec : EqDecision ApiChatMessage.
Proof. solve_decision. Defined.
#[export] Instance GenerateRequest_eq_dec : EqDecision GenerateRequest.
Proof. solve_decision. Defined.
#[export] Instance GenerateResponse_eq_dec : EqDecision GenerateResponse.
Proof. solve_decision. Defined.
#[export] Instance SubscribeGenerationRequest_eq_dec : EqDecision SubscribeGenerationRequest.
Proof. solve_decision. Defined.

(** A record is numbered by the list of its fields' numbers, so that its
    number grows with the sum of their sizes. *)
Ltac by_fields := intros []; cbn -[countable.encode countable.decode];
  repeat (rewrite countable.decode_encode; cbn [mbind option_bind]); reflexivity.

#[export] Instance CacheMetadata_countable : Countable CacheMetadata.
Proof.
  refine (inj_countable
    (λ m, [countable.encode (cache_key m); countable.encode (prefix_tokens_estimate m)])
    (λ l, match l with
      | [a; b] =>
        a ← countable.decode a; b ← countable.decode b;
        Some (Build_CacheMetadata a b)
      | _ => None end) _).
  by_fields.
Defined.
#[export] Instance GenerationJob_countable : Countable GenerationJob.
Proof.
  refine (inj_countable
    (λ m, [countable.encode (job_schema_version m); countable.encode (job_request_id m);
      countable.encode (job_model_id m); countable.encode (job_model_revision m);
      countable.encode (job_model_endpoint m); countable.encode (job_request_json m);
      countable.encode (job_deadline_unix_ms m); countable.encode (job_reservation_id m);
      countable.encode (job_cache m)])
    (λ l, match l with
      | [a; b; c; d; e; f; g; h; i] =>
        a ← countable.decode a; b ← countable.decode b; c ← countable.decode c;
        d ← countable.decode d; e ← countable.decode e; f ← countable.decode f;
        g ← countable.decode g; h ← countable.decode h; i ← countable.decode i;
        Some (Build_GenerationJob a b c d e f g h i)
      | _ => None end) _).
  by_fields.
Defined.
#[export] Instance TokenChunk_countable : Countable TokenChunk.
Proof.
  refine (inj_countable
    (λ m, [countable.encode (text m); countable.encode (cumulative_generated_tokens m)])
    (λ l, match l with
      | [a; b] =>
        a ← countable.decode a; b ← countable.decode b;
        Some (Build_TokenChunk a b)
      | _ => None end) _).
  by_fields.
Defined.
#[export] Instance GenerationCompleted_countable : Countable GenerationCompleted.
Proof.
  refine (inj_countable
    (λ m, [countable.encode (done_prompt_tokens m); countable.encode
      (done_generated_tokens m); countable.encode (done_finish_reason m)])
    (λ l, match l with
      | [a; b; c] =>
        a ← countable.decode a; b ← countable.decode b; c ← countable.decode c;
        Some (Build_GenerationCompleted a b c)
      | _ => None end) _).
  by_fields.
Defined.
#[export] Instance GenerationFailed_countable : Countable GenerationFailed.
Proof.
  refine (inj_countable
    (λ m, [countable.encode (code m); countable.encode (message m); countable.encode
      (retryable m)])
    (λ l, match l with
      | [a; b; c] =>
        a ← countable.decode a; b ← countable.decode b; c ← countable.decode c;
        Some (Build_GenerationFailed a b c)
      | _ => None end) _).
  by_fields.
Defined.
#[export] Instance Event_countable : Countable Event.
Proof.
  refine (inj_countable'
    (λ e, match e with
      | AttemptStarted => inl (inl ())
      | Token c => inl (inr c)
      | Completed d => inr (inl d)
      | Failed f => inr (inr f) end)
    (λ s, match s with
      | inl (inl _) => AttemptStarted
      | inl (inr c) => Token c
      | inr (inl d) => Completed d
      | inr (inr f) => Failed f end) _).
  by intros [].
Defined.
#[export] Instance GenerationResult_countable : Countable GenerationResult.
Proof.
  refine (inj_countable
    (λ m, [countable.encode (res_schema_version m); countable.encode (res_request_id m);
      countable.encode (res_attempt_id m); countable.encode (res_event m)])
    (λ l, match l with
      | [a; b; c; d] =>
        a ← countable.decode a; b ← countable.decode b; c ← countable.decode c;
        d ← countable.decode d;
        Some (Build_GenerationResult a b c d)
      | _ => None end) _).
  by_fields.
Defined.
#[export] Instance ApiChatMessage_countable : Countable ApiChatMessage.
Proof.
  refine (inj_countable
    (λ m, [countable.encode (api_role m); countable.encode (api_content m)])
    (λ l, match l with
      | [a; b] =>
        a ← countable.decode a; b ← countable.decode b;
        Some (Build_ApiChatMessage a b)
      | _ => None end) _).
  by_fields.
Defined.
#[export] Instance GenerateRequest_countable : Countable GenerateRequest.
Proof.
  refine (inj_countable
    (λ m, [countable.encode (req_model m); countable.encode (req_messages m);
      countable.encode (req_prompt m); countable.encode (req_max_tokens m);
      countable.encode (req_temperature m)])
    (λ l, match l with
      | [a; b; c; d; e] =>
        a ← countable.decode a; b ← countable.decode b; c ← countable.decode c;
        d ← countable.decode d; e ← countable.decode e;
        Some (Build_GenerateRequest a b c d e)
      | _ => None end) _).
  by_fields.
Defined.
#[export] Instance GenerateResponse_countable : Countable GenerateResponse.
Proof.
  refine (inj_countable
    (λ m, [countable.encode (rsp_request_id m); countable.encode (rsp_model m);
      countable.encode (rsp_text m); countable.encode (rsp_prompt_tokens m);
      countable.encode (rsp_generated_tokens m); countable.encode (rsp_finish_reason m)])
    (λ l, match l with
      | [a; b; c; d; e; f] =>
        a ← countable.decode a; b ← countable.decode b; c ← countable.decode c;
        d ← countable.decode d; e ← countable.decode e; f ← countable.decode f;
        Some (Build_GenerateResponse a b c d e f)
      | _ => None end) _).
  by_fields.
Defined.
#[export] Instance SubscribeGenerationRequest_countable : Countable SubscribeGenerationRequest.
Proof.
  refine (inj_countable
    (λ m, [countable.encode (sub_request_id m); countable.encode (sub_after_event_id m)])
    (λ l, match l with
      | [a; b] =>
        a ← countable.decode a; b ← countable.decode b;
        Some (Build_SubscribeGenerationRequest a b)
      | _ => None end) _).
  by_fields.
Defined.
#[export] Instance GenerationEvent_countable : Countable GenerationEvent.
Proof.
  refine (inj_countable
    (λ m, [countable.encode (ev_request_id m); countable.encode (ev_model m);
      countable.encode (ev_delta m); countable.encode (ev_generated_tokens m);
      countable.encode (ev_finish_reason m); countable.encode (ev_event_id m);
      countable.encode (ev_attempt_id m); countable.encode (ev_prompt_tokens m);
      countable.encode (ev_terminal m)])
    (λ l, match l with
      | [a; b; c; d; e; f; g; h; i] =>
        a ← countable.decode a; b ← countable.decode b; c ← countable.decode c;
        d ← countable.decode d; e ← countable.decode e; f ← countable.decode f;
        g ← countable.decode g; h ← countable.decode h; i ← countable.decode i;
        Some (Build_GenerationEvent a b c d e f g h i)
      | _ => None end) _).
  by_fields.
Defined.

#[export] Instance ref_codec : Codec := {|
  codec_job := ref_proto; codec_result := ref_proto; codec_request := ref_proto;
  codec_response := ref_proto; codec_subscribe := ref_proto; codec_event := ref_proto |}.

#[export] Instance ref_codec_laws : @CodecLaws ref_codec.
Proof. split; apply ref_proto_laws. Qed.

(** ** A JSON printer and its parser

    A tree goes through stdpp's generic trees. *)
Definition json_leaf : Type := string + (N + bool).
Abbreviation text_leaf s := (GenLeaf (inl s)).

Fixpoint tree_of (v : json) : gen_tree json_leaf :=
  match v with
  | JNull => GenNode 0 []
  | JBool b => GenLeaf (inr (inr b))
  | JU64 n => GenLeaf (inr (inl n))
  | JNumber s => GenNode 1 [text_leaf s]
  | JString s => text_leaf s
  | JArray l => GenNode 2 (map tree_of l)
  | JObject fs => GenNode 3 (map (λ '(k, v), GenNode 4 [text_leaf k; tree_of v]) fs)
  end.
Fixpoint of_tree (t : gen_tree json_leaf) : json :=
  match t with
  | GenLeaf (inl s) => JString s
  | GenLeaf (inr (inl n)) => JU64 n
  | GenLeaf (inr (inr b)) => JBool b
  | GenNode 1 [text_leaf s] => JNumber s
  | GenNode 2 l => JArray (map of_tree l)
  | GenNode 3 l => JObject (map (λ t, match t with
      | GenNode 4 [text_leaf k; v] => (k, of_tree v) | _ => ("", JNull) end) l)
  | _ => JNull
  end.

Lemma of_tree_of v : of_tree (tree_of v) = v.
Proof.
  induction v as [| | | | |l IH|fs IH] using json_tree_ind; try done.
  - cbn. f_equal. rewrite map_map. by induction IH as [|v l Hv _ IH]; [|simpl; f_equal].
  - cbn. f_equal. rewrite map_map.
    induction IH as [|[k v] fs Hv _ IH]; [done|]. simpl in *. by rewrite Hv, IH.
Qed.

Definition ref_json_print (v : json) : bytes := bits_of (countable.encode (tree_of v)).
Definition ref_json_parse (b : bytes) : result string json :=
  match of_bits b ≫= countable.decode with
  | Some t => Ok (of_tree t) | None => Err "expected value" end.

Lemma ref_json_roundtrip v : ref_json_parse (ref_json_print v) = Ok v.
Proof.
  unfold ref_json_parse, ref_json_print. rewrite of_bits_of. simpl.
  by rewrite countable.decode_encode, of_tree_of.
Qed.
