(* ===== verification/StreamLog.v ===== *)
(** * Append-only logs

    What the request stream and the result streams have in common: entries
    with increasing identifiers, to which others are appended, read from a
    cursor on. *)
From stdpp Require Import sorting options.
From S2P Require Import Prelude Text Valkey.

(** ** Identifiers *)
Lemma id_lt_trans i j k : id_lt i j → id_lt j k → id_lt i k.
Proof. unfold id_lt. lia. Qed.
Lemma id_lt_irrefl i : ¬ id_lt i i.
Proof. unfold id_lt. lia. Qed.
Lemma id_lt_asym i j : id_lt i j → ¬ id_lt j i.
Proof. unfold id_lt. lia. Qed.

Lemma ascii_only_app a b : ascii_only (a +:+ b) = ascii_only a && ascii_only b.
Proof. induction a as [|c a IH]; simpl; [done|]. by rewrite IH, andb_assoc. Qed.

Lemma digit_ascii c : is_Some (digit c) → is_ascii c = true.
Proof.
  unfold digit, in_range, is_ascii. case_match; [|by intros []]. intros _. bool_to_prop.
  apply N.ltb_lt. lia.
Qed.

Lemma pretty_N_go_ascii n s : ascii_only s = true → ascii_only (pretty_N_go n s) = true.
Proof.
  revert s. induction (N.lt_wf_0 n) as [n _ IH]; intros s Hs.
  destruct (decide (n = 0)%N) as [->|Hn]; [done|].
  rewrite pretty_N_go_step by lia. apply IH; [apply N.div_lt; lia|]. simpl.
  rewrite Hs, andb_true_r. apply digit_ascii. rewrite digit_pretty; [eauto|].
  by apply N.mod_lt.
Qed.

Lemma pretty_ascii (n : N) : ascii_only (pretty n) = true.
Proof. unfold pretty, pretty_N. case_decide; [done|]. by apply pretty_N_go_ascii. Qed.

(** An identifier is sent as text. *)
Lemma show_id_utf8 i : valid_utf8 (show_id i) = true.
Proof.
  apply ascii_valid. unfold show_id. by rewrite !ascii_only_app, !pretty_ascii.
Qed.

(** ** Logs *)
Section log.
Context {A : Type}.

(** What comes after [i]. *)
Definition after (i : stream_id) (es : list (stream_id * A)) : list (stream_id * A) :=
  filter (λ e, id_lt i e.1) es.

Lemma first_after_log (f : A → list field) s es i :
  s_entries s = (λ e, (e.1, f e.2)) <$> es →
  first_after i s = (λ e, (e.1, f e.2)) <$> head (after i es).
Proof.
  intros He. unfold first_after, after. rewrite He. clear He.
  induction es as [|e es IH]; [done|]. rewrite fmap_cons, !filter_cons. simpl.
  by case_decide.
Qed.

Lemma after_step i (e : stream_id * A) es rest :
  StronglySorted id_lt (es.*1) → after i es = e :: rest → after e.1 es = rest.
Proof.
  unfold after. induction es as [|x es IH]; [done|]. simpl. intros [Hs Hx]%StronglySorted_inv.
  assert (∀ l : list (stream_id * A), Forall (id_lt x.1) l.*1 →
    filter (λ e, id_lt x.1 e.1) l = l) as Hall.
  { induction l as [|y l IHl]; [done|]. simpl. intros [Hy Hl]%Forall_cons.
    rewrite filter_cons_True by done. f_equal. by apply IHl. }
  rewrite !filter_cons. destruct (decide (id_lt i x.1)) as [Hix|Hix].
  - intros [= <- Hrest]. rewrite decide_False by apply id_lt_irrefl. rewrite Hall by done.
    rewrite <-Hrest. symmetry. clear -Hix Hx. induction es as [|y es IH]; [done|].
    simpl in Hx. apply Forall_cons in Hx as [Hy Hx].
    rewrite filter_cons_True by (by eapply id_lt_trans). f_equal. auto.
  - intros Hrest. rewrite decide_False; [auto|].
    assert (e ∈ filter (λ e, id_lt i e.1) es) as [_ Hin]%list_elem_of_filter
      by (rewrite Hrest; left).
    apply id_lt_asym. rewrite Forall_fmap, Forall_forall in Hx. by apply Hx.
Qed.

Lemma after_app i (es new : list (stream_id * A)) : after i (es ++ new) = after i es ++ after i new.
Proof. apply filter_app. Qed.

Lemma after_new i0 i (es new : list (stream_id * A)) :
  StronglySorted id_lt ((es ++ new).*1) → id_lt i0 i → i ∈ es.*1 → after i0 new = after i new.
Proof.
  intros Hs Hlt Hin. rewrite fmap_app in Hs.
  assert (Forall (λ e, id_lt i e.1) new) as Hnew.
  { apply Forall_forall. intros e He. eapply StronglySorted_app_1_elem_of; [exact Hs|done|].
    by apply list_elem_of_fmap_2. }
  clear Hs Hin. unfold after. induction Hnew as [|e new He _ IH]; [done|].
  rewrite !filter_cons_True by (done || by eapply id_lt_trans). by f_equal.
Qed.

Lemma after_start (es : list (stream_id * A)) :
  Forall (λ e, id_lt (0, 0)%N e.1) es → after (0, 0)%N es = es.
Proof.
  unfold after. induction 1 as [|e es He _ IH]; [done|].
  by rewrite filter_cons_True, IH.
Qed.

(** The identifiers do not exceed the last one. *)
Definition ids_upto (last : stream_id) (es : list (stream_id * A)) : Prop :=
  Forall (λ e, id_ok e.1 ∧ (e.1 = last ∨ id_lt e.1 last)) es.

Lemma log_append es i (a : A) last :
  StronglySorted id_lt es.*1 → ids_upto last es → id_lt last i → id_ok i →
  StronglySorted id_lt (es ++ [(i, a)]).*1 ∧ ids_upto i (es ++ [(i, a)])
  ∧ Forall (λ e, id_lt e.1 i) es.
Proof.
  intros Hs Hi Hlt Hok.
  assert (Forall (λ e, id_lt e.1 i) es) as Hall.
  { eapply Forall_impl; [exact Hi|]. intros e [_ [-> |?]]; [done|by eapply id_lt_trans]. }
  split; [|split; [|done]].
  - rewrite fmap_app. apply StronglySorted_app_2; [|done|by repeat constructor].
    intros x1 x2 Hx1 ->%list_elem_of_singleton. rewrite Forall_forall in Hall.
    by apply list_elem_of_fmap in Hx1 as (e & -> & ?%Hall).
  - apply Forall_app. split; [|by constructor; [split; [|left]|]].
    unfold ids_upto in Hi. rewrite Forall_forall in *.
    intros e He'. split; [by apply Hi|]. right. auto.
Qed.

Lemma sorted_nodup (es : list (stream_id * A)) : StronglySorted id_lt es.*1 → NoDup es.*1.
Proof.
  induction es as [|e es IH]; simpl; [constructor|]. intros [Hs Hall]%StronglySorted_inv.
  constructor; [|by apply IH]. intros Hin. rewrite Forall_forall in Hall.
  by destruct (id_lt_irrefl e.1 (Hall _ Hin)).
Qed.

End log.
