(* ===== verification/Replies.v ===== *)
(** * Parsing the broker's replies: crates/inference-streams/src/lib.rs

    [validate_schema] and the [parse_*] functions that turn a reply of
    [XREAD], [XREADGROUP] or [XAUTOCLAIM] into a job or a result entry. *)
From stdpp Require Import options.
From S2P Require Import Prelude Text Valkey Lua Program Wire.

Definition SCHEMA_VERSION : N := 1.

Record ConsumedJob := { entry_id : string; job : GenerationJob }.
Record ResultEntry := { event_id : string; entry_result : GenerationResult }.

Definition validate_schema (version : N) : result error unit :=
  if (version =? SCHEMA_VERSION)%N then Ok tt
  else Err ["unsupported inference Streams schema version " +:+ pretty version].

(** [String::from_utf8(id.clone())?] *)
Definition from_utf8 (b : bytes) : result error string :=
  if valid_utf8 b then Ok b else Err ["invalid utf-8 sequence"].

(** The loop over [fields.chunks(2)]. *)
Fixpoint find_payload (id : bytes) (fields : list Value)
    : result error (option (string * bytes)) :=
  match fields with
  | VBulkString key :: VBulkString payload :: rest =>
      if decide (key = "payload")
      then id ← from_utf8 id; Ok (Some (id, payload))
      else find_payload id rest
  | _ :: _ :: rest => find_payload id rest
  | _ => Err ["Stream entry has no protobuf payload field"]
  end.

Definition parse_entry (value : option Value) : result error (option (string * bytes)) :=
  match value with
  | Some (VArray entry) =>
    match head entry with
    | Some (VBulkString id) =>
      match entry !! 1 with
      | Some (VArray fields) => find_payload id fields
      | _ => Ok None
      end
    | _ => Ok None
    end
  | _ => Ok None
  end.

Definition parse_xread_payload (reply : Value) : result error (option (string * bytes)) :=
  match reply with
  | VArray streams =>
    match head streams with
    | Some (VArray stream) =>
      match stream !! 1 with
      | Some (VArray entries) => parse_entry (head entries)
      | _ => Ok None
      end
    | _ => Ok None
    end
  | _ => Ok None
  end.

Section codec.
Context `{Codec}.

(** [M::decode(payload)?] *)
Definition decode_message {M} `{Proto M} (payload : bytes) : result error M :=
  map_err (λ e, [e]) (decode payload).

Definition parse_job_reply (reply : Value) : result error (option ConsumedJob) :=
  o ← parse_xread_payload reply;
  match o with
  | None => Ok None
  | Some (id, payload) =>
    job ← context "decode generation job" (decode_message payload);
    _ ← validate_schema (job_schema_version job);
    Ok (Some {| entry_id := id; job := job |})
  end.

Definition parse_autoclaim_reply (reply : Value) : result error (option ConsumedJob) :=
  match reply with
  | VArray parts =>
    match parts !! 1 with
    | Some (VArray entries) =>
      entry ← parse_entry (head entries);
      match entry with
      | Some (id, payload) =>
        job ← decode_message payload;
        _ ← validate_schema (job_schema_version job);
        Ok (Some {| entry_id := id; job := job |})
      | None => Ok None
      end
    | _ => Ok None
    end
  | _ => Ok None
  end.

Definition parse_result_reply (reply : Value) : result error (option ResultEntry) :=
  o ← parse_xread_payload reply;
  match o with
  | None => Ok None
  | Some (id, payload) =>
    res ← decode_message payload;
    _ ← validate_schema (res_schema_version res);
    Ok (Some {| event_id := id; entry_result := res |})
  end.

End codec.
