(* ===== verification/Streams.v ===== *)
(** * The streams client: crates/inference-streams/src/lib.rs

    [StreamsClient], [JobConsumer] and [ResultSubscription]: every operation
    of the data plane on the broker, as a program ([Program]).  A [Duration]
    is its number of milliseconds. *)
From stdpp Require Import options.
From S2P Require Import Prelude Text Valkey Lua Program Wire Replies.

Definition REQUEST_STREAM : string := "inference:requests".
Definition REQUEST_GROUP : string := "inference-engines".

Record StreamsConfig := {
  active_ttl : N;
  result_retention : N;
  lease_duration : N;
}.
Definition default_streams_config : StreamsConfig :=
  {| active_ttl := 3600 * 1000; result_retention := 600 * 1000;
     lease_duration := 60 * 1000 |}.

(** [Duration::as_secs]. *)
Definition as_secs (d : N) : N := (d `div` 1000)%N.
(** [Duration::as_millis] is a [u128]; [as u64] drops its upper half. *)
Definition as_millis_u64 (d : N) : N := (d `mod` u64_modulus)%N.
Lemma as_millis_small d : (d < 2 ^ 62)%N → as_millis_u64 d = d.
Proof. intros Hd. apply N.mod_small. unfold u64_modulus. lia. Qed.

Record GenerationStatus := {
  st_state : string;
  st_model_id : string;
  active_attempt_id : option string;
  terminal_event_id : option string;
}.

Record JobConsumer := { jc_config : StreamsConfig; consumer_name : string }.
Record ResultSubscription := { rs_stream : string; last_event_id : string }.

Record QuotaLimits := {
  requests_per_minute : N;
  prompt_tokens_per_minute : N;
  generated_tokens_per_minute : N;
}.
Record QuotaReservation := {
  reservation_id : string;
  remaining_requests : N;
  remaining_prompt_tokens : N;
  remaining_generated_tokens : N;
}.
Inductive QuotaError : Type :=
| QuotaRequests | QuotaPromptTokens | QuotaGeneratedTokens
| QuotaBroker (e : error).

Definition quota_error_to_string (e : QuotaError) : string :=
  match e with
  | QuotaRequests => "request quota exceeded"
  | QuotaPromptTokens => "prompt-token quota exceeded"
  | QuotaGeneratedTokens => "generated-token quota exceeded"
  | QuotaBroker e => error_to_string e
  end.

(** SHA-256, in lower-case hexadecimal. *)
Class Sha256 := sha256_hex : bytes → string.

(** ** Keys *)
Definition result_stream (request_id : string) : string :=
  "inference:results:" +:+ request_id.
Definition status_key (request_id : string) : string :=
  "inference:status:" +:+ request_id.
Definition lease_key (request_id : string) : string :=
  "inference:lease:" +:+ request_id.
Definition reservation_key (id : string) : string :=
  "inference:reservation:" +:+ id.

Definition quota_prefix `{Sha256} (api_key : string) (bucket : N) : string :=
  "inference:quota:" +:+ sha256_hex api_key +:+ ":" +:+ pretty bucket.

(** [matches!(result.event, Some(Completed(_)) | Some(Failed(_)))] *)
Definition terminal_event (e : option Event) : bool :=
  match e with Some (Completed _) | Some (Failed _) => true | _ => false end.

(** The integer reply of a script. *)
Definition as_int (r : lua_reply) : result error Z :=
  match r with RInt z => Ok z | RInts _ => Err ["Response was of incompatible type"] end.
(** [.max(0) as u64] *)
Definition clamp (z : Z) : N := Z.to_N (Z.max z 0).

Section client.
Context `{Codec, Sha256} (config : StreamsConfig).

(** ** Generations and results *)
Definition publish_generation (job : GenerationJob) : prog (result error string) :=
  lift (validate_schema (job_schema_version job)) ?;
  let payload := encode job in
  let status := status_key (job_request_id job) in
  entry_id ?← perform (Call (XADD REQUEST_STREAM [("payload", payload)]));
  perform (Multi [
    HSET status [("state", "queued"); ("model_id", job_model_id job);
                 ("request_entry_id", entry_id)];
    EXPIRE status (as_secs (active_ttl config))]) ?;
  mret (Ok entry_id).

(** The commands that follow the [XADD] of a result, in one transaction. *)
Definition result_commands (res : GenerationResult) (event_id : string) : list command :=
  let stream := result_stream (res_request_id res) in
  let status := status_key (res_request_id res) in
  let terminal := terminal_event (res_event res) in
  let state := if terminal then "completed" else "running" in
  let ttl := if terminal then result_retention config else active_ttl config in
  [HSET status [("state", state); ("active_attempt_id", res_attempt_id res)]]
  ++ (if terminal then [HSET status [("terminal_event_id", event_id)]] else [])
  ++ [EXPIRE stream (as_secs ttl); EXPIRE status (as_secs ttl)].

Definition publish_result (res : GenerationResult) : prog (result error string) :=
  lift (validate_schema (res_schema_version res)) ?;
  event_id ?← perform (Call (XADD (result_stream (res_request_id res))
                                  [("payload", encode res)]));
  perform (Multi (result_commands res event_id)) ?;
  mret (Ok event_id).

Definition subscribe (request_id : string) (after_event_id : option string)
    : prog (result error (option ResultSubscription)) :=
  let stream := result_stream request_id in
  let status := status_key request_id in
  exists_ ?← perform (Call (EXISTS [stream; status]));
  if (exists_ =? 0)%Z then mret (Ok None) else
  perform Connect ?;
  mret (Ok (Some {| rs_stream := stream;
                    last_event_id := default "0-0" after_event_id |})).

Definition non_empty (s : string) : bool := negb (bool_decide (s = "")).

(** The decision of [status] on the four values [HMGET] returns. *)
Definition parse_status (values : list (option string)) : option GenerationStatus :=
  let value (i : nat) : option string := mjoin (values !! i) in
  match value 0 with
  | Some state =>
    if non_empty state then
      Some {| st_state := state;
              st_model_id := default "" (value 1);
              active_attempt_id := v ← value 2; if non_empty v then Some v else None;
              terminal_event_id := v ← value 3; if non_empty v then Some v else None |}
    else None
  | None => None
  end.

Definition status (request_id : string) : prog (result error (option GenerationStatus)) :=
  values ?← perform (Call (HMGET (status_key request_id)
    ["state"; "model_id"; "active_attempt_id"; "terminal_event_id"]));
  mret (Ok (parse_status values)).

(** ** Leases *)
Definition acquire_lease (request_id owner : string) : prog (result error bool) :=
  value ?← perform (Call (SET_NX_PX (lease_key request_id) owner
                                      (as_millis_u64 (lease_duration config))));
  mret (Ok (bool_decide (is_Some value))).

Definition release_lease (request_id owner : string) : prog (result error unit) :=
  r ?← perform (Eval (ReleaseLease (lease_key request_id) owner));
  _ ?← lift (as_int r);
  mret (Ok tt).

Definition renew_lease (request_id owner : string) : prog (result error bool) :=
  r ?← perform (Eval (RenewLease (lease_key request_id) owner
                                 (pretty (as_millis_u64 (lease_duration config)))));
  renewed ?← lift (as_int r);
  mret (Ok (renewed =? 1)%Z).

(** ** Quota *)
Definition reserve_script_for (id api_key : string) (bucket : N)
    (prompt_tokens generated_tokens : N) (limits : QuotaLimits) : script :=
  let prefix := quota_prefix api_key bucket in
  ReserveQuota (prefix +:+ ":requests") (prefix +:+ ":prompt") (prefix +:+ ":generated")
    (reservation_key id) (pretty prompt_tokens) (pretty generated_tokens)
    (pretty (requests_per_minute limits)) (pretty (prompt_tokens_per_minute limits))
    (pretty (generated_tokens_per_minute limits)) "120".

Definition parse_reservation (id : string) (values : list Z)
    : result QuotaError QuotaReservation :=
  match values with
  | [1; requests; prompt; generated]%Z =>
      Ok {| reservation_id := id; remaining_requests := clamp requests;
            remaining_prompt_tokens := clamp prompt;
            remaining_generated_tokens := clamp generated |}
  | (0 :: 1 :: _)%Z => Err QuotaRequests
  | (0 :: 2 :: _)%Z => Err QuotaPromptTokens
  | (0 :: 3 :: _)%Z => Err QuotaGeneratedTokens
  | _ => Err (QuotaBroker ["invalid quota script response"])
  end.

Definition reserve_quota (api_key : string) (prompt_tokens generated_tokens : N)
    (limits : QuotaLimits) : prog (result QuotaError QuotaReservation) :=
  id ← perform NewUuid;
  now ← perform NowMs;
  let bucket := (now `div` 60000)%N in
  r ← perform (Eval (reserve_script_for id api_key bucket
                       prompt_tokens generated_tokens limits));
  match r with
  | Err e => mret (Err (QuotaBroker e))
  | Ok (RInt _) => mret (Err (QuotaBroker ["Response was of incompatible type"]))
  | Ok (RInts values) => mret (parse_reservation id values)
  end.

Definition reconcile_quota (id : string) (actual : N) : prog (result error N) :=
  r ?← perform (Eval (ReconcileQuota (reservation_key id) (pretty actual)));
  refunded ?← lift (as_int r);
  mret (Ok (clamp refunded)).

Definition cancel_quota (id : string) : prog (result error unit) :=
  r ?← perform (Eval (CancelQuota (reservation_key id)));
  _ ?← lift (as_int r);
  mret (Ok tt).

(** ** Job consumers *)
Definition consumer (name : string) : prog (result error JobConsumer) :=
  r ← perform (Call (XGROUP_CREATE REQUEST_STREAM REQUEST_GROUP "0-0"));
  match r with
  | Err e =>
    if contains "BUSYGROUP" (error_to_string e) then
      perform Connect ?; mret (Ok {| jc_config := config; consumer_name := name |})
    else mret (Err e)
  | Ok _ =>
    perform Connect ?; mret (Ok {| jc_config := config; consumer_name := name |})
  end.

Definition next_job (c : JobConsumer) (block : N) : prog (result error (option ConsumedJob)) :=
  reply ?← perform (Call (XREADGROUP REQUEST_GROUP (consumer_name c)
                                    (as_millis_u64 block) REQUEST_STREAM));
  lift (parse_job_reply reply).

Definition reclaim_stale (c : JobConsumer) (idle : N) : prog (result error (option ConsumedJob)) :=
  reply ?← perform (Call (XAUTOCLAIM REQUEST_STREAM REQUEST_GROUP (consumer_name c)
                                    (as_millis_u64 idle) "0-0"));
  lift (parse_autoclaim_reply reply).

Definition acknowledge (entry_id : string) : prog (result error bool) :=
  count ?← perform (Call (XACK REQUEST_STREAM REQUEST_GROUP entry_id));
  mret (Ok (count =? 1)%Z).

(** ** Result subscriptions *)

(** The [for attempt in 0..4] loop of [next], [n] attempts before its end;
    the caller's subscription is threaded through. *)
Fixpoint next_loop (n : nat) (backoff : N) (block : N) (s : ResultSubscription)
    : prog (result error (option ResultEntry) * ResultSubscription) :=
  match n with
  | 0 => mret (Err ["internal error: entered unreachable code"], s)
  | S n' =>
    reply ← perform (Call (XREAD (as_millis_u64 block) (rs_stream s) (last_event_id s)));
    match reply with
    | Ok reply =>
      match parse_result_reply reply with
      | Err e => mret (Err e, s)
      | Ok None => mret (Ok None, s)
      | Ok (Some entry) =>
          mret (Ok (Some entry),
                {| rs_stream := rs_stream s; last_event_id := event_id entry |})
      end
    | Err e =>
      if decide (n' = 0) then mret (Err e, s) else
      perform (Sleep backoff);;
      c ← perform Connect;
      match c with
      | Err e => mret (Err e, s)
      | Ok _ => next_loop n' (backoff * 2)%N block s
      end
    end
  end.

Definition next (s : ResultSubscription) (block : N)
    : prog (result error (option ResultEntry) * ResultSubscription) :=
  next_loop 4 50 block s.

End client.
