(* ===== verification/Engine.v ===== *)
(** * The inference engine: crates/inference-engine/src/main.rs

    A worker takes one job at a time from the request stream, generates under
    a lease, publishes every token as a result, settles the quota and
    acknowledges the job. *)
From Stdlib Require Import Ascii.
From stdpp Require Import options.
From S2P Require Import Prelude Text Valkey Lua Program Wire Json Replies Streams.

(** ** Configuration *)
Inductive Backend : Type := Synthetic | OpenAiCompatible.

Record EngineConfig := {
  backend : Backend;
  ec_model : string;
  ec_endpoint : string;
  synthetic_token_delay : N;   (* milliseconds *)
}.

Record StreamSettings := {
  active_ttl_seconds : N;
  result_retention_seconds : N;
  lease_seconds : N;
  reclaim_idle_seconds : N;
}.
Definition default_stream_settings : StreamSettings :=
  {| active_ttl_seconds := 3600; result_retention_seconds := 600; lease_seconds := 60;
     reclaim_idle_seconds := 90 |}.

Record BackendConfig := {
  bc_kind : string;
  mlx_base_url : option string;
  openai_base_url : option string;
  synthetic_token_delay_ms : option N;
}.
Record ServiceConfig := {
  sc_broker_url : string;
  sc_model_id : string;
  sc_model_endpoint : string;
  sc_backend : BackendConfig;
  sc_streams : StreamSettings;
}.

Record GenerationUsage := {
  usage_prompt_tokens : N;
  usage_generated_tokens : N;
  usage_finish_reason : string;
}.
Definition default_usage : GenerationUsage :=
  {| usage_prompt_tokens := 0; usage_generated_tokens := 0; usage_finish_reason := "" |}.

(** [Duration::from_secs]. *)
Definition from_secs (s : N) : N := (s * 1000)%N.

Definition stream_config (s : StreamSettings) : StreamsConfig :=
  {| active_ttl := from_secs (active_ttl_seconds s);
     result_retention := from_secs (result_retention_seconds s);
     lease_duration := from_secs (lease_seconds s) |}.

(** The environment of the process. *)
Abbreviation environment := (string → option string).

Definition choose_endpoint (env : environment) (service : ServiceConfig) : string :=
  let non_empty_or_next (o : option string) : option string :=
    s ← o; if non_empty s then Some s else None in
  match non_empty_or_next (env "MODEL_ENDPOINT") with
  | Some e => e
  | None =>
    if non_empty (sc_model_endpoint service) then sc_model_endpoint service
    else default (default "http://127.0.0.1:18000" (mlx_base_url (sc_backend service)))
                 (openai_base_url (sc_backend service))
  end.

Definition engine_config (env : environment) (service : ServiceConfig) : EngineConfig :=
  let kind := default (bc_kind (sc_backend service)) (env "BACKEND") in
  {| backend := if decide (kind = "synthetic") then Synthetic else OpenAiCompatible;
     ec_model := default (sc_model_id service) (env "MODEL_ID");
     ec_endpoint := choose_endpoint env service;
     synthetic_token_delay := default 0%N (synthetic_token_delay_ms (sc_backend service)) |}.

(** ** Requests *)
Definition extract_prompt (request : RuntimeRequest) : string :=
  match rr_messages request with
  | Some messages =>
      String.concat (String "010" "")
        (omap (λ message, get "content" message ≫= as_str) messages)
  | None => default "" (rr_prompt request)
  end.

Definition estimate_tokens (text : string) : N := nlen (split_whitespace text).

(** The line-by-line part of the model server's answer. *)
Definition newline : ascii := "010".
Definition carriage_return : ascii := "013".

(** [if let Some(runtime_usage) = value.get("usage")] *)
Definition take_usage (value : json) (usage : GenerationUsage) : GenerationUsage :=
  match get "usage" value with
  | Some runtime_usage =>
    {| usage_prompt_tokens := default (usage_prompt_tokens usage)
         (get "prompt_tokens" runtime_usage ≫= as_u64);
       usage_generated_tokens := default (usage_generated_tokens usage)
         (get "completion_tokens" runtime_usage ≫= as_u64);
       usage_finish_reason := usage_finish_reason usage |}
  | None => usage
  end.

Definition first_choice (value : json) : option json :=
  items ← get "choices" value;
  items ← as_array items;
  head items.

Definition take_finish_reason (value : json) (usage : GenerationUsage) : GenerationUsage :=
  match (first_choice value ≫= get "finish_reason") ≫= as_str with
  | Some reason =>
    {| usage_prompt_tokens := usage_prompt_tokens usage;
       usage_generated_tokens := usage_generated_tokens usage;
       usage_finish_reason := reason |}
  | None => usage
  end.

Definition choice_text (value : json) : string :=
  let choice := first_choice value in
  let content := match (choice ≫= get "delta") ≫= get "content" with
    | Some c => Some c
    | None => choice ≫= get "text"
    end in
  default "" (content ≫= as_str).

Definition count_text (text : string) (usage : GenerationUsage) : GenerationUsage :=
  {| usage_prompt_tokens := usage_prompt_tokens usage;
     usage_generated_tokens :=
       wadd (usage_generated_tokens usage) (N.max (estimate_tokens text) 1);
     usage_finish_reason := usage_finish_reason usage |}.

Inductive JobDisposition : Type := Acknowledge | Pending.

Section engine.
Context `{Codec, SerdeJson}.
(** The client's configuration and the engine's. *)
Context (sconf : StreamsConfig) (config : EngineConfig).

(** ** Publishing *)
Definition result_for (job : GenerationJob) (attempt_id : string) (e : Event) : GenerationResult :=
  {| res_schema_version := SCHEMA_VERSION; res_request_id := job_request_id job;
     res_attempt_id := attempt_id; res_event := Some e |}.

Definition publish_event (job : GenerationJob) (attempt_id : string) (e : Event)
    : prog (result error unit) :=
  publish_result sconf (result_for job attempt_id e) ?; mret (Ok tt).

Definition publish_token (job : GenerationJob) (attempt_id text : string)
    (generated_tokens : N) : prog (result error unit) :=
  publish_event job attempt_id
    (Token {| text := text; cumulative_generated_tokens := generated_tokens |}).

Definition publish_completion (job : GenerationJob) (attempt_id : string)
    (usage : GenerationUsage) : prog (result error unit) :=
  publish_event job attempt_id
    (Completed {| done_prompt_tokens := usage_prompt_tokens usage;
                  done_generated_tokens := usage_generated_tokens usage;
                  done_finish_reason := usage_finish_reason usage |}).

Definition publish_failure (job : GenerationJob) (attempt_id code message : string)
    (retryable : bool) : prog (result error unit) :=
  publish_event job attempt_id
    (Failed {| code := code; message := message; retryable := retryable |}).

(** ** The synthetic backend *)
Fixpoint publish_words (job : GenerationJob) (attempt_id : string) (index : N)
    (words : list string) : prog (result error unit) :=
  match words with
  | [] => mret (Ok tt)
  | word :: words =>
    publish_token job attempt_id (word +:+ " ") (wadd index 1) ?;
    (if (synthetic_token_delay config =? 0)%N then mret tt
     else perform (Sleep (synthetic_token_delay config)));;
    publish_words job attempt_id (index + 1) words
  end.

Definition synthetic_words (request : RuntimeRequest) : list string :=
  take (N.to_nat (rr_max_tokens request))
    (split_whitespace ("Generated response for: " +:+ extract_prompt request)).

Definition stream_synthetic (job : GenerationJob) (attempt_id : string)
    (request : RuntimeRequest) : prog (result error GenerationUsage) :=
  let words := synthetic_words request in
  publish_words job attempt_id 0 words ?;
  mret (Ok {| usage_prompt_tokens := estimate_tokens (extract_prompt request);
              usage_generated_tokens := nlen words;
              usage_finish_reason := "stop" |}).

(** ** The OpenAI-compatible backend *)
Definition user_prompt (request : RuntimeRequest) : json :=
  JObject [("role", JString "user"); ("content", JString (default "" (rr_prompt request)))].

Definition request_payload (request : RuntimeRequest) : json :=
  let messages := default [user_prompt request] (rr_messages request) in
  let messages := match messages with [] => [user_prompt request] | _ => messages end in
  JObject [("model", JString (rr_model request));
           ("messages", JArray messages);
           ("max_tokens", JU64 (rr_max_tokens request));
           ("temperature", value_of_f32 (rr_temperature request));
           ("stream", JBool true);
           ("stream_options", JObject [("include_usage", JBool true)])].

Definition completions_url (job : GenerationJob) : string :=
  let endpoint := if non_empty (job_model_endpoint job)
    then job_model_endpoint job else ec_endpoint config in
  trim_end_char "/" endpoint +:+ "/v1/chat/completions".

(** One decoded event. *)
Definition handle_value (job : GenerationJob) (attempt_id : string) (value : json)
    (usage : GenerationUsage) : prog (result error GenerationUsage) :=
  let usage := take_finish_reason value (take_usage value usage) in
  let text := choice_text value in
  if non_empty text then
    let usage := count_text text usage in
    publish_token job attempt_id text (usage_generated_tokens usage) ?;
    mret (Ok usage)
  else mret (Ok usage).

(** One line, without its newline. *)
Definition handle_line (job : GenerationJob) (attempt_id line : string)
    (usage : GenerationUsage) : prog (result error GenerationUsage) :=
  let line := trim_end_char carriage_return line in
  match trim <$> strip_prefix "data:" line with
  | Some data =>
    if decide (data = "[DONE]") then mret (Ok usage) else
    if decide (data = "") then mret (Ok usage) else
    value ?← lift (context ("decode model SSE event: " +:+ data)
                           (map_err (λ e, [e]) (json_from_str data)));
    handle_value job attempt_id value usage
  | None => mret (Ok usage)
  end.

(** The inner loop, [while let Some(newline) = buffer.find('\n')]: a round
    removes a newline, so the length of the buffer bounds their number. *)
Fixpoint drain_lines (fuel : nat) (job : GenerationJob) (attempt_id buffer : string)
    (usage : GenerationUsage) : prog (result error (string * GenerationUsage)) :=
  match fuel, split_once newline buffer with
  | S fuel, Some (line, buffer) =>
    usage ?← handle_line job attempt_id line usage;
    drain_lines fuel job attempt_id buffer usage
  | _, _ => mret (Ok (buffer, usage))
  end.

(** The outer loop over the body's chunks. *)
Fixpoint read_body (job : GenerationJob) (attempt_id : string) (bytes : chunks)
    (buffer : string) (usage : GenerationUsage) : prog (result error GenerationUsage) :=
  match bytes with
  | [] => mret (Ok usage)
  | chunk :: bytes =>
    chunk ?← lift chunk;
    let buffer := buffer +:+ from_utf8_lossy chunk in
    '(buffer, usage) ?← drain_lines (String.length buffer) job attempt_id buffer usage;
    read_body job attempt_id bytes buffer usage
  end.

Definition stream_openai_compatible (job : GenerationJob) (attempt_id : string)
    (request : RuntimeRequest) : prog (result error GenerationUsage) :=
  bytes ?← perform (HttpPost (completions_url job) (json_to_string (request_payload request)));
  usage ?← read_body job attempt_id bytes "" default_usage;
  mret (Ok (if (usage_prompt_tokens usage =? 0)%N then
    {| usage_prompt_tokens := estimate_tokens (extract_prompt request);
       usage_generated_tokens := usage_generated_tokens usage;
       usage_finish_reason := usage_finish_reason usage |}
  else usage)).

(** ** Attempts and jobs *)
Definition execute_attempt (job : GenerationJob) (attempt_id : string)
    : prog (result error GenerationUsage) :=
  if decide (job_model_id job ≠ ec_model config)
  then mret (Err ["model " +:+ job_model_id job +:+ " is not loaded by this engine"]) else
  request ?← lift (map_err (λ e, [e]) (request_from_slice (job_request_json job)));
  publish_event job attempt_id AttemptStarted ?;
  usage ?← match backend config with
    | Synthetic => stream_synthetic job attempt_id request
    | OpenAiCompatible => stream_openai_compatible job attempt_id request
    end;
  mret (Ok (if non_empty (usage_finish_reason usage) then usage else
    {| usage_prompt_tokens := usage_prompt_tokens usage;
       usage_generated_tokens := usage_generated_tokens usage;
       usage_finish_reason := "stop" |})).

(** What [run_job] does with the outcome of the attempt. *)
Definition finish_job (job : GenerationJob) (attempt_id : string)
    (outcome : result error GenerationUsage) : prog (result error JobDisposition) :=
  match outcome with
  | Ok usage =>
    reconcile_quota (job_reservation_id job) (usage_generated_tokens usage) ?;
    publish_completion job attempt_id usage ?;
    mret (Ok Acknowledge)
  | Err e =>
    reconcile_quota (job_reservation_id job) 0 ?;
    publish_failure job attempt_id "backend_error" (error_chain e) false ?;
    mret (Ok Acknowledge)
  end.

(** [job.deadline_unix_ms > 0 && unix_ms() > job.deadline_unix_ms] *)
Definition past_deadline (job : GenerationJob) : prog bool :=
  if (0 <? job_deadline_unix_ms job)%N then
    now ← perform NowMs; mret (job_deadline_unix_ms job <? now)%N
  else mret false.

Definition run_job (engine_id : string) (job : GenerationJob)
    : prog (result error JobDisposition) :=
  late ← past_deadline job;
  if (late : bool) then
    cancel_quota (job_reservation_id job) ?;
    publish_failure job engine_id "deadline_exceeded" "generation deadline exceeded" false ?;
    mret (Ok Acknowledge)
  else
  current ?← status (job_request_id job);
  if bool_decide (st_state <$> current = Some "completed") then mret (Ok Acknowledge) else
  attempt_id ← perform NewUuid;
  let lease_owner := engine_id +:+ ":" +:+ attempt_id in
  acquired ?← acquire_lease sconf (job_request_id job) lease_owner;
  if negb acquired then mret (Ok Pending) else
  perform (SpawnHeartbeat (job_request_id job) lease_owner);;
  outcome ← execute_attempt job attempt_id;
  perform (StopHeartbeat (job_request_id job) lease_owner);;
  release_lease (job_request_id job) lease_owner ?;
  finish_job job attempt_id outcome.

(** The heartbeat task, [ticks] wake-ups before it is told to stop: it ends
    early when the lease is lost, and goes on when the broker fails. *)
Fixpoint heartbeat (ticks : nat) (request_id owner : string) : prog unit :=
  match ticks with
  | 0 => mret tt
  | S ticks =>
    perform (Sleep (from_secs 20));;
    renewed ← renew_lease sconf request_id owner;
    match renewed with
    | Ok true => heartbeat ticks request_id owner
    | Ok false => mret tt
    | Err _ => heartbeat ticks request_id owner
    end
  end.

(** ** The main loop *)

(** What the consumer delivers in one round, and the consumer of the next. *)
Definition next_consumed (reclaim_idle : N) (worker_id : string) (c : JobConsumer)
    : prog (result error (JobConsumer * option ConsumedJob)) :=
  r ← next_job c (from_secs 5);
  match r with
  | Ok (Some job) => mret (Ok (c, Some job))
  | Ok None =>
    job ?← reclaim_stale c (from_secs reclaim_idle);
    mret (Ok (c, job))
  | Err _ =>
    perform (Sleep 250);;
    c ?← consumer sconf worker_id;
    mret (Ok (c, None))
  end.

(** One round of the loop; an error ends the process. *)
Definition engine_round (reclaim_idle : N) (worker_id : string) (c : JobConsumer)
    : prog (result error JobConsumer) :=
  '(c, consumed) ?← next_consumed reclaim_idle worker_id c;
  match consumed with
  | None => mret (Ok c)
  | Some consumed =>
    disposition ← run_job worker_id (job consumed);
    match disposition with
    | Ok Acknowledge => acknowledge (entry_id consumed) ?; mret (Ok c)
    | Ok Pending => mret (Ok c)
    | Err _ => mret (Ok c)
    end
  end.

Fixpoint engine_loop (rounds : nat) (reclaim_idle : N) (worker_id : string) (c : JobConsumer)
    : prog (result error JobConsumer) :=
  match rounds with
  | 0 => mret (Ok c)
  | S rounds =>
    c ?← engine_round reclaim_idle worker_id c;
    engine_loop rounds reclaim_idle worker_id c
  end.

End engine.

(** [main], [rounds] rounds of its loop. *)
Definition engine_main `{Codec, SerdeJson} (rounds : nat) (env : environment)
    (service : ServiceConfig) : prog (result error JobConsumer) :=
  let sconf := stream_config (sc_streams service) in
  perform Connect ?;
  worker_id ← match env "ENGINE_ID" with
    | Some id => mret id
    | None => uuid ← perform NewUuid; mret ("engine-" +:+ uuid)
    end;
  c ?← consumer sconf worker_id;
  engine_loop sconf (engine_config env service) rounds
    (reclaim_idle_seconds (sc_streams service)) worker_id c.
