(* ===== verification/Quota.v ===== *)
(** * The distributed quota: the scripts of crates/inference-streams

    [reserve_quota], [reconcile_quota] and [cancel_quota] keep three counters
    per API key and minute, and one hash per reservation.  This file proves
    what one run of each script does to the data set; [QuotaLedger] builds
    the ledger of reservations on it. *)
From stdpp Require Import functions options.
From S2P Require Import Prelude Text Valkey Lua Snapshot.

#[local] Set Default Proof Using "Type*".

(** ** What a reservation is asked for, and the verdict of the script *)
Record demand := {
  d_prompt : Z;
  d_generated : Z;
  d_limit_requests : Z;
  d_limit_prompt : Z;
  d_limit_generated : Z;
}.

(** The counters of one API key and minute. *)
Record usage := { u_requests : Z; u_prompt : Z; u_generated : Z }.

(** The code of the first limit that would be exceeded. *)
Definition refusal (d : demand) (u : usage) : option Z :=
  if (d_limit_requests d <? u_requests u + 1)%Z then Some 1%Z
  else if (d_limit_prompt d <? u_prompt u + d_prompt d)%Z then Some 2%Z
  else if (d_limit_generated d <? u_generated u + d_generated d)%Z then Some 3%Z
  else None.

Definition charge_usage (d : demand) (u : usage) : usage :=
  {| u_requests := u_requests u + 1; u_prompt := u_prompt u + d_prompt d;
     u_generated := u_generated u + d_generated d |}.

(** Every number the script handles is an exact double. *)
Definition small (z : Z) : Prop := (0 ≤ z ≤ 2 ^ 52)%Z.
Definition demand_small (d : demand) : Prop :=
  small (d_prompt d) ∧ small (d_generated d) ∧ small (d_limit_requests d)
  ∧ small (d_limit_prompt d) ∧ small (d_limit_generated d).
Definition usage_small (u : usage) : Prop :=
  small (u_requests u) ∧ small (u_prompt u) ∧ small (u_generated u).

(** The hash that records a reservation. *)
Definition reservation_fields (k1 k2 k3 : string) (d : demand) : list field :=
  [("status", "reserved"); ("requests_key", k1); ("prompt_key", k2);
   ("generated_key", k3); ("prompt", pretty (d_prompt d));
   ("generated", pretty (d_generated d))].

Lemma small_exact z : small z → exact z.
Proof. unfold small, exact. lia. Qed.
Lemma small_i64 z : small z → i64 z.
Proof. unfold small, i64. lia. Qed.
Lemma sum_exact a b : small a → small b → exact (a + b).
Proof. unfold small, exact. lia. Qed.
Lemma sum_i64 a b : small a → small b → i64 (a + b).
Proof. unfold small, i64. lia. Qed.
Lemma diff_exact a b : small a → small b → exact (a - b).
Proof. unfold small, exact. lia. Qed.
Lemma one_small : small 1.
Proof. done. Qed.
#[export] Hint Resolve small_exact small_i64 sum_exact sum_i64 diff_exact one_small : idp.

Lemma refusal_none d u :
  refusal d u = None ↔
  (u_requests u + 1 ≤ d_limit_requests d ∧ u_prompt u + d_prompt d ≤ d_limit_prompt d
   ∧ u_generated u + d_generated d ≤ d_limit_generated d)%Z.
Proof. unfold refusal. repeat case_match; bool_to_prop; split; intros; try done; lia. Qed.

(** ** The scripts on a snapshot *)
Section scripts.
Context {DB : Type} `{ValkeyLaws DB} `{LuaNumberLaws}.
Context (k1 k2 k3 k4 : string) (Hkeys : NoDup [k1; k2; k3; k4]).

Definition counts (f : snapshot) (u : usage) : Prop :=
  cell_counter (f k1) (u_requests u) ∧ cell_counter (f k2) (u_prompt u)
  ∧ cell_counter (f k3) (u_generated u).

Definition count_cell (z : Z) (t : option N) : cell := (Some (OString (pretty z)), t).

(** The data set after an admitted reservation. *)
Definition reserved_snapshot (d : demand) (u : usage) (h : gmap string string)
    (f : snapshot) : snapshot :=
  let u' := charge_usage d u in
  let t := Some 120000%N in
  <[k4 := (Some (OHash (hset_fields (reservation_fields k1 k2 k3 d) h)), t)]>
    (<[k3 := count_cell (u_generated u') t]>
      (<[k2 := count_cell (u_prompt u') t]>
        (<[k1 := count_cell (u_requests u') t]> f))).

Lemma keys_distinct :
  k1 ≠ k2 ∧ k1 ≠ k3 ∧ k1 ≠ k4 ∧ k2 ≠ k3 ∧ k2 ≠ k4 ∧ k3 ≠ k4.
Proof using Hkeys.
  clear -Hkeys. repeat (apply NoDup_cons in Hkeys as [? Hkeys]).
  repeat match goal with Hn : _ ∉ _ :: _ |- _ => apply not_elem_of_cons in Hn as [??] end.
  by split_and!.
Qed.

(** [reserve_quota_lua] reads the counters, then refuses or commits. *)
Lemma reserve_wp d u f Q :
  counts f u → demand_small d → usage_small u →
  match refusal d u with
  | Some c => Q (RInts [0%Z; c]) f
  | None => lua_wp (reserve_commit k1 k2 k3 k4 "120" (u_requests u) (u_prompt u)
      (u_generated u) (d_prompt d) (d_generated d) (d_limit_requests d)
      (d_limit_prompt d) (d_limit_generated d)) f Q
  end →
  lua_wp (reserve_quota_lua k1 k2 k3 k4 (pretty (d_prompt d)) (pretty (d_generated d))
    (pretty (d_limit_requests d)) (pretty (d_limit_prompt d))
    (pretty (d_limit_generated d)) "120") f Q.
Proof.
  intros (C1&C2&C3) (?&?&?&?&?) (?&?&?) HQ. unfold reserve_quota_lua.
  apply wp_bind. eapply wp_get_number; [done|auto with idp|].
  apply wp_bind. eapply wp_get_number; [done|auto with idp|].
  apply wp_bind. eapply wp_get_number; [done|auto with idp|].
  rewrite !tonumber_pretty by auto with idp.
  do 2 (apply wp_bind, wp_num).
  rewrite (lnum_exact (u_requests u + 1)) by auto with idp.
  unfold refusal in HQ. destruct (d_limit_requests d <? u_requests u + 1)%Z.
  { by apply wp_ret. }
  do 3 (apply wp_bind, wp_num).
  rewrite (lnum_exact (u_prompt u + d_prompt d)) by auto with idp.
  destruct (d_limit_prompt d <? u_prompt u + d_prompt d)%Z.
  { by apply wp_ret. }
  do 3 (apply wp_bind, wp_num).
  rewrite (lnum_exact (u_generated u + d_generated d)) by auto with idp.
  by destruct (d_limit_generated d <? u_generated u + d_generated d)%Z; [apply wp_ret|].
Qed.

Lemma remaining_exact limit x add :
  small limit → small x → small add → (x + add ≤ limit)%Z →
  to_reply (lnum (lnum (limit - x) - add)) = (limit - x - add)%Z.
Proof.
  intros Hl Hx Ha Hle. unfold small in *.
  rewrite (lnum_exact (limit - x)), lnum_exact, to_reply_exact; unfold exact; lia || done.
Qed.

(** The reply of an admitted reservation: 1, and what is left. *)
Definition admitted_reply (d : demand) (u : usage) : lua_reply :=
  RInts [1; d_limit_requests d - u_requests u - 1;
         d_limit_prompt d - u_prompt u - d_prompt d;
         d_limit_generated d - u_generated u - d_generated d]%Z.

Lemma reserve_commit_wp d u f h (Q : lua_reply → snapshot → Prop) :
  counts f u → demand_small d → usage_small u → refusal d u = None →
  cell_hash (f k4) = Some h →
  (∀ f', (∀ k, f' k = reserved_snapshot d u h f k) → Q (admitted_reply d u) f') →
  lua_wp (reserve_commit k1 k2 k3 k4 "120" (u_requests u) (u_prompt u)
      (u_generated u) (d_prompt d) (d_generated d) (d_limit_requests d)
      (d_limit_prompt d) (d_limit_generated d)) f Q.
Proof.
  intros (C1&C2&C3) (Hp&Hg&?&?&?) (Hu1&Hu2&Hu3) Hr Hh HQ.
  destruct keys_distinct as (?&?&?&?&?&?).
  apply refusal_none in Hr as (?&?&?).
  unfold reserve_commit. rewrite !lua_show_exact by auto with idp.
  apply wp_bind; wp_command;
    [by apply (does_counter INCR k1 1 (u_requests u)); auto with idp|].
  apply wp_bind; wp_command;
    [by apply (does_counter _ k2 (d_prompt d) (u_prompt u));
       snap_simpl; simpl; auto with idp|].
  apply wp_bind; wp_command;
    [by apply (does_counter _ k3 (d_generated d) (u_generated u));
       snap_simpl; simpl; auto with idp|].
  apply wp_bind; wp_command; [apply (does_expire k1 120); [done|snap_simpl; eauto]|].
  apply wp_bind; wp_command; [apply (does_expire k2 120); [done|snap_simpl; eauto]|].
  apply wp_bind; wp_command; [apply (does_expire k3 120); [done|snap_simpl; eauto]|].
  apply wp_bind; apply (wp_hset _ _ h); [by snap_simpl|done|]; intros n.
  apply wp_bind; wp_command; [apply (does_expire k4 120); [done|snap_simpl; eauto]|].
  apply wp_ret.
  rewrite !remaining_exact by auto with idp.
  apply HQ. intros k. unfold reserved_snapshot.
  destruct (decide (k = k4)) as [->|]; [by snap_simpl|].
  destruct (decide (k = k3)) as [->|]; [by snap_simpl|].
  destruct (decide (k = k2)) as [->|]; [by snap_simpl|].
  destruct (decide (k = k1)) as [->|]; by snap_simpl.
Qed.

(** The hash of a live reservation of [p] prompt and [g] generated tokens. *)
Definition reservation_hash (h : gmap string string) (p g : Z) : Prop :=
  h !! "status" = Some "reserved" ∧ h !! "requests_key" = Some k1
  ∧ h !! "prompt_key" = Some k2 ∧ h !! "generated_key" = Some k3
  ∧ h !! "prompt" = Some (pretty p) ∧ h !! "generated" = Some (pretty g).

Lemma reservation_fields_hash d h :
  reservation_hash (hset_fields (reservation_fields k1 k2 k3 d) h) (d_prompt d) (d_generated d).
Proof using Type. unfold reservation_hash, hset_fields. simpl. by simplify_map_eq. Qed.

Lemma wp_decrby key f (z amount : Z) (Q : unit → snapshot → Prop) :
  cell_counter (f key) z → small z → small amount →
  Q tt (<[key := count_cell (z - amount) (f key).2]> f) →
  lua_wp (decrby_if (Some key) (Some amount)) f Q.
Proof.
  intros Hz Hsz Hsa HQ. unfold decrby_if. apply wp_bind, wp_num, wp_bind. wp_command.
  { apply (does_counter _ key (- amount) z); simpl; [|done|auto with idp|].
    - by rewrite Z.opp_involutive, lua_show_exact; auto with idp.
    - unfold i64, small in *; lia. }
  by apply wp_ret.
Qed.

Definition refund_amount (reserved actual : Z) : Z := Z.max (reserved - actual) 0.

Definition reconciled_fields (actual refund : Z) : list field :=
  [("status", "reconciled"); ("actual_generated", pretty actual);
   ("refunded", pretty refund)].

Definition reconciled_snapshot (h : gmap string string) (z actual refund : Z)
    (f : snapshot) : snapshot :=
  <[k4 := (Some (OHash (hset_fields (reconciled_fields actual refund) h)), (f k4).2)]>
    (if (0 <? refund)%Z then <[k3 := count_cell (z - refund) (f k3).2]> f else f).

Lemma reconcile_wp f h p g actual z (Q : lua_reply → snapshot → Prop) :
  cell_hash (f k4) = Some h → reservation_hash h p g →
  cell_counter (f k3) z → small z → small g → small actual →
  (∀ f', (∀ k, f' k = reconciled_snapshot h z actual (refund_amount g actual) f k) →
         Q (RInt (refund_amount g actual)) f') →
  lua_wp (reconcile_quota_lua k4 (pretty actual)) f Q.
Proof.
  intros Hh (Hst&_&_&Hgk&_&Hgen) Hz Hsz Hsg Hsa HQ.
  destruct keys_distinct as (?&?&?&?&?&?). unfold reconcile_quota_lua.
  apply wp_bind; wp_command; [by apply does_hget|]. rewrite Hst, decide_True by done.
  apply wp_bind; eapply wp_hget_number; [done..|auto with idp|].
  apply wp_bind, wp_num. rewrite tonumber_pretty by auto with idp.
  apply wp_bind, wp_num. rewrite lnum_exact by auto with idp.
  fold (refund_amount g actual) in *.
  assert (small (refund_amount g actual)) as Hsr
    by (unfold refund_amount, small in *; lia).
  apply wp_bind; wp_command; [by apply does_hget|]. rewrite Hgk.
  rewrite to_reply_exact, !lua_show_exact by auto with idp.
  unfold reconciled_snapshot in HQ. apply wp_bind.
  destruct (0 <? refund_amount g actual)%Z.
  - apply (wp_decrby k3 _ z); [done..|]. apply wp_bind, (wp_hset _ _ h); [by snap_simpl|done|].
    intros n. apply wp_ret, HQ. intros k.
    destruct (decide (k = k4)) as [->|]; [by snap_simpl|].
    destruct (decide (k = k3)) as [->|]; by snap_simpl.
  - apply wp_ret. apply wp_bind, (wp_hset _ _ h); [done|done|].
    intros n. apply wp_ret, HQ. intros k.
    destruct (decide (k = k4)) as [->|]; by snap_simpl.
Qed.

(** A reservation that is not live is left alone. *)
Definition not_reserved (c : cell) : Prop :=
  ∃ h, cell_hash c = Some h ∧ h !! "status" ≠ Some "reserved".

Lemma reconcile_settled_wp f a (Q : lua_reply → snapshot → Prop) :
  not_reserved (f k4) → Q (RInt 0) f → lua_wp (reconcile_quota_lua k4 a) f Q.
Proof.
  intros (h & Hh & Hst) HQ. unfold reconcile_quota_lua.
  apply wp_bind; wp_command; [by apply does_hget|].
  rewrite decide_False by done. by apply wp_ret.
Qed.

Lemma cancel_settled_wp f (Q : lua_reply → snapshot → Prop) :
  not_reserved (f k4) → Q (RInt 0) f → lua_wp (cancel_quota_lua k4) f Q.
Proof.
  intros (h & Hh & Hst) HQ. unfold cancel_quota_lua.
  apply wp_bind; wp_command; [by apply does_hget|].
  rewrite decide_False by done. by apply wp_ret.
Qed.

Definition cancelled_snapshot (h : gmap string string) (u : usage) (p g : Z)
    (f : snapshot) : snapshot :=
  <[k4 := (Some (OHash (hset_fields [("status", "cancelled")] h)), (f k4).2)]>
    (<[k3 := count_cell (u_generated u - g) (f k3).2]>
      (<[k2 := count_cell (u_prompt u - p) (f k2).2]>
        (<[k1 := count_cell (u_requests u - 1) (f k1).2]> f))).

Lemma cancel_wp f h u p g (Q : lua_reply → snapshot → Prop) :
  cell_hash (f k4) = Some h → reservation_hash h p g →
  counts f u → usage_small u → small p → small g →
  (∀ f', (∀ k, f' k = cancelled_snapshot h u p g f k) → Q (RInt 1) f') →
  lua_wp (cancel_quota_lua k4) f Q.
Proof.
  intros Hh (Hst&Hk1&Hk2&Hk3&Hp&Hg) (C1&C2&C3) (S1&S2&S3) Hsp Hsg HQ.
  destruct keys_distinct as (?&?&?&?&?&?). unfold cancel_quota_lua.
  apply wp_bind; wp_command; [by apply does_hget|]. rewrite Hst, decide_True by done.
  apply wp_bind; wp_command; [by apply does_hget|]. rewrite Hk1.
  apply wp_bind; wp_command; [by apply does_hget|]. rewrite Hk2.
  apply wp_bind; wp_command; [by apply does_hget|]. rewrite Hk3.
  apply wp_bind; eapply wp_hget_number; [done..|auto with idp|].
  apply wp_bind; eapply wp_hget_number; [done..|auto with idp|].
  apply wp_bind, wp_bind. wp_command.
  { apply (does_counter DECR k1 (-1) (u_requests u)); simpl; [done..|auto with idp|].
    unfold i64, small in *; lia. }
  apply wp_ret. apply wp_bind, (wp_decrby k2 _ (u_prompt u)); [by snap_simpl|done..|].
  apply wp_bind, (wp_decrby k3 _ (u_generated u)); [by snap_simpl|done..|].
  apply wp_bind, (wp_hset _ _ h); [by snap_simpl|done|].
  intros n. apply wp_ret, HQ. intros k. unfold cancelled_snapshot.
  destruct (decide (k = k4)) as [->|]; [by snap_simpl|].
  destruct (decide (k = k3)) as [->|]; [by snap_simpl|].
  destruct (decide (k = k2)) as [->|]; [by snap_simpl|].
  destruct (decide (k = k1)) as [->|]; by snap_simpl.
Qed.

End scripts.
