(* ===== verification/QuotaLedger.v ===== *)
(** * The quota counters refine a ledger of reservations

    The abstract specification of the distributed quota for one API key and
    one minute: a ledger that maps each reservation to what it is charged and
    whether it is still open.  [refines] relates a ledger to a data set;
    every script ([op_refines]) and the passing of time ([elapse_refines])
    preserve it, and so does every interleaving ([quota_steps_inv]). *)
From stdpp Require Import functions options.
From S2P Require Import Prelude Text Valkey Lua RefServer Snapshot Quota.

#[local] Set Default Proof Using "Type*".

(** ** The ledger *)
Record slot := {
  sl_prompt : Z;
  sl_generated : Z;   (* what the reservation is charged *)
  sl_open : bool;     (* not yet reconciled, cancelled or expired *)
}.
Abbreviation ledger := (gmap string slot).

Definition close (generated : Z) (s : slot) : slot :=
  {| sl_prompt := sl_prompt s; sl_generated := generated; sl_open := false |}.

(** The counters are the sums over the ledger. *)
Definition usage_of (L : ledger) : usage :=
  {| u_requests := map_zsum (λ _, 1%Z) L;
     u_prompt := map_zsum sl_prompt L;
     u_generated := map_zsum sl_generated L |}.

Inductive quota_op : Type :=
| OpReserve (id : string) (d : demand)
| OpReconcile (id : string) (actual : Z)
| OpCancel (id : string).

(** What each operation promises: the reply, and the new ledger. *)
Definition ledger_op (op : quota_op) (L : ledger) : lua_reply * ledger :=
  match op with
  | OpReserve id d =>
    match refusal d (usage_of L) with
    | Some c => (RInts [0%Z; c], L)
    | None => (admitted_reply d (usage_of L),
        <[id := {| sl_prompt := d_prompt d; sl_generated := d_generated d;
                   sl_open := true |}]> L)
    end
  | OpReconcile id actual =>
    match L !! id with
    | Some s => if sl_open s
      then (RInt (refund_amount (sl_generated s) actual),
            <[id := close (Z.min (sl_generated s) actual) s]> L)
      else (RInt 0, L)
    | None => (RInt 0, L)
    end
  | OpCancel id =>
    match L !! id with
    | Some s => if sl_open s then (RInt 1, delete id L) else (RInt 0, L)
    | None => (RInt 0, L)
    end
  end.

(** The same operations on the data set: one script each. *)
Definition op_script `{LuaNumbers} (k1 k2 k3 : string) (op : quota_op) : lua lua_reply :=
  script_body
    match op with
    | OpReserve id d => ReserveQuota k1 k2 k3 id (pretty (d_prompt d))
        (pretty (d_generated d)) (pretty (d_limit_requests d))
        (pretty (d_limit_prompt d)) (pretty (d_limit_generated d)) "120"
    | OpReconcile id actual => ReconcileQuota id (pretty actual)
    | OpCancel id => CancelQuota id
    end.

(** Time: reservations whose hash has expired are closed at their full
    charge; when the counters expire, so has every reservation, and the
    ledger starts again. *)
Definition expire_ledger (counters : option N) (ttl : string → option N) (d : N)
    (L : ledger) : ledger :=
  match counters with
  | Some t =>
    if (t <=? d)%N then ∅ else
    map_imap (λ id s, Some
      match ttl id with
      | Some t' => if (t' <=? d)%N then close (sl_generated s) s else s
      | None => s
      end) L
  | None => L
  end.

Lemma ledger_op_dom op L :
  dom (ledger_op op L).2 ⊆
  match op with OpReserve id _ => {[id]} ∪ dom L | _ => dom L end.
Proof.
  destruct op as [id d|id a|id]; simpl.
  - destruct (refusal d (usage_of L)); simpl; [set_solver|]. rewrite dom_insert_L. set_solver.
  - destruct (L !! id) as [s|] eqn:E; [|done]. destruct (sl_open s); [|done]. simpl.
    rewrite dom_insert_L. apply elem_of_dom_2 in E. set_solver.
  - destruct (L !! id) as [s|]; [|done]. destruct (sl_open s); [|done]. simpl.
    rewrite dom_delete_L. set_solver.
Qed.

Lemma expire_ledger_dom T ttl d L : dom (expire_ledger T ttl d L) ⊆ dom L.
Proof.
  unfold expire_ledger. destruct T as [t|]; [|done]. case_match; [set_solver|].
  intros id. rewrite !elem_of_dom, map_lookup_imap. destruct (L !! id); simpl; [eauto|].
  by intros [].
Qed.

(** ** The refinement *)
Section refinement.
Context {DB : Type} `{ValkeyLaws DB} `{LuaNumberLaws}.
(** The three counters, and the keys of this bucket's reservations. *)
Context (k1 k2 k3 : string) (mine : string → Prop).
Context (Hmine : ∀ id, mine id → NoDup [k1; k2; k3; id]).
(** The configured limits. *)
Context (lim_r lim_p lim_g : Z) (Hlim : small lim_r ∧ small lim_p ∧ small lim_g).

Definition within (u : usage) : Prop :=
  (u_requests u ≤ lim_r ∧ u_prompt u ≤ lim_p ∧ u_generated u ≤ lim_g)%Z.

Definition slots_ok (L : ledger) : Prop :=
  map_Forall (λ _ s, 0 ≤ sl_prompt s ∧ 0 ≤ sl_generated s)%Z L.

(** An open slot has a live hash that expires no later than the counters;
    any other reservation key is not in state [reserved]. *)
Definition slot_cell (T : option N) (s : option slot) (c : cell) : Prop :=
  match s with
  | Some s =>
    if sl_open s then
      (∃ h, c.1 = Some (OHash h)
        ∧ reservation_hash k1 k2 k3 h (sl_prompt s) (sl_generated s))
      ∧ ∃ t t', c.2 = Some t ∧ T = Some t' ∧ (t ≤ t')%N
    else not_reserved c
  | None => not_reserved c
  end.

(** The three counters live and die together, 120 seconds at most after the
    last reservation. *)
Definition counters_cell (T : option N) (L : ledger) (f : snapshot) : Prop :=
  match T with
  | Some t => let u := usage_of L in
      (t ≤ 120000)%N ∧ f k1 = count_cell (u_requests u) T ∧ f k2 = count_cell (u_prompt u) T
      ∧ f k3 = count_cell (u_generated u) T
  | None => L = ∅ ∧ f k1 = (None, None) ∧ f k2 = (None, None) ∧ f k3 = (None, None)
  end.

Record refines (L : ledger) (f : snapshot) : Prop := {
  ref_slots : slots_ok L;
  ref_mine : ∀ id, is_Some (L !! id) → mine id;
  ref_within : within (usage_of L);
  ref_cells : ∃ T, counters_cell T L f ∧ ∀ id, mine id → slot_cell T (L !! id) (f id);
}.

(** An operation on this bucket: its own reservation keys, fresh ones for
    reservations, the configured limits, numbers in range. *)
Definition op_ok (L : ledger) (f : snapshot) (op : quota_op) : Prop :=
  match op with
  | OpReserve id d => mine id ∧ L !! id = None ∧ f id = (None, None)
      ∧ small (d_prompt d) ∧ small (d_generated d)
      ∧ d_limit_requests d = lim_r ∧ d_limit_prompt d = lim_p ∧ d_limit_generated d = lim_g
  | OpReconcile id actual => mine id ∧ small actual
  | OpCancel id => mine id
  end.

(** The relation only looks at the bucket's keys. *)
Lemma refines_ext L f f' :
  (∀ k, f' k = f k) → refines L f → refines L f'.
Proof.
  intros Hf [? ? ? (T & Hc & Hs)]. split; [done..|]. exists T. split.
  - unfold counters_cell in *. by rewrite !Hf.
  - intros id Hid. rewrite Hf. auto.
Qed.

Lemma slots_ok_prompt L : slots_ok L → map_Forall (λ _ s, 0 ≤ sl_prompt s)%Z L.
Proof. intros Hs id s Hid. by apply (Hs id s). Qed.
Lemma slots_ok_generated L : slots_ok L → map_Forall (λ _ s, 0 ≤ sl_generated s)%Z L.
Proof. intros Hs id s Hid. by apply (Hs id s). Qed.

Lemma usage_nonneg L : slots_ok L →
  (0 ≤ u_requests (usage_of L) ∧ 0 ≤ u_prompt (usage_of L) ∧ 0 ≤ u_generated (usage_of L))%Z.
Proof.
  intros Hs. split_and!; apply map_zsum_nonneg;
    auto using slots_ok_prompt, slots_ok_generated. by intros ???.
Qed.

Lemma refines_usage_small L f : refines L f → usage_small (usage_of L).
Proof.
  intros [Hs _ (?&?&?) _]. destruct (usage_nonneg L Hs) as (?&?&?).
  unfold usage_small, small in *. lia.
Qed.

Lemma counters_cell_counts T L f : counters_cell T L f → counts k1 k2 k3 f (usage_of L).
Proof.
  unfold counters_cell, counts, cell_counter, count_cell. destruct T.
  - by intros (_ & -> & -> & ->).
  - intros (-> & -> & -> & ->). simpl. by rewrite !map_zsum_empty.
Qed.

Lemma slot_small L f id s :
  refines L f → L !! id = Some s → small (sl_prompt s) ∧ small (sl_generated s).
Proof.
  intros HR Hid. destruct (refines_usage_small L f HR) as (_&Sp&Sg).
  destruct HR as [Hs _ _ _]. destruct (Hs id s Hid) as [??].
  pose proof (map_zsum_ge _ L id s (slots_ok_prompt L Hs) Hid).
  pose proof (map_zsum_ge _ L id s (slots_ok_generated L Hs) Hid).
  unfold usage_of, small in *. simpl in *. lia.
Qed.

(** How the sums move with the ledger. *)
Lemma usage_insert L id s : L !! id = None →
  usage_of (<[id := s]> L)
  = {| u_requests := u_requests (usage_of L) + 1;
       u_prompt := u_prompt (usage_of L) + sl_prompt s;
       u_generated := u_generated (usage_of L) + sl_generated s |}.
Proof.
  intros Hid. unfold usage_of. rewrite !map_zsum_insert by done. simpl. f_equal; lia.
Qed.

Lemma usage_close L id s g : L !! id = Some s →
  usage_of (<[id := close g s]> L)
  = {| u_requests := u_requests (usage_of L);
       u_prompt := u_prompt (usage_of L);
       u_generated := u_generated (usage_of L) - sl_generated s + g |}.
Proof.
  intros Hid. unfold usage_of. rewrite !(map_zsum_update _ L id s) by done.
  simpl. f_equal; lia.
Qed.

Lemma usage_delete L id s : L !! id = Some s →
  usage_of (delete id L)
  = {| u_requests := u_requests (usage_of L) - 1;
       u_prompt := u_prompt (usage_of L) - sl_prompt s;
       u_generated := u_generated (usage_of L) - sl_generated s |}.
Proof. intros Hid. unfold usage_of. by rewrite !(map_zsum_delete _ L id s) by done. Qed.

Lemma mine_distinct id : mine id →
  k1 ≠ k2 ∧ k1 ≠ k3 ∧ k1 ≠ id ∧ k2 ≠ k3 ∧ k2 ≠ id ∧ k3 ≠ id.
Proof using Hmine. intros Hid. by apply keys_distinct, Hmine. Qed.

(** Raising the counters' expiry keeps the slots covered. *)
Lemma slot_cell_refresh T s c :
  (∀ t, T = Some t → (t ≤ 120000)%N) →
  slot_cell T s c → slot_cell (Some 120000%N) s c.
Proof.
  intros HT. unfold slot_cell. destruct s as [[? ? []]|]; try done.
  intros [? (t & t' & Hc & HT' & Hle)]. split; [done|]. exists t, 120000%N.
  specialize (HT t' HT'). split_and!; try done. lia.
Qed.

Lemma counters_cell_bound T L f : counters_cell T L f →
  ∀ t, T = Some t → (t ≤ 120000)%N.
Proof. intros Hc t ->. by destruct Hc. Qed.

(** [reserve_quota_lua] refines the ledger's reservation. *)
Lemma reserve_refines L f id d :
  refines L f → op_ok L f (OpReserve id d) →
  lua_wp (op_script k1 k2 k3 (OpReserve id d)) f
    (λ r f', r = (ledger_op (OpReserve id d) L).1
             ∧ refines (ledger_op (OpReserve id d) L).2 f').
Proof.
  intros HR (Hid & HL & Hf & Hp & Hg & Hl1 & Hl2 & Hl3).
  pose proof (refines_usage_small L f HR) as Hu.
  destruct HR as [Hslots Hmn Hw (T & Hc & Hs)].
  assert (demand_small d) as Hd
    by (unfold demand_small; rewrite Hl1, Hl2, Hl3; tauto).
  apply (reserve_wp k1 k2 k3 id (Hmine id Hid) d (usage_of L));
    [by eapply counters_cell_counts|done..|].
  simpl. destruct (refusal d (usage_of L)) as [c|] eqn:Hr; simpl.
  { split; [done|]. split; eauto. }
  eapply (reserve_commit_wp k1 k2 k3 id (Hmine id Hid) d (usage_of L) f ∅);
    [by eapply counters_cell_counts|done..|by rewrite Hf|].
  intros f' Hf'. split; [done|]. apply refusal_none in Hr as (?&?&?).
  rewrite Hl1, Hl2, Hl3 in *.
  destruct (mine_distinct id Hid) as (?&?&?&?&?&?).
  split.
  - apply map_Forall_insert_2; [|done]. simpl. unfold small in *. lia.
  - intros id' [<- | [_ ?]]%lookup_insert_is_Some; auto.
  - rewrite usage_insert by done. unfold within.
    cbn [u_requests u_prompt u_generated sl_prompt sl_generated]. lia.
  - exists (Some 120000%N). split.
    + unfold counters_cell. rewrite usage_insert by done. rewrite !Hf'.
      unfold reserved_snapshot. by snap_simpl.
    + intros id' Hid'. destruct (mine_distinct id' Hid') as (?&?&?&?&?&?).
      rewrite Hf'. unfold reserved_snapshot.
      destruct (decide (id = id')) as [<-|Hne].
      * rewrite lookup_insert_eq. snap_simpl. split; [|by exists 120000%N, 120000%N].
        eexists. split; [done|]. apply reservation_fields_hash.
      * rewrite lookup_insert_ne by done. snap_simpl.
        eapply slot_cell_refresh; [by eapply counters_cell_bound|auto].
Qed.

(** [reconcile_quota_lua] refines the ledger's settlement. *)
Lemma reconcile_refines L f id actual :
  refines L f → op_ok L f (OpReconcile id actual) →
  lua_wp (op_script k1 k2 k3 (OpReconcile id actual)) f
    (λ r f', r = (ledger_op (OpReconcile id actual) L).1
             ∧ refines (ledger_op (OpReconcile id actual) L).2 f').
Proof.
  intros HR (Hid & Ha). pose proof (refines_usage_small L f HR) as (_&_&Hug).
  destruct (mine_distinct id Hid) as (?&?&?&?&?&?).
  pose proof HR as [Hslots Hmn Hw (T & Hc & Hs)].
  pose proof (Hs id Hid) as Hcell. simpl. unfold slot_cell in Hcell.
  destruct (L !! id) as [s|] eqn:HL; [|by apply (reconcile_settled_wp k1 k2 k3 id (Hmine id Hid))].
  destruct (sl_open s) eqn:Hopen; [|by apply (reconcile_settled_wp k1 k2 k3 id (Hmine id Hid))].
  destruct Hcell as [(h & Hh & Hres) (t & t' & Ht & -> & Hle)].
  destruct (slot_small L f id s HR HL) as [_ Hsg].
  destruct (counters_cell_counts _ L f Hc) as (_&_&Hk3).
  eapply (reconcile_wp k1 k2 k3 id (Hmine id Hid) f h _ _ actual
    (u_generated (usage_of L))); [by unfold cell_hash; rewrite Hh|done..|].
  intros f' Hf'. split; [done|]. cbn [fst snd]. destruct (Hslots id s HL).
  split.
  - apply map_Forall_insert_2; [|done]. unfold small, close in *. simpl. lia.
  - intros id' [<- | [_ ?]]%lookup_insert_is_Some; auto.
  - rewrite (usage_close L id s) by done. unfold within, small in *.
    cbn [u_requests u_prompt u_generated]. lia.
  - exists (Some t'). split.
    + destruct Hc as (Hb & E1 & E2 & E3).
      unfold counters_cell. rewrite (usage_close L id s) by done. simpl. rewrite !Hf'.
      unfold reconciled_snapshot, refund_amount.
      destruct (0 <? Z.max (sl_generated s - actual) 0)%Z eqn:Er; bool_to_prop;
        snap_simpl; rewrite ?E1, ?E2, ?E3; split_and!; try done;
        unfold count_cell; simpl; repeat f_equal; lia.
    + intros id' Hid'. destruct (mine_distinct id' Hid') as (?&?&?&?&?&?).
      rewrite Hf'. unfold reconciled_snapshot.
      destruct (decide (id = id')) as [<-|Hne].
      * rewrite lookup_insert_eq. snap_simpl. eexists. split; [done|].
        unfold hset_fields. simpl. by simplify_map_eq.
      * rewrite lookup_insert_ne by done. snap_simpl.
        destruct (0 <? _)%Z; snap_simpl; auto.
Qed.

(** [cancel_quota_lua] refines the removal of the reservation. *)
Lemma cancel_refines L f id :
  refines L f → op_ok L f (OpCancel id) →
  lua_wp (op_script k1 k2 k3 (OpCancel id)) f
    (λ r f', r = (ledger_op (OpCancel id) L).1
             ∧ refines (ledger_op (OpCancel id) L).2 f').
Proof.
  intros HR Hid. pose proof (refines_usage_small L f HR) as Hu. simpl in Hid.
  destruct (mine_distinct id Hid) as (?&?&?&?&?&?).
  pose proof HR as [Hslots Hmn Hw (T & Hc & Hs)].
  pose proof (Hs id Hid) as Hcell. simpl. unfold slot_cell in Hcell.
  destruct (L !! id) as [s|] eqn:HL; [|by apply (cancel_settled_wp k1 k2 k3 id (Hmine id Hid))].
  destruct (sl_open s) eqn:Hopen; [|by apply (cancel_settled_wp k1 k2 k3 id (Hmine id Hid))].
  destruct Hcell as [(h & Hh & Hres) (t & t' & Ht & -> & Hle)].
  destruct (slot_small L f id s HR HL) as [Hsp Hsg].
  eapply (cancel_wp k1 k2 k3 id (Hmine id Hid) f h (usage_of L));
    [by unfold cell_hash; rewrite Hh|done|by eapply counters_cell_counts|done..|].
  intros f' Hf'. split; [done|]. cbn [fst snd]. destruct (Hslots id s HL). split.
  - by apply map_Forall_delete.
  - intros id' [_ ?]%lookup_delete_is_Some. auto.
  - rewrite (usage_delete L id s) by done. unfold within in *.
    cbn [u_requests u_prompt u_generated]. lia.
  - exists (Some t'). split.
    + destruct Hc as (Hb & E1 & E2 & E3).
      unfold counters_cell. rewrite (usage_delete L id s) by done. simpl. rewrite !Hf'.
      unfold cancelled_snapshot. snap_simpl. by rewrite E1, E2, E3.
    + intros id' Hid'. destruct (mine_distinct id' Hid') as (?&?&?&?&?&?).
      rewrite Hf'. unfold cancelled_snapshot.
      destruct (decide (id = id')) as [<-|Hne].
      * rewrite lookup_delete_eq. snap_simpl. eexists. split; [done|].
        unfold hset_fields. simpl. by simplify_map_eq.
      * rewrite lookup_delete_ne by done. snap_simpl. auto.
Qed.

(** Time refines the ledger's expiry. *)
Lemma not_reserved_aged d f k : not_reserved (f k) → not_reserved (aged d f k).
Proof.
  intros (h & Hh & Hst). unfold aged. destruct ((f k).2) as [t|]; [|by exists h].
  destruct (t <=? d)%N; [by exists ∅|by exists h].
Qed.

Lemma expired_not_reserved : not_reserved (None, None).
Proof. by exists ∅. Qed.

Lemma elapse_refines L f d :
  refines L f →
  refines (expire_ledger (f k1).2 (λ id, (f id).2) d L) (aged d f).
Proof.
  intros [Hslots Hmn Hw (T & Hc & Hs)]. destruct T as [t|].
  2:{ destruct Hc as (-> & E1 & E2 & E3). rewrite E1. split; [done..|].
      exists None. split; [unfold counters_cell, aged; by rewrite E1, E2, E3|].
      intros id Hid. apply not_reserved_aged. by apply (Hs id). }
  destruct Hc as (Hb & E1 & E2 & E3). rewrite E1. simpl.
  destruct (t <=? d)%N eqn:Ed; bool_to_prop.
  { assert ((t <=? d)%N = true) as Etd by by apply N.leb_le.
    split; [done|intros id [? Hid]; by rewrite lookup_empty in Hid| |].
    - destruct (usage_nonneg L Hslots) as (?&?&?). unfold within, usage_of in *.
      cbn [u_requests u_prompt u_generated] in *. rewrite !map_zsum_empty. lia.
    - exists None. split.
      + unfold counters_cell, aged. rewrite E1, E2, E3. unfold count_cell. simpl.
        by rewrite Etd.
      + intros id Hid. specialize (Hs id Hid). simpl. unfold slot_cell in Hs.
        destruct (L !! id) as [s|]; [|by apply not_reserved_aged].
        destruct (sl_open s); [|by apply not_reserved_aged].
        destruct Hs as [_ (t1 & t2 & Ht1 & [= <-] & Hle)]. unfold aged. rewrite Ht1.
        assert ((t1 <=? d)%N = true) as -> by (apply N.leb_le; lia).
        apply expired_not_reserved. }
  assert ((t <=? d)%N = false) as Etd by by apply N.leb_gt.
  set (g := λ (id : string) s, match (f id).2 with
    | Some t' => if (t' <=? d)%N then close (sl_generated s) s else s
    | None => s end).
  change (map_imap _ L) with (map_imap (λ id s, Some (g id s)) L).
  assert (∀ id s, sl_prompt (g id s) = sl_prompt s ∧ sl_generated (g id s) = sl_generated s)
    as Hg by (intros id s; unfold g; by repeat case_match).
  assert (usage_of (map_imap (λ id s, Some (g id s)) L) = usage_of L) as Hu.
  { unfold usage_of. rewrite !map_zsum_imap; [done|..]; intros; by apply Hg || done. }
  split.
  - intros id s. rewrite map_lookup_imap. destruct (L !! id) as [s0|] eqn:E; [|done].
    intros [= <-]. destruct (Hg id s0) as [-> ->]. by apply (Hslots id).
  - intros id. rewrite map_lookup_imap. intros [s Hid]. apply Hmn.
    destruct (L !! id); [eauto|done].
  - by rewrite Hu.
  - exists (Some (t - d)%N). split.
    + unfold counters_cell. rewrite Hu. unfold aged. rewrite E1, E2, E3.
      unfold count_cell. simpl. rewrite Etd. split_and!; [lia|done..].
    + intros id Hid. specialize (Hs id Hid). rewrite map_lookup_imap.
      destruct (L !! id) as [s|]; simpl in *; [|by apply not_reserved_aged].
      destruct (sl_open s) eqn:Ho.
      * destruct Hs as [(h & Hh & Hres) (t1 & t2 & Ht1 & [= <-] & Hle)].
        unfold g, aged. rewrite Ht1. destruct (t1 <=? d)%N eqn:E; bool_to_prop; simpl.
        { apply expired_not_reserved. }
        rewrite Ho. split; [by exists h|]. do 2 eexists. split_and!; [done..|]. lia.
      * assert (sl_open (g id s) = false) as ->
          by (unfold g; by repeat case_match).
        by apply not_reserved_aged.
Qed.

(** ** Every history of the bucket *)

(** Reservation identifiers are never drawn twice: [used] holds those drawn
    so far.  Between two scripts, time passes and other keys change. *)
Inductive quota_step : gset string * DB → gset string * DB → Prop :=
| q_reserve used db id d r db' :
    mine id → id ∉ used → snap db id = (None, None) →
    small (d_prompt d) → small (d_generated d) →
    d_limit_requests d = lim_r → d_limit_prompt d = lim_p → d_limit_generated d = lim_g →
    run_lua (op_script k1 k2 k3 (OpReserve id d)) db = (r, db') →
    quota_step (used, db) ({[id]} ∪ used, db')
| q_reconcile used db id actual r db' :
    mine id → small actual →
    run_lua (op_script k1 k2 k3 (OpReconcile id actual)) db = (r, db') →
    quota_step (used, db) (used, db')
| q_cancel used db id r db' :
    mine id → run_lua (op_script k1 k2 k3 (OpCancel id)) db = (r, db') →
    quota_step (used, db) (used, db')
| q_elapse used db d : quota_step (used, db) (used, elapse d db)
| q_other used db db' :
    (∀ k, k = k1 ∨ k = k2 ∨ k = k3 ∨ mine k → snap db' k = snap db k) →
    quota_step (used, db) (used, db').

Definition bucket_inv (s : gset string * DB) : Prop :=
  ∃ L, refines L (snap s.2) ∧ dom L ⊆ s.1.

Lemma refines_frame L f f' :
  (∀ k, k = k1 ∨ k = k2 ∨ k = k3 ∨ mine k → f' k = f k) → refines L f → refines L f'.
Proof.
  intros Hf [? ? ? (T & Hc & Hs)]. split; [done..|]. exists T. split.
  - unfold counters_cell in *. by rewrite !Hf by auto.
  - intros id Hid. rewrite Hf by auto. auto.
Qed.

(** One script, from the ledger's side: the reply is the one the ledger
    promises and the data set refines the new ledger. *)
Lemma op_refines L db op :
  refines L (snap db) → op_ok L (snap db) op →
  ∃ db', run_lua (op_script k1 k2 k3 op) db = (Ok (ledger_op op L).1, db')
       ∧ refines (ledger_op op L).2 (snap db').
Proof.
  intros HR Hok.
  assert (lua_wp (op_script k1 k2 k3 op) (snap db)
    (λ r f', r = (ledger_op op L).1 ∧ refines (ledger_op op L).2 f')) as Hwp
    by (destruct op; [by apply reserve_refines|by apply reconcile_refines|by apply cancel_refines]).
  destruct (wp_run _ db _ Hwp) as (r & db' & f' & Hrun & Hs & -> & HR').
  exists db'. split; [done|]. by apply (refines_ext _ f').
Qed.

Lemma quota_step_inv s s' : quota_step s s' → bucket_inv s → bucket_inv s'.
Proof.
  intros Hstep (L & HR & Hdom). destruct Hstep; cbn [fst snd] in *.
  - destruct (op_refines L db (OpReserve id d)) as (db1 & Hrun & HR'); [done| |].
    { split_and!; try done. apply not_elem_of_dom. set_solver. }
    rewrite Hrun in *. simplify_eq. eexists. split; [done|].
    etrans; [apply ledger_op_dom|]. set_solver.
  - destruct (op_refines L db (OpReconcile id actual)) as (db1 & Hrun & HR'); [done..|].
    rewrite Hrun in *. simplify_eq. eexists. split; [done|].
    etrans; [apply ledger_op_dom|]. done.
  - destruct (op_refines L db (OpCancel id)) as (db1 & Hrun & HR'); [done..|].
    rewrite Hrun in *. simplify_eq. eexists. split; [done|].
    etrans; [apply ledger_op_dom|]. done.
  - eexists. split; [eapply refines_ext; [apply sees_elapse; done|by apply elapse_refines]|].
    etrans; [apply expire_ledger_dom|done].
  - exists L. split; [by eapply refines_frame|done].
Qed.

Lemma quota_steps_inv s s' : rtc quota_step s s' → bucket_inv s → bucket_inv s'.
Proof. induction 1; [done|]. eauto using quota_step_inv. Qed.

(** A bucket nobody has used refines the empty ledger. *)
Lemma refines_start f :
  f k1 = (None, None) → f k2 = (None, None) → f k3 = (None, None) →
  (∀ id, mine id → not_reserved (f id)) → refines ∅ f.
Proof.
  intros E1 E2 E3 Hnot. split.
  - apply map_Forall_empty.
  - intros id [? Hid]. by rewrite lookup_empty in Hid.
  - unfold within, usage_of. simpl. rewrite !map_zsum_empty. unfold small in *. lia.
  - exists None. split; [done|]. intros id Hid. rewrite lookup_empty. by apply Hnot.
Qed.

(** ** Properties *)

(** C4.  The scripts implement the ledger.  On a data set that refines a
    ledger, each script answers exactly what the ledger promises (the code of
    the first exceeded limit, or what is left; the refund; whether there was
    something to cancel) and leaves a data set that refines the new ledger;
    the passing of time is the ledger's expiry. *)
Theorem quota_scripts_refine_ledger L db op d :
  refines L (snap db) → op_ok L (snap db) op →
  (∃ db', run_lua (op_script k1 k2 k3 op) db = (Ok (ledger_op op L).1, db')
     ∧ refines (ledger_op op L).2 (snap db'))
  ∧ refines (expire_ledger (ttl_at db k1) (ttl_at db) d L) (snap (elapse d db)).
Proof.
  intros HR Hok. split; [by apply op_refines|].
  eapply refines_ext; [by apply sees_elapse|]. by apply (elapse_refines L (snap db) d).
Qed.

(** C11.  In every history of a bucket that starts without counters and
    without live reservations, and interleaves any scripts, any amount of
    time and any change of other keys, the three counters hold integers
    between 0 and the configured limits, and a counter that exists expires
    within 120 seconds: no refund or cancellation ever brings an expired
    counter back to life, negative or without expiry. *)
Theorem quota_counters_bounded db0 used db :
  snap db0 k1 = (None, None) → snap db0 k2 = (None, None) → snap db0 k3 = (None, None) →
  (∀ id, mine id → not_reserved (snap db0 id)) →
  rtc quota_step (∅, db0) (used, db) →
  ∃ r p g,
    counter_at db k1 r ∧ counter_at db k2 p ∧ counter_at db k3 g
    ∧ (0 ≤ r ≤ lim_r ∧ 0 ≤ p ≤ lim_p ∧ 0 ≤ g ≤ lim_g)%Z
    ∧ ∀ k, k = k1 ∨ k = k2 ∨ k = k3 →
        (obj_at db k = None ∨ ∃ t, ttl_at db k = Some t ∧ t ≤ 120000)%N.
Proof.
  intros E1 E2 E3 Hnot Hsteps.
  destruct (quota_steps_inv (∅, db0) (used, db) Hsteps) as (L & HR & _).
  { exists ∅. split; [by apply refines_start|set_solver]. }
  destruct HR as [Hslots _ (?&?&?) (T & Hc & _)].
  destruct (usage_nonneg L Hslots) as (?&?&?).
  destruct (counters_cell_counts T L (snap db) Hc) as (?&?&?).
  exists (u_requests (usage_of L)), (u_prompt (usage_of L)), (u_generated (usage_of L)).
  split_and!; try done. intros k Hk. unfold counters_cell, snap, count_cell in Hc.
  destruct T as [t|].
  - right. exists t. destruct Hc as (Hb & F1 & F2 & F3). split; [|done].
    by destruct Hk as [->|[->| ->]]; simplify_eq.
  - left. destruct Hc as (_ & F1 & F2 & F3).
    by destruct Hk as [->|[->| ->]]; simplify_eq.
Qed.

(** C25.  A live reservation is settled at most once.  [reconcile] refunds the
    unused part of the reserved tokens to the generated-token counter; after
    it, or after a [cancel], and however much time passes, another
    [reconcile] or [cancel] answers 0 and changes nothing. *)
Theorem quota_settled_once L db id s op d :
  refines L (snap db) → op_ok L (snap db) op →
  op = OpCancel id ∨ (∃ actual, op = OpReconcile id actual) →
  L !! id = Some s → sl_open s = true →
  ∃ db', run_lua (op_script k1 k2 k3 op) db = (Ok (ledger_op op L).1, db')
    ∧ (ledger_op op L).1 = RInt match op with
        | OpReconcile _ actual => refund_amount (sl_generated s) actual
        | _ => 1%Z end
    ∧ ∀ op', op' = OpCancel id ∨ (∃ actual, op' = OpReconcile id actual) →
        ∃ db'', run_lua (op_script k1 k2 k3 op') (elapse d db') = (Ok (RInt 0), db'')
          ∧ ∀ k, snap db'' k = snap (elapse d db') k.
Proof.
  intros HR Hok Hop HL Ho. destruct (op_refines L db op HR Hok) as (db' & Hrun & HR').
  exists db'. split; [done|].
  assert (mine id) as Hid by by apply (ref_mine L (snap db) HR); rewrite HL.
  assert (∀ s', (ledger_op op L).2 !! id = Some s' → sl_open s' = false) as Hcl.
  { intros s'. destruct Hop as [->|[actual ->]]; simpl; rewrite HL, Ho; simpl.
    - by rewrite lookup_delete_eq.
    - rewrite lookup_insert_eq. by intros [= <-]. }
  split.
  { destruct Hop as [->|[actual ->]]; simpl; by rewrite HL, Ho. }
  intros op' Hop'.
  assert (not_reserved (aged d (snap db') id)) as Hnr.
  { apply not_reserved_aged. destruct HR' as [_ _ _ (T & _ & Hs)].
    specialize (Hs id Hid). unfold slot_cell in Hs.
    destruct ((ledger_op op L).2 !! id) as [s'|] eqn:E; [|done].
    by rewrite (Hcl s') in Hs. }
  assert (lua_wp (op_script k1 k2 k3 op') (aged d (snap db'))
    (λ r f', r = RInt 0 ∧ f' = aged d (snap db'))) as Hwp.
  { destruct Hop' as [->|[actual ->]].
    - by apply (cancel_settled_wp k1 k2 k3 id (Hmine id Hid)).
    - by apply (reconcile_settled_wp k1 k2 k3 id (Hmine id Hid)). }
  destruct (Hwp (elapse d db') (sees_elapse d db' _ (sees_snap db')))
    as (r & db'' & f' & Hr & Hs & -> & ->).
  exists db''. split; [done|]. intros k. rewrite (Hs k).
  symmetry. apply sees_elapse. done.
Qed.

End refinement.

(** ** The properties on the reference server *)
Module Witness.
Definition k1 : string := "quota:{ada}:7:requests".
Definition k2 : string := "quota:{ada}:7:prompt".
Definition k3 : string := "quota:{ada}:7:generated".
Definition id : string := "quota:{ada}:reservation:r1".
Definition mine : string → Prop := eq id.
Definition d : demand :=
  {| d_prompt := 5; d_generated := 64; d_limit_requests := 2;
     d_limit_prompt := 100; d_limit_generated := 100 |}.
Definition start : ref_db := ref_empty 0.

Lemma mine_keys x : mine x → NoDup [k1; k2; k3; x].
Proof. intros <-. apply (bool_decide_unpack _). vm_compute. exact I. Qed.
Lemma limits_small : small 2 ∧ small 100 ∧ small 100.
Proof. unfold small. lia. Qed.
Lemma start_refines : refines k1 k2 k3 mine 2 100 100 ∅ (snap start).
Proof.
  apply refines_start; [by apply mine_keys|apply limits_small|done..|].
  intros x <-. by exists ∅.
Qed.
Lemma reserve_ok : op_ok mine 2 100 100 ∅ (snap start) (OpReserve id d).
Proof. split_and!; try done; unfold small; simpl; lia. Qed.

(** One reservation, and half a minute. *)
Lemma quota_scripts_refine_ledger_witness :
  (∃ db', run_lua (op_script k1 k2 k3 (OpReserve id d)) start
          = (Ok (ledger_op (OpReserve id d) ∅).1, db')
     ∧ refines k1 k2 k3 mine 2 100 100 (ledger_op (OpReserve id d) ∅).2 (snap db'))
  ∧ refines k1 k2 k3 mine 2 100 100
      (expire_ledger (ttl_at start k1) (ttl_at start) 30000 ∅) (snap (elapse 30000 start)).
Proof.
  exact (@quota_scripts_refine_ledger _ _ _ ref_laws _ ref_number_laws k1 k2 k3 mine mine_keys
    2 100 100 limits_small ∅ start (OpReserve id d) 30000 start_refines reserve_ok).
Defined.

(** A reservation, half a minute, a settlement. *)
Definition reserved : ref_db := (run_lua (op_script k1 k2 k3 (OpReserve id d)) start).2.
Definition later : ref_db := elapse 30000 reserved.
Definition settled : ref_db := (run_lua (op_script k1 k2 k3 (OpReconcile id 24)) later).2.

Lemma history :
  rtc (quota_step k1 k2 k3 mine 2 100 100) (∅, start) ({[id]} ∪ ∅, settled).
Proof.
  eapply rtc_l.
  { apply (q_reserve k1 k2 k3 mine 2 100 100 ∅ start id d
      (run_lua (op_script k1 k2 k3 (OpReserve id d)) start).1 reserved); try done;
      unfold small; simpl; lia. }
  eapply rtc_l; [apply (q_elapse k1 k2 k3 mine 2 100 100 _ reserved 30000)|].
  apply rtc_once.
  apply (q_reconcile k1 k2 k3 mine 2 100 100 _ later id 24
    (run_lua (op_script k1 k2 k3 (OpReconcile id 24)) later).1 settled); try done.
Qed.

Lemma quota_counters_bounded_witness :
  (∃ r p g, counter_at settled k1 r ∧ counter_at settled k2 p ∧ counter_at settled k3 g
    ∧ (0 ≤ r ≤ 2 ∧ 0 ≤ p ≤ 100 ∧ 0 ≤ g ≤ 100)%Z
    ∧ ∀ k, k = k1 ∨ k = k2 ∨ k = k3 →
        (obj_at settled k = None ∨ ∃ t, ttl_at settled k = Some t ∧ t ≤ 120000)%N)
  ∧ obj_at settled k3 = Some (OString "24") ∧ ttl_at settled k3 = Some 90000%N.
Proof.
  split; [|by vm_compute].
  refine (@quota_counters_bounded _ _ _ ref_laws _ ref_number_laws k1 k2 k3 mine mine_keys
    2 100 100 limits_small start ({[id]} ∪ ∅) settled eq_refl eq_refl eq_refl _ history).
  intros x <-. by exists ∅.
Defined.

(** The reservation is settled once: 40 of 64 tokens come back, then nothing. *)
Definition open_slot : slot := {| sl_prompt := 5; sl_generated := 64; sl_open := true |}.

Lemma reserved_refines :
  refines k1 k2 k3 mine 2 100 100 (<[id := open_slot]> ∅) (snap reserved).
Proof.
  destruct (op_refines k1 k2 k3 mine mine_keys 2 100 100 limits_small ∅ start
    (OpReserve id d) start_refines reserve_ok) as (db' & Hrun & HR).
  unfold reserved. by rewrite Hrun.
Qed.

Lemma quota_settled_once_witness :
  ∃ db', run_lua (op_script k1 k2 k3 (OpReconcile id 24)) reserved = (Ok (RInt 40), db')
    ∧ RInt 40 = RInt (refund_amount 64 24)
    ∧ ∀ op', op' = OpCancel id ∨ (∃ actual, op' = OpReconcile id actual) →
        ∃ db'', run_lua (op_script k1 k2 k3 op') (elapse 1 db') = (Ok (RInt 0), db'')
          ∧ ∀ k, snap db'' k = snap (elapse 1 db') k.
Proof.
  apply (@quota_settled_once _ _ _ ref_laws _ ref_number_laws k1 k2 k3 mine mine_keys
    2 100 100 limits_small (<[id := open_slot]> ∅) reserved id open_slot
    (OpReconcile id 24) 1 reserved_refines); try done.
  right. by exists 24%Z.
Defined.
End Witness.
