(* ===== verification/Envelope.v ===== *)
(** * Connect framing: envelopes and the stream reader

    [connect_envelope] and [connect_error_envelope] of
    crates/inference-frontend/src/main.rs, and the decoder of
    crates/inference-frontend/src/bin/connect_smoke.rs ([read_stream]), which
    reads the frames back from a body that arrives in arbitrary chunks. *)
From Stdlib Require Import Ascii.
From stdpp Require Import options.
From S2P Require Import Prelude Text Program Wire Replies RefCodec.

#[local] Set Default Proof Using "Type*".

(** ** Bytes *)
Definition slen (s : bytes) : N := N.of_nat (String.length s).

(** [BytesMut::split_to] and [advance]. *)
Fixpoint take_bytes (n : nat) (s : bytes) : bytes :=
  match n, s with
  | S n, String c s => String c (take_bytes n s)
  | _, _ => ""
  end.
Fixpoint drop_bytes (n : nat) (s : bytes) : bytes :=
  match n, s with
  | S n, String _ s => drop_bytes n s
  | _, _ => s
  end.

(** The byte of weight [256 ^ i]. *)
Definition byte_at (n : N) (i : N) : ascii := ascii_of_N (N.land (N.shiftr n (8 * i)) 255).

(** [put_u32]: big-endian; [payload.len() as u32] keeps the low 32 bits. *)
Definition put_u32 (n : N) : bytes :=
  String (byte_at n 3) (String (byte_at n 2) (String (byte_at n 1) (String (byte_at n 0) EmptyString))).
(** [u32::from_be_bytes] *)
Definition from_be_bytes (a b c d : ascii) : N :=
  (((byte_of a * 256 + byte_of b) * 256 + byte_of c) * 256 + byte_of d)%N.

Section envelope.
Context `{Codec}.

(** ** The frontend's side *)
Definition connect_envelope {M} `{Proto M} (message : M) (end_stream : bool) : bytes :=
  let payload := encode message in
  String (ascii_of_N (if end_stream then 2 else 0))
         (put_u32 (slen payload) +:+ payload).

Definition error_event (request_id message : string) : GenerationEvent :=
  {| ev_request_id := request_id; ev_model := ""; ev_delta := message;
     ev_generated_tokens := 0; ev_finish_reason := "error"; ev_event_id := "";
     ev_attempt_id := ""; ev_prompt_tokens := 0; ev_terminal := true |}.

Definition connect_error_envelope (request_id message : string) : bytes :=
  connect_envelope (error_event request_id message) true.

(** ** The reader's side *)

(** The inner loop: [while buffered.len() >= 5].  A round removes at least
    five bytes, so the length of the buffer bounds their number. *)
Fixpoint read_frames (fuel : nat) (buffered : bytes) (events : list GenerationEvent)
    : result error (bytes * list GenerationEvent) :=
  match fuel, buffered with
  | S fuel, String flags (String b1 (String b2 (String b3 (String b4 rest)))) =>
    let len := from_be_bytes b1 b2 b3 b4 in
    if (slen buffered <? 5 + len)%N then Ok (buffered, events) else
    let message := take_bytes (N.to_nat len) rest in
    let buffered := drop_bytes (N.to_nat len) rest in
    event ← context "decode GenerationEvent" (decode_message message);
    if N.testbit (byte_of flags) 1
    then Err ["stream error: " +:+ ev_delta event]
    else read_frames fuel buffered (events ++ [event])
  | _, _ => Ok (buffered, events)
  end.

(** The outer loop over the chunks of the body. *)
Fixpoint read_chunks (chunks : list (result error bytes)) (buffered : bytes)
    (events : list GenerationEvent) : result error (list GenerationEvent) :=
  match chunks with
  | [] => Ok events
  | chunk :: chunks =>
    chunk ← chunk;
    let buffered := buffered +:+ chunk in
    '(buffered, events) ← read_frames (String.length buffered) buffered events;
    read_chunks chunks buffered events
  end.

(** [read_stream], from the body of the response to its events. *)
Definition read_stream (body : list (result error bytes)) : result error (list GenerationEvent) :=
  read_chunks body "" [].

End envelope.

(** ** Lemmas *)
Lemma byte_at_bound n i : (N.land (N.shiftr n (8 * i)) 255 < 256)%N.
Proof. change 255%N with (N.ones 8). rewrite N.land_ones. by apply N.mod_lt. Qed.

Lemma byte_of_byte_at n i : byte_of (byte_at n i) = ((n `div` 2 ^ (8 * i)) `mod` 256)%N.
Proof.
  unfold byte_of, byte_at. rewrite N_ascii_embedding by apply byte_at_bound.
  change 255%N with (N.ones 8). by rewrite N.land_ones, N.shiftr_div_pow2.
Qed.

(** The length field round trips below [2^32]. *)
Lemma from_be_put_u32 n : (n < 2 ^ 32)%N →
  from_be_bytes (byte_at n 3) (byte_at n 2) (byte_at n 1) (byte_at n 0) = n.
Proof.
  intros Hn. unfold from_be_bytes. rewrite !byte_of_byte_at.
  change (8 * 3)%N with 24%N. change (8 * 2)%N with 16%N.
  change (8 * 1)%N with 8%N. change (8 * 0)%N with 0%N.
  assert (n `div` 2 ^ 24 < 256)%N as H3 by (apply N.Div0.div_lt_upper_bound; lia).
  rewrite (N.mod_small (n `div` 2 ^ 24)) by done.
  assert (∀ a, (a `div` 256 * 256 + a `mod` 256 = a)%N) as Hdm.
  { intros a. pose proof (N.div_mod a 256 ltac:(done)). lia. }
  replace (n `div` 2 ^ 24)%N with (n `div` 2 ^ 16 `div` 256)%N
    by (rewrite N.Div0.div_div; done).
  rewrite Hdm. replace (n `div` 2 ^ 16)%N with (n `div` 2 ^ 8 `div` 256)%N
    by (rewrite N.Div0.div_div; done).
  rewrite Hdm. change (n `div` 2 ^ 0)%N with (n `div` 1)%N. rewrite N.div_1_r.
  change (2 ^ 8)%N with 256%N. apply Hdm.
Qed.

Lemma take_bytes_app a b : take_bytes (String.length a) (a +:+ b) = a.
Proof. induction a as [|c a IH]; [by destruct b|]. rewrite append_cons. simpl. by rewrite IH. Qed.
Lemma drop_bytes_app a b : drop_bytes (String.length a) (a +:+ b) = b.
Proof. induction a as [|c a IH]; [done|]. rewrite append_cons. simpl. by rewrite IH. Qed.

Lemma take_bytes_le n a b : n ≤ String.length a → take_bytes n (a +:+ b) = take_bytes n a.
Proof.
  revert n. induction a as [|c a IH]; intros [|n] Hn; simpl in *; [done|lia|done|].
  f_equal. apply IH. lia.
Qed.
Lemma drop_bytes_le n a b : n ≤ String.length a →
  drop_bytes n (a +:+ b) = drop_bytes n a +:+ b.
Proof.
  revert n. induction a as [|c a IH]; intros [|n] Hn; simpl in *; [done|lia|done|].
  apply IH. lia.
Qed.
Lemma drop_bytes_length n a : String.length (drop_bytes n a) = String.length a - n.
Proof. revert n. induction a as [|c a IH]; intros [|n]; simpl; auto. Qed.
Lemma slen_append a b : slen (a +:+ b) = (slen a + slen b)%N.
Proof. unfold slen. rewrite length_append. lia. Qed.

(** ** The reader does not see chunk boundaries *)
Section reader.
Context `{Codec}.

(** One round of the loop, as an equation. *)
Definition frame_step (buffered : bytes) (events : list GenerationEvent)
    : option (result error (bytes * list GenerationEvent)) :=
  match buffered with
  | String flags (String b1 (String b2 (String b3 (String b4 rest)))) =>
    let len := from_be_bytes b1 b2 b3 b4 in
    if (slen buffered <? 5 + len)%N then None else
    Some (event ← context "decode GenerationEvent"
                    (decode_message (take_bytes (N.to_nat len) rest));
          if N.testbit (byte_of flags) 1 then Err ["stream error: " +:+ ev_delta event]
          else Ok (drop_bytes (N.to_nat len) rest, events ++ [event]))
  | _ => None
  end.

Lemma read_frames_step fuel b evs :
  read_frames (S fuel) b evs =
  match frame_step b evs with
  | None => Ok (b, evs)
  | Some r => '(b, evs) ← r; read_frames fuel b evs
  end.
Proof.
  destruct b as [|f [|b1 [|b2 [|b3 [|b4 rest]]]]]; [done..|].
  cbn [read_frames frame_step]. case_match; [done|].
  destruct (context _ _) as [e|e]; [|done].
  change (mbind ?f (Ok ?a)) with (f a). cbv beta. by case_match.
Qed.

Lemma read_frames_0 b evs : read_frames 0 b evs = Ok (b, evs).
Proof. done. Qed.

(** More bytes do not change a round that takes place, and a round removes
    at least five bytes. *)
Lemma frame_step_app a c evs r :
  frame_step a evs = Some r →
  frame_step (a +:+ c) evs = Some ('(b, evs) ← r; Ok (b +:+ c, evs))
  ∧ ∀ b evs', r = Ok (b, evs') → String.length b + 5 ≤ String.length a.
Proof.
  destruct a as [|f [|b1 [|b2 [|b3 [|b4 rest]]]]]; [done..|].
  rewrite !append_cons. cbn [frame_step]. set (len := from_be_bytes b1 b2 b3 b4).
  destruct (_ <? _)%N eqn:E; [done|]. intros [= <-]. bool_to_prop.
  assert (N.to_nat len ≤ String.length rest) as Hle by (unfold slen in E; simpl in E; lia).
  assert ((slen (String f (String b1 (String b2 (String b3 (String b4 (rest +:+ c)))))) <?
    5 + len)%N = false) as ->.
  { apply N.ltb_ge. unfold slen in *. simpl in *. rewrite length_append. lia. }
  rewrite take_bytes_le, drop_bytes_le by done. split.
  - f_equal. destruct (context _ _) as [e|e]; [|done].
    change (mbind ?f (Ok ?a)) with (f a). cbv beta. by case_match.
  - intros b evs'. destruct (context _ _) as [e|e]; [|done].
    change (mbind ?f (Ok ?a)) with (f a). cbv beta. case_match; [done|].
    intros [= <- _]. rewrite drop_bytes_length. simpl. lia.
Qed.

(** Fuel: the length of the buffer is enough. *)
Lemma read_frames_fuel f g b evs :
  String.length b ≤ f → String.length b ≤ g → read_frames f b evs = read_frames g b evs.
Proof.
  revert g b evs. induction f as [|f IH]; intros [|g] b evs Hf Hg; [done| | |].
  - destruct b; [done|simpl in *; lia].
  - destruct b; [done|simpl in *; lia].
  - rewrite !read_frames_step. destruct (frame_step b evs) as [[[b' evs']|e]|] eqn:E; [|done..].
    destruct (frame_step_app b "" evs _ E) as [_ Hlen].
    specialize (Hlen b' evs' eq_refl). apply IH; lia.
Qed.

Lemma read_frames_length f b evs b' evs' :
  read_frames f b evs = Ok (b', evs') → String.length b' ≤ String.length b.
Proof.
  revert b evs. induction f as [|f IH]; intros b evs; [by intros [= -> _]|].
  rewrite read_frames_step. destruct (frame_step b evs) as [[[b1 evs1]|e]|] eqn:E;
    [|done|by intros [= -> _]].
  destruct (frame_step_app b "" evs _ E) as [_ Hlen]. specialize (Hlen b1 evs1 eq_refl).
  intros Hr. specialize (IH b1 evs1 Hr). lia.
Qed.

(** What was read from a prefix is what is read first from the whole. *)
Lemma read_frames_app f g a c evs :
  String.length a ≤ f → String.length (a +:+ c) ≤ g →
  read_frames g (a +:+ c) evs = ('(b, evs') ← read_frames f a evs; read_frames g (b +:+ c) evs').
Proof.
  revert g a evs. induction f as [|f IH]; intros g a evs Hf Hg; [done|].
  rewrite (read_frames_step f a). destruct (frame_step a evs) as [r|] eqn:E; [|done].
  destruct (frame_step_app a c evs r E) as [E' Hlen]. rewrite length_append in Hg.
  destruct g as [|g].
  { destruct a; [done|]. simpl in Hg. lia. }
  rewrite read_frames_step, E'.
  destruct r as [[b evs1]|e]; [|done]. specialize (Hlen b evs1 eq_refl).
  change (read_frames g (b +:+ c) evs1 =
    ('(b, evs') ← read_frames f b evs1; read_frames (S g) (b +:+ c) evs')).
  rewrite (IH g b evs1) by (rewrite ?length_append; lia).
  destruct (read_frames f b evs1) as [[b2 evs2]|e] eqn:E2; [|done].
  change (read_frames g (b2 +:+ c) evs2 = read_frames (S g) (b2 +:+ c) evs2).
  apply read_frames_length in E2.
  apply read_frames_fuel; rewrite length_append; lia.
Qed.

Definition drain (b : bytes) (evs : list GenerationEvent)
    : result error (list GenerationEvent) :=
  snd <$> read_frames (String.length b) b evs.

Lemma read_chunks_whole cs b evs :
  String.length b = 0 ∨ read_frames (String.length b) b evs = Ok (b, evs) →
  read_chunks (Ok <$> cs) b evs = drain (b +:+ String.concat "" cs) evs.
Proof.
  revert b evs. induction cs as [|c cs IH]; intros b evs Hb.
  - simpl. rewrite append_nil_r. unfold drain. destruct Hb as [Hb | ->]; [|done].
    by destruct b.
  - rewrite fmap_cons, concat_nil_cons. cbn [read_chunks].
    change (mbind ?f (Ok ?a)) with (f a). cbv beta zeta. unfold drain.
    rewrite <-append_assoc.
    rewrite (read_frames_app (String.length (b +:+ c)) _ (b +:+ c) _ evs) by lia.
    destruct (read_frames _ (b +:+ c) evs) as [[b' evs']|e] eqn:E; [|done].
    change (read_chunks (Ok <$> cs) b' evs' = snd <$>
      read_frames (String.length ((b +:+ c) +:+ String.concat "" cs))
        (b' +:+ String.concat "" cs) evs').
    pose proof (read_frames_length _ _ _ _ _ E).
    rewrite IH.
    + unfold drain. f_equal. apply read_frames_fuel; rewrite !length_append in *; lia.
    + right. pose proof (read_frames_app (String.length (b +:+ c))
        (String.length (b +:+ c)) (b +:+ c) "" evs ltac:(lia)) as Ha.
      rewrite append_nil_r in Ha. specialize (Ha ltac:(lia)). rewrite E in Ha.
      change (Ok (b', evs') = read_frames (String.length (b +:+ c)) (b' +:+ "") evs') in Ha.
      rewrite append_nil_r in Ha. rewrite Ha. apply read_frames_fuel; lia.
Qed.

Lemma read_stream_whole cs : read_stream (Ok <$> cs) = drain (String.concat "" cs) [].
Proof. apply (read_chunks_whole cs "" []). by left. Qed.

End reader.

(** ** Round trip *)
Section roundtrip.
Context `{CodecLaws}.

Lemma frame_step_envelope (e : GenerationEvent) (end_stream : bool) rest evs :
  (slen (encode e) < 2 ^ 32)%N →
  frame_step (connect_envelope e end_stream +:+ rest) evs =
  Some (if end_stream then Err ["stream error: " +:+ ev_delta e] else Ok (rest, evs ++ [e])).
Proof.
  intros Hn. unfold connect_envelope. set (p := encode e) in *.
  rewrite !append_cons, append_assoc. unfold put_u32. rewrite !append_cons, append_nil_l.
  cbn [frame_step]. rewrite from_be_put_u32 by done.
  assert (∀ f b1 b2 b3 b4 : ascii,
    (slen (String f (String b1 (String b2 (String b3 (String b4 (p +:+ rest)))))) <?
    5 + slen p)%N = false) as ->.
  { intros. apply N.ltb_ge. unfold slen. simpl. rewrite length_append. lia. }
  assert (N.to_nat (slen p) = String.length p) as -> by (unfold slen; lia).
  rewrite take_bytes_app, drop_bytes_app. subst p. unfold decode_message.
  rewrite decode_encode. by destruct end_stream.
Qed.

Lemma drain_envelopes es rest evs :
  Forall (λ e : GenerationEvent, slen (encode e) < 2 ^ 32)%N es →
  drain (String.concat "" ((λ e, connect_envelope e false) <$> es) +:+ rest) evs
  = drain rest (evs ++ es).
Proof.
  intros Hes. revert evs. induction Hes as [|e es He _ IH]; intros evs.
  { simpl. by rewrite app_nil_r. }
  rewrite fmap_cons, concat_nil_cons, append_assoc.
  transitivity (drain (String.concat "" ((λ e, connect_envelope e false) <$> es) +:+ rest)
    (evs ++ [e])); [|by rewrite IH, <-app_assoc].
  pose proof (frame_step_envelope e false
    (String.concat "" ((λ e, connect_envelope e false) <$> es) +:+ rest) evs He) as Hs.
  destruct (frame_step_app _ "" evs _ Hs) as [_ Hlen]. specialize (Hlen _ _ eq_refl).
  unfold drain. destruct (String.length (connect_envelope e false +:+ _)) as [|n];
    [lia|]. rewrite read_frames_step, Hs.
  change (mbind ?f (Ok ?a)) with (f a). cbv beta iota. f_equal.
  apply read_frames_fuel; lia.
Qed.

Lemma drain_error_envelope e rest evs :
  (slen (encode e) < 2 ^ 32)%N →
  drain (connect_envelope e true +:+ rest) evs = Err ["stream error: " +:+ ev_delta e].
Proof.
  intros He. pose proof (frame_step_envelope e true rest evs He) as Hs.
  unfold drain. destruct (String.length (connect_envelope e true +:+ rest)) as [|n] eqn:El.
  { unfold connect_envelope in El. by rewrite append_cons in El. }
  by rewrite read_frames_step, Hs.
Qed.

End roundtrip.

(** ** Properties *)

(** C30.  The reader does not depend on how the body is cut into chunks: for
    any bytes at all, and any cut, it returns the same events, or fails with
    the same error, as on the whole body at once. *)
Theorem read_stream_any_chunks `{Codec} (cs : list bytes) :
  read_stream (Ok <$> cs) = read_stream [Ok (String.concat "" cs)].
Proof.
  rewrite read_stream_whole. change [Ok (String.concat "" cs)] with
    (Ok (E := error) <$> [String.concat "" cs]).
  by rewrite read_stream_whole.
Qed.

(** C15.  The reader inverts the frontend's framing.  However the body is cut,
    the events that [connect_envelope] framed are read back in order; and if
    a [connect_error_envelope] follows them, the read fails with its message,
    whatever comes after. *)
Theorem read_stream_roundtrip `{CodecLaws} (es : list GenerationEvent) (cs : list bytes)
    (request_id msg rest : string) :
  Forall (λ e, slen (encode e) < 2 ^ 32)%N (error_event request_id msg :: es) →
  let frames := String.concat "" ((λ e, connect_envelope e false) <$> es) in
  (String.concat "" cs = frames → read_stream (Ok <$> cs) = Ok es)
  ∧ (String.concat "" cs = frames +:+ connect_error_envelope request_id msg +:+ rest →
     read_stream (Ok <$> cs) = Err ["stream error: " +:+ msg]).
Proof.
  intros [He Hes]%Forall_cons. cbv zeta. rewrite read_stream_whole. split; intros ->.
  - rewrite <-(append_nil_r (String.concat "" _)). by rewrite drain_envelopes.
  - rewrite drain_envelopes by done. unfold connect_error_envelope.
    by rewrite drain_error_envelope.
Qed.

Definition two_events : list GenerationEvent :=
  [{| ev_request_id := "r"; ev_model := "m"; ev_delta := "hello "; ev_generated_tokens := 1;
      ev_finish_reason := ""; ev_event_id := "1-0"; ev_attempt_id := "a";
      ev_prompt_tokens := 0; ev_terminal := false |};
   {| ev_request_id := "r"; ev_model := "m"; ev_delta := ""; ev_generated_tokens := 1;
      ev_finish_reason := "stop"; ev_event_id := "1-1"; ev_attempt_id := "a";
      ev_prompt_tokens := 2; ev_terminal := true |}].
Definition two_frames : bytes :=
  String.concat "" ((λ e, connect_envelope e false) <$> two_events).

Lemma read_stream_roundtrip_witness :
  let cs := [take_bytes 3 two_frames; drop_bytes 3 two_frames] in
  (String.concat "" cs = two_frames → read_stream (Ok <$> cs) = Ok two_events)
  ∧ (String.concat "" cs = two_frames +:+ connect_error_envelope "r" "timed out" +:+ "" →
     read_stream (Ok <$> cs) = Err ["stream error: timed out"]).
Proof.
  apply (@read_stream_roundtrip _ ref_codec_laws two_events
    [take_bytes 3 two_frames; drop_bytes 3 two_frames] "r" "timed out" "").
  by repeat (apply Forall_cons; split; [vm_compute|]).
Defined.

Example two_frames_read :
  read_stream (Ok <$> [take_bytes 3 two_frames; drop_bytes 3 two_frames]) = Ok two_events.
Proof. by vm_compute. Qed.
