(* ===== verification/Frontend.v ===== *)
(** * The inference frontend: crates/inference-frontend/src/main.rs

    The three RPCs: a request is authenticated, budgeted, charged to the
    API key's quota and dispatched as a job; its results are collected into
    one response or streamed as Connect frames; and the router in front of
    them.  The headers of a request are
    a function; a [HeaderValue]'s conversion to text is the [http] crate's
    and a parameter. *)
From Stdlib Require Import Ascii.
From stdpp Require Import options.
From S2P Require Import Prelude Text Valkey Lua TokenBudget Program Wire Json Replies Streams Envelope.

(** ** State and configuration *)
Record ModelConfig := {
  mc_id : string;
  mc_revision : string;
  mc_endpoint : string;
  mc_context_limit : N;
  mc_default_max_tokens : N;
  mc_max_output_tokens : N;
}.

Record StreamSettings := {
  active_ttl_seconds : N;
  result_retention_seconds : N;
  lease_seconds : N;
  generation_timeout_seconds : N;
}.
Definition default_stream_settings : StreamSettings :=
  {| active_ttl_seconds := 3600; result_retention_seconds := 600; lease_seconds := 60;
     generation_timeout_seconds := 300 |}.

Record ServiceConfig := {
  sc_model : ModelConfig;
  sc_api_keys : list string;
  sc_quota : QuotaLimits;
  sc_streams : StreamSettings;
}.

Record AppState := {
  app_streams : StreamsConfig;
  app_model : ModelConfig;
  api_keys : gset string;
  app_quota : QuotaLimits;
  generation_timeout : N;   (* milliseconds *)
}.

Definition clean_keys (keys : list string) : gset string :=
  list_to_set (filter (λ key, key ≠ "") (trim <$> keys)).

(** [api_keys_from_env], from the value of [API_KEYS]. *)
Definition api_keys_from_env (env : string → option string) : option (gset string) :=
  raw ← env "API_KEYS"; Some (clean_keys (split_char "," raw)).

(** The state [main] builds. *)
Definition app_state (env : string → option string) (config : ServiceConfig) : AppState :=
  let s := sc_streams config in
  {| app_streams := {| active_ttl := active_ttl_seconds s * 1000;
                       result_retention := result_retention_seconds s * 1000;
                       lease_duration := lease_seconds s * 1000 |};
     app_model := sc_model config;
     api_keys := default (clean_keys (sc_api_keys config)) (api_keys_from_env env);
     app_quota := sc_quota config;
     generation_timeout := generation_timeout_seconds s * 1000 |}.

(** ** Responses *)
Inductive Body : Type :=
| Plain (text : string)
| ErrorJson (msg kind : string)
| Proto_ (payload : bytes)
| Stream (frames : list bytes) (ended : bool).  (* what was sent so far *)

Record Response := {
  response_status : N;
  response_headers : list (string * string);
  response_body : Body;
}.

Definition error_response (status_code : N) (msg : string) : Response :=
  {| response_status := status_code;
     response_headers := [("content-type", "application/json")];
     response_body := ErrorJson msg "inference_error" |}.

Definition BAD_REQUEST : N := 400.
Definition UNAUTHORIZED : N := 401.
Definition FORBIDDEN : N := 403.
Definition NOT_FOUND : N := 404.
Definition TOO_MANY_REQUESTS : N := 429.
Definition BAD_GATEWAY : N := 502.
Definition GATEWAY_TIMEOUT : N := 504.

Record Admission := {
  ad_request_id : string;
  ad_request_entry_id : string;
  ad_reservation_id : string;
  ad_prompt_tokens : N;
}.

(** ** Pure parts *)
Abbreviation headers := (string → option bytes).
(** [HeaderValue::to_str]. *)
Class HeaderText := to_str : bytes → option string.

Definition bearer_token `{HeaderText} (h : headers) : option string :=
  value ← h "authorization";
  value ← to_str value;
  strip_prefix "Bearer " value.

Definition authenticate `{HeaderText} (state : AppState) (h : headers)
    : result Response string :=
  match bearer_token h with
  | None => Err (error_response UNAUTHORIZED "missing bearer token")
  | Some token =>
    if decide (token ∈ api_keys state) then Ok token
    else Err (error_response FORBIDDEN "invalid API key")
  end.

Definition chat_messages (request : GenerateRequest) : list ChatMessage :=
  (λ m, {| role := api_role m; content := api_content m |}) <$> req_messages request.

Definition request_prompt (request : GenerateRequest) : result string Prompt :=
  match req_messages request with
  | _ :: _ => Ok (PChat (chat_messages request))
  | [] =>
    if decide (req_prompt request = "")
    then Err "either messages or prompt is required"
    else Ok (PText (req_prompt request))
  end.

Definition newline : string := String "010" "".
Definition MAX_PREFIX_CHARS : nat := 4096.
(** The text of a request: the prompt, or the messages with their roles. *)
Definition rendered (request : GenerateRequest) : string :=
  match req_messages request with
  | [] => req_prompt request
  | messages => String.concat newline
      ((λ m, api_role m +:+ newline +:+ api_content m) <$> messages)
  end.
Definition prompt_prefix (request : GenerateRequest) : string :=
  collect_chars (take MAX_PREFIX_CHARS (chars (rendered request))).

Definition cache_key_of `{Sha256} (model prefix : string) : string :=
  "sha256:" +:+ sha256_hex (model +:+ String "000" prefix).

Definition valid_stream_id (value : string) : bool :=
  match split_once "-" value with
  | None => false
  | Some (milliseconds, sequence) =>
      bool_decide (is_Some (parse_u64 milliseconds))
      && bool_decide (is_Some (parse_u64 sequence))
  end.

Section frontend.
Context `{Codec, SerdeJson, Sha256, HeaderText}.
Context (state : AppState).

(** The budget request of an RPC. *)
Definition budget_request (model : string) (prompt : Prompt) (request : GenerateRequest)
    : BudgetRequest :=
  {| br_prompt := prompt;
     br_requested_max_tokens :=
       if (0 <? req_max_tokens request)%N then Some (req_max_tokens request) else None;
     br_policy := StrictReject;
     br_model := {| mb_model := model;
                    context_limit := mc_context_limit (app_model state);
                    default_max_tokens := mc_default_max_tokens (app_model state);
                    max_output_tokens := mc_max_output_tokens (app_model state) |} |}.

(** Everything [admit_and_dispatch] checks before it charges the quota. *)
Definition preflight (h : headers) (request : GenerateRequest)
    : result Response (string * string * BudgetDecision) :=
  api_key ← authenticate state h;
  prompt ← map_err (error_response BAD_REQUEST) (request_prompt request);
  let model := if decide (req_model request = "") then mc_id (app_model state)
               else req_model request in
  if decide (model ≠ mc_id (app_model state))
  then Err (error_response NOT_FOUND "model is not registered") else
  budget ← map_err (λ e, error_response BAD_REQUEST (budget_error_to_string e))
    (decide_budget MkApproxTokenCounter (budget_request model prompt request));
  if admitted budget then Ok (api_key, model, budget)
  else Err (error_response BAD_REQUEST (reason budget)).

Definition runtime_request (model : string) (max_tokens : N) (request : GenerateRequest)
    : FrontendRuntimeRequest :=
  {| fr_model := model;
     fr_messages := match req_messages request with
                    | [] => None | _ => Some (chat_messages request) end;
     fr_prompt := if decide (req_prompt request = "") then None
                  else Some (req_prompt request);
     fr_max_tokens := max_tokens;
     fr_temperature := req_temperature request;
     fr_stream := true |}.

Definition job_for (request_id reservation model : string) (budget : BudgetDecision)
    (now : N) (request : GenerateRequest) : GenerationJob :=
  {| job_schema_version := SCHEMA_VERSION;
     job_request_id := request_id;
     job_model_id := model;
     job_model_revision := mc_revision (app_model state);
     job_model_endpoint := mc_endpoint (app_model state);
     job_request_json :=
       request_to_vec (runtime_request model (admitted_max_tokens budget) request);
     job_deadline_unix_ms := wadd now (generation_timeout state);
     job_reservation_id := reservation;
     job_cache := Some {| cache_key := cache_key_of model (prompt_prefix request);
                          prefix_tokens_estimate := prompt_tokens budget |} |}.

Definition admit_and_dispatch (h : headers) (request : GenerateRequest)
    : prog (result Response Admission) :=
  '(api_key, model, budget) ?← lift (preflight h request);
  reservation ?← (r ← reserve_quota api_key (prompt_tokens budget)
                        (admitted_max_tokens budget) (app_quota state);
                  mret (map_err (λ e, error_response TOO_MANY_REQUESTS
                                        (quota_error_to_string e)) r));
  request_id ← perform NewUuid;
  now ← perform NowMs;
  let job := job_for request_id (reservation_id reservation) model budget now request in
  entry ← publish_generation (app_streams state) job;
  match entry with
  | Err _ =>
    _ ← cancel_quota (reservation_id reservation);
    mret (Err (error_response BAD_GATEWAY "failed to dispatch generation"))
  | Ok entry_id =>
    mret (Ok {| ad_request_id := request_id; ad_request_entry_id := entry_id;
                ad_reservation_id := reservation_id reservation;
                ad_prompt_tokens := prompt_tokens budget |})
  end.

(** ** Collecting a generation

    The loop of [collect_generation] ends with the generation; [fuel] bounds
    the number of results it reads, and [None] says that it ran out. *)
Inductive collected : Type :=
| Finished (text : string) (generated_tokens : N) (finish_reason : string)
| Aborted (r : Response).

(** The effect of one result on [text] and [current_attempt]. *)
Definition collect_entry (res : GenerationResult) (text current_attempt : string)
    : (string * string) + collected :=
  match res_event res with
  | Some AttemptStarted =>
    inl (if decide (current_attempt ≠ "" ∧ current_attempt ≠ res_attempt_id res)
         then "" else text, res_attempt_id res)
  | Some (Token token) => inl (text +:+ Wire.text token, current_attempt)
  | Some (Completed completed) =>
    inr (Finished text (done_generated_tokens completed) (done_finish_reason completed))
  | Some (Failed failed) => inr (Aborted (error_response BAD_GATEWAY (message failed)))
  | None => inl (text, current_attempt)
  end.

Fixpoint collect_loop (fuel : nat) (sub : ResultSubscription) (text current_attempt : string)
    : prog (option collected) :=
  match fuel with
  | 0 => mret None
  | S fuel =>
    '(r, sub) ← next sub 300000;
    match r with
    | Ok (Some entry) =>
      match collect_entry (entry_result entry) text current_attempt with
      | inl (text, current_attempt) => collect_loop fuel sub text current_attempt
      | inr done => mret (Some done)
      end
    | Ok None => mret (Some (Aborted (error_response GATEWAY_TIMEOUT "generation timed out")))
    | Err _ => mret (Some (Aborted (error_response BAD_GATEWAY "result stream failed")))
    end
  end.

Definition generate_response (admission : Admission) (text : string) (generated_tokens : N)
    (finish_reason : string) : Response :=
  let body := {| rsp_request_id := ad_request_id admission;
                 rsp_model := mc_id (app_model state);
                 rsp_text := text;
                 rsp_prompt_tokens := ad_prompt_tokens admission;
                 rsp_generated_tokens := generated_tokens;
                 rsp_finish_reason := finish_reason |} in
  {| response_status := 200;
     response_headers := [("content-type", "application/proto");
       ("x-request-entry-id", ad_request_entry_id admission);
       ("x-reservation-id", ad_reservation_id admission)];
     response_body := Proto_ (encode body) |}.

Definition collect_generation (fuel : nat) (admission : Admission) : prog (option Response) :=
  subscription ← subscribe (ad_request_id admission) None;
  match subscription with
  | Ok (Some subscription) =>
    r ← collect_loop fuel subscription "" "";
    mret (match r with
          | None => None
          | Some (Finished text generated_tokens finish_reason) =>
              Some (generate_response admission text generated_tokens finish_reason)
          | Some (Aborted response) => Some response
          end)
  | _ => mret (Some (error_response BAD_GATEWAY "result stream unavailable"))
  end.

(** ** Streaming a generation *)

(** The frame a result is sent as, if any, and whether it is the last. *)
Definition event_for (request_id : string) (entry : ResultEntry) : option (GenerationEvent * bool) :=
  let event (delta : string) (generated : N) (finish : string) (prompt : N) (terminal : bool) :=
    {| ev_request_id := request_id; ev_model := mc_id (app_model state); ev_delta := delta;
       ev_generated_tokens := generated; ev_finish_reason := finish;
       ev_event_id := event_id entry; ev_attempt_id := res_attempt_id (entry_result entry);
       ev_prompt_tokens := prompt; ev_terminal := terminal |} in
  match res_event (entry_result entry) with
  | Some AttemptStarted => None
  | Some (Token token) =>
      Some (event (Wire.text token) (cumulative_generated_tokens token) "" 0%N false, false)
  | Some (Completed d) =>
      Some (event "" (done_generated_tokens d) (done_finish_reason d)
                  (done_prompt_tokens d) true, true)
  | Some (Failed f) => Some (event (message f) 0%N (code f) 0%N true, true)
  | None => None
  end.

(** The frames the loop sends, and whether it ended within [fuel] results. *)
Fixpoint stream_loop (fuel : nat) (request_id : string) (sub : ResultSubscription)
    : prog (list bytes * bool) :=
  match fuel with
  | 0 => mret ([], false)
  | S fuel =>
    '(r, sub) ← next sub 300000;
    match r with
    | Ok (Some entry) =>
      match event_for request_id entry with
      | None => stream_loop fuel request_id sub
      | Some (event, last) =>
        let frame := connect_envelope event false in
        if (last : bool) then mret ([frame], true) else
        '(frames, ended) ← stream_loop fuel request_id sub;
        mret (frame :: frames, ended)
      end
    | Ok None => mret ([connect_error_envelope request_id "generation timed out"], true)
    | Err _ => mret ([connect_error_envelope request_id "failed reading generation"], true)
    end
  end.

Definition stream_response (frames : list bytes) (ended : bool) : Response :=
  {| response_status := 200;
     response_headers := [("content-type", "application/connect+proto")];
     response_body := Stream frames ended |}.

Definition stream_generation (fuel : nat) (request_id : string) (cursor : option string)
    : prog Response :=
  subscription ← subscribe request_id cursor;
  match subscription with
  | Ok (Some subscription) =>
    '(frames, ended) ← stream_loop fuel request_id subscription;
    mret (stream_response frames ended)
  | Ok None =>
    mret (stream_response
      [connect_error_envelope request_id "generation is unknown or expired"] true)
  | Err _ =>
    mret (stream_response
      [connect_error_envelope request_id "failed to subscribe to generation"] true)
  end.

(** ** The RPCs; [None] where the model ran out of [fuel]. *)
Definition decode_request {M} `{Proto M} (body : bytes) : result Response M :=
  map_err (error_response BAD_REQUEST) (decode body).

Definition rpc_generate (fuel : nat) (h : headers) (body : bytes) : prog (option Response) :=
  match decode_request body with
  | Err response => mret (Some response)
  | Ok request =>
    admission ← admit_and_dispatch h request;
    match admission with
    | Err response => mret (Some response)
    | Ok admission => collect_generation fuel admission
    end
  end.

Definition rpc_stream_generate (fuel : nat) (h : headers) (body : bytes) : prog Response :=
  match decode_request body with
  | Err response => mret response
  | Ok request =>
    admission ← admit_and_dispatch h request;
    match admission with
    | Err response => mret response
    | Ok admission => stream_generation fuel (ad_request_id admission) None
    end
  end.

(** The checks of [rpc_subscribe_generation], in order. *)
Definition subscribe_request (h : headers) (body : bytes)
    : result Response (string * option string) :=
  _ ← authenticate state h;
  request ← decode_request (M := SubscribeGenerationRequest) body;
  if decide (sub_request_id request = "")
  then Err (error_response BAD_REQUEST "request_id is required") else
  let cursor := v ← sub_after_event_id request; if decide (v = "") then None else Some v in
  let malformed := match cursor with Some v => negb (valid_stream_id v) | None => false end in
  if malformed then Err (error_response BAD_REQUEST "invalid after_event_id")
  else Ok (sub_request_id request, cursor).

Definition rpc_subscribe_generation (fuel : nat) (h : headers) (body : bytes) : prog Response :=
  match subscribe_request h body with
  | Err response => mret response
  | Ok (request_id, cursor) =>
    current ← status request_id;
    match current with
    | Ok (Some _) => stream_generation fuel request_id cursor
    | Ok None => mret (error_response NOT_FOUND "generation is unknown or expired")
    | Err _ => mret (error_response BAD_GATEWAY "failed to inspect generation")
    end
  end.


(** ** The router

    axum's [get] also serves HEAD, without the body; [CorsLayer::permissive]
    answers every OPTIONS request itself.  The headers this layer adds to
    the responses are tower-http's and not modelled. *)
Inductive Rpc : Type :=
| Healthz
| HealthzHead
| CorsPreflight
| RpcGenerate
| RpcStreamGenerate
| RpcSubscribeGeneration.

Definition routes : list (string * string * Rpc) :=
  [("GET", "/healthz", Healthz);
   ("HEAD", "/healthz", HealthzHead);
   ("POST", "/inference.v1.InferenceService/Generate", RpcGenerate);
   ("POST", "/inference.v1.InferenceService/StreamGenerate", RpcStreamGenerate);
   ("POST", "/inference.v1.InferenceService/SubscribeGeneration", RpcSubscribeGeneration)].

Definition route (method path : string) : option Rpc :=
  if decide (method = "OPTIONS") then Some CorsPreflight
  else snd <$> head (filter (λ r : string * string * Rpc, r.1 = (method, path)) routes).

Definition plain_response (body : string) : Response :=
  {| response_status := 200; response_headers := [("content-type", "text/plain; charset=utf-8")];
     response_body := Plain body |}.

(** What a routed request runs. *)
Definition handle (fuel : nat) (rpc : Rpc) (h : headers) (body : bytes) : prog (option Response) :=
  match rpc with
  | Healthz => mret (Some (plain_response "ok"))
  | HealthzHead => mret (Some (plain_response ""))
  | CorsPreflight => mret (Some {| response_status := 200; response_headers := [];
                                   response_body := Plain "" |})
  | RpcGenerate => rpc_generate fuel h body
  | RpcStreamGenerate => r ← rpc_stream_generate fuel h body; mret (Some r)
  | RpcSubscribeGeneration => r ← rpc_subscribe_generation fuel h body; mret (Some r)
  end.

End frontend.
