(* ===== verification/EngineStream.v ===== *)
(** * The engine's reading of a model server's answer

    [read_body] and [drain_lines] of [Engine]: the lines of the answer do not
    depend on how it is cut into chunks, as long as no chunk cuts a character
    in two; when one does, the text that reaches the client is damaged. *)
From Stdlib Require Import Ascii.
From stdpp Require Import options.
From S2P Require Import Prelude Text Valkey Lua Program Wire Effects Json Replies Streams Engine RefCodec.

#[local] Set Default Proof Using "Type*".

(** ** Text *)
Lemma from_utf8_lossy_app a b :
  valid_utf8 a = true → from_utf8_lossy (a +:+ b) = from_utf8_lossy a +:+ from_utf8_lossy b.
Proof.
  intros Ha. unfold from_utf8_lossy. by rewrite scan_app, fmap_app, concat_nil_app.
Qed.

Lemma split_once_app_l c a b l r :
  split_once c a = Some (l, r) → split_once c (a +:+ b) = Some (l, r +:+ b).
Proof.
  intros [-> Hl]%split_once_spec. rewrite append_assoc, append_cons.
  by apply split_once_app.
Qed.

Section body.
Context `{Codec, SerdeJson} (sconf : StreamsConfig).
Context (job : GenerationJob) (attempt_id : string).

Abbreviation drain := (λ f b u, drain_lines sconf f job attempt_id b u).
Abbreviation read := (λ bs b u, read_body sconf job attempt_id bs b u).

Lemma drain_step f b u :
  drain (S f) b u =
  match split_once newline b with
  | Some (line, b) => u ?← handle_line sconf job attempt_id line u; drain f b u
  | None => mret (Ok (b, u))
  end.
Proof. done. Qed.

Lemma drain_done f b u : split_once newline b = None → drain f b u = mret (Ok (b, u)).
Proof. intros Hb. destruct f; [done|]. simpl. by rewrite Hb. Qed.

Lemma drain_fuel f g b u :
  String.length b ≤ f → String.length b ≤ g → drain f b u ≡ drain g b u.
Proof.
  revert g b u. induction f as [|f IH]; intros g b u Hf Hg.
  { destruct b; [|simpl in Hf; lia]. by rewrite !drain_done. }
  destruct g as [|g].
  { destruct b; [|simpl in Hg; lia]. by rewrite !drain_done. }
  rewrite !drain_step. destruct (split_once newline b) as [[line b']|] eqn:E; [|done].
  apply split_once_length in E. apply try_bind_mono. intros u'. apply IH; lia.
Qed.

(** The lines of a prefix are the first lines of the whole. *)
Lemma drain_app f g a c u :
  String.length a ≤ f → String.length (a +:+ c) ≤ g →
  drain g (a +:+ c) u ≡ '(b, u) ?← drain f a u; drain g (b +:+ c) u.
Proof.
  revert g a u. induction f as [|f IH]; intros g a u Hf Hg.
  { destruct a; [done|simpl in Hf; lia]. }
  rewrite (drain_step f a). destruct (split_once newline a) as [[line a']|] eqn:E; [|done].
  pose proof (split_once_length _ _ _ _ E). rewrite length_append in Hg.
  destruct g as [|g]; [lia|]. rewrite drain_step, (split_once_app_l _ _ c _ _ E).
  rewrite try_bind_assoc. apply try_bind_mono. intros u'.
  rewrite (IH g) by (rewrite ?length_append; lia).
  etrans; [|apply IH; rewrite ?length_append; lia].
  rewrite <-(IH g) by (rewrite ?length_append; lia).
  apply drain_fuel; rewrite length_append; lia.
Qed.

Lemma read_chunk a bs b u :
  read (Ok a :: bs) b u =
  '(b, u) ?← drain (String.length (b +:+ from_utf8_lossy a)) (b +:+ from_utf8_lossy a) u;
  read bs b u.
Proof. done. Qed.

(** Only the decoded text of a chunk matters. *)
Lemma read_decoded cs cs' b u :
  Forall2 (λ c c', from_utf8_lossy c = from_utf8_lossy c') cs cs' →
  read (Ok <$> cs) b u ≡ read (Ok <$> cs') b u.
Proof.
  intros Hcs. revert b u. induction Hcs as [|c c' cs cs' Hc _ IH]; intros b u; [done|].
  rewrite !fmap_cons, !read_chunk, Hc. apply try_bind_mono. intros [b' u']. apply IH.
Qed.

Lemma drain_length f b u :
  succeeds_in (λ r, String.length r.1 ≤ String.length b) (drain f b u).
Proof.
  revert b u. induction f as [|f IH]; intros b u; [by unfold succeeds_in; simpl|].
  rewrite drain_step. destruct (split_once newline b) as [[line b']|] eqn:E;
    [|by unfold succeeds_in; simpl].
  apply split_once_length in E. eapply succeeds_in_try; [apply succeeds_in_true|].
  intros u' _. eapply results_in_mono, IH. intros [r|e]; simpl; [lia|done].
Qed.

(** Two chunks are one, when the first ends with a whole character. *)
Lemma read_merge a c bs b u :
  valid_utf8 a = true → read (Ok a :: Ok c :: bs) b u ≡ read (Ok (a +:+ c) :: bs) b u.
Proof.
  intros Ha. rewrite !read_chunk, from_utf8_lossy_app by done. rewrite <-append_assoc.
  set (b1 := b +:+ from_utf8_lossy a).
  transitivity (try_bind ('(b, u) ?← drain (String.length b1) b1 u;
      drain (String.length (b1 +:+ from_utf8_lossy c)) (b +:+ from_utf8_lossy c) u)
    (λ '(b, u), read bs b u)).
  - rewrite try_bind_assoc. eapply try_bind_mono_in; [apply drain_length|].
    intros [b' u'] Hb'. simpl in Hb'. rewrite read_chunk. unfold try_bind.
    apply prog_bind_proper; [|done].
    apply drain_fuel; rewrite !length_append; lia.
  - unfold try_bind at 1 3. apply prog_bind_proper; [|done].
    symmetry. by apply drain_app.
Qed.

Lemma read_nil_chunk bs b u :
  split_once newline b = None → read (Ok "" :: bs) b u = read bs b u.
Proof. intros Hb. rewrite read_chunk, append_nil_r, drain_done by done. done. Qed.

Lemma read_chunks_concat cs bs u :
  Forall (λ c, valid_utf8 c = true) cs →
  read ((Ok <$> cs) ++ bs) "" u ≡ read (Ok (String.concat "" cs) :: bs) "" u.
Proof.
  intros Hcs. assert (∀ a, valid_utf8 a = true →
    read (Ok a :: (Ok <$> cs) ++ bs) "" u ≡ read (Ok (a +:+ String.concat "" cs) :: bs) "" u)
    as Hgo.
  { induction Hcs as [|c cs Hc _ IH]; intros a Ha.
    - simpl. by rewrite append_nil_r.
    - rewrite fmap_cons, <-app_comm_cons, concat_nil_cons, read_merge by done.
      rewrite IH; [by rewrite append_assoc|]. by rewrite valid_utf8_app. }
  specialize (Hgo "" eq_refl). by rewrite read_nil_chunk in Hgo.
Qed.

(** ** The reference: a text is its lines *)

(** The lines of a text; what follows the last newline is not a line. *)
Definition text_lines (s : string) : list string := removelast (split_char newline s).

Fixpoint handle_lines (lines : list string) (usage : GenerationUsage)
    : prog (result error GenerationUsage) :=
  match lines with
  | [] => mret (Ok usage)
  | line :: lines =>
    usage ?← handle_line sconf job attempt_id line usage;
    handle_lines lines usage
  end.

Lemma text_lines_once s :
  text_lines s =
  match split_once newline s with Some (l, r) => l :: text_lines r | None => [] end.
Proof.
  unfold text_lines. rewrite split_char_once. destruct (split_once newline s) as [[l r]|]; [|done].
  simpl. pose proof (split_char_ne newline r). by destruct (split_char newline r).
Qed.

Lemma drain_lines_spec f b u :
  String.length b ≤ f →
  ('(_, u) ?← drain f b u; mret (Ok u)) ≡ handle_lines (text_lines b) u.
Proof.
  revert b u. induction f as [|f IH]; intros b u Hf.
  { destruct b; [done|simpl in Hf; lia]. }
  rewrite drain_step, text_lines_once.
  destruct (split_once newline b) as [[line b']|] eqn:E; [|done].
  apply split_once_length in E. rewrite try_bind_assoc. apply try_bind_mono.
  intros u'. apply IH. lia.
Qed.

End body.

(** ** Properties *)

(** The body, whatever its chunks. *)
Lemma read_body_lines `{Codec, SerdeJson} sconf job attempt_id (cs : list bytes) usage :
  Forall (λ c, valid_utf8 c = true) cs →
  read_body sconf job attempt_id (Ok <$> cs) "" usage
  ≡ handle_lines sconf job attempt_id (text_lines (String.concat "" cs)) usage.
Proof.
  intros Hcs. rewrite <-(app_nil_r (Ok <$> cs)).
  rewrite (read_chunks_concat sconf job attempt_id cs [] usage Hcs).
  assert (valid_utf8 (String.concat "" cs) = true) as Hv.
  { induction Hcs as [|c cs Hc _ IH]; [done|]. by rewrite concat_nil_cons, valid_utf8_app. }
  rewrite read_chunk, append_nil_l, from_utf8_lossy_valid by done.
  etrans; [|apply drain_lines_spec; reflexivity].
  apply try_bind_mono. by intros [].
Qed.

(** C16.  The answer is processed line by line, whatever the chunks.  Cut at
    character boundaries into any number of chunks, the body of the response
    has the effects, in order, and the final usage of processing the complete
    lines of its text one after the other; a last line without newline is
    ignored. *)
Theorem body_is_its_lines `{Codec, SerdeJson} sconf job attempt_id (cs : list bytes) usage :
  Forall (λ c, valid_utf8 c = true) cs →
  read_body sconf job attempt_id (Ok <$> cs) "" usage
  ≡ handle_lines sconf job attempt_id (text_lines (String.concat "" cs)) usage.
Proof. apply read_body_lines. Qed.

(** A line of a model server's answer, with one piece of text. *)
Definition quote : ascii := "034".
Definition quoted (s : string) : string := String quote (s +:+ String quote "").
Definition delta_json (s : string) : string :=
  "{" +:+ quoted "choices" +:+ ":[{" +:+ quoted "text" +:+ ":" +:+ quoted s +:+ "}]}".
Definition delta_line (s : string) : string :=
  "data: " +:+ delta_json s +:+ String newline "".
Definition delta_value (s : string) : json :=
  JObject [("choices", JArray [JObject [("text", JString s)]])].

(** Text that a JSON string holds without escapes. *)
Fixpoint plain (s : string) : bool :=
  match s with
  | EmptyString => true
  | String c s => (31 <? byte_of c)%N && negb (bool_decide (c = quote))
                  && negb (bool_decide (c = "\"%char)) && plain s
  end.

Definition one_token (sconf : StreamsConfig) `{Codec} (job : GenerationJob)
    (attempt_id s : string) : prog (result error GenerationUsage) :=
  publish_token sconf job attempt_id s 1 ?;
  mret (Ok {| usage_prompt_tokens := 0; usage_generated_tokens := 1; usage_finish_reason := "" |}).

Lemma handle_delta_line `{Codec, SerdeJson} sconf job attempt_id line s :
  trim <$> strip_prefix "data:" (trim_end_char carriage_return line) = Some (delta_json s) →
  json_from_str (delta_json s) = Ok (delta_value s) →
  non_empty s = true → N.max (estimate_tokens s) 1 = 1%N →
  handle_line sconf job attempt_id line default_usage ≡ one_token sconf job attempt_id s.
Proof.
  intros Hd Hj Hs Hn. unfold handle_line. rewrite Hd.
  rewrite decide_False by done. rewrite decide_False by done. rewrite Hj.
  change (handle_value sconf job attempt_id (delta_value s) default_usage
    ≡ one_token sconf job attempt_id s).
  unfold handle_value. change (choice_text (delta_value s)) with s. rewrite Hs.
  unfold count_text. rewrite Hn. done.
Qed.

(** A line with one token publishes it. *)
Lemma delta_line_token `{Codec, SerdeJson} sconf job attempt_id s :
  json_from_str (delta_json s) = Ok (delta_value s) →
  text_lines (delta_line s) = ["data: " +:+ delta_json s] →
  trim <$> strip_prefix "data:" (trim_end_char carriage_return ("data: " +:+ delta_json s))
    = Some (delta_json s) →
  non_empty s = true → N.max (estimate_tokens s) 1 = 1%N →
  handle_lines sconf job attempt_id (text_lines (delta_line s)) default_usage
  ≡ one_token sconf job attempt_id s.
Proof.
  intros Hj -> Hd Hs Hn. cbn [handle_lines].
  etrans; [|eapply (handle_delta_line sconf job attempt_id ("data: " +:+ delta_json s)); auto].
  etrans; [|apply prog_bind_ret]. apply prog_bind_proper; [done|]. by intros [?|?].
Qed.

(** What becomes of a character of which [t] arrives in the next chunk. *)
Definition damaged (t : string) : string := replacement +:+ replaced t.

Lemma replaced_valid s b : valid_utf8 (replaced s +:+ b) = valid_utf8 b.
Proof.
  induction s as [|c s IH]; [done|]. cbn [replaced].
  rewrite append_assoc, valid_utf8_app by done. exact IH.
Qed.

Lemma replaced_length s : String.length (replaced s) = 3 * String.length s.
Proof.
  induction s as [|c s IH]; [done|]. cbn [replaced]. rewrite length_append, IH. simpl. lia.
Qed.

Lemma malformed_lossy pre h :
  valid_utf8 pre = true → scan h = [Malformed] → from_utf8_lossy (pre +:+ h) = pre +:+ replacement.
Proof.
  intros Hpre Hh. rewrite from_utf8_lossy_app, from_utf8_lossy_valid by done.
  unfold from_utf8_lossy. by rewrite Hh.
Qed.

Lemma character_valid e : character e → valid_utf8 e = true.
Proof. intros [cp Hs]. unfold valid_utf8. by rewrite Hs. Qed.

Lemma character_length e : character e → String.length e ≤ 4.
Proof.
  intros [cp Hs]. destruct e as [|c s]; [simpl; lia|].
  destruct (scan_step c s) as [(e & cp' & rest & Hcs & _ & Hscan)|(rest & Hm & _)];
    [|by rewrite Hm in Hs].
  clear Hscan Hcs. cbn [scan] in Hs.
  repeat (case_match; try done); simplify_eq; simpl; lia.
Qed.

(** C38.  A chunk boundary inside a character damages the text, because every
    chunk is decoded on its own.  Let an answer arrive in two ways that
    differ in one place: a character [h ++ t], between the texts [pre] and
    [post], is whole, or a boundary lies between [h] and [t]; the other
    chunks, before and after, are the same and cut no character.  The first
    has the effects of the lines of the answer's text; the second those of
    the lines of a text in which the character is replaced, by one
    replacement character for [h] and one for each byte of [t]. *)
Theorem split_character_is_damaged `{Codec, SerdeJson} sconf job attempt_id
    (before after : list bytes) (pre h t post : string) usage :
  Forall (λ c, valid_utf8 c = true) before → Forall (λ c, valid_utf8 c = true) after →
  valid_utf8 pre = true → valid_utf8 post = true →
  character (h +:+ t) → h ≠ "" → t ≠ "" →
  let answer s := String.concat "" before +:+ pre +:+ s +:+ post +:+ String.concat "" after in
  read_body sconf job attempt_id (Ok <$> before ++ (pre +:+ h +:+ t +:+ post) :: after) "" usage
    ≡ handle_lines sconf job attempt_id (text_lines (answer (h +:+ t))) usage
  ∧ read_body sconf job attempt_id
      (Ok <$> before ++ (pre +:+ h) :: (t +:+ post) :: after) "" usage
    ≡ handle_lines sconf job attempt_id (text_lines (answer (damaged t))) usage
  ∧ damaged t ≠ h +:+ t.
Proof.
  intros Hbefore Hafter Hpre Hpost He Hh Ht answer.
  destruct (cut_character h t He Hh Ht) as [Hsh Hct]. split; [|split].
  - rewrite (read_body_lines sconf job attempt_id).
    + unfold answer. rewrite concat_nil_app, concat_nil_cons. by rewrite !append_assoc.
    + apply Forall_app. split; [done|]. constructor; [|done].
      rewrite valid_utf8_app, <-(append_assoc h t post) by done.
      rewrite valid_utf8_app by by apply character_valid. done.
  - rewrite (read_decoded sconf job attempt_id _
      (before ++ (pre +:+ replacement) :: (replaced t +:+ post) :: after)).
    + rewrite (read_body_lines sconf job attempt_id).
      * unfold answer, damaged. rewrite concat_nil_app, !concat_nil_cons. by rewrite !append_assoc.
      * apply Forall_app. split; [done|]. repeat (constructor; [|try done]).
        -- by rewrite valid_utf8_app.
        -- by rewrite replaced_valid.
    + apply Forall2_app; [by apply Forall_Forall2_diag, Forall_true|].
      repeat (constructor; [|try by apply Forall_Forall2_diag, Forall_true]).
      * rewrite (malformed_lossy pre h) by done. symmetry. apply from_utf8_lossy_valid.
        by rewrite valid_utf8_app.
      * rewrite lossy_continuation, (from_utf8_lossy_valid post) by done. symmetry.
        apply from_utf8_lossy_valid. by rewrite replaced_valid.
  - intros E. apply (f_equal String.length) in E. apply character_length in He.
    unfold damaged in E. rewrite !length_append, replaced_length in *.
    destruct t; [done|]. simpl in *. lia.
Qed.

(** A parser for that one shape of line. *)
Definition toy_json (s : string) : result string json :=
  match strip_prefix ("{" +:+ quoted "choices" +:+ ":[{" +:+ quoted "text" +:+ ":" +:+
                      String quote "") s with
  | Some rest => match split_once quote rest with
                 | Some (t, _) => Ok (delta_value t) | None => Err "EOF while parsing" end
  | None => Err "expected value"
  end.
(** A serde_json that knows one document. *)
Definition canned (text : bytes) (tree : json) : SerdeJson := {|
  json_from_str := toy_json; json_to_string _ := text; json_of_f32 _ := JNull; value_of_f32 _ := JNull;
  json_from_slice b := if decide (b = text) then Ok tree else Err "expected value";
  f32_of_number _ := 0%N; json_error _ _ := "invalid type" |}.
Definition toy_serde : SerdeJson := canned "" JNull.

Definition job_1 : GenerationJob :=
  {| job_schema_version := 1; job_request_id := "r1"; job_model_id := "m";
     job_model_revision := "main"; job_model_endpoint := ""; job_request_json := "";
     job_deadline_unix_ms := 0; job_reservation_id := "q1"; job_cache := None |}.

Lemma toy_json_plain s : plain s = true → toy_json (delta_json s) = Ok (delta_value s).
Proof.
  intros Hs. unfold toy_json, delta_json, quoted.
  assert (split_once quote (s +:+ String quote "}]}") = Some (s, "}]}")) as Hq.
  { apply split_once_app. clear -Hs. induction s as [|c s IH]; [done|]. simpl in *.
    bool_to_prop. apply orb_false_iff. split; [done|auto]. }
  rewrite !append_cons, !append_assoc, !append_cons, !append_nil_l in *. simpl.
  repeat rewrite ?append_cons, ?append_assoc, ?append_nil_l. simpl.
  by rewrite Hq.
Qed.

(** "é" is two bytes; the line of its token is cut between them. *)
Definition before_e : string :=
  "data: {" +:+ quoted "choices" +:+ ":[{" +:+ quoted "text" +:+ ":" +:+ String quote "".
Definition after_e : string := String quote ("}]}" +:+ String newline "").
Definition e_1 : string := String "195" "".
Definition e_2 : string := String "169" "".

Lemma split_character_is_damaged_witness :
  read_body (H0 := toy_serde) default_streams_config job_1 "a"
      [Ok (before_e +:+ e_1 +:+ e_2 +:+ after_e)] "" default_usage
    ≡ one_token default_streams_config job_1 "a" (e_1 +:+ e_2)
  ∧ read_body (H0 := toy_serde) default_streams_config job_1 "a"
      [Ok (before_e +:+ e_1); Ok (e_2 +:+ after_e)] "" default_usage
    ≡ one_token default_streams_config job_1 "a" (replacement +:+ replacement).
Proof.
  destruct (@split_character_is_damaged ref_codec toy_serde default_streams_config job_1 "a"
    [] [] before_e e_1 e_2 after_e default_usage (Forall_nil_2 _) (Forall_nil_2 _)
    eq_refl eq_refl (ex_intro _ 233%N eq_refl) ltac:(done) ltac:(done)) as (Hwhole & Hcut & _).
  split.
  - etrans; [exact Hwhole|].
    by apply (@delta_line_token ref_codec toy_serde default_streams_config job_1 "a"
      (e_1 +:+ e_2)); try by vm_compute.
  - etrans; [exact Hcut|].
    by apply (@delta_line_token ref_codec toy_serde default_streams_config job_1 "a"
      (replacement +:+ replacement)); try by vm_compute.
Defined.

Lemma body_is_its_lines_witness :
  read_body (H0 := toy_serde) default_streams_config job_1 "a"
    (Ok <$> ["data: [DO"; "NE]"; String newline "tail"]) "" default_usage
  ≡ handle_lines (H0 := toy_serde) default_streams_config job_1 "a" ["data: [DONE]"] default_usage.
Proof.
  apply (@body_is_its_lines ref_codec toy_serde default_streams_config job_1 "a"
    ["data: [DO"; "NE]"; String newline "tail"]).
  by repeat constructor.
Defined.
