(* ===== verification/EngineProps.v ===== *)
(** * What the engine does with a job

    The traces of [run_job] and of a round of the main loop: an attempt only
    publishes non-terminal events under its lease, the lease is released on
    every path, and a job is acknowledged only after its quota was settled
    and its terminal event was published. *)
From stdpp Require Import options.
From S2P Require Import Prelude Text Valkey Lua RefServer Program Effects Wire Json Replies.
From S2P Require Import Streams Engine RefCodec EngineStream.

#[local] Set Default Proof Using "Type*".

Section props.
Context `{Codec, SerdeJson} (sconf : StreamsConfig) (config : EngineConfig).

(** ** The effects of a publication *)
Definition xadd_event (job : GenerationJob) (attempt_id : string) (e : Event) : effect :=
  Call (XADD (result_stream (job_request_id job))
             [("payload", encode (result_for job attempt_id e))]).
Definition status_update (job : GenerationJob) (attempt_id : string) (e : Event)
    (id : string) : effect :=
  Multi (result_commands sconf (result_for job attempt_id e) id).

(** A successful publication: the entry, then the status and the expiries. *)
Definition publication (job : GenerationJob) (attempt_id : string) (e : Event) (id : string)
    : list event :=
  [Ev (xadd_event job attempt_id e) (Ok id); Ev (status_update job attempt_id e id) (Ok tt)].

(** What an attempt may do: wait, ask the model server, publish events that
    are not terminal. *)
Inductive attempt_effect (job : GenerationJob) (attempt_id : string) : effect → Prop :=
| attempt_sleep ms : attempt_effect job attempt_id (Sleep ms)
| attempt_http url body : attempt_effect job attempt_id (HttpPost url body)
| attempt_event e : terminal_event (Some e) = false →
    attempt_effect job attempt_id (xadd_event job attempt_id e)
| attempt_status e id : terminal_event (Some e) = false →
    attempt_effect job attempt_id (status_update job attempt_id e id).

Lemma publish_event_effects job attempt_id e :
  terminal_event (Some e) = false →
  effects_in (attempt_effect job attempt_id) (publish_event sconf job attempt_id e).
Proof.
  intros He. apply effects_in_try; [|done]. unfold publish_result.
  apply effects_in_try; [done|]. intros _.
  apply effects_in_try.
  { apply effects_in_perform. by apply (attempt_event job attempt_id e). }
  intros id. apply effects_in_try; [|done]. apply effects_in_perform.
  by apply (attempt_status job attempt_id e id).
Qed.
#[local] Hint Resolve publish_event_effects : effects.
#[local] Hint Constructors attempt_effect : effects.

Lemma publish_words_effects job attempt_id i words :
  effects_in (attempt_effect job attempt_id) (publish_words sconf config job attempt_id i words).
Proof.
  revert i. induction words as [|w words IH]; intros i; cbn [publish_words]; [done|].
  apply effects_in_try; [by apply publish_event_effects|]. intros _.
  apply effects_in_bind; [|auto]. case_match; [done|]. apply effects_in_perform. constructor.
Qed.

Lemma handle_line_effects job attempt_id line u :
  effects_in (attempt_effect job attempt_id) (handle_line sconf job attempt_id line u).
Proof.
  unfold handle_line. case_match; [|done]. repeat (case_decide; [done|]).
  apply effects_in_try; [done|]. intros v. unfold handle_value. case_match; [|done].
  apply effects_in_try; [|done]. by apply publish_event_effects.
Qed.

Lemma drain_lines_effects job attempt_id f b u :
  effects_in (attempt_effect job attempt_id) (drain_lines sconf f job attempt_id b u).
Proof.
  revert b u. induction f as [|f IH]; intros b u; cbn [drain_lines]; [done|].
  case_match; [|done]. case_match. apply effects_in_try; [apply handle_line_effects|auto].
Qed.

Lemma read_body_effects job attempt_id bs b u :
  effects_in (attempt_effect job attempt_id) (read_body sconf job attempt_id bs b u).
Proof.
  revert b u. induction bs as [|c bs IH]; intros b u; [done|]. cbn [read_body].
  apply effects_in_try; [done|]. intros chunk.
  apply effects_in_try; [apply drain_lines_effects|]. intros []. auto.
Qed.

(** Whatever its outcome, an attempt stays within [attempt_effect]. *)
Lemma execute_attempt_effects job attempt_id :
  effects_in (attempt_effect job attempt_id) (execute_attempt sconf config job attempt_id).
Proof.
  unfold execute_attempt. case_decide; [done|].
  apply effects_in_try; [done|]. intros request.
  apply effects_in_try; [by apply publish_event_effects|]. intros _.
  apply effects_in_try; [|done]. destruct (backend config).
  - unfold stream_synthetic. apply effects_in_try; [apply publish_words_effects|done].
  - unfold stream_openai_compatible. apply effects_in_try.
    { apply effects_in_perform. constructor. }
    intros bs. apply effects_in_try; [apply read_body_effects|done].
Qed.

(** ** Traces of the operations that succeed *)
Lemma publish_event_ok job attempt_id e t x :
  traces (publish_event sconf job attempt_id e) t (Ok x) →
  ∃ id, t = publication job attempt_id e id.
Proof.
  unfold publish_event, publish_result. intros Ht. trace_inv. by eexists.
Qed.

Lemma status_ok id t r :
  traces (status id) t (Ok r) →
  ∃ values, r = parse_status values ∧
    t = [Ev (Call (HMGET (status_key id)
          ["state"; "model_id"; "active_attempt_id"; "terminal_event_id"])) (Ok values)].
Proof. unfold status. intros Ht. trace_inv. eauto. Qed.

Lemma acquire_lease_ok id owner t b :
  traces (acquire_lease sconf id owner) t (Ok b) →
  ∃ v, b = bool_decide (is_Some v) ∧
    t = [Ev (Call (SET_NX_PX (lease_key id) owner (as_millis_u64 (lease_duration sconf)))) (Ok v)].
Proof. unfold acquire_lease. intros Ht. trace_inv. eauto. Qed.

Lemma release_lease_ok id owner t x :
  traces (release_lease id owner) t (Ok x) →
  ∃ r, t = [Ev (Eval (ReleaseLease (lease_key id) owner)) (Ok r)].
Proof. unfold release_lease. intros Ht. trace_inv. eauto. Qed.

Lemma reconcile_quota_ok id actual t x :
  traces (reconcile_quota id actual) t (Ok x) →
  ∃ z, x = clamp z ∧
    t = [Ev (Eval (ReconcileQuota (reservation_key id) (pretty actual))) (Ok (RInt z))].
Proof.
  unfold reconcile_quota. intros Ht. trace_inv.
  match goal with r : lua_reply |- _ => destruct r end; simplify_eq/=. eauto.
Qed.

Lemma cancel_quota_ok id t x :
  traces (cancel_quota id) t (Ok x) →
  ∃ r, t = [Ev (Eval (CancelQuota (reservation_key id))) (Ok r)].
Proof. unfold cancel_quota. intros Ht. trace_inv. eauto. Qed.

(** Replace the trace of every operation that succeeded by its events. *)
Ltac op_inv := trace_inv;
  repeat match goal with
  | H : traces (reconcile_quota _ _) _ (Ok _) |- _ =>
      apply reconcile_quota_ok in H as (? & -> & ->)
  | H : traces (cancel_quota _) _ (Ok _) |- _ => apply cancel_quota_ok in H as [? ->]
  | H : traces (status _) _ (Ok _) |- _ => apply status_ok in H as (? & -> & ->)
  | H : traces (acquire_lease _ _ _) _ (Ok _) |- _ => apply acquire_lease_ok in H as (? & -> & ->)
  | H : traces (release_lease _ _) _ (Ok _) |- _ => apply release_lease_ok in H as [? ->]
  | H : traces (publish_event _ _ _ _) _ (Ok _) |- _ => apply publish_event_ok in H as [? ->]
  | H : traces (publish_completion _ _ _ _) _ (Ok _) |- _ => apply publish_event_ok in H as [? ->]
  | H : traces (publish_failure _ _ _ _ _ _) _ (Ok _) |- _ =>
      apply publish_event_ok in H as [? ->]
  end.

Lemma past_deadline_trace job t b :
  traces (past_deadline job) t b → t = [] ∨ ∃ now, t = [Ev NowMs now].
Proof.
  unfold past_deadline. case_match; intros Ht; trace_inv; [|by left].
  right. by eexists.
Qed.

(** ** The settlement and the outcome *)

(** What a job may do before its quota is settled. *)
Inductive before_settlement (job : GenerationJob) : effect → Prop :=
| bs_now : before_settlement job NowMs
| bs_status : before_settlement job (Call (HMGET (status_key (job_request_id job))
    ["state"; "model_id"; "active_attempt_id"; "terminal_event_id"]))
| bs_uuid : before_settlement job NewUuid
| bs_acquire owner : before_settlement job
    (Call (SET_NX_PX (lease_key (job_request_id job)) owner (as_millis_u64 (lease_duration sconf))))
| bs_spawn owner : before_settlement job (SpawnHeartbeat (job_request_id job) owner)
| bs_attempt attempt_id e : attempt_effect job attempt_id e → before_settlement job e
| bs_stop owner : before_settlement job (StopHeartbeat (job_request_id job) owner)
| bs_release owner : before_settlement job
    (Eval (ReleaseLease (lease_key (job_request_id job)) owner)).

(** The settlement that goes with a terminal event: a completion charges the
    tokens it reports, a failure charges none. *)
Definition settlement_for (job : GenerationJob) (e : Event) (s : script) : Prop :=
  let key := reservation_key (job_reservation_id job) in
  match e with
  | Completed d => s = ReconcileQuota key (pretty (done_generated_tokens d))
  | Failed _ => s = ReconcileQuota key "0" ∨ s = CancelQuota key
  | _ => False
  end.

(** The last three events of an acknowledged job: settlement, terminal entry,
    status. *)
Definition concluded (job : GenerationJob) (t : list event) : Prop :=
  ∃ s r attempt_id e id,
    t = Ev (Eval s) (Ok r) :: publication job attempt_id e id ∧ settlement_for job e s.

Lemma finish_job_ok job attempt_id outcome t d :
  traces (finish_job sconf job attempt_id outcome) t (Ok d) →
  d = Acknowledge ∧ concluded job t.
Proof.
  unfold finish_job. destruct outcome as [usage|err]; intros Ht; op_inv;
    (split; [done|]); do 5 eexists; (split; [reflexivity|]); simpl; auto.
Qed.

(** An attempt under its lease: from the acquisition to the release. *)
Lemma attempt_trace job attempt_id t r :
  traces (execute_attempt sconf config job attempt_id) t r →
  Forall (λ ev, before_settlement job (ev_effect ev)) t.
Proof.
  intros Ht. eapply Forall_impl.
  - by eapply effects_in_traces; [apply execute_attempt_effects|].
  - intros ev. apply bs_attempt.
Qed.

(** A trace that ends with the conclusion of the job. *)
Definition ends_concluded (job : GenerationJob) (t : list event) : Prop :=
  ∃ pre last, t = pre ++ last ∧ concluded job last
    ∧ Forall (λ ev, before_settlement job (ev_effect ev)) pre.

Lemma ends_app job t1 t2 :
  Forall (λ ev, before_settlement job (ev_effect ev)) t1 →
  ends_concluded job t2 → ends_concluded job (t1 ++ t2).
Proof.
  intros H1 (pre & last & -> & Hc & Hpre). exists (t1 ++ pre), last.
  rewrite app_assoc. split; [done|]. split; [done|]. by apply Forall_app.
Qed.
Lemma ends_cons job ev t :
  before_settlement job (ev_effect ev) → ends_concluded job t → ends_concluded job (ev :: t).
Proof. intros Hev. apply (ends_app job [ev]). by constructor. Qed.
Lemma ends_last job t : concluded job t → ends_concluded job t.
Proof. intros Hc. by exists [], t. Qed.
#[local] Hint Resolve ends_app ends_cons ends_last attempt_trace : effects.
#[local] Hint Constructors before_settlement : effects.

(** ** What was published *)

(** The stream entries a trace adds, in order. *)
Definition xadded (ev : event) : option (string * list field) :=
  match ev_effect ev with Call (XADD k fs) => Some (k, fs) | _ => None end.

Definition entry_of (job : GenerationJob) (attempt_id : string) (e : Event)
    : string * list field :=
  (result_stream (job_request_id job), [("payload", encode (result_for job attempt_id e))]).

(** The tokens of the synthetic backend, from position [i]. *)
Definition word_tokens (i : N) (words : list string) : list Event :=
  imap (λ n w, Token {| text := w +:+ " ";
                        cumulative_generated_tokens := wadd (i + N.of_nat n) 1 |}) words.

Lemma word_tokens_cons i w words :
  word_tokens i (w :: words) =
  Token {| text := w +:+ " "; cumulative_generated_tokens := wadd i 1 |}
  :: word_tokens (i + 1) words.
Proof.
  unfold word_tokens. rewrite imap_cons. f_equal; [by rewrite N.add_0_r|].
  apply imap_ext. intros n x _. simpl. do 3 f_equal. lia.
Qed.

Lemma xadded_publication job attempt_id e id :
  omap xadded (publication job attempt_id e id) = [entry_of job attempt_id e].
Proof. done. Qed.

Lemma publish_words_ok job attempt_id i words t x :
  traces (publish_words sconf config job attempt_id i words) t (Ok x) →
  omap xadded t = entry_of job attempt_id <$> word_tokens i words.
Proof.
  revert i t. induction words as [|w words IH]; intros i t Ht; cbn [publish_words] in Ht.
  { by trace_inv. }
  apply traces_try_ok in Ht as (t1 & t2 & [] & -> & H1 & Ht).
  apply publish_event_ok in H1 as [id ->].
  apply traces_bind in Ht as (t3 & t4 & [] & -> & H3 & Ht).
  rewrite word_tokens_cons, !omap_app, xadded_publication, (IH _ _ Ht), fmap_cons.
  assert (omap xadded t3 = []) as ->; [|done].
  by case_match; trace_inv.
Qed.

(** ** The lease *)

(** What a job may do without holding the lease: look, settle the quota,
    publish a terminal event. *)
Inductive outside_lease (job : GenerationJob) : effect → Prop :=
| ol_now : outside_lease job NowMs
| ol_status fs : outside_lease job (Call (HMGET (status_key (job_request_id job)) fs))
| ol_uuid : outside_lease job NewUuid
| ol_reconcile n : outside_lease job
    (Eval (ReconcileQuota (reservation_key (job_reservation_id job)) n))
| ol_cancel : outside_lease job (Eval (CancelQuota (reservation_key (job_reservation_id job))))
| ol_event attempt_id e : terminal_event (Some e) = true →
    outside_lease job (xadd_event job attempt_id e)
| ol_update attempt_id e id : terminal_event (Some e) = true →
    outside_lease job (status_update job attempt_id e id).
#[local] Hint Constructors outside_lease : effects.

Definition lease_taken (job : GenerationJob) (owner : string) (x : result error (option string))
    : event :=
  Ev (Call (SET_NX_PX (lease_key (job_request_id job)) owner (as_millis_u64 (lease_duration sconf)))) x.

Lemma publish_terminal_effects job attempt_id e :
  terminal_event (Some e) = true →
  effects_in (outside_lease job) (publish_event sconf job attempt_id e).
Proof.
  intros He. apply effects_in_try; [|done]. apply effects_in_try; [done|]. intros _.
  apply effects_in_try; [apply effects_in_perform; by apply (ol_event job attempt_id e)|].
  intros id. apply effects_in_try; [|done]. apply effects_in_perform.
  by apply (ol_update job attempt_id e id).
Qed.

Lemma reconcile_effects job n :
  effects_in (outside_lease job) (reconcile_quota (job_reservation_id job) n).
Proof.
  apply effects_in_try; [apply effects_in_perform; constructor|]. intros r.
  by apply effects_in_try.
Qed.

Lemma finish_job_effects job attempt_id outcome :
  effects_in (outside_lease job) (finish_job sconf job attempt_id outcome).
Proof.
  destruct outcome; (apply effects_in_try; [apply reconcile_effects|]); intros _;
    (apply effects_in_try; [by apply publish_terminal_effects|done]).
Qed.

Lemma late_effects job engine_id (d : JobDisposition) :
  effects_in (outside_lease job)
    (cancel_quota (job_reservation_id job) ?;
     publish_failure sconf job engine_id "deadline_exceeded" "generation deadline exceeded" false ?;
     mret (Ok d)).
Proof.
  apply effects_in_try; [|intros _; apply effects_in_try; [by apply publish_terminal_effects|done]].
  apply effects_in_try; [apply effects_in_perform; constructor|]. intros r.
  by apply effects_in_try.
Qed.

Lemma past_deadline_effects job : effects_in (outside_lease job) (past_deadline job).
Proof. unfold past_deadline. case_match; [|done]. split; [constructor|done]. Qed.

Lemma status_effects job : effects_in (outside_lease job) (status (job_request_id job)).
Proof. apply effects_in_try; [apply effects_in_perform; constructor|done]. Qed.

Lemma acquire_lease_trace id owner t r :
  traces (acquire_lease sconf id owner) t r →
  ∃ x, t = [Ev (Call (SET_NX_PX (lease_key id) owner (as_millis_u64 (lease_duration sconf)))) x]
    ∧ r = match x with Ok v => Ok (bool_decide (is_Some v)) | Err e => Err e end.
Proof.
  unfold acquire_lease. intros [(t1&t2&a&->&H1&H2)|(e&H1&->)]%traces_try_bind; trace_inv.
  - by exists (Ok a).
  - by exists (Err e).
Qed.

Lemma release_lease_trace id owner t r :
  traces (release_lease id owner) t r →
  ∃ x, t = [Ev (Eval (ReleaseLease (lease_key id) owner)) x].
Proof.
  unfold release_lease. intros [(t1&t2&a&->&H1&H2)|(e&H1&->)]%traces_try_bind; trace_inv.
  - exists (Ok a). apply traces_try_bind in H2 as [(t3&t4&b&->&H2&H3)|(e&H2&->)]; by trace_inv.
  - by exists (Err e).
Qed.

(** The shape of every trace of a job. *)
Definition bracketed (job : GenerationJob) (engine_id : string) (t : list event) : Prop :=
  ∃ pre attempt_id v ta rel post,
    let owner := engine_id +:+ ":" +:+ attempt_id in
    t = pre ++ lease_taken job owner (Ok (Some v))
         :: Ev (SpawnHeartbeat (job_request_id job) owner) tt :: ta
         ++ Ev (StopHeartbeat (job_request_id job) owner) tt
         :: Ev (Eval (ReleaseLease (lease_key (job_request_id job)) owner)) rel :: post
    ∧ Forall (λ ev, attempt_effect job attempt_id (ev_effect ev)) ta
    ∧ Forall (λ ev, outside_lease job (ev_effect ev)) (pre ++ post).

Definition unleased (job : GenerationJob) (t : list event) : Prop :=
  ∃ pre post, t = pre ++ post ∧ Forall (λ ev, outside_lease job (ev_effect ev)) pre
    ∧ (post = [] ∨ ∃ owner x, post = [lease_taken job owner x] ∧ ∀ v, x ≠ Ok (Some v)).

(** The job is over: either its status already said [completed], and nothing
    was done; or it ends with its conclusion. *)
Definition job_over (job : GenerationJob) (t : list event) : Prop :=
  (∃ pre values, t = pre ++ [Ev (Call (HMGET (status_key (job_request_id job))
        ["state"; "model_id"; "active_attempt_id"; "terminal_event_id"])) (Ok values)]
     ∧ st_state <$> parse_status values = Some "completed"
     ∧ Forall (λ ev, ev_effect ev = NowMs) pre)
  ∨ ends_concluded job t.

Lemma run_job_over engine_id job t :
  traces (run_job sconf config engine_id job) t (Ok Acknowledge) → job_over job t.
Proof.
  unfold run_job. intros Ht. apply traces_bind in Ht as (t0 & t1 & late & -> & H1 & Ht).
  assert (Forall (λ ev, ev_effect ev = NowMs) t0) as Hnow.
  { apply past_deadline_trace in H1 as [->|[now ->]]; by repeat constructor. }
  assert (Forall (λ ev, before_settlement job (ev_effect ev)) t0) as Hbs.
  { eapply Forall_impl; [done|]. intros ev ->. constructor. }
  destruct late; op_inv.
  { right. apply ends_app; [done|]. apply ends_last.
    do 5 eexists. split; [reflexivity|]. by right. }
  case_bool_decide as Hdone; op_inv; [left; by exists t0; eexists|].
  case_bool_decide; simpl in *; op_inv. right.
  match goal with
  | H : traces (finish_job _ _ _ _) _ _ |- _ => apply finish_job_ok in H as [_ Hlast]
  end.
  apply ends_app; [done|]. eauto 12 with effects.
Qed.

(** ** The main loop *)
Definition xack (id : string) : effect := Call (XACK REQUEST_STREAM REQUEST_GROUP id).
Definition not_xack (e : effect) : Prop := ∀ id, e ≠ xack id.

Lemma attempt_not_xack job attempt_id e : attempt_effect job attempt_id e → not_xack e.
Proof. by intros [] ?. Qed.
Lemma outside_not_xack job e : outside_lease job e → not_xack e.
Proof. by intros [] ?. Qed.

Lemma run_job_not_xack engine_id job :
  effects_in not_xack (run_job sconf config engine_id job).
Proof.
  assert (∀ A (p : prog A), effects_in (outside_lease job) p → effects_in not_xack p) as Hout.
  { intros A p. apply effects_in_mono, outside_not_xack. }
  unfold run_job. apply effects_in_bind; [apply Hout, past_deadline_effects|]. intros late.
  destruct late; [apply Hout, late_effects|].
  apply effects_in_try; [apply Hout, status_effects|]. intros cur. case_bool_decide; [done|].
  apply effects_in_bind; [by apply effects_in_perform|]. intros attempt_id.
  apply effects_in_try.
  { apply effects_in_try; [by apply effects_in_perform|done]. }
  intros acquired. destruct acquired; simpl negb; cbv iota; [|done].
  apply effects_in_bind; [by apply effects_in_perform|]. intros _.
  apply effects_in_bind.
  { eapply effects_in_mono; [apply attempt_not_xack|apply execute_attempt_effects]. }
  intros outcome. apply effects_in_bind; [by apply effects_in_perform|]. intros _.
  apply effects_in_try; [|intros _; apply Hout, finish_job_effects].
  apply effects_in_try; [by apply effects_in_perform|]. intros r. by apply effects_in_try.
Qed.

Lemma next_consumed_not_xack idle worker_id c :
  effects_in not_xack (next_consumed sconf idle worker_id c).
Proof.
  apply effects_in_bind.
  { apply effects_in_try; [by apply effects_in_perform|done]. }
  intros [[job|]|e]; [done| |].
  - apply effects_in_try; [|done].
    apply effects_in_try; [by apply effects_in_perform|done].
  - apply effects_in_bind; [by apply effects_in_perform|]. intros _.
    apply effects_in_try; [|done].
    apply effects_in_bind; [by apply effects_in_perform|]. intros r.
    destruct r as [v|e']; [|case_match; [|done]];
      (apply effects_in_try; [by apply effects_in_perform|done]).
Qed.

Lemma no_xack_in t ev id :
  Forall (λ ev, not_xack (ev_effect ev)) t → ev ∈ t → ev_effect ev ≠ xack id.
Proof. rewrite Forall_forall. intros Hall Hin. by apply (Hall ev Hin). Qed.

(** ** Properties *)

(** C5.  An entry is acknowledged only when its job is over.  If a round of
    the main loop sends [XACK] for an entry, then it consumed that entry and
    ran its job, and the trace of that run is one of these: the status of the
    generation already said [completed], and nothing was done; or the last
    things that happened are, in this order and all successful, the
    settlement of the job's quota reservation, the publication of a terminal
    event and the update of the status.  A completion is charged the tokens
    it reports, a failure nothing; and before the settlement only the lease,
    the clock and the non-terminal events of the attempt were touched, so
    there is exactly one of each. *)
Theorem acknowledged_entry_is_over idle worker_id c t r ev id :
  traces (engine_round sconf config idle worker_id c) t r →
  ev ∈ t → ev_effect ev = xack id →
  ∃ t1 t2 x consumed,
    t = t1 ++ t2 ++ [Ev (xack id) x] ∧ entry_id consumed = id
    ∧ traces (run_job sconf config worker_id (job consumed)) t2 (Ok Acknowledge)
    ∧ job_over (job consumed) t2.
Proof.
  unfold engine_round. intros Ht Hin Hev.
  apply traces_try_bind in Ht as [(t1 & t2 & [c' consumed] & -> & H1 & Ht)|(e & H1 & ->)];
    pose proof (effects_in_traces _ _ _ _ (next_consumed_not_xack idle worker_id c) H1) as Hn1;
    [|by destruct (no_xack_in _ _ id Hn1 Hin)].
  apply elem_of_app in Hin as [Hin|Hin]; [by destruct (no_xack_in _ _ id Hn1 Hin)|].
  destruct consumed as [consumed|]; [|apply traces_ret in Ht as [-> _]; set_solver].
  apply traces_bind in Ht as (t3 & t4 & d & -> & H3 & Ht).
  pose proof (effects_in_traces _ _ _ _ (run_job_not_xack worker_id (job consumed)) H3) as Hn3.
  apply elem_of_app in Hin as [Hin|Hin]; [by destruct (no_xack_in _ _ id Hn3 Hin)|].
  destruct d as [[]|e]; [|apply traces_ret in Ht as [-> _]; set_solver..].
  assert (∃ x, t4 = [Ev (xack (entry_id consumed)) x]) as [x ->].
  { apply traces_try_bind in Ht as [(t5 & t6 & b & -> & Ha & Ht)|(e & Ha & ->)].
    - apply traces_ret in Ht as [-> _]. unfold acknowledge in Ha. trace_inv. by eexists.
    - unfold acknowledge in Ha.
      apply traces_try_bind in Ha as [(?&?&?&->&Hb&Hc)|(?&Hb&_)]; trace_inv; by eexists. }
  apply list_elem_of_singleton in Hin as ->.
  assert (entry_id consumed = id) as <- by (unfold xack in Hev; simpl in Hev; congruence).
  exists t1, t3, x, consumed. split; [done|]. split; [done|]. split; [done|].
  by eapply run_job_over.
Qed.

(** C14.  Generation happens under the lease.  In every trace of [run_job],
    whatever it returns and wherever the broker fails: either the lease was
    not obtained, and then nothing of the attempt took place; or it was, and
    then the model server is asked and tokens are published only between the
    acquisition and the release, the heartbeat runs exactly in between, the
    owner is the same throughout, and the release is always attempted. *)
Theorem attempt_is_under_lease engine_id job t r :
  traces (run_job sconf config engine_id job) t r →
  unleased job t ∨ bracketed job engine_id t.
Proof.
  unfold run_job. intros Ht. apply traces_bind in Ht as (t0 & t1 & late & -> & H1 & Ht).
  pose proof (effects_in_traces _ _ _ _ (past_deadline_effects job) H1) as Hpre.
  destruct late.
  { left. exists (t0 ++ t1), []. rewrite app_nil_r. split; [done|]. split; [|by left].
    apply Forall_app. split; [done|]. eapply effects_in_traces; [apply late_effects|done]. }
  apply traces_try_bind in Ht as [(t2 & t3 & cur & -> & H2 & Ht)|(e & H2 & ->)];
    pose proof (effects_in_traces _ _ _ _ (status_effects job) H2) as Hst.
  2:{ left. exists (t0 ++ t1), []. rewrite app_nil_r. split; [done|]. split; [|by left].
      by apply Forall_app. }
  assert (Forall (λ ev, outside_lease job (ev_effect ev)) (t0 ++ t2)) as Hp
    by by apply Forall_app.
  rewrite app_assoc. clear Hpre Hst H1 H2. set (p := t0 ++ t2) in *. clearbody p.
  case_bool_decide.
  { left. apply traces_ret in Ht as [-> ->]. exists p, []. auto. }
  apply traces_bind_perform in Ht as (attempt_id & t4 & -> & Ht). cbv zeta in Ht.
  set (owner := engine_id +:+ ":" +:+ attempt_id) in *.
  assert (Forall (λ ev, outside_lease job (ev_effect ev)) (p ++ [Ev NewUuid attempt_id])) as Hp'.
  { apply Forall_app. split; [done|]. by repeat constructor. }
  assert (∀ x, (∀ v, x ≠ Ok (Some v)) →
    unleased job (p ++ Ev NewUuid attempt_id :: [lease_taken job owner x])) as Hun.
  { intros x Hx. exists (p ++ [Ev NewUuid attempt_id]), [lease_taken job owner x].
    rewrite <-app_assoc. eauto 10. }
  apply traces_try_bind in Ht as [(t5 & t6 & b & -> & Ha & Ht)|(e & Ha & ->)];
    apply acquire_lease_trace in Ha as ([[v|]|e'] & -> & Hx); simplify_eq; [| |by left; apply Hun].
  2:{ apply traces_ret in Ht as [-> ->]. by left; apply Hun. }
  right. apply traces_bind_perform in Ht as ([] & t7 & -> & Ht).
  apply traces_bind in Ht as (ta & t8 & outcome & -> & Hta & Ht).
  apply traces_bind_perform in Ht as ([] & t9 & -> & Ht).
  pose proof (effects_in_traces _ _ _ _ (execute_attempt_effects job attempt_id) Hta) as Hatt.
  apply traces_try_bind in Ht as [(t10 & t11 & b & -> & Hr & Ht)|(e & Hr & ->)];
    apply release_lease_trace in Hr as [rel ->].
  - pose proof (effects_in_traces _ _ _ _ (finish_job_effects job attempt_id outcome) Ht).
    exists (p ++ [Ev NewUuid attempt_id]), attempt_id, v, ta, rel, t11.
    cbv zeta. fold owner. rewrite <-!app_assoc. split; [done|]. split; [done|].
    rewrite app_assoc. by apply Forall_app.
  - exists (p ++ [Ev NewUuid attempt_id]), attempt_id, v, ta, rel, [].
    cbv zeta. fold owner. rewrite <-!app_assoc. split; [done|]. split; [done|].
    by rewrite app_nil_r.
Qed.

(** C31.  What the synthetic backend publishes.  An attempt that succeeds adds
    exactly these entries to the result stream, in this order: the start of
    the attempt, then one token per word of the response with its position,
    at most [max_tokens] of them; and it reports as many generated tokens. *)
Theorem synthetic_attempt_publishes job attempt_id t usage :
  backend config = Synthetic →
  traces (execute_attempt sconf config job attempt_id) t (Ok usage) →
  ∃ request words,
    request_from_slice (job_request_json job) = Ok request
    ∧ words = synthetic_words request
    ∧ omap xadded t = entry_of job attempt_id <$> AttemptStarted :: word_tokens 0 words
    ∧ usage_generated_tokens usage = nlen words
    ∧ (nlen words ≤ rr_max_tokens request)%N
    ∧ usage_finish_reason usage = "stop".
Proof.
  unfold execute_attempt. intros -> Ht. case_decide; trace_inv.
  match goal with H : _ = map_err _ (request_from_slice _) |- _ => rename H into Hreq end.
  destruct (request_from_slice (job_request_json job)) as [request|e] eqn:Er;
    simplify_eq/=. op_inv.
  unfold stream_synthetic in *. trace_inv.
  match goal with H : traces (publish_words _ _ _ _ _ _) _ _ |- _ =>
    apply publish_words_ok in H as Hw end.
  exists request, (synthetic_words request). rewrite !app_nil_r, Hw.
  repeat split; try done.
  unfold nlen, synthetic_words. rewrite length_take. lia.
Qed.

(** A delivered entry whose payload does not decode. *)
Definition malformed_entry (id payload : string) : Value :=
  VArray [VBulkString id; VArray [VBulkString "payload"; VBulkString payload]].


End props.

(** ** The properties on the reference server *)
Module Demo.
Definition request : RuntimeRequest :=
  {| rr_model := "m"; rr_messages := None; rr_prompt := Some "hello world"; rr_max_tokens := 4;
     rr_temperature := 0 |}.
Definition serde : SerdeJson := canned "request" (JObject [("model", JString "m");
  ("prompt", JString "hello world"); ("max_tokens", JU64 4); ("temperature", JU64 0)]).
#[local] Existing Instance serde.

Definition sconf : StreamsConfig := default_streams_config.
Definition config : EngineConfig :=
  {| backend := Synthetic; ec_model := "m"; ec_endpoint := ""; synthetic_token_delay := 5 |}.
Definition job : GenerationJob :=
  {| job_schema_version := 1; job_request_id := "r1"; job_model_id := "m";
     job_model_revision := "main"; job_model_endpoint := ""; job_request_json := "request";
     job_deadline_unix_ms := 5000; job_reservation_id := "q1"; job_cache := None |}.
Definition consumer_1 : JobConsumer := {| jc_config := sconf; consumer_name := "engine-1" |}.

(** A broker with one queued job. *)
Definition empty_world : world ref_db :=
  {| db := ref_empty 1000; clock := 1000; uuids := ["attempt-1"]; responses := [];
     sched := [] |}.
Definition queued : world ref_db :=
  (run (publish_generation sconf job ?; consumer sconf "engine-1") empty_world).2.
Definition round : prog (result error JobConsumer) :=
  engine_round sconf config 90 "engine-1" consumer_1.
Definition attempt : prog (result error GenerationUsage) :=
  execute_attempt sconf config job "attempt-1".

Lemma acknowledged_entry_is_over_witness :
  ∃ t1 t2 x consumed,
    run_trace round queued = t1 ++ t2 ++ [Ev (xack "1000-0") x] ∧ entry_id consumed = "1000-0"
    ∧ traces (run_job sconf config "engine-1" (Replies.job consumed)) t2 (Ok Acknowledge)
    ∧ job_over sconf (Replies.job consumed) t2.
Proof.
  refine (@acknowledged_entry_is_over ref_codec serde sconf config 90 "engine-1" consumer_1
    (run_trace round queued) (run round queued).1 (Ev (xack "1000-0") (Ok 1%Z)) "1000-0"
    (run_traces round queued) _ eq_refl).
  apply (list_elem_of_lookup_2 _ 25). vm_compute. reflexivity.
Defined.

Lemma attempt_is_under_lease_witness :
  unleased sconf job (run_trace (run_job sconf config "engine-1" job) queued)
  ∨ bracketed sconf job "engine-1" (run_trace (run_job sconf config "engine-1" job) queued).
Proof.
  exact (@attempt_is_under_lease ref_codec serde sconf config "engine-1" job
    (run_trace (run_job sconf config "engine-1" job) queued)
    (run (run_job sconf config "engine-1" job) queued).1
    (run_traces (run_job sconf config "engine-1" job) queued)).
Defined.

Lemma synthetic_attempt_publishes_witness :
  ∃ request words,
    request_from_slice (job_request_json job) = Ok request
    ∧ words = synthetic_words request
    ∧ omap xadded (run_trace attempt queued)
      = entry_of job "attempt-1" <$> AttemptStarted :: word_tokens 0 words
    ∧ 4%N = nlen words ∧ (nlen words ≤ rr_max_tokens request)%N ∧ "stop" = "stop".
Proof.
  refine (@synthetic_attempt_publishes ref_codec serde sconf config job "attempt-1"
    (run_trace attempt queued)
    {| usage_prompt_tokens := 2; usage_generated_tokens := 4; usage_finish_reason := "stop" |}
    eq_refl _).
  replace (Ok _) with (run attempt queued).1 by by vm_compute. apply run_traces.
Defined.

End Demo.
