(* ===== verification/KeyTypes.v ===== *)
(** * The types of the keys

    Every key of the data plane has a prefix that tells what is stored under
    it: a stream, a hash, or a string.  The operations are typed by the keys
    they touch, as a language is: a typed operation keeps a typed data set
    typed, and the broker never answers that a key holds the wrong kind of
    value ([WRONGTYPE]). *)
From stdpp Require Import options.
From S2P Require Import Prelude Text Valkey Lua RefServer Program Effects Wire RefCodec Json.
From S2P Require Import Replies Streams Engine EngineStream EngineProps Envelope Frontend.

#[local] Set Default Proof Using "Type*".

(** ** Kinds of keys *)
Inductive key_kind : Type := KRequests | KResults | KStatus | KLease | KCounter | KReservation.
Inductive obj_type : Type := TString | THash | TStream.

#[export] Instance key_kind_eq_dec : EqDecision key_kind.
Proof. solve_decision. Defined.

Definition kind_type (kd : key_kind) : obj_type :=
  match kd with
  | KRequests | KResults => TStream
  | KStatus | KReservation => THash
  | KLease | KCounter => TString
  end.
Definition type_of (o : obj) : obj_type :=
  match o with OString _ => TString | OHash _ => THash | OStream _ => TStream end.

Definition kind_prefixes : list (string * key_kind) :=
  [("inference:results:", KResults); ("inference:status:", KStatus); ("inference:lease:", KLease);
   ("inference:quota:", KCounter); ("inference:reservation:", KReservation)].

Definition kind_of (k : string) : option key_kind :=
  if decide (k = REQUEST_STREAM) then Some KRequests
  else snd <$> head (filter (λ p : string * key_kind, is_Some (strip_prefix p.1 k)) kind_prefixes).

(** ** Typed objects

    The hash of a reservation also names the counters it was charged to. *)
Definition counter_fields : list string := ["requests_key"; "prompt_key"; "generated_key"].
Definition reservation_typed (h : gmap string string) : Prop :=
  ∀ f k, f ∈ counter_fields → h !! f = Some k → kind_of k = Some KCounter.

Definition obj_typed (kd : key_kind) (o : obj) : Prop :=
  type_of o = kind_type kd
  ∧ match kd, o with KReservation, OHash h => reservation_typed h | _, _ => True end.

(** ** Typed commands *)
Definition has_kind (k : string) (kds : list key_kind) : Prop :=
  ∃ kd, kind_of k = Some kd ∧ kd ∈ kds.

Definition command_typed (c : command) : Prop :=
  match c with
  | GET k => has_kind k [KLease; KCounter]
  | SET_NX_PX k _ _ => has_kind k [KLease]
  | COUNTER _ k => has_kind k [KCounter]
  | HSET k fs => has_kind k [KStatus]
      ∨ has_kind k [KReservation]
        ∧ Forall (λ f : field, f.1 ∈ counter_fields → kind_of f.2 = Some KCounter) fs
  | HGET k _ | HMGET k _ => has_kind k [KStatus; KReservation]
  | XADD k _ | XREAD _ k _ => has_kind k [KRequests; KResults]
  | XGROUP_CREATE k _ _ | XREADGROUP _ _ _ k | XAUTOCLAIM k _ _ _ _ | XACK k _ _ =>
      has_kind k [KRequests]
  | DEL _ | EXISTS _ | EXPIRE _ _ | PEXPIRE _ _ => True
  end.

Definition script_typed (s : script) : Prop :=
  match s with
  | ReserveQuota k1 k2 k3 k4 _ _ _ _ _ _ =>
      Forall (λ k, kind_of k = Some KCounter) [k1; k2; k3] ∧ kind_of k4 = Some KReservation
  | ReconcileQuota k _ | CancelQuota k => kind_of k = Some KReservation
  | ReleaseLease k _ | RenewLease k _ _ => kind_of k = Some KLease
  end.

Definition effect_typed (e : effect) : Prop :=
  match e with
  | Call c => command_typed c
  | Eval s => script_typed s
  | Multi cs => Forall command_typed cs
  | _ => True
  end.

(** ** The broker *)

(** The keys whose type a command depends on. *)
Definition typed_keys (c : command) : list (string * obj_type) :=
  match c with
  | GET k | COUNTER _ k => [(k, TString)]
  | HSET k _ | HGET k _ | HMGET k _ => [(k, THash)]
  | XADD k _ | XREAD _ k _ | XGROUP_CREATE k _ _ | XREADGROUP _ _ _ k | XAUTOCLAIM k _ _ _ _
  | XACK k _ _ => [(k, TStream)]
  | _ => []
  end.

(** What a command can leave under a key it changes. *)
Definition produces (c : command) (k : string) (old : option obj) (new : obj) : Prop :=
  match c with
  | SET_NX_PX k' v _ => k' = k ∧ new = OString v
  | COUNTER _ k' => k' = k ∧ ∃ s, new = OString s
  | HSET k' fs => k' = k ∧ ∃ h, new = OHash (hset_fields fs h)
      ∧ (old = None ∧ h = ∅ ∨ old = Some (OHash h))
  | XADD k' _ | XGROUP_CREATE k' _ _ | XREADGROUP _ _ _ k' | XAUTOCLAIM k' _ _ _ _
  | XACK k' _ _ => k' = k ∧ ∃ s, new = OStream s
  | _ => False
  end.

Definition wrongtype_error (e : string) : Prop := is_Some (strip_prefix "WRONGTYPE" e).

(** The documented behaviour: a command changes no key but its own and leaves
    there what it produces; it fails with [WRONGTYPE] only on a key of another
    type. *)
Class ValkeyTypes (DB : Type) `{Valkey DB, ValkeyView DB} := {
  exec_produces c db k o : obj_at (exec c db).2 k = Some o →
    obj_at db k = Some o ∨ produces c k (obj_at db k) o;
  exec_wrongtype c db e : (exec c db).1 = Err e → wrongtype_error e →
    ∃ k t o, (k, t) ∈ typed_keys c ∧ obj_at db k = Some o ∧ type_of o ≠ t;
}.

(** ** Typed keys stay typed *)
Lemma has_kind_in k kds kd : has_kind k kds → kind_of k = Some kd → kd ∈ kds.
Proof. by intros (kd' & -> & ?) [= ->]. Qed.

Lemma typed_keys_kind c k t : command_typed c → (k, t) ∈ typed_keys c →
  ∃ kd, kind_of k = Some kd ∧ kind_type kd = t.
Proof.
  intros Hc Hk. destruct c; simpl in *; try (by apply elem_of_nil in Hk);
    apply list_elem_of_singleton in Hk; injection Hk as -> ->;
    repeat match goal with
    | H : _ ∨ _ |- _ => destruct H
    | H : _ ∧ _ |- _ => destruct H
    | H : has_kind _ _ |- _ => destruct H as (kd & ? & H)
    | H : _ ∈ _ :: _ |- _ => apply elem_of_cons in H as [->|H]
    | H : _ ∈ [] |- _ => by apply elem_of_nil in H
    end; eauto.
Qed.

Lemma hset_fields_typed fs h :
  reservation_typed h →
  Forall (λ f : field, f.1 ∈ counter_fields → kind_of f.2 = Some KCounter) fs →
  reservation_typed (hset_fields fs h).
Proof.
  unfold hset_fields. revert h. induction fs as [|[f v] fs IH]; intros h Hh; [done|].
  intros [Hf Hfs]%Forall_cons. simpl. apply IH; [|done].
  intros f' k Hf' Hk. apply lookup_insert_Some in Hk as [[-> ->]|[_ Hk]]; [by apply Hf|by eapply Hh].
Qed.

Lemma produces_typed c k old o kd :
  command_typed c → kind_of k = Some kd → produces c k old o →
  (∀ o', old = Some o' → obj_typed kd o') → obj_typed kd o.
Proof.
  intros Hc Hk Hp Hold. destruct c; simpl in *; try done.
  all: destruct Hp as [-> Hp].
  all: repeat match goal with
    | H : ∃ _, _ |- _ => destruct H
    end; simplify_eq.
  all: try (eapply has_kind_in in Hc; [|exact Hk];
    repeat (apply elem_of_cons in Hc as [->|Hc]); [..|by apply elem_of_nil in Hc]; by split).
  destruct H as [-> Hh]. destruct Hc as [Hc|[Hc Hfs]];
    (eapply has_kind_in in Hc; [|exact Hk]); apply list_elem_of_singleton in Hc as ->;
    [by split|]. split; [done|]. apply hset_fields_typed; [|done].
  destruct Hh as [[_ ->]|Hh]; [intros f k' _ Hf; by rewrite lookup_empty in Hf|].
  by apply Hold in Hh as [_ Hh].
Qed.

Section soundness.
Context {DB : Type} `{ValkeyTypes DB, !ValkeyLaws DB, LuaNumbers}.

Definition db_typed (d : DB) : Prop :=
  ∀ k kd o, kind_of k = Some kd → obj_at d k = Some o → obj_typed kd o.

(** A typed command keeps the data set typed, and finds the types it needs. *)
Lemma exec_typed c d : command_typed c → db_typed d → db_typed (exec c d).2.
Proof.
  intros Hc Hd k kd o Hk Ho. destruct (exec_produces c d k o Ho) as [Ho'|Hp]; [by eapply Hd|].
  eapply produces_typed; eauto.
Qed.

Lemma exec_no_wrongtype c d e :
  command_typed c → db_typed d → (exec c d).1 = Err e → ¬ wrongtype_error e.
Proof.
  intros Hc Hd He Hw. destruct (exec_wrongtype c d e He Hw) as (k & t & o & Hk & Ho & Hne).
  destruct (typed_keys_kind c k t Hc Hk) as (kd & Hkd & <-).
  by destruct (Hd k kd o Hkd Ho) as [Ht _].
Qed.

(** What a script can rely on in a reply: a counter named by a reservation is
    the key of a counter. *)
Definition reply_typed (c : command) : reply c → Prop :=
  match c return reply c → Prop with
  | HGET k f => λ r, kind_of k = Some KReservation → f ∈ counter_fields →
      ∀ v, r = Some v → kind_of v = Some KCounter
  | _ => λ _, True
  end.

Lemma exec_reply_typed c d r : db_typed d → (exec c d).1 = Ok r → reply_typed c r.
Proof.
  intros Hd. destruct c; try done. intros He Hk Hf v ->.
  assert (∃ h, hash_at d k = Some h ∧ reservation_typed h) as (h & Hh & Hr).
  { unfold hash_at. destruct (obj_at d k) as [o|] eqn:Ho; [|exists ∅; split; [done|];
      intros f' k' _ Hf'; by rewrite lookup_empty in Hf'].
    destruct (Hd k _ o Hk Ho) as [Ht Hh]. by destruct o; try done; exists h. }
  rewrite (exec_hget d k h f Hh) in He. injection He as Hv. by eapply Hr.
Qed.

(** ** Scripts *)
Fixpoint lua_typed {A} (Q : A → Prop) (p : lua A) : Prop :=
  match p with
  | LRet a => Q a
  | LRaise e => ¬ wrongtype_error e
  | LCall c k => command_typed c ∧ ∀ r, reply_typed c r → lua_typed Q (k r)
  end.

Lemma lua_typed_bind {A B} (Q : A → Prop) (R : B → Prop) p (f : A → lua B) :
  lua_typed Q p → (∀ a, Q a → lua_typed R (f a)) → lua_typed R (p ≫= f).
Proof.
  intros Hp Hf. induction p as [a|e|c k IH]; [by apply Hf|done|].
  destruct Hp as [Hc Hk]. split; [done|]. intros r Hr. apply IH. by apply Hk.
Qed.

Lemma lua_typed_call c : command_typed c → lua_typed (reply_typed c) (redis_call c).
Proof. intros Hc. by split. Qed.

Lemma run_lua_typed {A} (Q : A → Prop) (p : lua A) d :
  lua_typed Q p → db_typed d →
  db_typed (run_lua p d).2 ∧ ∀ e, (run_lua p d).1 = Err e → ¬ wrongtype_error e.
Proof.
  revert d. induction p as [a|e|c k IH]; intros d Hp Hd; simpl in *.
  - by split.
  - split; [done|]. by intros e' [= <-].
  - destruct Hp as [Hc Hk]. pose proof (exec_typed c d Hc Hd) as Hd'.
    pose proof (exec_no_wrongtype c d) as Hno. pose proof (exec_reply_typed c d) as Hr.
    destruct (exec c d) as [[r|e] d']; simpl in *; [by apply IH; auto|].
    split; [done|]. intros e' [= <-]. by apply Hno.
Qed.

(** ** The scripts are typed *)
Arguments lua_typed {A} Q p : simpl never.
Definition anything {A} (a : A) : Prop := True.

Lemma lua_typed_then {A B} (p : lua A) (f : A → lua B) (R : B → Prop) :
  lua_typed anything p → (∀ a, lua_typed R (f a)) → lua_typed R (p ≫= f).
Proof. intros Hp Hf. by apply (lua_typed_bind anything). Qed.

Lemma lua_typed_mono {A} (Q : A → Prop) (p : lua A) : lua_typed Q p → lua_typed anything p.
Proof. induction p as [a|e|c k IH]; [done..|]. intros [Hc Hk]. split; [done|]. intros r Hr. by apply IH, Hk. Qed.

Lemma call_typed c : command_typed c → lua_typed anything (redis_call c).
Proof. intros Hc. by eapply lua_typed_mono, lua_typed_call. Qed.

Lemma num_typed x : lua_typed anything (num x).
Proof. destruct x; [done|]. by intros [? [=]]. Qed.

Lemma kind_has k kd kds : kind_of k = Some kd → kd ∈ kds → has_kind k kds.
Proof. by exists kd. Qed.

Lemma get_number_typed k : kind_of k = Some KCounter → lua_typed anything (get_number k).
Proof.
  intros Hk. apply lua_typed_then; [|done]. apply call_typed. eapply kind_has; [done|]. right. left.
Qed.
Lemma hget_number_typed k f : kind_of k = Some KReservation → lua_typed anything (hget_number k f).
Proof.
  intros Hk. apply lua_typed_then; [|done]. apply call_typed. eapply kind_has; [done|]. right. left.
Qed.
Lemma counter_typed op k : kind_of k = Some KCounter → lua_typed anything (redis_call (COUNTER op k)).
Proof. intros Hk. apply call_typed. eapply kind_has; [done|]. left. Qed.
Lemma decrby_if_typed k amount :
  (∀ k', k = Some k' → kind_of k' = Some KCounter) → lua_typed anything (decrby_if k amount).
Proof.
  intros Hk. destruct k as [k|]; [|done]. unfold decrby_if. apply lua_typed_then; [apply num_typed|].
  intros z. apply lua_typed_then; [by apply counter_typed, Hk|done].
Qed.

(** The name of a counter, read from a reservation. *)
Lemma counter_name_typed {A} k f (g : option string → lua A) R :
  kind_of k = Some KReservation → f ∈ counter_fields →
  (∀ v, (∀ k', v = Some k' → kind_of k' = Some KCounter) → lua_typed R (g v)) →
  lua_typed R (redis_call (HGET k f) ≫= g).
Proof.
  intros Hk Hf Hg. eapply lua_typed_bind.
  { apply lua_typed_call. eapply kind_has; [done|]. right. left. }
  intros v Hv. apply Hg. intros k' E. by eapply Hv.
Qed.

Create HintDb keytypes.
#[local] Hint Resolve num_typed get_number_typed hget_number_typed counter_typed decrby_if_typed
  call_typed : keytypes.
#[local] Hint Extern 2 (lua_typed _ (mret _)) => exact I : keytypes.
#[local] Hint Extern 3 (lua_typed _ (redis_call _)) => apply call_typed; exact I : keytypes.
Ltac lua_step := apply lua_typed_then; [solve [auto with keytypes]|intros ?].

Lemma reserve_typed k1 k2 k3 k4 a1 a2 a3 a4 a5 a6 :
  Forall (λ k, kind_of k = Some KCounter) [k1; k2; k3] → kind_of k4 = Some KReservation →
  lua_typed anything (reserve_quota_lua k1 k2 k3 k4 a1 a2 a3 a4 a5 a6).
Proof.
  rewrite !Forall_cons. intros (H1' & H2' & H3' & _) H4'. unfold reserve_quota_lua.
  do 5 lua_step. case_match; [done|]. do 3 lua_step. case_match; [done|]. do 3 lua_step.
  case_match; [done|]. unfold reserve_commit. do 6 lua_step. apply lua_typed_then; [|intros ?].
  { apply call_typed. right. split; [eapply kind_has; [done|left]|].
    rewrite !Forall_cons. cbn [fst snd].
    split_and!; try (by intros _); try done; (intros Hf; exfalso; revert Hf);
      by apply (bool_decide_unpack _). }
  by lua_step.
Qed.

(** The status of a reservation. *)
Lemma settle_typed k fs : kind_of k = Some KReservation →
  Forall (λ f : field, f.1 ∉ counter_fields) fs → lua_typed anything (redis_call (HSET k fs)).
Proof.
  intros Hk Hfs. apply call_typed. right. split; [eapply kind_has; [done|left]|].
  eapply Forall_impl; [exact Hfs|]. by intros f Hf ?.
Qed.
Lemma hget_typed k f : kind_of k = Some KReservation → lua_typed anything (redis_call (HGET k f)).
Proof. intros Hk. apply call_typed. eapply kind_has; [done|]. right. left. Qed.
Lemma lease_get_typed k : kind_of k = Some KLease → lua_typed anything (redis_call (GET k)).
Proof. intros Hk. apply call_typed. eapply kind_has; [done|]. left. Qed.
#[local] Hint Extern 1 (lua_typed _ (redis_call (HGET _ _))) => by apply hget_typed : keytypes.

Ltac counter_field := apply (bool_decide_unpack _); vm_compute; exact I.

Lemma reconcile_typed k a :
  kind_of k = Some KReservation → lua_typed anything (reconcile_quota_lua k a).
Proof.
  intros Hk. unfold reconcile_quota_lua. lua_step. case_match; [|done]. do 3 lua_step.
  apply counter_name_typed; [done|counter_field|]. intros v Hv.
  apply lua_typed_then; [case_match; auto with keytypes|intros _].
  apply lua_typed_then; [|done]. apply settle_typed; [done|]. by apply (bool_decide_unpack _).
Qed.

Lemma cancel_typed k : kind_of k = Some KReservation → lua_typed anything (cancel_quota_lua k).
Proof.
  intros Hk. unfold cancel_quota_lua. lua_step. case_match; [|done].
  do 3 (apply counter_name_typed; [done|counter_field|intros ? ?]).
  do 2 lua_step. apply lua_typed_then; [case_match; [apply lua_typed_then|]; auto with keytypes|].
  intros _. do 2 lua_step. apply lua_typed_then; [|done]. apply settle_typed; [done|].
  by apply (bool_decide_unpack _).
Qed.

Lemma script_body_typed s : script_typed s → lua_typed anything (script_body s).
Proof.
  destruct s; simpl.
  - intros [? ?]. by apply reserve_typed.
  - apply reconcile_typed.
  - apply cancel_typed.
  - intros Hk. unfold release_lease_lua. apply lua_typed_then; [by apply lease_get_typed|].
    intros v. case_match; [by lua_step|done].
  - intros Hk. unfold renew_lease_lua. apply lua_typed_then; [by apply lease_get_typed|].
    intros v. case_match; [by lua_step|done].
Qed.

(** ** Programs *)
Definition no_wrongtype (e : error) : Prop := Forall (λ m, ¬ wrongtype_error m) e.

Definition answer_typed (ev : event) : Prop :=
  match ev with
  | Ev e x =>
    match e return answer e → Prop with
    | Call _ | Eval _ | Multi _ => λ r, match r with Err e => no_wrongtype e | Ok _ => True end
    | _ => λ _, True
    end x
  end.

(** The other clients keep the data set typed, and the network does not make
    up errors of the broker. *)
Definition env_typed (s : env_step DB) : Prop :=
  match s with Elapse _ => True | Foreign f => ∀ d, db_typed d → db_typed (f d) end.
Definition fate_typed (f : fate) : Prop :=
  match f with Delivered => True | LostRequest e | LostReply e => no_wrongtype e end.
Definition turn_typed (t : turn DB) : Prop := Forall env_typed (t_before t) ∧ fate_typed (t_fate t).
Record world_typed (w : world DB) : Prop := {
  typed_db : db_typed (db w);
  typed_sched : Forall turn_typed (sched w);
}.

Lemma elapse_typed ms d : db_typed d → db_typed (elapse ms d).
Proof.
  intros Hd k kd o Hk. rewrite elapse_obj. repeat case_match; try done; by apply Hd.
Qed.

Lemma env_apply_typed ss (w : world DB) :
  Forall env_typed ss → world_typed w → world_typed (foldl env_apply w ss).
Proof.
  intros Hss. revert w. induction Hss as [|s ss Hs _ IH]; intros w [Hd Hsch]; [done|]. apply IH.
  destruct s; split; simpl; [by apply elapse_typed|done|by apply Hs|done].
Qed.

Lemma exec_multi_typed cs d :
  Forall command_typed cs → db_typed d →
  db_typed (exec_multi cs d).2 ∧ ∀ e, (exec_multi cs d).1 = Err e → ¬ wrongtype_error e.
Proof.
  intros Hcs. revert d. induction Hcs as [|c cs Hc _ IH]; intros d Hd; [by split|]. simpl.
  pose proof (exec_typed c d Hc Hd) as Hd'. pose proof (exec_no_wrongtype c d) as Hno.
  destruct (exec c d) as [r d']. destruct (IH d' Hd') as [Hd2 Hr2].
  destruct (exec_multi cs d') as [r' d2]. simpl in *. split; [done|].
  destruct r; [done|]. intros e' [= <-]. by apply Hno.
Qed.

(** What the broker answers, as the client reports it. *)
Lemma broker_typed {A} (r : result string A) :
  (∀ e, r = Err e → ¬ wrongtype_error e) →
  match broker r with Err e => no_wrongtype e | Ok _ => True end.
Proof. intros Hr. destruct r as [a|e]; [done|]. constructor; [by apply Hr|constructor]. Qed.

Lemma deliver_typed e (w : world DB) :
  effect_typed e → world_typed w →
  answer_typed (Ev e (deliver e w).1) ∧ world_typed (deliver e w).2.
Proof.
  intros He [Hd Hsch]. destruct e; simpl in *; try (split; [done|split; [done|done]]).
  - pose proof (exec_typed c _ He Hd) as Hd'. pose proof (exec_no_wrongtype c (db w)) as Hno.
    destruct (exec c (db w)) as [r d']. split; [apply broker_typed; simpl in *; auto|by split].
  - destruct (run_lua_typed _ _ _ (script_body_typed s He) Hd) as [Hd' Hno].
    destruct (run_lua (script_body s) (db w)) as [r d']. split; [by apply broker_typed|by split].
  - destruct (exec_multi_typed cs _ He Hd) as [Hd' Hno].
    destruct (exec_multi cs (db w)) as [r d']. split; [by apply broker_typed|by split].
  - split; [done|]. split; [by apply elapse_typed|done].
Qed.

Lemma step_effect_typed e (w : world DB) :
  effect_typed e → world_typed w →
  answer_typed (Ev e (step_effect e w).1) ∧ world_typed (step_effect e w).2.
Proof.
  intros He [Hd Hsch]. unfold step_effect.
  set (t := default {| t_before := []; t_fate := Delivered |} (head (sched w))).
  set (w0 := {| db := db w; sched := tail (sched w) |}).
  assert (turn_typed t) as [Hb Hf].
  { subst t. destruct (sched w) as [|t ts]; [by repeat constructor|].
    by apply Forall_cons in Hsch as [? _]. }
  assert (world_typed (foldl env_apply w0 (t_before t))) as Hw.
  { apply env_apply_typed; [done|]. split; [done|]. simpl. destruct (sched w); [done|].
    by apply Forall_cons in Hsch as [_ ?]. }
  clearbody t. generalize dependent (foldl env_apply w0 (t_before t)). intros w1 Hw1.
  pose proof (deliver_typed e w1 He Hw1) as [Ha Hw2].
  destruct (t_fate t) as [|err|err]; [done| |].
  - destruct e; done.
  - destruct (deliver e w1) as [x w2]. simpl in *. split; [|done]. by destruct e.
Qed.

Lemma run_typed {A} (p : prog A) (w : world DB) :
  effects_in effect_typed p → world_typed w →
  world_typed (run p w).2 ∧ Forall answer_typed (run_trace p w).
Proof.
  revert w. induction p as [a|e k IH]; intros w Hp Hw; [by split|]. destruct Hp as [He Hk].
  simpl. pose proof (step_effect_typed e w He Hw) as [Ha Hw'].
  destruct (step_effect e w) as [x w']. simpl in *. destruct (IH x w' (Hk x) Hw') as [? ?].
  split; [done|]. by constructor.
Qed.
End soundness.

(** ** The operations are typed *)
Section programs.
Context `{Codec, SerdeJson, Sha256, HeaderText}.

Lemma kind_request : kind_of REQUEST_STREAM = Some KRequests. Proof. done. Qed.
Lemma kind_result a : kind_of (result_stream a) = Some KResults. Proof. done. Qed.
Lemma kind_status a : kind_of (status_key a) = Some KStatus. Proof. done. Qed.
Lemma kind_lease a : kind_of (lease_key a) = Some KLease. Proof. done. Qed.
Lemma kind_reservation a : kind_of (reservation_key a) = Some KReservation. Proof. done. Qed.
Lemma kind_counter key bucket s : kind_of (quota_prefix key bucket +:+ s) = Some KCounter.
Proof. done. Qed.

Abbreviation typed := (effects_in effect_typed).

(** A program, effect by effect. *)
Ltac key_ok := first
  [ exact I | reflexivity | left; key_ok
  | eexists; split; [reflexivity|]; repeat first [by left | right] ].
Ltac effect_ok := cbn [effect_typed command_typed script_typed];
  repeat first [apply Forall_nil_2 | apply Forall_cons_2]; key_ok.
Ltac typed_step := first
  [ assumption | exact I
  | solve [auto with typed nocore]
  | apply effects_in_try; [|intros ?]
  | apply effects_in_bind; [|intros ?]
  | apply effects_in_perform; effect_ok
  | case_match ].
Ltac typed_program := repeat typed_step.
Create HintDb typed.

(** *** The streams client *)
Lemma publish_generation_typed sconf job : typed (publish_generation sconf job).
Proof.
  unfold publish_generation. typed_program.
Qed.
Lemma result_commands_typed sconf res id : Forall command_typed (result_commands sconf res id).
Proof. unfold result_commands. destruct (terminal_event (res_event res)); effect_ok. Qed.
Lemma publish_result_typed sconf res : typed (publish_result sconf res).
Proof.
  unfold publish_result. typed_program. apply effects_in_perform, result_commands_typed.
Qed.
Lemma subscribe_typed rid cursor : typed (subscribe rid cursor).
Proof. unfold subscribe. typed_program. Qed.
Lemma status_typed rid : typed (status rid).
Proof. unfold status. typed_program. Qed.
Lemma acquire_lease_typed sconf rid owner : typed (acquire_lease sconf rid owner).
Proof. unfold acquire_lease. typed_program. Qed.
Lemma release_lease_typed rid owner : typed (release_lease rid owner).
Proof. unfold release_lease. typed_program. Qed.
Lemma renew_lease_typed sconf rid owner : typed (renew_lease sconf rid owner).
Proof. unfold renew_lease. typed_program. Qed.
Lemma reserve_quota_typed key p g limits : typed (reserve_quota key p g limits).
Proof.
  unfold reserve_quota. typed_program. apply effects_in_perform. cbn. split; [|done].
  repeat (apply Forall_cons_2; [apply kind_counter|]). apply Forall_nil_2.
Qed.
Lemma reconcile_quota_typed id actual : typed (reconcile_quota id actual).
Proof. unfold reconcile_quota. typed_program. Qed.
Lemma cancel_quota_typed id : typed (cancel_quota id).
Proof. unfold cancel_quota. typed_program. Qed.
Lemma consumer_typed sconf name : typed (consumer sconf name).
Proof. unfold consumer. typed_program. Qed.
Lemma next_job_typed c block : typed (next_job c block).
Proof. unfold next_job. typed_program. Qed.
Lemma reclaim_stale_typed c idle : typed (reclaim_stale c idle).
Proof. unfold reclaim_stale. typed_program. Qed.
Lemma acknowledge_typed id : typed (acknowledge id).
Proof. unfold acknowledge. typed_program. Qed.

(** A subscription stays on its stream. *)
Lemma next_loop_typed n backoff block s :
  kind_of (rs_stream s) = Some KResults → typed (next_loop n backoff block s).
Proof.
  intros Hs. revert backoff. induction n as [|n IH]; intros backoff; [exact I|].
  cbn [next_loop]. apply effects_in_bind.
  { apply effects_in_perform. exists KResults. split; [done|]. right. left. }
  intros r. typed_program.
Qed.
Lemma next_stream n backoff block s :
  results_in (λ r, rs_stream r.2 = rs_stream s) (next_loop n backoff block s).
Proof.
  revert backoff. induction n as [|n IH]; intros backoff; [done|]. cbn [next_loop].
  intros [reply|e]; [|case_match; [done|intros _ [c|e']; [apply IH|done]]]. cbn.
  by destruct (parse_result_reply reply) as [[entry|]|].
Qed.
#[local] Hint Resolve publish_generation_typed publish_result_typed subscribe_typed status_typed
  acquire_lease_typed release_lease_typed renew_lease_typed reserve_quota_typed
  reconcile_quota_typed cancel_quota_typed consumer_typed next_job_typed reclaim_stale_typed
  acknowledge_typed : typed.

(** *** The engine *)
Section engine.
Context (sconf : StreamsConfig) (config : EngineConfig).

Lemma publish_event_typed job attempt e : typed (publish_event sconf job attempt e).
Proof. unfold publish_event. typed_program. Qed.

Lemma execute_attempt_typed job attempt : typed (execute_attempt sconf config job attempt).
Proof.
  eapply effects_in_mono; [|apply execute_attempt_effects].
  intros e []; [exact I|exact I|effect_ok|exact (result_commands_typed sconf _ _)].
Qed.
#[local] Hint Resolve publish_event_typed execute_attempt_typed : typed.

Lemma run_job_typed worker job : typed (run_job sconf config worker job).
Proof.
  unfold run_job, past_deadline, finish_job, publish_failure, publish_completion. typed_program.
Qed.
#[local] Hint Resolve run_job_typed : typed.

Lemma engine_round_typed idle worker c : typed (engine_round sconf config idle worker c).
Proof. unfold engine_round, next_consumed. typed_program. Qed.
#[local] Hint Resolve engine_round_typed : typed.

Lemma engine_loop_typed rounds idle worker c :
  typed (engine_loop sconf config rounds idle worker c).
Proof. revert c. induction rounds; intros c; [done|]. cbn [engine_loop]. typed_program. Qed.

Lemma heartbeat_typed ticks rid owner : typed (heartbeat sconf ticks rid owner).
Proof. induction ticks; [done|]. cbn [heartbeat]. typed_program. Qed.
End engine.
#[local] Hint Resolve engine_loop_typed : typed.

Lemma engine_main_typed rounds env service : typed (engine_main rounds env service).
Proof. unfold engine_main. typed_program. Qed.

(** *** The frontend *)
Section frontend.
Context (state : AppState).

Lemma admit_typed h request : typed (admit_and_dispatch state h request).
Proof. unfold admit_and_dispatch. typed_program. Qed.

(** The rest of a loop, on the subscription [next] gives back. *)
Lemma next_then {A} s block (f : result error (option ResultEntry) * ResultSubscription → prog A) :
  kind_of (rs_stream s) = Some KResults →
  (∀ r s', kind_of (rs_stream s') = Some KResults → typed (f (r, s'))) →
  typed (next s block ≫= f).
Proof.
  intros Hs Hf. eapply effects_in_bind_in; [by apply next_loop_typed|apply next_stream|].
  intros [r s'] Hs'. simpl in Hs'. apply Hf. by rewrite Hs'.
Qed.

Lemma subscribe_stream rid cursor :
  succeeds_in (λ o, ∀ s, o = Some s → kind_of (rs_stream s) = Some KResults) (subscribe rid cursor).
Proof.
  intros [n|e]; [|done]. cbn. case_match; [done|]. intros [[]|e]; [|done]. by intros s [= <-].
Qed.

Lemma collect_loop_typed fuel s text attempt :
  kind_of (rs_stream s) = Some KResults → typed (collect_loop fuel s text attempt).
Proof.
  revert s text attempt. induction fuel as [|fuel IH]; intros s text attempt Hs; [done|].
  cbn [collect_loop]. apply next_then; [done|]. intros r s' Hs'. repeat case_match; try done; auto.
Qed.

Lemma stream_loop_typed fuel rid s :
  kind_of (rs_stream s) = Some KResults → typed (stream_loop state fuel rid s).
Proof.
  revert s. induction fuel as [|fuel IH]; intros s Hs; [done|].
  cbn [stream_loop]. apply next_then; [done|]. intros r s' Hs'. repeat case_match; try done; auto.
  apply effects_in_bind; [auto|]. by intros [].
Qed.

Lemma collect_generation_typed fuel admission : typed (collect_generation state fuel admission).
Proof.
  unfold collect_generation. eapply effects_in_bind_in; [apply subscribe_typed|apply subscribe_stream|].
  intros [[s|]|e] Hs; try done. apply effects_in_bind; [|done]. apply collect_loop_typed. by apply Hs.
Qed.
Lemma stream_generation_typed fuel rid cursor : typed (stream_generation state fuel rid cursor).
Proof.
  unfold stream_generation. eapply effects_in_bind_in; [apply subscribe_typed|apply subscribe_stream|].
  intros [[s|]|e] Hs; try done. apply effects_in_bind; [|by intros []]. apply stream_loop_typed.
  by apply Hs.
Qed.
#[local] Hint Resolve admit_typed collect_generation_typed stream_generation_typed : typed.

Lemma rpc_generate_typed fuel h body : typed (rpc_generate state fuel h body).
Proof. unfold rpc_generate. typed_program. Qed.
Lemma rpc_stream_generate_typed fuel h body : typed (rpc_stream_generate state fuel h body).
Proof. unfold rpc_stream_generate. typed_program. Qed.
Lemma rpc_subscribe_typed fuel h body : typed (rpc_subscribe_generation state fuel h body).
Proof. unfold rpc_subscribe_generation. typed_program. Qed.
End frontend.

Lemma handle_typed state fuel rpc h body : typed (handle state fuel rpc h body).
Proof.
  destruct rpc; cbn [handle]; [done|done|done|apply rpc_generate_typed| |]; apply effects_in_bind; try done;
    [apply rpc_stream_generate_typed|apply rpc_subscribe_typed].
Qed.

(** The programs of the data plane: a request to the frontend, an engine and
    its heartbeat. *)
Inductive data_plane : ∀ {A}, prog A → Prop :=
| dp_request state fuel rpc h body : data_plane (handle state fuel rpc h body)
| dp_engine rounds env service : data_plane (engine_main rounds env service)
| dp_heartbeat sconf ticks rid owner : data_plane (heartbeat sconf ticks rid owner).

Lemma data_plane_typed {A} (p : prog A) : data_plane p → typed p.
Proof. intros []; [apply handle_typed|apply engine_main_typed|apply heartbeat_typed]. Qed.

(** ** Properties *)

(** C7.  Keys have the type their prefix says.  Whatever a client sends and
    whatever the broker and the model server answer, the RPCs, the engine and
    the heartbeat only send commands and scripts that suit the kinds of their
    keys.  On a data set where every key holds what its prefix says, and
    every reservation names counters, they leave it so, whatever is lost on
    the way and as long as the other clients do the same; and no answer of
    the broker is a [WRONGTYPE] error. *)
Theorem key_types_are_respected {DB : Type} `{ValkeyTypes DB, !ValkeyLaws DB, LuaNumbers}
    {A} (p : prog A) :
  data_plane p →
  effects_in effect_typed p
  ∧ ∀ w : world DB, world_typed w →
      world_typed (run p w).2 ∧ Forall answer_typed (run_trace p w).
Proof.
  intros Hp. pose proof (data_plane_typed p Hp) as Ht. split; [done|]. intros w Hw.
  by apply run_typed.
Qed.
End programs.

(** ** The property on the reference server *)
Module KeyWitness.

(** A command leaves the data set, deletes its key, or puts an object there. *)
Lemma ref_exec_produces c db k o : ref_obj (ref_exec c db).2 k = Some o →
  ref_obj db k = Some o ∨ produces c k (ref_obj db k) o.
Proof.
  destruct c; simpl; unfold ref_counter, ref_xreadgroup, ref_xautoclaim, ref_xack, put_group;
    intros Ho; repeat (case_match; simplify_eq/=); try (by left);
    rewrite ?ref_obj_put, ?ref_obj_del in Ho; case_decide; simplify_eq; eauto 10.
Qed.

Lemma ref_stream_none db k :
  ref_stream db k = None → ∃ o, ref_obj db k = Some o ∧ type_of o ≠ TStream.
Proof. unfold ref_stream. repeat case_match; intros; simplify_eq; by eexists. Qed.

Lemma ref_exec_wrongtype c (db : ref_db) e : (ref_exec c db).1 = Err e → wrongtype_error e →
  ∃ k t o, (k, t) ∈ typed_keys c ∧ ref_obj db k = Some o ∧ type_of o ≠ t.
Proof.
  intros He [s Hs]. assert (∀ k t o, typed_keys c = [(k, t)] → ref_obj db k = Some o → type_of o ≠ t →
    ∃ k t o, (k, t) ∈ typed_keys c ∧ ref_obj db k = Some o ∧ type_of o ≠ t) as Hkey.
  { intros k t o -> Ho Ht. exists k, t, o. split; [left|done]. }
  destruct c; simpl in *; unfold ref_counter, ref_xreadgroup, ref_xautoclaim, ref_xack in He;
    repeat (case_match; simplify_eq/=); try (by eapply Hkey).
  edestruct ref_stream_none as (o & Ho & Ht); [eassumption|]. by eapply Hkey.
Qed.

#[export] Instance ref_types : ValkeyTypes ref_db.
Proof. split; [apply ref_exec_produces|apply ref_exec_wrongtype]. Qed.

(** An engine whose connection and whose broker misbehave, while another
    engine takes a lease. *)
Definition serde : SerdeJson := toy_serde.
Definition hex : Sha256 := λ b, b.
Definition header_text : HeaderText := Some.
Definition service : Engine.ServiceConfig :=
  {| sc_broker_url := ""; sc_model_id := "m"; sc_model_endpoint := "";
     sc_backend := {| bc_kind := "synthetic"; mlx_base_url := None; openai_base_url := None;
                      synthetic_token_delay_ms := None |};
     Engine.sc_streams := Engine.default_stream_settings |}.
Definition take_lease (d : ref_db) : ref_db :=
  put (lease_key "r") (OString "engine-2:a") (Some 60000%N) d.
Definition shaky : world ref_db :=
  {| db := ref_empty 0; clock := 0; uuids := ["e"]; responses := [];
     sched := [ {| t_before := [Elapse 5; Foreign take_lease]; t_fate := Delivered |};
                {| t_before := []; t_fate := LostReply ["timed out"] |};
                {| t_before := []; t_fate := LostRequest ["broken pipe"] |} ] |}.

Lemma take_lease_typed d : db_typed d → db_typed (take_lease d).
Proof.
  intros Hd k kd o Hk Ho. change (ref_obj (take_lease d) k = Some o) in Ho.
  unfold take_lease in Ho. rewrite ref_obj_put in Ho. case_decide as Hkey; [|by eapply Hd].
  subst k. rewrite kind_lease in Hk. injection Hk as <-. by injection Ho as <-.
Qed.

Lemma shaky_typed : world_typed shaky.
Proof.
  split; [by intros k kd o _|].
  assert (∀ m, strip_prefix "WRONGTYPE" m = None → no_wrongtype [m]) as Hm.
  { intros m Hm. constructor; [|constructor]. intros [s Hs]. congruence. }
  apply Forall_cons_2; [|apply Forall_cons_2; [|apply Forall_singleton]]; split.
  - apply Forall_cons_2; [exact I|]. apply Forall_singleton. exact take_lease_typed.
  - exact I.
  - constructor.
  - by apply Hm.
  - constructor.
  - by apply Hm.
Qed.

Lemma key_types_are_respected_witness :
  let p := @engine_main ref_codec serde 2 (λ _, None) service in
  effects_in effect_typed p
  ∧ world_typed (run p shaky).2 ∧ Forall answer_typed (run_trace p shaky).
Proof.
  destruct (@key_types_are_respected ref_codec serde hex header_text ref_db ref_valkey ref_view
    ref_types ref_laws ref_numbers _ _ (dp_engine 2 (λ _, None) service)) as [Hp Hrun].
  exact (conj Hp (Hrun shaky shaky_typed)).
Defined.
End KeyWitness.
