(* ===== verification/Lease.v ===== *)
(** * Generation leases

    [acquire_lease], [renew_lease], [release_lease] ([Streams]) and the
    engine's heartbeat ([Engine.heartbeat]) against their abstract
    specification: a lease is free, or held by an owner for some more
    milliseconds. *)
From stdpp Require Import functions options.
From S2P Require Import Prelude Text Valkey Lua RefServer Snapshot Program Effects Wire Replies.
From S2P Require Import Streams Json Engine.

#[local] Set Default Proof Using "Type*".

(** ** The specification *)
Abbreviation lease := (option (string * N)).

Inductive lease_op (DB : Type) : Type :=
| Acquire (owner : string)
| Renew (owner : string)
| Release (owner : string)
| Pass (ms : N)
| Other (f : DB → DB).   (* a change of other keys *)
Arguments Acquire {DB} owner.
Arguments Renew {DB} owner.
Arguments Release {DB} owner.
Arguments Pass {DB} ms.
Arguments Other {DB} f.

(** The reply, and the new state; [duration] is the configured one. *)
Definition lease_step {DB} (duration : N) (op : lease_op DB) (a : lease) : option bool * lease :=
  match op with
  | Acquire o => match a with
      | None => (Some true, Some (o, duration))
      | Some _ => (Some false, a) end
  | Renew o => match a with
      | Some (o', _) => if decide (o = o') then (Some true, Some (o, duration)) else (Some false, a)
      | None => (Some false, None) end
  | Release o => match a with
      | Some (o', _) => if decide (o = o') then (None, None) else (None, a)
      | None => (None, None) end
  | Pass ms => match a with
      | Some (o, t) => (None, if (t <=? ms)%N then None else Some (o, t - ms)%N)
      | None => (None, None) end
  | Other _ => (None, a)
  end.

Fixpoint lease_steps {DB} (duration : N) (ops : list (lease_op DB)) (a : lease)
    : list (option bool) * lease :=
  match ops with
  | [] => ([], a)
  | op :: ops =>
    let '(r, a) := lease_step duration op a in
    let '(rs, a) := lease_steps duration ops a in
    (r :: rs, a)
  end.

(** ** The implementation *)
Section lease.
Context {DB : Type} `{ValkeyLaws DB, LuaNumbers}.
Context (config : StreamsConfig) (request_id : string).

(** A world in which nothing fails and nobody else acts. *)
Definition quiet (d : DB) : world DB :=
  {| db := d; clock := 0; uuids := []; responses := []; sched := [] |}.

Definition answer_of (r : result error bool) : option bool :=
  match r with Ok b => Some b | Err _ => None end.

(** One operation, by the client's programs. *)
Definition lease_exec (op : lease_op DB) (d : DB) : option bool * DB :=
  match op with
  | Acquire o => let '(r, w) := run (acquire_lease config request_id o) (quiet d) in
                 (answer_of r, db w)
  | Renew o => let '(r, w) := run (renew_lease config request_id o) (quiet d) in
               (answer_of r, db w)
  | Release o => let '(_, w) := run (release_lease request_id o) (quiet d) in (None, db w)
  | Pass ms => (None, elapse ms d)
  | Other f => (None, f d)
  end.

Fixpoint lease_execs (ops : list (lease_op DB)) (d : DB) : list (option bool) * DB :=
  match ops with
  | [] => ([], d)
  | op :: ops =>
    let '(r, d) := lease_exec op d in
    let '(rs, d) := lease_execs ops d in
    (r :: rs, d)
  end.

Definition lease_cell (a : lease) : cell :=
  match a with
  | None => (None, None)
  | Some (o, t) => (Some (OString o), Some t)
  end.

(** The data set holds this lease. *)
Definition leased (a : lease) (d : DB) : Prop := snap d (lease_key request_id) = lease_cell a.

(** Changes of other keys leave the lease alone. *)
Definition op_ok (op : lease_op DB) : Prop :=
  match op with
  | Other f => ∀ d, snap (f d) (lease_key request_id) = snap d (lease_key request_id)
  | _ => True
  end.

Context (Hduration : (0 < lease_duration config < 2 ^ 62)%N).

Lemma duration_millis : as_millis_u64 (lease_duration config) = lease_duration config.
Proof. apply as_millis_small, Hduration. Qed.

Lemma duration_arg : int_arg (pretty (lease_duration config)) = lease_duration config.
Proof.
  unfold int_arg. rewrite parse_u64_pretty; [done|]. unfold u64_modulus. lia.
Qed.

Lemma acquire_refines a o d : leased a d →
  ∃ d', lease_exec (Acquire o) d = ((lease_step (lease_duration config) (Acquire (DB := DB) o) a).1, d')
    ∧ leased (lease_step (lease_duration config) (Acquire (DB := DB) o) a).2 d'.
Proof.
  intros Ha. unfold leased in Ha. unfold lease_exec, acquire_lease.
  rewrite duration_millis.
  rewrite (run_call (SET_NX_PX (lease_key request_id) o (lease_duration config))) by done.
  change (db (quiet d)) with d.
  destruct a as [[o' t]|]; simpl.
  - rewrite (exec_set_nx_taken d _ _ _ (proj1 Hduration)).
    2:{ unfold snap in Ha. simplify_eq/=. eauto. }
    by exists d.
  - destruct (exec_set_nx_free d (lease_key request_id) o (lease_duration config))
      as (d' & He & Ho & Ht & _); [done|by unfold snap in Ha; simplify_eq/=|].
    rewrite He. exists d'. split; [done|]. unfold leased, snap. by rewrite Ho, Ht.
Qed.

(** A script that succeeds on the snapshot succeeds from the client. *)
Lemma eval_refines s d Q :
  lua_wp (script_body s) (snap d) Q →
  ∃ r d' f', (∀ B (f : lua_reply → prog (result error B)),
      run (try_bind (perform (Eval s)) f) (quiet d) = run (f r) (quiet d'))
    ∧ sees d' f' ∧ Q r f'.
Proof.
  intros Hwp. destruct (wp_run _ d Q Hwp) as (r & d' & f' & Hr & Hs & HQ).
  exists r, d', f'. split; [|done]. intros B f. rewrite run_eval by done. simpl db. by rewrite Hr.
Qed.

Lemma get_wp {A} k (v : option string) (p : option string → lua A) f Q :
  f k = match v with Some s => (Some (OString s), (f k).2) | None => (None, (f k).2) end →
  lua_wp (p v) f Q → lua_wp (v ← redis_call (GET k); p v) f Q.
Proof.
  intros Hv Hp. apply wp_bind. eapply (wp_call (GET k)); [|exact Hp].
  apply does_get. rewrite Hv. destruct v; [right; eauto|by left].
Qed.

(** The renewal script, on any snapshot that holds a lease. *)
Lemma renew_wp a o f : f (lease_key request_id) = lease_cell a →
  lua_wp (script_body (RenewLease (lease_key request_id) o (pretty (lease_duration config)))) f
    (λ r f', ∃ b, (lease_step (lease_duration config) (Renew (DB := DB) o) a).1 = Some b
      ∧ r = RInt (if b then 1 else 0)
      ∧ f' (lease_key request_id)
        = lease_cell (lease_step (lease_duration config) (Renew (DB := DB) o) a).2).
Proof.
  intros Ha. cbn [script_body]. unfold renew_lease_lua.
  apply (get_wp _ (fst <$> a)); [rewrite Ha; by destruct a as [[]|]|].
  destruct a as [[o' t]|]; [|by apply wp_ret; exists false].
  change (fst <$> Some (o', t)) with (Some o'). cbn [lease_step].
  destruct (decide (o = o')) as [->|Hne].
  - rewrite decide_True by done. apply wp_bind. wp_command.
    + apply does_pexpire; [by rewrite duration_arg|by rewrite Ha].
    + apply wp_ret. exists true. rewrite duration_arg, fn_lookup_insert, Ha. done.
  - rewrite decide_False by congruence. apply wp_ret. by exists false.
Qed.

Lemma renew_refines a o d : leased a d →
  ∃ d', lease_exec (Renew o) d = ((lease_step (lease_duration config) (Renew (DB := DB) o) a).1, d')
    ∧ leased (lease_step (lease_duration config) (Renew (DB := DB) o) a).2 d'.
Proof.
  intros Ha. destruct (eval_refines _ d _ (renew_wp a o (snap d) Ha))
    as (r & d' & f' & Hr & Hs & b & Hb & -> & Hf').
  exists d'. rewrite Hb. unfold lease_exec, renew_lease.
  rewrite duration_millis, Hr. split; [by destruct b|]. unfold leased. by rewrite <-Hf', <-(Hs _).
Qed.

Lemma release_refines a o d : leased a d →
  ∃ d', lease_exec (Release o) d
      = ((lease_step (lease_duration config) (Release (DB := DB) o) a).1, d')
    ∧ leased (lease_step (lease_duration config) (Release (DB := DB) o) a).2 d'.
Proof.
  intros Ha. unfold leased in *. set (k := lease_key request_id) in *.
  destruct (eval_refines (ReleaseLease k o) d (λ r f',
    (∃ z, r = RInt z)
    ∧ f' k = lease_cell (lease_step (lease_duration config) (Release (DB := DB) o) a).2))
    as (r & d' & f' & Hr & Hs & [z ->] & Hf').
  { cbn [script_body]. unfold release_lease_lua.
    apply (get_wp k (fst <$> a)); [rewrite Ha; by destruct a as [[]|]|].
    destruct a as [[o' t]|]; [|by apply wp_ret; eauto].
    change (fst <$> Some (o', t)) with (Some o'). cbn [lease_step].
    destruct (decide (o = o')) as [->|Hne].
    - rewrite decide_True by done. apply wp_bind. wp_command; [apply does_del|].
      apply wp_ret. split; [eauto|]. by rewrite fn_lookup_insert.
    - rewrite decide_False by congruence. apply wp_ret. eauto. }
  exists d'. unfold lease_exec, release_lease. fold k.
  rewrite Hr. split; [|by rewrite <-Hf', <-(Hs k)].
  simpl. destruct a as [[]|]; [|done]. simpl. by case_decide.
Qed.

Lemma lease_op_refines a op d : leased a d → op_ok op →
  ∃ d', lease_exec op d = ((lease_step (lease_duration config) op a).1, d')
    ∧ leased (lease_step (lease_duration config) op a).2 d'.
Proof.
  intros Ha Hop. destruct op as [o|o|o|ms|f].
  - by apply acquire_refines.
  - by apply renew_refines.
  - by apply release_refines.
  - exists (elapse ms d). unfold leased in *. simpl.
    rewrite (sees_elapse ms d (snap d) (sees_snap d)). unfold aged. rewrite Ha.
    destruct a as [[o t]|]; [|done]. simpl. by destruct (t <=? ms)%N.
  - exists (f d). split; [done|]. unfold leased in *. by rewrite (Hop d).
Qed.

Lemma lease_ops_refine a ops d : leased a d → Forall op_ok ops →
  ∃ d', lease_execs ops d = ((lease_steps (lease_duration config) ops a).1, d')
    ∧ leased (lease_steps (lease_duration config) ops a).2 d'.
Proof.
  intros Ha Hops. revert a d Ha. induction Hops as [|op ops Hop _ IH]; intros a d Ha; simpl.
  { by exists d. }
  destruct (lease_op_refines a op d Ha Hop) as (d1 & He & Ha1). rewrite He.
  destruct (lease_step (lease_duration config) op a) as [r a1]. simpl in *.
  destruct (IH a1 d1 Ha1) as (d2 & He2 & Ha2). rewrite He2.
  destruct (lease_steps (lease_duration config) ops a1) as [rs a2]. by exists d2.
Qed.

(** ** Exclusion *)

(** Steps that are not taken by [o]. *)
Definition by_others (o : string) (op : lease_op DB) : Prop :=
  match op with Acquire o' | Renew o' | Release o' => o' ≠ o | _ => True end.

(** The time that passes in a history. *)
Fixpoint passed (ops : list (lease_op DB)) : N :=
  match ops with
  | [] => 0
  | Pass ms :: ops => ms + passed ops
  | _ :: ops => passed ops
  end%N.

Lemma lease_steps_held o t ops duration :
  Forall (by_others o) ops → (passed ops < t)%N →
  (lease_steps duration ops (Some (o, t))).2 = Some (o, t - passed ops)%N
  ∧ Forall (λ r, r ≠ Some true) (lease_steps duration ops (Some (o, t))).1.
Proof.
  clear Hduration. intros Hops. revert t. induction Hops as [|op ops Hop _ IH]; intros t Ht; simpl in *.
  { by rewrite N.sub_0_r. }
  assert (∃ r t', lease_step duration op (Some (o, t)) = (r, Some (o, t')) ∧ r ≠ Some true
    ∧ (t' - passed ops = t - passed (op :: ops))%N ∧ (passed ops < t')%N)
    as (r & t' & -> & Hr & Ht' & Hlt).
  { destruct op as [o'|o'|o'|ms|f]; simpl in *.
    - by exists (Some false), t.
    - rewrite decide_False by done. by exists (Some false), t.
    - rewrite decide_False by done. by exists None, t.
    - assert ((t <=? ms)%N = false) as -> by (apply N.leb_gt; lia).
      exists None, (t - ms)%N. split_and!; try done; lia.
    - by exists None, t. }
  destruct (IH t' Hlt) as [H3 H4]. destruct (lease_steps duration ops _) as [rs a]. simpl in *.
  split; [by rewrite H3, Ht'|by constructor].
Qed.

(** ** The heartbeat *)

(** What may happen between the effects of the heartbeat: other keys change,
    and time passes. *)
Definition harmless (s : env_step DB) : Prop :=
  match s with
  | Elapse _ => True
  | Foreign f => ∀ d, snap (f d) (lease_key request_id) = snap d (lease_key request_id)
  end.
Definition lag (steps : list (env_step DB)) : N :=
  nsum ((λ s, match s with Elapse ms => ms | Foreign _ => 0%N end) <$> steps).
Definition turn_ok (limit : N) (t : turn DB) : Prop :=
  t_fate t = Delivered ∧ Forall harmless (t_before t) ∧ (lag (t_before t) ≤ limit)%N.

Lemma leased_elapse o t ms d : leased (Some (o, t)) d → (ms < t)%N →
  leased (Some (o, t - ms)%N) (elapse ms d).
Proof.
  clear Hduration. intros Ha Hms. unfold leased in *.
  rewrite (sees_elapse ms d (snap d) (sees_snap d)). unfold aged. rewrite Ha. simpl.
  by assert ((t <=? ms)%N = false) as -> by (apply N.leb_gt; lia).
Qed.

Lemma env_keeps_lease o steps (w : world DB) t :
  leased (Some (o, t)) (db w) → Forall harmless steps → (lag steps < t)%N →
  leased (Some (o, t - lag steps)%N) (db (foldl env_apply w steps))
  ∧ sched (foldl env_apply w steps) = sched w.
Proof.
  clear Hduration. intros Ha Hs. revert w t Ha. induction Hs as [|s steps Hs _ IH]; intros w t Ha Hlt.
  { simpl. by rewrite N.sub_0_r. }
  unfold lag in *. rewrite fmap_cons, nsum_cons in *. destruct s as [ms|f]; simpl in *.
  - destruct (IH (env_apply w (Elapse ms)) (t - ms)%N) as [H3 H4];
      [apply leased_elapse; [done|lia]|lia|].
    split; [|done]. by replace (t - (ms + nsum ((λ s, match s with Elapse ms => ms
      | Foreign _ => 0%N end) <$> steps)))%N with (t - ms - nsum ((λ s, match s with Elapse ms => ms
      | Foreign _ => 0%N end) <$> steps))%N by lia.
  - rewrite N.add_0_l in *.
    destruct (IH (env_apply w (Foreign f)) t) as [H3 H4]; [|lia|by split].
    unfold leased in *. simpl. by rewrite Hs.
Qed.

(** One effect of the heartbeat, in an environment that allows it. *)
Lemma turn_lease o t limit e (w : world DB) :
  leased (Some (o, t)) (db w) → Forall (turn_ok limit) (sched w) → (limit < t)%N →
  ∃ w' t', step_effect e w = deliver e w' ∧ leased (Some (o, t')) (db w')
    ∧ (t - limit ≤ t')%N ∧ Forall (turn_ok limit) (sched w').
Proof.
  clear Hduration. intros Ha Hsched Hlt. unfold step_effect.
  set (w0 := {| db := db w; clock := clock w; uuids := uuids w; responses := responses w;
                sched := tail (sched w) |}).
  destruct (sched w) as [|tn tns] eqn:E; simpl in *.
  { exists w0, t. split_and!; try done; lia. }
  apply Forall_cons in Hsched as [(Hf & Hh & Hl) Hsched]. rewrite Hf.
  destruct (env_keeps_lease o (t_before tn) w0 t Ha Hh ltac:(lia)) as [Ha' Hs'].
  exists (foldl env_apply w0 (t_before tn)), (t - lag (t_before tn))%N.
  split_and!; [done|done|lia|]. by rewrite Hs'.
Qed.

(** A wake-up: 20 seconds of sleep, then a renewal that succeeds. *)
Lemma heartbeat_tick o t limit (w : world DB) :
  leased (Some (o, t)) (db w) → Forall (turn_ok limit) (sched w) →
  (from_secs 20 + 2 * limit < t)%N →
  ∃ w' d', leased (Some (o, lease_duration config)) d'
    ∧ Forall (turn_ok limit) (sched w')
    ∧ ∀ B (k : result error bool → prog B),
        run (perform (Sleep (from_secs 20));; r ← renew_lease config request_id o; k r) w
        = run (k (Ok true)) (set_db d' w').
Proof.
  intros Ha Hs Ht. unfold from_secs in *.
  destruct (turn_lease o t limit (Sleep (20 * 1000)) w Ha Hs ltac:(lia))
    as (w1 & t1 & E1 & Ha1 & Hl1 & Hs1).
  set (w1' := env_apply w1 (Elapse (20 * 1000))).
  assert (leased (Some (o, t1 - 20 * 1000)%N) (db w1')) as Ha1' by (apply leased_elapse; [done|lia]).
  set (script := RenewLease (lease_key request_id) o (pretty (lease_duration config))).
  destruct (turn_lease o (t1 - 20 * 1000) limit (Eval script) w1' Ha1' Hs1 ltac:(lia))
    as (w2 & t2 & E2 & Ha2 & Hl2 & Hs2).
  destruct (wp_run _ (db w2) _ (renew_wp (Some (o, t2)) o (snap (db w2)) Ha2))
    as (r & d' & f' & Hr & Hsees & b & Hb & -> & Hf').
  simpl in Hb, Hf'. rewrite decide_True in Hb, Hf' by done. simpl in Hb, Hf'. simplify_eq.
  exists w2, d'. split_and!; [by unfold leased; rewrite (Hsees _)|done|].
  intros B k. rewrite run_bind, (run_perform (Sleep (20 * 1000))), E1.
  change (deliver (Sleep (20 * 1000)) w1) with ((), w1'). cbv beta iota.
  rewrite run_bind. unfold renew_lease. rewrite duration_millis, run_try_bind, (run_perform (Eval script)), E2.
  unfold deliver. unfold script at 1. by rewrite Hr.
Qed.

Lemma heartbeat_lease n o t limit (w : world DB) :
  leased (Some (o, t)) (db w) → Forall (turn_ok limit) (sched w) →
  (from_secs 20 + 2 * limit < t)%N → (from_secs 20 + 2 * limit < lease_duration config)%N →
  ∃ t', leased (Some (o, t')) (db (run (heartbeat config n request_id o) w).2)
    ∧ (t' = if decide (n = 0) then t else lease_duration config).
Proof.
  revert t w. induction n as [|n IH]; intros t w Ha Hs Ht Hd; [by exists t|].
  destruct (heartbeat_tick o t limit w Ha Hs Ht) as (w' & d' & Ha' & Hs' & Hrun).
  cbn [heartbeat]. rewrite Hrun.
  destruct (IH (lease_duration config) (set_db d' w') Ha' Hs' Hd Hd) as (t' & Ht' & ->).
  exists (lease_duration config). split; [|done]. by destruct (decide (n = 0)).
Qed.

(** ** Properties *)

(** C10.  The client's lease operations implement the abstract lease.  Started
    on a data set that holds a lease (or none), any sequence of acquisitions,
    renewals and releases by any owners, of time passing and of changes of
    other keys gets exactly the replies of the specification, and ends on a
    data set that holds the specification's lease. *)
Theorem lease_operations_refine a ops d :
  leased a d → Forall op_ok ops →
  ∃ d', lease_execs ops d = ((lease_steps (lease_duration config) ops a).1, d')
    ∧ leased (lease_steps (lease_duration config) ops a).2 d'.
Proof. apply lease_ops_refine. Qed.

(** C28.  A lease excludes the other engines.  While [o] holds the lease with
    [t] milliseconds left, whatever the others do and as long as less than
    [t] milliseconds pass: no acquisition and no renewal of theirs succeeds,
    their releases do not free it, and [o] still holds it for exactly the
    rest of its time. *)
Theorem lease_excludes_others o t ops d :
  leased (Some (o, t)) d → Forall op_ok ops →
  Forall (by_others o) ops → (passed ops < t)%N →
  Forall (λ r, r ≠ Some true) (lease_execs ops d).1
  ∧ leased (Some (o, t - passed ops)%N) (lease_execs ops d).2.
Proof.
  intros Ha Hops Hby Ht. destruct (lease_ops_refine _ ops d Ha Hops) as (d' & -> & Hd').
  destruct (lease_steps_held o t ops (lease_duration config) Hby Ht) as [Hheld Hrep].
  split; [done|]. simpl. by rewrite <-Hheld.
Qed.

(** C29.  The heartbeat keeps the lease.  If between two of its effects at most
    [limit] milliseconds pass, other keys may change but this one does not,
    and 20 seconds plus twice that limit are less than the duration of the
    lease and than what is left of it, then after any number of wake-ups the
    owner still holds the lease, and after at least one for its full
    duration. *)
Theorem heartbeat_keeps_lease n o t limit (w : world DB) :
  leased (Some (o, t)) (db w) → Forall (turn_ok limit) (sched w) →
  (from_secs 20 + 2 * limit < t)%N → (from_secs 20 + 2 * limit < lease_duration config)%N →
  leased (Some (o, if decide (n = 0) then t else lease_duration config))
         (db (run (heartbeat config n request_id o) w).2).
Proof.
  intros Ha Hs Ht Hd. by destruct (heartbeat_lease n o t limit w Ha Hs Ht Hd) as (t' & Hl & ->).
Qed.

End lease.

(** ** The properties on the reference server *)
Module Witness.
Definition config : StreamsConfig := default_streams_config.
Lemma duration_ok : (0 < lease_duration config < 2 ^ 62)%N.
Proof. done. Qed.
Definition free : ref_db := ref_empty 0.
Definition held : ref_db := (lease_exec config "r" (Acquire "engine-1:a") free).2.
Definition others : list (lease_op ref_db) :=
  [Pass 30000; Acquire "engine-2:b"; Release "engine-2:b"; Renew "engine-2:b"; Pass 29999;
   Acquire "engine-2:b"].

Lemma lease_operations_refine_witness :
  ∃ d', lease_execs config "r" (Acquire "engine-1:a" :: others) free
      = ([Some true; None; Some false; None; Some false; None; Some false], d')
    ∧ leased "r" (Some ("engine-1:a", 1%N)) d'.
Proof.
  apply (@lease_operations_refine _ _ _ ref_laws ref_numbers config "r" duration_ok None
    (Acquire "engine-1:a" :: others) free eq_refl).
  by repeat constructor.
Defined.

Lemma lease_excludes_others_witness :
  Forall (λ r, r ≠ Some true) (lease_execs config "r" others held).1
  ∧ leased "r" (Some ("engine-1:a", 60000 - passed others)%N) (lease_execs config "r" others held).2.
Proof.
  apply (@lease_excludes_others _ _ _ ref_laws ref_numbers config "r" duration_ok
    "engine-1:a" 60000 others held).
  - by vm_compute.
  - by repeat constructor.
  - by repeat constructor.
  - done.
Defined.

Definition busy : world ref_db :=
  {| db := held; clock := 0; uuids := []; responses := [];
     sched := [{| t_before := [Elapse 100]; t_fate := Delivered |};
               {| t_before := [Elapse 200; Elapse 300]; t_fate := Delivered |}] |}.

Lemma heartbeat_keeps_lease_witness :
  leased "r" (Some ("engine-1:a", 60000%N)) (db (run (heartbeat config 5 "r" "engine-1:a") busy).2).
Proof.
  apply (@heartbeat_keeps_lease _ _ _ ref_laws ref_numbers config "r" duration_ok 5
    "engine-1:a" 60000 500 busy).
  - by vm_compute.
  - by repeat constructor.
  - done.
  - done.
Defined.
End Witness.
