(* ===== verification/ResultStream.v ===== *)
(** * Result streams: publication and replay

    [publish_result], [subscribe] and [next] of [Streams] against their
    abstract view: the result stream of a generation is a list of results
    with increasing identifiers; a publication appends to it, and a
    subscription is a cursor into it. *)
From stdpp Require Import functions sorting options.
From S2P Require Import Prelude Text Valkey Lua RefServer Snapshot Program Effects Wire RefCodec.
From S2P Require Import StreamLog Replies Streams.

#[local] Set Default Proof Using "Type*".

(** ** Streams of results *)
Section results.
Context `{CodecLaws}.

Definition result_fields (r : GenerationResult) : list field := [("payload", encode r)].

(** The entries are these results, in the order of their identifiers. *)
Record results_stream (s : stream) (es : list (stream_id * GenerationResult)) : Prop := {
  rs_entries : s_entries s = (λ e, (e.1, result_fields e.2)) <$> es;
  rs_sorted : StronglySorted id_lt (es.*1);
  rs_ids : Forall (λ e, id_ok e.1 ∧ (e.1 = s_last s ∨ id_lt e.1 (s_last s))) es;
  rs_schema : Forall (λ e, res_schema_version e.2 = SCHEMA_VERSION) es;
}.

Definition delivered (e : stream_id * GenerationResult) : ResultEntry :=
  {| event_id := show_id e.1; entry_result := e.2 |}.

Lemma first_after_results s es i :
  results_stream s es →
  first_after i s = (λ e, (e.1, result_fields e.2)) <$> head (after i es).
Proof. intros [He _ _ _]. by apply first_after_log. Qed.

(** A reply of [XREAD] on a stream of results. *)
Lemma parse_read_value k (e : stream_id * GenerationResult) :
  res_schema_version e.2 = SCHEMA_VERSION →
  parse_result_reply (read_value k (Some (e.1, result_fields e.2))) = Ok (Some (delivered e)).
Proof.
  intros Hs. unfold parse_result_reply.
  assert (parse_xread_payload (read_value k (Some (e.1, result_fields e.2)))
    = Ok (Some (show_id e.1, encode e.2))) as ->.
  { cbn. unfold from_utf8. by rewrite show_id_utf8, decide_True by done. }
  change (mbind ?f (Ok ?a)) with (f a). cbv beta iota. unfold decode_message.
  rewrite decode_encode. change (map_err ?f (Ok ?a)) with (Ok (E := error) a).
  change (mbind ?f (Ok ?a)) with (f a). cbv beta. unfold validate_schema. by rewrite Hs.
Qed.

Context {DB : Type} `{ValkeyLaws DB, LuaNumbers}.

Definition holds (d : DB) (k : string) (es : list (stream_id * GenerationResult)) : Prop :=
  ∃ s, stream_at d k = Some s ∧ results_stream s es.

(** [next] on a stream of results delivers the first entry after the cursor
    and moves the cursor to it. *)
Lemma next_calm (w : world DB) k i es block :
  calm w → holds (db w) k es → id_ok i →
  run (next {| rs_stream := k; last_event_id := show_id i |} block) w =
  match after i es with
  | [] => ((Ok None, {| rs_stream := k; last_event_id := show_id i |}), w)
  | e :: _ => ((Ok (Some (delivered e)), {| rs_stream := k; last_event_id := show_id e.1 |}), w)
  end.
Proof.
  intros Hw (s & Hs & Hes) Hi. unfold next. cbn [next_loop].
  rewrite run_bind, (run_perform (Call (XREAD (as_millis_u64 block) k (show_id i)))), step_calm by done.
  unfold deliver. cbn [rs_stream last_event_id].
  rewrite (exec_xread (db w) (as_millis_u64 block) k i s) by done. rewrite (first_after_results s es) by done.
  assert (set_db (db w) w = w) as -> by by destruct w. cbn [broker map_err].
  destruct (after i es) as [|e rest] eqn:E; [done|]. cbn [head].
  change ((λ e0, (e0.1, result_fields e0.2)) <$> Some e) with (Some (e.1, result_fields e.2)).
  rewrite (parse_read_value k e); [done|].
  assert (e ∈ after i es) as [_ Hin]%list_elem_of_filter by (rewrite E; left).
  destruct Hes as [_ _ _ Hsch]. rewrite Forall_forall in Hsch. auto.
Qed.

(** ** Publication *)

(** A transaction on a snapshot. *)
Definition multi_does (cs : list command) (f f' : snapshot) : Prop :=
  ∀ d, sees d f → ∃ d', exec_multi cs d = (Ok tt, d') ∧ sees d' f'.

Lemma multi_nil f : multi_does [] f f.
Proof. intros d Hd. by exists d. Qed.

Lemma multi_cons c cs f f1 f2 :
  (∀ d, sees d f → ∃ r d', exec c d = (Ok r, d') ∧ sees d' f1) →
  multi_does cs f1 f2 → multi_does (c :: cs) f f2.
Proof.
  intros Hc Hcs d Hd. destruct (Hc d Hd) as (r & d1 & He & Hd1).
  destruct (Hcs d1 Hd1) as (d2 & He2 & Hd2). exists d2. simpl. by rewrite He, He2.
Qed.

Lemma multi_does_cons c cs f r f1 f2 :
  command_does c f r f1 → multi_does cs f1 f2 → multi_does (c :: cs) f f2.
Proof. intros Hc. apply multi_cons. intros d Hd. destruct (Hc d Hd) as (d' & ? & ?). eauto. Qed.

Lemma result_status_ne a b : result_stream a ≠ status_key b.
Proof. intros E. by apply (f_equal (String.get 10)) in E. Qed.

(** The fields of the status a publication writes. *)
Definition status_fields (r : GenerationResult) (id : string) (h : gmap string string)
    : gmap string string :=
  let h := hset_fields [("state", if terminal_event (res_event r) then "completed" else "running");
                        ("active_attempt_id", res_attempt_id r)] h in
  if terminal_event (res_event r) then <["terminal_event_id" := id]> h else h.

Definition result_ttl (config : StreamsConfig) (r : GenerationResult) : N :=
  as_secs (if terminal_event (res_event r) then result_retention config else active_ttl config).

Lemma result_commands_do config r id f s h :
  (0 < result_ttl config r < 2 ^ 52)%N →
  (f (result_stream (res_request_id r))).1 = Some (OStream s) →
  cell_hash (f (status_key (res_request_id r))) = Some h →
  multi_does (result_commands config r id) f
    (<[status_key (res_request_id r) :=
         (Some (OHash (status_fields r id h)), Some (result_ttl config r * 1000)%N)]>
      (<[result_stream (res_request_id r) :=
           (Some (OStream s), Some (result_ttl config r * 1000)%N)]> f)).
Proof.
  intros Httl Hs Hh. set (k := status_key (res_request_id r)) in *.
  set (ks := result_stream (res_request_id r)) in *.
  assert (ks ≠ k) as Hne by apply result_status_ne.
  assert (∀ f0 h0, (f0 ks).1 = Some (OStream s) → f0 k = (Some (OHash h0), (f0 k).2) →
    (∀ k', k' ≠ k → k' ≠ ks → f0 k' = f k') →
    multi_does [EXPIRE ks (result_ttl config r); EXPIRE k (result_ttl config r)] f0
      (<[k := (Some (OHash h0), Some (result_ttl config r * 1000)%N)]>
        (<[ks := (Some (OStream s), Some (result_ttl config r * 1000)%N)]> f))) as Hexp.
  { intros f0 h0 H1' H2' Hoth.
    eapply multi_does_cons; [apply does_expire; [done|by rewrite H1']|].
    eapply multi_does_cons; [apply does_expire; [done|by snap_simpl; rewrite H2']|].
    intros d Hd. exists d. split; [done|]. intros k'. rewrite (Hd k').
    destruct (decide (k' = k)) as [E|Hk]; [rewrite E; snap_simpl; by rewrite H2'|].
    destruct (decide (k' = ks)) as [E|Hks]; [rewrite E; snap_simpl; by rewrite H1'|].
    snap_simpl. by apply Hoth. }
  unfold result_commands, status_fields. fold ks k.
  change (as_secs (if terminal_event (res_event r) then result_retention config
                   else active_ttl config)) with (result_ttl config r).
  eapply multi_cons.
  { intros d Hd. destruct (does_hset k f h [("state",
      if terminal_event (res_event r) then "completed" else "running");
      ("active_attempt_id", res_attempt_id r)] Hh ltac:(done) d Hd) as (n & d' & ? & ?). eauto. }
  destruct (terminal_event (res_event r)).
  - eapply multi_cons.
    { intros d Hd. edestruct (does_hset k) as (n & d' & ? & ?); [| |exact Hd|eauto]; [|done].
      unfold cell_hash. by rewrite fn_lookup_insert. }
    apply Hexp; [by snap_simpl|by snap_simpl|intros; by snap_simpl].
  - apply Hexp; [by snap_simpl|by snap_simpl|intros; by snap_simpl].
Qed.

Lemma results_append s es i r :
  results_stream s es → id_lt (s_last s) i → id_ok i → res_schema_version r = SCHEMA_VERSION →
  results_stream {| s_entries := s_entries s ++ [(i, result_fields r)]; s_last := i;
                    s_groups := s_groups s |} (es ++ [(i, r)])
  ∧ Forall (λ e, id_lt e.1 i) es.
Proof.
  intros [He Hs Hi Hv] Hlt Hok Hr.
  destruct (log_append es i r (s_last s) Hs Hi Hlt Hok) as (Hs' & Hi' & Hall).
  split; [|done]. split; simpl; [by rewrite He, fmap_app|done..|].
  apply Forall_app. split; [done|]. by repeat constructor.
Qed.

Lemma exec_multi_time cs (d : DB) : server_time (exec_multi cs d).2 = server_time d.
Proof.
  revert d. induction cs as [|c cs IH]; intros d; [done|]. simpl.
  pose proof (exec_time c d) as Hc. destruct (exec c d) as [r d']. simpl in Hc.
  specialize (IH d'). destruct (exec_multi cs d') as [r' d2]. simpl in *. congruence.
Qed.

Lemma publish_result_calm config r (w : world DB) s es h :
  calm w → res_schema_version r = SCHEMA_VERSION →
  stream_at (db w) (result_stream (res_request_id r)) = Some s → results_stream s es →
  id_ok (s_last s) → (fst (s_last s) < u64_max)%N →
  hash_at (db w) (status_key (res_request_id r)) = Some h →
  (0 < result_ttl config r < 2 ^ 52)%N →
  ∃ i d', run (publish_result config r) w = (Ok (show_id i), set_db d' w)
    ∧ Forall (λ e, id_lt e.1 i) es
    ∧ holds d' (result_stream (res_request_id r)) (es ++ [(i, r)])
    ∧ hash_at d' (status_key (res_request_id r)) = Some (status_fields r (show_id i) h)
    ∧ ttl_at d' (result_stream (res_request_id r)) = Some (result_ttl config r * 1000)%N
    ∧ ttl_at d' (status_key (res_request_id r)) = Some (result_ttl config r * 1000)%N
    ∧ (∀ k, k ≠ result_stream (res_request_id r) → k ≠ status_key (res_request_id r) →
        same_key k (db w) d')
    ∧ id_lt (s_last s) i ∧ server_time d' = server_time (db w)
    ∧ ∃ s', stream_at d' (result_stream (res_request_id r)) = Some s'
        ∧ id_ok (s_last s') ∧ ((s_last s').1 ≤ N.max (server_time (db w)) (s_last s).1 + 1)%N.
Proof.
  intros Hw Hschema Hs Hes Hid Hmax Hh Httl.
  set (ks := result_stream (res_request_id r)) in *.
  set (k := status_key (res_request_id r)) in *.
  assert (ks ≠ k) as Hne by apply result_status_ne.
  destruct (exec_xadd (db w) ks s (result_fields r) Hs ltac:(done) Hid Hmax)
    as (i & d1 & He & Hlt & Hok & Hroom & Hobj & Httl1 & Honly).
  destruct (results_append s es i r Hes Hlt Hok Hschema) as [Hes' Hall].
  set (s' := {| s_entries := s_entries s ++ [(i, result_fields r)]; s_last := i;
                s_groups := s_groups s |}) in *.
  assert (snap d1 k = snap (db w) k) as Hk1.
  { destruct (Honly k ltac:(done)) as [H1' H2']. unfold snap. by rewrite H1', H2'. }
  assert ((snap d1 ks).1 = Some (OStream s')) as A1 by done.
  assert (cell_hash (snap d1 k) = Some h) as A2 by by rewrite Hk1.
  destruct (result_commands_do config r (show_id i) (snap d1) s' h Httl A1 A2 d1 (sees_snap d1))
    as (d2 & He2 & Hd2).
  exists i, d2. unfold publish_result.
  assert (validate_schema (res_schema_version r) = Ok ()) as -> by (by rewrite Hschema).
  change (try_bind (lift (Ok ())) ?f) with (f ()). cbv beta. fold ks.
  rewrite (run_call (XADD ks _)) by done. unfold result_fields in He. rewrite He.
  rewrite run_multi by done. change (db (set_db d1 w)) with d1. rewrite He2.
  split; [done|]. split; [done|].
  assert (snap d2 ks = (Some (OStream s'), Some (result_ttl config r * 1000)%N)) as Es.
  { rewrite (Hd2 ks). fold ks k. by snap_simpl. }
  assert (snap d2 k = (Some (OHash (status_fields r (show_id i) h)),
    Some (result_ttl config r * 1000)%N)) as Ek by (rewrite (Hd2 k); fold k; by snap_simpl).
  apply pair_equal_spec in Es as [Eso Est], Ek as [Eko Ekt].
  split; [exists s'; split; [unfold stream_at; by rewrite Eso|done]|].
  split; [unfold hash_at; by rewrite Eko|]. split; [done|]. split; [done|].
  assert (server_time d2 = server_time (db w)) as Htime.
  { pose proof (exec_multi_time (result_commands config r (show_id i)) d1) as E2.
    rewrite He2 in E2. simpl in E2. rewrite E2.
    pose proof (exec_time (XADD ks [("payload", encode r)]) (db w)) as E1. by rewrite He in E1. }
  split; [|split; [done|split; [done|exists s'; split; [unfold stream_at; by rewrite Eso|done]]]].
  intros k' Hks Hk. specialize (Hd2 k'). fold ks k in Hd2.
  rewrite !fn_lookup_insert_ne in Hd2 by done. apply pair_equal_spec in Hd2 as [??].
  destruct (Honly k' Hks) as [H1' H2']. split; congruence.
Qed.

(** A generation on the broker: its results, its status, and room for [n]
    more results before the identifiers run out. *)
Record generation (rid : string) (es : list (stream_id * GenerationResult))
    (h : gmap string string) (n : N) (d : DB) : Prop := {
  gen_results : holds d (result_stream rid) es;
  gen_ids : Forall (λ e, id_lt (0, 0)%N e.1) es;
  gen_status : hash_at d (status_key rid) = Some h;
  gen_room : ∃ s, stream_at d (result_stream rid) = Some s ∧ id_ok (s_last s)
    ∧ (N.max (server_time d) (s_last s).1 + n < u64_max)%N;
}.

(** Other keys are left alone. *)
Definition frame (rid : string) (d d' : DB) : Prop :=
  ∀ k, k ≠ result_stream rid → k ≠ status_key rid → same_key k d d'.

Lemma frame_refl rid d : frame rid d d.
Proof. by intros k _ _. Qed.
Lemma frame_trans rid d1 d2 d3 : frame rid d1 d2 → frame rid d2 d3 → frame rid d1 d3.
Proof.
  intros H12 H23 k Hr Hs. destruct (H12 k Hr Hs), (H23 k Hr Hs). split; congruence.
Qed.

(** One more result. *)
Lemma publish_result_generation config r (w : world DB) es h n :
  calm w → res_schema_version r = SCHEMA_VERSION →
  generation (res_request_id r) es h (n + 1) (db w) →
  (0 < result_ttl config r < 2 ^ 52)%N →
  ∃ i d', run (publish_result config r) w = (Ok (show_id i), set_db d' w)
    ∧ generation (res_request_id r) (es ++ [(i, r)]) (status_fields r (show_id i) h) n d'
    ∧ frame (res_request_id r) (db w) d'
    ∧ is_Some (obj_at d' (result_stream (res_request_id r))).
Proof.
  intros Hw Hv [(s & Hs & Hes) Hpos Hh (s0 & Hs0 & Hid & Hroom)] Httl.
  assert (s0 = s) as -> by congruence.
  destruct (publish_result_calm config r w s es h) as (i & d' & Hrun & _ & Hd' & Hh' & Ht & _ &
    Hframe & Hlt & Htime & s' & Hs' & Hid' & Hlast); [done..|lia|done|done|].
  exists i, d'. split; [done|]. split_and!; [split; [done| |done|]|done|].
  - apply Forall_app. split; [done|]. apply Forall_singleton. revert Hlt.
    unfold id_lt. simpl. lia.
  - exists s'. split; [done|]. split; [done|]. rewrite Htime. lia.
  - destruct (obj_at d' _) eqn:E; [by eexists|]. by rewrite (ttl_dead _ _ E) in Ht.
Qed.

(** ** A subscription, while others publish *)

Inductive reader_step (k : string) (block : N) :
  DB * ResultSubscription * list ResultEntry → DB * ResultSubscription * list ResultEntry → Prop :=
| reader_env d d' sub out :
    (∀ es, holds d k es → ∃ new, holds d' k (es ++ new)) →
    reader_step k block (d, sub, out) (d', sub, out)
| reader_next (w w' : world DB) sub sub' r out :
    calm w → run (next sub block) w = ((Ok r, sub'), w') →
    reader_step k block (db w, sub, out) (db w', sub', out ++ option_list r).

Lemma holds_sorted d k es : holds d k es → StronglySorted id_lt (es.*1).
Proof. by intros (s & _ & [_ Hs _ _]). Qed.

(** What has been delivered, and what is left, make up the stream. *)
Definition reader_inv (k : string) (i0 : stream_id)
    (s : DB * ResultSubscription * list ResultEntry) : Prop :=
  let '(d, sub, out) := s in
  ∃ es i seen, holds d k es
    ∧ sub = {| rs_stream := k; last_event_id := show_id i |} ∧ id_ok i
    ∧ (i = i0 ∨ id_lt i0 i ∧ i ∈ es.*1)
    ∧ out = delivered <$> seen ∧ after i0 es = seen ++ after i es.

Lemma reader_step_inv k block i0 s s' :
  reader_step k block s s' → reader_inv k i0 s → reader_inv k i0 s'.
Proof.
  intros Hstep Hinv.
  destruct Hstep as [d d' sub out Henv|w w' sub sub' r out Hw Hrun];
    destruct Hinv as (es & i & seen & Hes & -> & Hi & Hpos & -> & Haft).
  - destruct (Henv es Hes) as [new Hnew]. exists (es ++ new), i, seen.
    split_and!; try done.
    + destruct Hpos as [->|[? Hin]]; [by left|]. right. split; [done|].
      rewrite fmap_app. apply elem_of_app. by left.
    + rewrite !after_app, Haft, <-app_assoc. f_equal. f_equal.
      destruct Hpos as [->|[Hlt Hin]]; [done|].
      by eapply after_new; [eapply holds_sorted|..].
  - rewrite (next_calm w k i es) in Hrun by done.
    destruct (after i es) as [|e rest] eqn:E; simplify_eq/=.
    { exists es, i, seen. rewrite !app_nil_r in *. split_and!; try done. by rewrite E, app_nil_r. }
    pose proof (after_step i e es rest (holds_sorted _ _ _ Hes) E) as Hrest.
    assert (e ∈ after i es) as [Hie Hin]%list_elem_of_filter by (rewrite E; left).
    exists es, e.1, (seen ++ [e]). split_and!; try done.
    + destruct Hes as (s & _ & [_ _ Hids _]). rewrite Forall_forall in Hids. by apply Hids.
    + right. split; [|by apply list_elem_of_fmap_2].
      destruct Hpos as [->|[? _]]; [done|by eapply id_lt_trans].
    + by rewrite fmap_app.
    + by rewrite Haft, Hrest, <-app_assoc.
Qed.

(** ** Properties *)

(** C8.  A subscription misses nothing and repeats nothing.  It starts after
    [i0] on a stream of results; other clients append results, change other
    keys and let time pass, in any order, and it calls [next] any number of
    times.  Then what it was given, followed by what the stream holds after
    its cursor, is exactly what the stream holds after [i0], in order; and
    the next [next] delivers the first result it has not been given yet, or
    nothing if there is none. *)
Theorem subscription_is_exact k block i0 d0 es0 d sub out :
  holds d0 k es0 → id_ok i0 →
  rtc (reader_step k block)
    (d0, {| rs_stream := k; last_event_id := show_id i0 |}, []) (d, sub, out) →
  ∃ es i seen, holds d k es ∧ last_event_id sub = show_id i
    ∧ out = delivered <$> seen ∧ after i0 es = seen ++ after i es
    ∧ ∀ w, calm w → db w = d →
        (run (next sub block) w).1.1 = Ok (delivered <$> head (after i es)).
Proof.
  intros Hes0 Hi0 Hsteps.
  assert (reader_inv k i0 (d, sub, out)) as (es & i & seen & Hes & -> & Hi & _ & -> & Haft).
  { remember (d0, _, []) as s0. remember (d, sub, out) as s1. clear Heqs1.
    assert (reader_inv k i0 s0) as Hinv.
    { subst. exists es0, i0, []. split_and!; try done. by left. }
    clear Heqs0. induction Hsteps as [|s s' s'' Hstep _ IH]; [done|].
    by apply IH; [eapply reader_step_inv]. }
  exists es, i, seen. split_and!; try done. intros w Hw <-.
  rewrite (next_calm w k i es) by done. by destruct (after i es).
Qed.

(** C19.  A publication appends exactly one result.  On a broker that answers,
    [publish_result] adds the result to the end of its stream under an
    identifier above all the others, which it returns; it sets the state of
    the generation, the attempt and, for a terminal result, the terminal
    event; it sets the expiry of both keys (the retention after a terminal
    result, the active time otherwise); and it touches no other key. *)
Theorem publish_result_appends config r (w : world DB) s es h :
  calm w → res_schema_version r = SCHEMA_VERSION →
  stream_at (db w) (result_stream (res_request_id r)) = Some s → results_stream s es →
  id_ok (s_last s) → (fst (s_last s) < u64_max)%N →
  hash_at (db w) (status_key (res_request_id r)) = Some h →
  (0 < result_ttl config r < 2 ^ 52)%N →
  ∃ i d', run (publish_result config r) w = (Ok (show_id i), set_db d' w)
    ∧ Forall (λ e, id_lt e.1 i) es
    ∧ holds d' (result_stream (res_request_id r)) (es ++ [(i, r)])
    ∧ hash_at d' (status_key (res_request_id r)) = Some (status_fields r (show_id i) h)
    ∧ ttl_at d' (result_stream (res_request_id r)) = Some (result_ttl config r * 1000)%N
    ∧ ttl_at d' (status_key (res_request_id r)) = Some (result_ttl config r * 1000)%N
    ∧ ∀ k, k ≠ result_stream (res_request_id r) → k ≠ status_key (res_request_id r) →
        same_key k (db w) d'.
Proof.
  intros Hw Hv Hs Hes Hid Hmax Hh Httl.
  destruct (publish_result_calm config r w s es h Hw Hv Hs Hes Hid Hmax Hh Httl)
    as (i & d' & ? & ? & ? & ? & ? & ? & ? & _). eauto 10.
Qed.

End results.

(** ** Retries *)
Section retries.
Context `{Codec} (s : ResultSubscription) (block : N).

Definition xread : effect := Call (XREAD (as_millis_u64 block) (rs_stream s) (last_event_id s)).

(** Reads that fail, each with its pause and its new connection. *)
Fixpoint failed_reads (es : list error) (backoff : N) : list event :=
  match es with
  | [] => []
  | e :: es => Ev xread (Err e) :: Ev (Sleep backoff) tt :: Ev Connect (Ok tt)
      :: failed_reads es (backoff * 2)
  end.

(** What [next] makes of a reply. *)
Definition read_outcome (reply : Value) : result error (option ResultEntry) * ResultSubscription :=
  match parse_result_reply reply with
  | Err e => (Err e, s)
  | Ok None => (Ok None, s)
  | Ok (Some entry) =>
      (Ok (Some entry), {| rs_stream := rs_stream s; last_event_id := event_id entry |})
  end.

(** The last read: it is answered, it is the last of four, or the connection
    fails after it. *)
Inductive last_read (n : nat) (backoff : N) :
  list event → result error (option ResultEntry) * ResultSubscription → Prop :=
| read_answered reply : last_read n backoff [Ev xread (Ok reply)] (read_outcome reply)
| read_gives_up e : n = 1 → last_read n backoff [Ev xread (Err e)] (Err e, s)
| connect_fails e e' : 1 < n →
    last_read n backoff [Ev xread (Err e); Ev (Sleep backoff) tt; Ev Connect (Err e')] (Err e', s).

Lemma next_loop_traces n backoff t r :
  0 < n → traces (next_loop n backoff block s) t r →
  ∃ es t', length es < n ∧ t = failed_reads es backoff ++ t'
    ∧ last_read (n - length es) (backoff * 2 ^ nlen es) t' r.
Proof.
  revert backoff t. induction n as [|n IH]; intros backoff t Hn; [lia|]. cbn [next_loop].
  intros (reply & t1 & -> & Ht)%traces_bind_perform. fold xread. destruct reply as [reply|e].
  { exists [], (Ev xread (Ok reply) :: t1). split; [simpl; lia|]. split; [done|].
    assert (t1 = [] ∧ r = read_outcome reply) as [-> ->].
    { unfold read_outcome. by destruct (parse_result_reply reply) as [[]|]. }
    constructor. }
  destruct (decide (n = 0)) as [->|Hn0].
  { destruct Ht as [-> ->]. exists [], [Ev xread (Err e)]. split; [simpl; lia|].
    split; [done|]. by constructor. }
  apply traces_bind_perform in Ht as ([] & t2 & -> & Ht).
  apply traces_bind_perform in Ht as ([[]|e'] & t3 & -> & Ht).
  - destruct (IH (backoff * 2)%N t3 ltac:(lia) Ht) as (es & t' & Hes & -> & Hlast).
    exists (e :: es), t'. split; [simpl; lia|]. split; [done|]. simpl length.
    replace (backoff * 2 ^ nlen (e :: es))%N with (backoff * 2 * 2 ^ nlen es)%N; [done|].
    unfold nlen. simpl length. rewrite Nat2N.inj_succ, N.pow_succ_r'. lia.
  - destruct Ht as [-> ->].
    exists [], [Ev xread (Err e); Ev (Sleep backoff) tt; Ev Connect (Err e')].
    split; [simpl; lia|]. split; [done|]. simpl. rewrite N.mul_1_r. constructor. lia.
Qed.

Definition is_read (ev : event) : bool :=
  match ev_effect ev with Call (XREAD _ _ _) => true | _ => false end.
Definition reads (t : list event) : nat := length (filter is_read t).
Definition slept (t : list event) : N :=
  foldr (λ ev z, match ev_effect ev with Sleep ms => ms + z | _ => z end)%N 0%N t.

(** C27.  [next] ends.  It reads at most four times; after each of the first
    three failures it waits (50, 100, 200 ms, 350 ms in all) and connects
    again; it never gets to the end of its loop, the code it calls
    unreachable; its answer is the outcome of its last read, or the error of
    the last read or of the connection after it; and the cursor moves only
    when a result is delivered. *)
Theorem next_ends t r :
  traces (next s block) t r →
  ∃ es t', length es ≤ 3 ∧ t = failed_reads es 50 ++ t'
    ∧ last_read (4 - length es) (50 * 2 ^ nlen es) t' r
    ∧ reads t ≤ 4 ∧ (slept t ≤ 350)%N ∧ length t ≤ 10.
Proof.
  intros Ht. destruct (next_loop_traces 4 50 t r ltac:(lia) Ht) as (es & t' & Hes & -> & Hlast).
  exists es, t'. split; [lia|]. split; [done|]. split; [done|].
  destruct es as [|e1 [|e2 [|e3 [|e4 es]]]]; simpl in Hes, Hlast; [..|lia];
    destruct Hlast; try lia; (repeat split; vm_compute; first [lia | done]).
Qed.
End retries.

(** ** The properties on the reference server *)
Module Witness.
Definition start : world ref_db :=
  {| db := ref_empty 5; clock := 5; uuids := []; responses := []; sched := [] |}.
Definition token : GenerationResult :=
  {| res_schema_version := 1; res_request_id := "r"; res_attempt_id := "a";
     res_event := Some (Token {| text := "hello "; cumulative_generated_tokens := 1 |}) |}.
Definition key : string := result_stream "r".
Definition published : world ref_db := (run (publish_result default_streams_config token) start).2.

Lemma empty_stream_results : results_stream empty_stream [].
Proof. split; by constructor. Qed.
Lemma start_holds : holds (db start) key [].
Proof. exists empty_stream. split; [done|apply empty_stream_results]. Qed.

Lemma publish_result_appends_witness :
  ∃ i d', run (publish_result default_streams_config token) start = (Ok (show_id i), set_db d' start)
    ∧ Forall (λ e : stream_id * GenerationResult, id_lt e.1 i) []
    ∧ holds d' key [(i, token)]
    ∧ hash_at d' (status_key "r") = Some (status_fields token (show_id i) ∅)
    ∧ ttl_at d' key = Some 3600000%N ∧ ttl_at d' (status_key "r") = Some 3600000%N
    ∧ ∀ k, k ≠ key → k ≠ status_key "r" → same_key k (db start) d'.
Proof.
  apply (@publish_result_appends ref_codec ref_codec_laws _ _ _ ref_laws ref_numbers
    default_streams_config token start empty_stream [] ∅); try done.
  apply empty_stream_results.
Defined.

Lemma published_holds es : holds (db start) key es → ∃ new, holds (db published) key (es ++ new).
Proof.
  intros (s & [= <-] & [He _ _ _]). symmetry in He. apply fmap_nil_inv in He as ->.
  destruct (publish_result_calm default_streams_config token start empty_stream [] ∅)
    as (i & d' & Hrun & _ & Hd' & _); try done; [apply empty_stream_results|].
  exists [(i, token)]. unfold published. by rewrite Hrun.
Qed.

Lemma one_read :
  rtc (reader_step key 0)
    (db start, {| rs_stream := key; last_event_id := show_id (0, 0)%N |}, [])
    (db published, {| rs_stream := key; last_event_id := "5-0" |},
     [{| event_id := "5-0"; entry_result := token |}]).
Proof.
  eapply rtc_l; [apply (reader_env _ _ (db start) (db published)); apply published_holds|].
  apply rtc_once.
  apply (reader_next key 0 published published _ _
    (Some {| event_id := "5-0"; entry_result := token |}) []); [done|].
  vm_compute. reflexivity.
Qed.

Lemma subscription_is_exact_witness :
  ∃ es i seen, holds (db published) key es ∧ "5-0" = show_id i
    ∧ [{| event_id := "5-0"; entry_result := token |}] = delivered <$> seen
    ∧ after (0, 0)%N es = seen ++ after i es
    ∧ ∀ w, calm w → db w = db published →
        (run (next {| rs_stream := key; last_event_id := "5-0" |} 0) w).1.1
        = Ok (delivered <$> head (after i es)).
Proof.
  exact (@subscription_is_exact ref_codec ref_codec_laws _ _ _ ref_laws ref_numbers key 0
    (0, 0)%N (db start) [] (db published) {| rs_stream := key; last_event_id := "5-0" |}
    [{| event_id := "5-0"; entry_result := token |}] start_holds
    (conj eq_refl eq_refl) one_read).
Defined.

(** Two reads are lost on the way; the third delivers the result. *)
Definition flaky : world ref_db :=
  {| db := db published; clock := 5; uuids := []; responses := [];
     sched := [ {| t_before := []; t_fate := LostReply ["timed out"] |};
                {| t_before := []; t_fate := Delivered |};
                {| t_before := []; t_fate := Delivered |};
                {| t_before := []; t_fate := LostRequest ["broken pipe"] |} ] |}.
Definition cursor : ResultSubscription := {| rs_stream := key; last_event_id := "0-0" |}.

Lemma next_ends_witness :
  let t := run_trace (next cursor 0) flaky in
  (∃ es t', length es ≤ 3 ∧ t = failed_reads cursor 0 es 50 ++ t'
    ∧ last_read cursor 0 (4 - length es) (50 * 2 ^ nlen es) t'
        (Ok (Some {| event_id := "5-0"; entry_result := token |}),
         {| rs_stream := key; last_event_id := "5-0" |})
    ∧ reads t ≤ 4 ∧ (slept t ≤ 350)%N ∧ length t ≤ 10)
  ∧ reads t = 3 ∧ slept t = 150%N.
Proof.
  split; [|vm_compute; split; reflexivity].
  apply (@next_ends ref_codec cursor 0). 
  assert ((run (next cursor 0) flaky).1 = (Ok (Some {| event_id := "5-0"; entry_result := token |}),
    {| rs_stream := key; last_event_id := "5-0" |})) as <- by (vm_compute; reflexivity).
  apply run_traces.
Defined.
End Witness.
