(* ===== verification/JobQueue.v ===== *)
(** * The job queue: the request stream and its consumer group

    [publish_generation], [consumer], [next_job], [reclaim_stale] and
    [acknowledge] of [Streams] against their abstract specification: a list
    of jobs with increasing identifiers, a cursor up to which they have been
    delivered, and the deliveries that are not yet acknowledged. *)
From stdpp Require Import functions sorting options.
From S2P Require Import Prelude Text Valkey Lua RefServer Snapshot Program Effects Wire RefCodec.
From S2P Require Import StreamLog Replies Streams ResultStream.

#[local] Set Default Proof Using "Type*".

(** ** The specification *)
Record job_queue := {
  jq_jobs : list (stream_id * GenerationJob);
  jq_group : group;
}.
Definition with_jq (q : job_queue) (grp : group) : job_queue :=
  {| jq_jobs := jq_jobs q; jq_group := grp |}.
Definition empty_queue : job_queue := {| jq_jobs := []; jq_group := new_group |}.

(** The jobs nobody has been given yet. *)
Definition waiting (q : job_queue) : list (stream_id * GenerationJob) :=
  after (g_delivered (jq_group q)) (jq_jobs q).
Definition pending (q : job_queue) : list stream_id := pe_id <$> g_pending (jq_group q).

Definition spec_publish (i : stream_id) (job : GenerationJob) (q : job_queue) : job_queue :=
  {| jq_jobs := jq_jobs q ++ [(i, job)]; jq_group := jq_group q |}.

Definition spec_next (consumer : string) (now : N) (q : job_queue)
    : option (stream_id * GenerationJob) * job_queue :=
  match head (waiting q) with
  | None => (None, q)
  | Some e => (Some e, with_jq q (group_deliver consumer now e.1 (jq_group q)))
  end.

Definition job_at (i : stream_id) (q : job_queue) : option (stream_id * GenerationJob) :=
  head (filter (λ e, e.1 = i) (jq_jobs q)).

Definition spec_reclaim (consumer : string) (idle now : N) (q : job_queue)
    : option (stream_id * GenerationJob) * job_queue :=
  match claimable idle now (0, 0)%N (jq_group q) with
  | None => (None, q)
  | Some p => (job_at (pe_id p) q, with_jq q (group_claim consumer now (pe_id p) (jq_group q)))
  end.

Definition spec_ack (i : stream_id) (q : job_queue) : bool * job_queue :=
  (bool_decide (i ∈ pending q), with_jq q (group_ack i (jq_group q))).

(** What the engine is given. *)
Definition consumed (e : stream_id * GenerationJob) : ConsumedJob :=
  {| entry_id := show_id e.1; job := e.2 |}.

(** ** The queue on the broker *)
Section queue.
Context `{CodecLaws}.

Definition job_fields (j : GenerationJob) : list field := [("payload", encode j)].

Record queue_in (s : stream) (q : job_queue) : Prop := {
  q_entries : s_entries s = (λ e, (e.1, job_fields e.2)) <$> jq_jobs q;
  q_group : s_groups s !! REQUEST_GROUP = Some (jq_group q);
  q_sorted : StronglySorted id_lt (jq_jobs q).*1;
  q_ids : ids_upto (s_last s) (jq_jobs q);
  q_schema : Forall (λ e, job_schema_version e.2 = SCHEMA_VERSION) (jq_jobs q);
  q_pending : Forall (λ i, i ∈ (jq_jobs q).*1 ∧ ¬ id_lt (g_delivered (jq_group q)) i) (pending q);
  q_nodup : NoDup (pending q);
  q_cursor : g_delivered (jq_group q) ∈ (0, 0)%N :: (jq_jobs q).*1;
}.

(** A reply that carries one job. *)
Lemma parse_job_entry (e : stream_id * GenerationJob) :
  parse_entry (Some (entry_value (e.1, job_fields e.2))) = Ok (Some (show_id e.1, encode e.2)).
Proof. cbn. unfold from_utf8. by rewrite show_id_utf8, decide_True by done. Qed.

(** A payload that decodes to a job. *)
Ltac decode_job Hs := change (mbind ?f (Ok ?a)) with (f a); cbv beta iota; unfold decode_message;
  rewrite decode_encode; simpl; unfold validate_schema; rewrite Hs; done.

Lemma parse_job_value (e : stream_id * GenerationJob) :
  job_schema_version e.2 = SCHEMA_VERSION →
  parse_job_reply (read_value REQUEST_STREAM (Some (e.1, job_fields e.2)))
  = Ok (Some (consumed e)).
Proof.
  intros Hs. unfold parse_job_reply.
  assert (parse_xread_payload (read_value REQUEST_STREAM (Some (e.1, job_fields e.2)))
    = Ok (Some (show_id e.1, encode e.2))) as -> by exact (parse_job_entry e).
  decode_job Hs.
Qed.

Lemma parse_claim_value cursor (e : stream_id * GenerationJob) :
  job_schema_version e.2 = SCHEMA_VERSION →
  parse_autoclaim_reply (claim_value cursor (Some (e.1, job_fields e.2)))
  = Ok (Some (consumed e)).
Proof.
  intros Hs. unfold parse_autoclaim_reply, claim_value. cbn [lookup list_lookup].
  change (head (entry_value <$> option_list (Some (e.1, job_fields e.2))))
    with (Some (entry_value (e.1, job_fields e.2))).
  rewrite parse_job_entry. decode_job Hs.
Qed.

(** ** The operations on a broker that answers *)
Context {DB : Type} `{ValkeyLaws DB, LuaNumbers} (config : StreamsConfig).

Definition queue_at (q : job_queue) (d : DB) : Prop :=
  ∃ s, stream_at d REQUEST_STREAM = Some s ∧ queue_in s q.

(** The queue after a change of its group. *)
Lemma queue_in_group s q grp :
  queue_in s q →
  Forall (λ i, i ∈ (jq_jobs q).*1 ∧ ¬ id_lt (g_delivered grp) i) (pe_id <$> g_pending grp) →
  NoDup (pe_id <$> g_pending grp) →
  g_delivered grp ∈ (0, 0)%N :: (jq_jobs q).*1 →
  queue_in (with_group s REQUEST_GROUP grp) (with_jq q grp).
Proof.
  intros [] Hp Hnd Hc. split; try done. simpl. by rewrite lookup_insert_eq.
Qed.

Lemma stream_at_obj (d : DB) k s : obj_at d k = Some (OStream s) → stream_at d k = Some s.
Proof. unfold stream_at. by intros ->. Qed.

Lemma first_waiting s q : queue_in s q →
  first_after (g_delivered (jq_group q)) s = (λ e, (e.1, job_fields e.2)) <$> head (waiting q).
Proof. intros Hq. by apply first_after_log, Hq. Qed.

Lemma head_waiting q e : head (waiting q) = Some e →
  e ∈ jq_jobs q ∧ id_lt (g_delivered (jq_group q)) e.1.
Proof.
  unfold waiting, after. intros Hh.
  assert (e ∈ filter (λ e0, id_lt (g_delivered (jq_group q)) e0.1) (jq_jobs q))
    as [??]%list_elem_of_filter; [|done].
  destruct (filter _ (jq_jobs q)); [done|]. injection Hh as ->. left.
Qed.

(** A delivery keeps the queue well formed. *)
Lemma queue_in_deliver s q c now e :
  queue_in s q → head (waiting q) = Some e →
  queue_in (with_group s REQUEST_GROUP (group_deliver c now e.1 (jq_group q)))
    (with_jq q (group_deliver c now e.1 (jq_group q))).
Proof.
  intros Hq [Hin Hlt]%head_waiting. apply queue_in_group; [done|simpl; rewrite fmap_app..|].
  - apply Forall_app. split.
    + eapply Forall_impl; [apply (q_pending _ _ Hq)|]. intros i [Hi Hge].
      split; [done|]. intros Hei. apply Hge. by eapply id_lt_trans.
    + apply Forall_singleton. simpl. split; [by apply list_elem_of_fmap_2|apply id_lt_irrefl].
  - apply NoDup_app. split; [apply (q_nodup _ _ Hq)|]. split; [|apply NoDup_singleton].
    intros i Hi ->%list_elem_of_singleton. pose proof (q_pending _ _ Hq) as Hp.
    rewrite Forall_forall in Hp. by destruct (Hp _ Hi).
  - right. simpl. by apply (list_elem_of_fmap_2 fst).
Qed.

Lemma next_job_refines (w : world DB) c block q :
  calm w → queue_at q (db w) →
  let '(e, q') := spec_next (consumer_name c) (server_time (db w)) q in
  ∃ d', run (next_job c block) w = (Ok (consumed <$> e), set_db d' w)
    ∧ queue_at q' d' ∧ only REQUEST_STREAM (db w) d'.
Proof.
  intros Hw (s & Hs & Hq). unfold spec_next, next_job.
  pose proof (first_waiting s q Hq) as Hf. rewrite (run_call (XREADGROUP _ _ _ _)) by done.
  destruct (head (waiting q)) as [e|] eqn:Hh; simpl in Hf.
  - destruct (exec_xreadgroup_some (db w) REQUEST_GROUP (consumer_name c)
      (as_millis_u64 block) REQUEST_STREAM
      s _ _ Hs (q_group _ _ Hq) Hf) as (d' & He & Ho & _ & Honly).
    rewrite He. exists d'. rewrite parse_job_value; [|by apply head_waiting in Hh as [Hin _];
      pose proof (q_schema _ _ Hq) as Hsch; rewrite Forall_forall in Hsch; auto].
    split; [done|]. split; [|done]. eexists. split; [by apply stream_at_obj|].
    by apply queue_in_deliver.
  - rewrite (exec_xreadgroup_none (db w) _ _ _ _ s _ Hs (q_group _ _ Hq)) by done.
    exists (db w). split; [done|]. split; [by exists s|done].
Qed.

Lemma claimable_pending idle now start grp p :
  claimable idle now start grp = Some p →
  p ∈ g_pending grp ∧ (idle ≤ now - pe_delivered p)%N.
Proof.
  unfold claimable. intros Hh.
  assert (p ∈ filter (λ p, (idle ≤ now - pe_delivered p)%N)
    (take claim_scan (filter (λ p, ¬ id_lt (pe_id p) start) (g_pending grp))))
    as [Hi Hp]%list_elem_of_filter.
  2:{ split; [|done]. apply elem_of_take in Hp as (n & Hn%list_elem_of_lookup_2 & _).
      by apply list_elem_of_filter in Hn as [_ Hn]. }
  destruct (filter _ (take _ _)); [done|]. injection Hh as ->. left.
Qed.

Lemma group_claim_ids c now i grp :
  pe_id <$> g_pending (group_claim c now i grp) = pe_id <$> g_pending grp.
Proof.
  unfold group_claim. simpl. rewrite <-list_fmap_compose. apply list_fmap_ext.
  intros _ p _. simpl. by case_decide.
Qed.

Lemma job_at_in s q i : queue_in s q → i ∈ (jq_jobs q).*1 →
  ∃ j, job_at i q = Some (i, j) ∧ (i, j) ∈ jq_jobs q ∧ (i, job_fields j) ∈ s_entries s.
Proof.
  intros Hq [[i' j] [-> Hin]]%list_elem_of_fmap. exists j.
  assert (∀ l, NoDup l.*1 → (i', j) ∈ l →
    head (filter (λ e : stream_id * GenerationJob, e.1 = i') l) = Some (i', j)) as Hhead.
  { clear. induction l as [|[i0 j0] l IH]; [by intros _ ?%elem_of_nil|].
    rewrite fmap_cons. intros [Hi Hnd]%NoDup_cons [[= -> ->]|Hin]%elem_of_cons.
    - by rewrite filter_cons_True.
    - rewrite filter_cons_False; [auto|]. simpl. intros ->. apply Hi. by apply (list_elem_of_fmap_2 fst _ _ Hin). }
  split; [apply Hhead; [apply sorted_nodup, Hq|done]|]. split; [done|].
  rewrite (q_entries _ _ Hq). by apply (list_elem_of_fmap_2 (λ e, (e.1, job_fields e.2)) _ _ Hin).
Qed.

Lemma reclaim_stale_refines (w : world DB) c idle q :
  calm w → queue_at q (db w) →
  let '(e, q') := spec_reclaim (consumer_name c) (as_millis_u64 idle) (server_time (db w)) q in
  ∃ d', run (reclaim_stale c idle) w = (Ok (consumed <$> e), set_db d' w)
    ∧ queue_at q' d' ∧ only REQUEST_STREAM (db w) d'.
Proof.
  intros Hw (s & Hs & Hq). unfold spec_reclaim, reclaim_stale.
  rewrite (run_call (XAUTOCLAIM _ _ _ _ _)) by done. change "0-0" with (show_id (0, 0)%N).
  assert (id_ok (0, 0)%N) as H00 by done.
  destruct (claimable (as_millis_u64 idle) (server_time (db w)) (0, 0)%N (jq_group q)) as [p|] eqn:Hc.
  - apply claimable_pending in Hc as Hp. destruct Hp as [Hp _].
    pose proof (q_pending _ _ Hq) as Hpend. rewrite Forall_forall in Hpend.
    destruct (Hpend (pe_id p)) as [Hin _]; [by apply list_elem_of_fmap_2|].
    destruct (job_at_in s q (pe_id p) Hq Hin) as (j & -> & Hj & He).
    destruct (exec_xautoclaim_some (db w) REQUEST_STREAM REQUEST_GROUP (consumer_name c)
      (as_millis_u64 idle)
      (0, 0)%N s _ p (job_fields j) H00 Hs (q_group _ _ Hq) Hc He) as (cur & d' & Hx & Ho & _ & Honly).
    { rewrite (q_entries _ _ Hq), <-list_fmap_compose. apply sorted_nodup, Hq. }
    assert (job_schema_version j = SCHEMA_VERSION) as Hv.
    { pose proof (q_schema _ _ Hq) as Hsch. rewrite Forall_forall in Hsch. by apply (Hsch _ Hj). }
    pose proof (parse_claim_value cur (pe_id p, j) Hv) as Hparse.
    change (parse_autoclaim_reply (claim_value cur (Some (pe_id p, job_fields j)))
      = Ok (Some (consumed (pe_id p, j)))) in Hparse.
    rewrite Hx, Hparse.
    exists d'. split; [done|]. split; [|done]. eexists. split; [by apply stream_at_obj|].
    apply queue_in_group; [done|rewrite group_claim_ids; apply Hq..|apply Hq].
  - destruct (exec_xautoclaim_none (db w) REQUEST_STREAM REQUEST_GROUP (consumer_name c)
      (as_millis_u64 idle)
      (0, 0)%N s _ H00 Hs (q_group _ _ Hq) Hc) as (cur & ->).
    exists (db w). split; [done|]. split; [by exists s|done].
Qed.

Lemma group_ack_ids i grp :
  pe_id <$> g_pending (group_ack i grp) = filter (λ j, j ≠ i) (pe_id <$> g_pending grp).
Proof.
  unfold group_ack. simpl. induction (g_pending grp) as [|p l IH]; [done|].
  rewrite filter_cons, fmap_cons, filter_cons. case_decide; [|done]. by rewrite fmap_cons, IH.
Qed.

Lemma acknowledge_refines (w : world DB) i q :
  calm w → queue_at q (db w) → id_ok i →
  let '(b, q') := spec_ack i q in
  ∃ d', run (acknowledge (show_id i)) w = (Ok b, set_db d' w)
    ∧ queue_at q' d' ∧ only REQUEST_STREAM (db w) d'.
Proof.
  intros Hw (s & Hs & Hq) Hi. unfold spec_ack, acknowledge.
  rewrite (run_call (XACK _ _ _)) by done.
  destruct (exec_xack (db w) REQUEST_STREAM REQUEST_GROUP i s _ Hi Hs (q_group _ _ Hq)
    (q_nodup _ _ Hq)) as (d' & -> & Ho & _ & Honly).
  exists d'. split.
  { change (pe_id <$> g_pending (jq_group q)) with (pending q). by case_decide;
      [rewrite bool_decide_eq_true_2|rewrite bool_decide_eq_false_2]. }
  split; [|done]. eexists. split; [by apply stream_at_obj|].
  apply queue_in_group; [done|rewrite group_ack_ids..|apply Hq].
  - apply Forall_forall. intros j [_ Hj]%list_elem_of_filter. pose proof (q_pending _ _ Hq) as Hp.
    rewrite Forall_forall in Hp. by apply Hp.
  - apply NoDup_filter, Hq.
Qed.

(** Room for [n] more jobs before the identifiers run out. *)
Definition queue_room (n : N) (d : DB) : Prop :=
  ∃ s, stream_at d REQUEST_STREAM = Some s ∧ id_ok (s_last s)
    ∧ (N.max (server_time d) (s_last s).1 + n < u64_max)%N.

Definition queued_status (job : GenerationJob) (id : string) (h : gmap string string)
    : gmap string string :=
  hset_fields [("state", "queued"); ("model_id", job_model_id job); ("request_entry_id", id)] h.

Lemma request_status_ne a : REQUEST_STREAM ≠ status_key a.
Proof. intros E. by apply (f_equal (String.get 10)) in E. Qed.

(** The status that is written with it. *)
Lemma queued_does job id h (f : snapshot) :
  let ks := status_key (job_request_id job) in
  cell_hash (f ks) = Some h → (0 < as_secs (active_ttl config) < 2 ^ 52)%N →
  multi_does [HSET ks [("state", "queued"); ("model_id", job_model_id job);
      ("request_entry_id", id)]; EXPIRE ks (as_secs (active_ttl config))] f
    (<[ks := (Some (OHash (queued_status job id h)),
              Some (as_secs (active_ttl config) * 1000)%N)]> f).
Proof.
  intros ks Hh Httl. eapply multi_cons.
  { intros d Hd. destruct (does_hset ks f h [("state", "queued"); ("model_id", job_model_id job);
      ("request_entry_id", id)]) with (db := d) as (m & d' & ? & ?); [done|done|done|eauto]. }
  eapply multi_does_cons; [apply does_expire; [done|by snap_simpl]|].
  intros d Hd. exists d. split; [done|]. intros k'. rewrite (Hd k').
  destruct (decide (k' = ks)) as [->|]; by snap_simpl.
Qed.

Lemma publish_generation_refines (w : world DB) job q h n :
  calm w → job_schema_version job = SCHEMA_VERSION →
  (0 < as_secs (active_ttl config) < 2 ^ 52)%N →
  queue_at q (db w) → queue_room (n + 1) (db w) →
  hash_at (db w) (status_key (job_request_id job)) = Some h →
  ∃ i d', run (publish_generation config job) w = (Ok (show_id i), set_db d' w)
    ∧ queue_at (spec_publish i job q) d' ∧ queue_room n d'
    ∧ id_lt (0, 0)%N i ∧ Forall (λ e, id_lt e.1 i) (jq_jobs q)
    ∧ snap d' (status_key (job_request_id job))
      = (Some (OHash (queued_status job (show_id i) h)), Some (as_secs (active_ttl config) * 1000)%N)
    ∧ (∀ k, k ≠ REQUEST_STREAM → k ≠ status_key (job_request_id job) → same_key k (db w) d')
    ∧ server_time d' = server_time (db w).
Proof.
  intros Hw Hv Httl (s & Hs & Hq) (s0 & Hs0 & Hid & Hroom) Hh.
  assert (s0 = s) as -> by congruence. set (k := status_key (job_request_id job)) in *.
  pose proof (request_status_ne (job_request_id job)) as Hne. fold k in Hne.
  destruct (exec_xadd (db w) REQUEST_STREAM s (job_fields job) Hs ltac:(done) Hid ltac:(lia))
    as (i & d1 & He & Hlt & Hok & Hi & Ho & _ & Honly).
  assert (cell_hash (snap d1 k) = Some h) as Hh1.
  { destruct (Honly k) as [Hk _]; [done|]. unfold snap, cell_hash. simpl.
    unfold hash_at in Hh. by rewrite Hk. }
  pose proof (queued_does job (show_id i) h (snap d1) Hh1 Httl) as Hmulti. fold k in Hmulti.
  destruct (Hmulti d1 (sees_snap d1)) as (d2 & He2 & Hd2).
  exists i, d2. unfold publish_generation.
  assert (validate_schema (job_schema_version job) = Ok ()) as -> by (by rewrite Hv).
  change (try_bind (lift (Ok ())) ?f) with (f ()). cbv beta zeta. fold k.
  rewrite (run_call (XADD REQUEST_STREAM _)) by done. unfold job_fields in He. rewrite He.
  rewrite run_multi by done. change (db (set_db d1 w)) with d1.
  lazymatch type of He2 with ?x = _ => change (exec_multi _ d1) with x end. rewrite He2.
  split; [done|].
  assert (snap d2 REQUEST_STREAM = snap d1 REQUEST_STREAM) as Hsnap
    by (rewrite (Hd2 REQUEST_STREAM); by snap_simpl).
  assert (server_time d2 = server_time (db w)) as Htime.
  { pose proof (exec_multi_time [HSET k [("state", "queued"); ("model_id", job_model_id job);
      ("request_entry_id", show_id i)]; EXPIRE k (as_secs (active_ttl config))] d1) as E2.
    rewrite He2 in E2. simpl in E2. rewrite E2.
    pose proof (exec_time (XADD REQUEST_STREAM [("payload", encode job)]) (db w)) as E1.
    by rewrite He in E1. }
  destruct (log_append (jq_jobs q) i job (s_last s) (q_sorted _ _ Hq) (q_ids _ _ Hq) Hlt Hok)
    as (Hsort & Hids & Hall).
  assert (obj_at d2 REQUEST_STREAM = Some (OStream {| s_entries := s_entries s ++ [(i, job_fields job)];
    s_last := i; s_groups := s_groups s |})) as Ho2.
  { apply (f_equal fst) in Hsnap. simpl in Hsnap. by rewrite Hsnap. }
  split_and!; try done.
  - eexists. split; [by apply stream_at_obj|]. destruct Hq as [Hq1 Hq2 Hq3 Hq4 Hq5 Hq6 Hq7 Hq8].
    split; simpl; try done.
    + by rewrite Hq1, fmap_app.
    + apply Forall_app. split; [done|]. by constructor.
    + eapply Forall_impl; [exact Hq6|]. intros j [Hj Hd]. split; [|done].
      rewrite fmap_app. apply elem_of_app. by left.
    + rewrite fmap_app, app_comm_cons. apply elem_of_app. by left.
  - eexists. split; [by apply stream_at_obj|]. split; [done|]. rewrite Htime. simpl. lia.
  - revert Hlt. unfold id_lt. simpl. lia.
  - rewrite (Hd2 k). by snap_simpl.
  - intros k' H1' H2'. specialize (Hd2 k'). rewrite fn_lookup_insert_ne in Hd2 by done.
    apply pair_equal_spec in Hd2 as [??]. destruct (Honly k' H1'). split; congruence.
Qed.

(** ** Any number of frontends and engines *)

(** What the broker has done, whether or not its answer arrived. *)
Inductive queue_event : Type :=
| Published (e : stream_id * GenerationJob)
| Taken (consumer : string) (e : stream_id * GenerationJob)
| Reclaimed (consumer : string) (e : stream_id * GenerationJob)
| Acked (i : stream_id).

Definition published (ev : queue_event) : option (stream_id * GenerationJob) :=
  match ev with Published e => Some e | _ => None end.
Definition taken (ev : queue_event) : option (stream_id * GenerationJob) :=
  match ev with Taken _ e => Some e | _ => None end.

(** One step: an operation of some client, or a change of other keys with the
    passing of time. *)
Inductive queue_step : DB * list queue_event → DB * list queue_event → Prop :=
| step_publish (w w' : world DB) job i log :
    calm w → queue_room 1 (db w) →
    is_Some (hash_at (db w) (status_key (job_request_id job))) →
    (0 < as_secs (active_ttl config) < 2 ^ 52)%N →
    run (publish_generation config job) w = (Ok (show_id i), w') →
    queue_step (db w, log) (db w', log ++ [Published (i, job)])
| step_next (w w' : world DB) c block r log :
    calm w → run (next_job c block) w = (Ok (consumed <$> r), w') →
    queue_step (db w, log) (db w', log ++ option_list (Taken (consumer_name c) <$> r))
| step_reclaim (w w' : world DB) c idle r log :
    calm w → run (reclaim_stale c idle) w = (Ok (consumed <$> r), w') →
    queue_step (db w, log) (db w', log ++ option_list (Reclaimed (consumer_name c) <$> r))
| step_ack (w w' : world DB) i b log :
    calm w → id_ok i → run (acknowledge (show_id i)) w = (Ok b, w') →
    queue_step (db w, log) (db w', log ++ [Acked i])
| step_env d d' log :
    same_key REQUEST_STREAM d d' → queue_step (d, log) (d', log).

#[local] Instance show_id_inj : Inj (=) (=) show_id.
Proof.
  intros [a b] [c d] E. pose proof (split_show_id (a, b)) as H1'. rewrite E, split_show_id in H1'.
  injection H1' as Hb Ha. simpl in *. apply (inj pretty) in Ha, Hb. congruence.
Qed.
#[local] Instance consumed_inj : Inj (=) (=) consumed.
Proof. intros [i j] [i' j'] E. unfold consumed in E. simpl in E. injection E as E ->.
  apply (inj show_id) in E. congruence. Qed.

(** The history agrees with the queue: the jobs are those that were
    published, the deliveries and the waiting jobs make up the jobs, and a
    delivered job is pending until it is acknowledged. *)
Record history (q : job_queue) (log : list queue_event) : Prop := {
  h_published : jq_jobs q = omap published log;
  h_taken : jq_jobs q = omap taken log ++ waiting q;
  h_pending : ∀ e, e ∈ omap taken log → e.1 ∈ pending q ∨ Acked e.1 ∈ log;
  h_reclaimed : ∀ c e, Reclaimed c e ∈ log →
    e ∈ jq_jobs q ∧ ¬ id_lt (g_delivered (jq_group q)) e.1;
}.

Definition history_inv (s : DB * list queue_event) : Prop :=
  ∃ q, queue_at q s.1 ∧ history q s.2.

Lemma waiting_publish q i job :
  id_lt (0, 0)%N i → Forall (λ e, id_lt e.1 i) (jq_jobs q) →
  g_delivered (jq_group q) ∈ (0, 0)%N :: (jq_jobs q).*1 →
  waiting (spec_publish i job q) = waiting q ++ [(i, job)].
Proof.
  intros H0i Hall Hc. unfold waiting. simpl. rewrite after_app. f_equal.
  unfold after. rewrite filter_cons_True; [done|]. simpl. apply elem_of_cons in Hc as [->|Hc]; [done|].
  apply list_elem_of_fmap in Hc as (e & -> & He). rewrite Forall_forall in Hall. by apply Hall.
Qed.

Lemma queue_at_same q (d d' : DB) : same_key REQUEST_STREAM d d' → queue_at q d → queue_at q d'.
Proof. intros [Ho _] (s & Hs & Hq). exists s. split; [|done]. unfold stream_at in *. by rewrite Ho. Qed.

Lemma omap_app_single {A B} (f : A → option B) l x :
  omap f (l ++ [x]) = omap f l ++ option_list (f x).
Proof. by rewrite omap_app. Qed.

Lemma publish_schema (w w' : world DB) job id :
  run (publish_generation config job) w = (Ok id, w') → job_schema_version job = SCHEMA_VERSION.
Proof. unfold publish_generation, validate_schema. destruct (N.eqb_spec (job_schema_version job) SCHEMA_VERSION); done. Qed.

Lemma waiting_deliver s q c now e :
  queue_in s q → head (waiting q) = Some e →
  waiting q = e :: waiting (with_jq q (group_deliver c now e.1 (jq_group q))).
Proof.
  intros Hq Hh. unfold waiting in *. simpl.
  destruct (after (g_delivered (jq_group q)) (jq_jobs q)) as [|e' rest] eqn:E; [done|].
  injection Hh as ->. f_equal. symmetry. eapply after_step; [apply Hq|exact E].
Qed.

(** A new event leaves the older ones in place. *)
Ltac older := apply elem_of_app; by left.
Ltac history_event := rewrite ?omap_app_single; simpl; rewrite ?app_nil_r.

Lemma history_publish q log i job :
  history q log → waiting (spec_publish i job q) = waiting q ++ [(i, job)] →
  history (spec_publish i job q) (log ++ [Published (i, job)]).
Proof.
  intros [Hpub Htaken Hpend Hrec] Hw. split; history_event.
  - by rewrite Hpub.
  - by rewrite Hw, app_assoc, <-Htaken.
  - intros e [?|?]%Hpend; [by left|right; older].
  - intros c e [[? ?]%Hrec|He%list_elem_of_singleton]%elem_of_app; [|done].
    split; [older|done].
Qed.

Lemma history_take s q log c now e :
  queue_in s q → history q log → head (waiting q) = Some e →
  history (with_jq q (group_deliver c now e.1 (jq_group q))) (log ++ [Taken c e]).
Proof.
  intros Hin [Hpub Htaken Hpend Hrec] Hh. split; history_event.
  - done.
  - etrans; [exact Htaken|]. rewrite <-app_assoc. f_equal. by apply (waiting_deliver s).
  - unfold pending. simpl. rewrite fmap_app.
    intros e' [He|He%list_elem_of_singleton]%elem_of_app.
    + destruct (Hpend _ He); [left|right]; older.
    + left. subst e'. apply elem_of_app. right. by left.
  - intros c' e' [[? Hge]%Hrec|He%list_elem_of_singleton]%elem_of_app; [|done].
    split; [done|]. intros Hlt. apply Hge. apply head_waiting in Hh as [_ ?].
    by eapply id_lt_trans.
Qed.

Lemma history_reclaim s q log c now p e :
  queue_in s q → history q log → p ∈ g_pending (jq_group q) → job_at (pe_id p) q = Some e →
  history (with_jq q (group_claim c now (pe_id p) (jq_group q))) (log ++ [Reclaimed c e]).
Proof.
  intros Hin [Hpub Htaken Hpend Hrec] Hp Hj. split; history_event.
  - done.
  - done.
  - intros e' He. unfold pending. simpl jq_group. rewrite group_claim_ids.
    destruct (Hpend _ He); [by left|right; older].
  - intros c' e' [He|He%list_elem_of_singleton]%elem_of_app; [by eapply Hrec|].
    injection He as -> ->. pose proof (q_pending _ _ Hin) as Hpe. rewrite Forall_forall in Hpe.
    destruct (Hpe (pe_id p)) as [Hi Hnlt]; [by apply list_elem_of_fmap_2|].
    destruct (job_at_in s q (pe_id p) Hin Hi) as (j & Hj' & Hjin & _). rewrite Hj' in Hj.
    by injection Hj as <-.
Qed.

Lemma history_ack q log i :
  history q log → history (with_jq q (group_ack i (jq_group q))) (log ++ [Acked i]).
Proof.
  intros [Hpub Htaken Hpend Hrec]. split; history_event.
  - done.
  - done.
  - intros e He. unfold pending. simpl jq_group. rewrite group_ack_ids.
    destruct (decide (e.1 = i)) as [<-|Hne].
    { right. apply elem_of_app. right. by left. }
    destruct (Hpend _ He); [left|right; older]. by apply list_elem_of_filter.
  - intros c e [He|He%list_elem_of_singleton]%elem_of_app; [by eapply Hrec|done].
Qed.

(** The operation of a step is the one of the specification. *)
Lemma same_answer (r r' : option (stream_id * GenerationJob)) :
  consumed <$> r = consumed <$> r' → r' = r.
Proof. by intros ->%(inj (fmap consumed)). Qed.
Ltac same_run Hrun' Hrun := rewrite Hrun' in Hrun; injection Hrun as Hrun <-;
  first [apply (same_answer (Some _)) in Hrun | apply (same_answer None) in Hrun
        | apply same_answer in Hrun]; subst.

Lemma queue_step_inv s s' : queue_step s s' → history_inv s → history_inv s'.
Proof.
  intros Hstep (q & Hq & Hh).
  destruct Hstep as [w w' job i log Hw Hroom [h Hst] Httl Hrun|w w' c block r log Hw Hrun
    |w w' c idle r log Hw Hrun|w w' i b log Hw Hi Hrun|d d' log Hsame]; cbn [fst snd] in *;
    pose proof Hq as (s & _ & Hin).
  - pose proof (publish_schema _ _ _ _ Hrun) as Hv.
    destruct (publish_generation_refines w job q h 0 Hw Hv Httl Hq Hroom Hst)
      as (j & d' & Hrun' & Hq' & _ & H0' & Hall & _).
    rewrite Hrun' in Hrun. injection Hrun as ->%(inj show_id) <-.
    exists (spec_publish i job q). split; [done|]. apply history_publish; [done|].
    by apply waiting_publish; [..|apply Hin].
  - pose proof (next_job_refines w c block q Hw Hq) as Hn. unfold spec_next in Hn.
    destruct (head (waiting q)) as [e|] eqn:Hhd; destruct Hn as (d' & Hrun' & Hq' & _);
      same_run Hrun' Hrun; eexists; (split; [exact Hq'|]); [|by rewrite app_nil_r].
    by eapply history_take.
  - pose proof (reclaim_stale_refines w c idle q Hw Hq) as Hn. unfold spec_reclaim in Hn.
    destruct (claimable _ _ _ _) as [p|] eqn:Hc; destruct Hn as (d' & Hrun' & Hq' & _);
      same_run Hrun' Hrun; eexists; (split; [exact Hq'|]); [|by rewrite app_nil_r].
    apply claimable_pending in Hc as [Hp _]. pose proof (q_pending _ _ Hin) as Hpe.
    rewrite Forall_forall in Hpe. destruct (Hpe (pe_id p)) as [Hi _]; [by apply list_elem_of_fmap_2|].
    destruct (job_at_in s q (pe_id p) Hin Hi) as (j & Hj & _). rewrite Hj.
    by eapply history_reclaim.
  - pose proof (acknowledge_refines w i q Hw Hq Hi) as Hn. unfold spec_ack in Hn.
    destruct Hn as (d' & Hrun' & Hq' & _). rewrite Hrun' in Hrun. injection Hrun as _ <-.
    eexists. split; [exact Hq'|]. by apply history_ack.
  - exists q. split; [by eapply queue_at_same|done].
Qed.
Lemma queue_steps_inv s s' : rtc queue_step s s' → history_inv s → history_inv s'.
Proof. induction 1 as [|s1 s2 s3 Hstep _ IH]; [done|]. intros Hinv. by eapply IH, queue_step_inv. Qed.

Lemma history_empty : history empty_queue [].
Proof. split; try done; [by intros e ?%elem_of_nil|by intros c e ?%elem_of_nil]. Qed.

(** While the oldest deliveries are young, nothing can be claimed. *)
Lemma not_claimable idle now grp :
  Forall (λ p, now - pe_delivered p < idle)%N (take claim_scan (g_pending grp)) →
  claimable idle now (0, 0)%N grp = None.
Proof.
  intros Hyoung. unfold claimable.
  assert (∀ l : list pending_entry, filter (λ p, ¬ id_lt (pe_id p) (0, 0)%N) l = l) as Hall.
  { induction l as [|p l IH]; [done|]. rewrite filter_cons_True; [by rewrite IH|].
    unfold id_lt. simpl. lia. }
  rewrite Hall. induction Hyoung as [|p l Hp _ IH]; [done|].
  rewrite filter_cons_False; [done|lia].
Qed.

(** The first consumer creates the group; the others find it. *)
Lemma consumer_creates (w : world DB) name :
  calm w → stream_at (db w) REQUEST_STREAM = Some empty_stream →
  ∃ d', run (consumer config name) w
      = (Ok {| jc_config := config; consumer_name := name |}, set_db d' w)
    ∧ queue_at empty_queue d' ∧ only REQUEST_STREAM (db w) d'.
Proof.
  intros Hw Hs. destruct (exec_xgroup_new (db w) REQUEST_STREAM REQUEST_GROUP empty_stream Hs
    eq_refl) as (d' & He & Ho & _ & Honly).
  exists d'. unfold consumer. rewrite run_bind, (run_perform (Call (XGROUP_CREATE _ _ _))), step_calm by done.
  unfold deliver. rewrite He. cbn [broker map_err]. rewrite run_connect by done.
  split; [done|]. split; [|done]. eexists. split; [by apply stream_at_obj|].
  split; try by constructor.
Qed.

Lemma consumer_joins (w : world DB) name q :
  calm w → queue_at q (db w) →
  run (consumer config name) w = (Ok {| jc_config := config; consumer_name := name |}, w).
Proof.
  intros Hw (s & Hs & Hq). unfold consumer. rewrite run_bind, (run_perform (Call (XGROUP_CREATE _ _ _))), step_calm by done.
  unfold deliver. rewrite (exec_xgroup_busy (db w) _ _ s Hs) by by rewrite (q_group _ _ Hq).
  cbn [broker map_err]. destruct w. simpl.
  by rewrite step_calm.
Qed.

(** The reply of [XREADGROUP] is lost on the way. *)
Definition reply_lost (e : error) (w : world DB) : Prop :=
  sched w = [{| t_before := []; t_fate := LostReply e |}].

Lemma next_job_reply_lost (w : world DB) c block q e err :
  reply_lost err w → queue_at q (db w) → head (waiting q) = Some e →
  (run (next_job c block) w).1 = Err err
  ∧ ∃ q', queue_at q' (db (run (next_job c block) w).2)
      ∧ waiting q = e :: waiting q' ∧ e.1 ∈ pending q'.
Proof.
  intros Hw (s & Hs & Hq) Hh. pose proof (first_waiting s q Hq) as Hf. rewrite Hh in Hf.
  destruct (exec_xreadgroup_some (db w) REQUEST_GROUP (consumer_name c)
      (as_millis_u64 block) REQUEST_STREAM
    s _ _ Hs (q_group _ _ Hq) Hf) as (d' & He & Ho & _ & _).
  destruct w as [d ck us rs sch]. unfold reply_lost in Hw. simpl in *. subst sch.
  unfold step_effect. simpl. rewrite He. split; [done|].
  exists (with_jq q (group_deliver (consumer_name c) (server_time d) e.1 (jq_group q))).
  split_and!.
  - eexists. split; [by apply stream_at_obj|]. by apply queue_in_deliver.
  - by eapply waiting_deliver.
  - unfold pending. simpl. rewrite fmap_app. apply elem_of_app. right. by left.
Qed.

(** ** Properties *)

(** C6.  The operations of a consumer implement the queue.  On a broker that
    answers, [next_job] gives the first job of the queue that nobody has been
    given, makes it pending and moves the cursor to it; [reclaim_stale] gives
    the first of the ten oldest deliveries that is old enough, and makes it a
    new delivery of the caller; [acknowledge] tells whether the job was
    pending and makes it not pending; [consumer] leaves an existing group as
    it is.  No other key changes. *)
Theorem job_queue_refines (w : world DB) c q :
  calm w → queue_at q (db w) →
  (∀ block, let '(e, q') := spec_next (consumer_name c) (server_time (db w)) q in
    ∃ d', run (next_job c block) w = (Ok (consumed <$> e), set_db d' w)
      ∧ queue_at q' d' ∧ only REQUEST_STREAM (db w) d')
  ∧ (∀ idle, let '(e, q') := spec_reclaim (consumer_name c) (as_millis_u64 idle) (server_time (db w)) q in
    ∃ d', run (reclaim_stale c idle) w = (Ok (consumed <$> e), set_db d' w)
      ∧ queue_at q' d' ∧ only REQUEST_STREAM (db w) d')
  ∧ (∀ i, id_ok i → let '(b, q') := spec_ack i q in
    ∃ d', run (acknowledge (show_id i)) w = (Ok b, set_db d' w)
      ∧ queue_at q' d' ∧ only REQUEST_STREAM (db w) d')
  ∧ run (consumer config (consumer_name c)) w
    = (Ok {| jc_config := config; consumer_name := consumer_name c |}, w).
Proof.
  intros Hw Hq. split_and!.
  - intros block. by apply next_job_refines.
  - intros idle. by apply reclaim_stale_refines.
  - intros i Hi. by apply acknowledge_refines.
  - by eapply consumer_joins.
Qed.

(** C2.  No job is lost.  Any number of frontends publish, any number of
    engines take, reclaim and acknowledge jobs, other keys change and time
    passes, in any order, from an empty queue on.  Then the jobs in the queue
    are those that were published, in that order; every job is either among
    those that were taken, each once and in that order, or it waits behind
    them; a job that was taken is pending until it is acknowledged; and only
    jobs that were published and taken are reclaimed.  The next [next_job]
    gives the first job that waits; if its reply is lost, the job is pending
    all the same, to be reclaimed. *)
Theorem no_job_is_lost d0 d log :
  queue_at empty_queue d0 → rtc queue_step (d0, []) (d, log) →
  ∃ q, queue_at q d
    ∧ jq_jobs q = omap published log
    ∧ NoDup (omap published log)
    ∧ omap published log = omap taken log ++ waiting q
    ∧ (∀ e, e ∈ omap taken log → e.1 ∈ pending q ∨ Acked e.1 ∈ log)
    ∧ (∀ c e, Reclaimed c e ∈ log → e ∈ omap taken log)
    ∧ (∀ w c block, calm w → db w = d →
        (run (next_job c block) w).1 = Ok (consumed <$> head (waiting q)))
    ∧ (∀ w c block e err, reply_lost err w → db w = d → head (waiting q) = Some e →
        (run (next_job c block) w).1 = Err err
        ∧ ∃ q', queue_at q' (db (run (next_job c block) w).2)
            ∧ waiting q = e :: waiting q' ∧ e.1 ∈ pending q').
Proof.
  intros Hd0 Hsteps.
  assert (history_inv (d, log)) as (q & Hq & Hh).
  { eapply queue_steps_inv; [exact Hsteps|]. exists empty_queue. split; [done|].
    apply history_empty. }
  destruct Hh as [Hpub Htaken Hpend Hrec]. cbn [fst snd] in *. exists q.
  pose proof Hq as (s & _ & Hin). split_and!; try done.
  - rewrite <-Hpub. eapply NoDup_fmap_1. apply sorted_nodup, Hin.
  - by rewrite <-Hpub.
  - intros c e [He Hge]%Hrec. rewrite Htaken in He. apply elem_of_app in He as [|He]; [done|].
    by apply list_elem_of_filter in He as [? _].
  - intros w c block Hw <-. pose proof (next_job_refines w c block q Hw Hq) as Hn.
    unfold spec_next in Hn. destruct (head (waiting q)); by destruct Hn as (d' & -> & _).
  - intros w c block e err Hw <-. by apply next_job_reply_lost.
Qed.

(** C37.  A stale job can stay out of reach.  [reclaim_stale] always starts
    at the beginning of the pending deliveries and ignores the cursor of the
    reply, and the broker looks at ten deliveries for a count of one: while
    the ten oldest are younger than the number of milliseconds that is sent,
    no older one behind them is reclaimed, however long it has been idle. *)
Theorem reclaim_looks_at_ten_entries (w : world DB) c idle q :
  calm w → queue_at q (db w) →
  Forall (λ p, server_time (db w) - pe_delivered p < as_millis_u64 idle)%N
    (take 10 (g_pending (jq_group q))) →
  run (reclaim_stale c idle) w = (Ok None, w).
Proof.
  intros Hw (s & Hs & Hq) Hyoung. unfold reclaim_stale.
  rewrite (run_call (XAUTOCLAIM _ _ _ _ _)) by done. change "0-0" with (show_id (0, 0)%N).
  destruct (exec_xautoclaim_none (db w) REQUEST_STREAM REQUEST_GROUP (consumer_name c)
      (as_millis_u64 idle)
    (0, 0)%N s _ ltac:(done) Hs (q_group _ _ Hq) (not_claimable _ _ _ Hyoung)) as (cur & ->).
  by destruct w.
Qed.
End queue.

(** ** The properties on the reference server *)
Module JobWitness.
Definition job (id : string) : GenerationJob :=
  {| job_schema_version := 1; job_request_id := id; job_model_id := "m"; job_model_revision := "1";
     job_model_endpoint := ""; job_request_json := "{}"; job_deadline_unix_ms := 60000;
     job_reservation_id := ""; job_cache := None |}.

Definition stored (q : job_queue) (last : stream_id) : stream :=
  {| s_entries := (λ e, (e.1, job_fields e.2)) <$> jq_jobs q; s_last := last;
     s_groups := {[REQUEST_GROUP := jq_group q]} |}.
Definition place (q : job_queue) (last : stream_id) (now : N) : world ref_db :=
  {| db := put REQUEST_STREAM (OStream (stored q last)) None (ref_empty now);
     clock := now; uuids := []; responses := []; sched := [] |}.

Lemma place_at q last now :
  StronglySorted id_lt (jq_jobs q).*1 → ids_upto last (jq_jobs q) →
  Forall (λ e, job_schema_version e.2 = SCHEMA_VERSION) (jq_jobs q) →
  Forall (λ i, i ∈ (jq_jobs q).*1 ∧ ¬ id_lt (g_delivered (jq_group q)) i) (pending q) →
  NoDup (pending q) → g_delivered (jq_group q) ∈ (0, 0)%N :: (jq_jobs q).*1 →
  queue_at q (db (place q last now)).
Proof. intros. exists (stored q last). by repeat split. Qed.

(** Three jobs: the first was given out long ago, the second lately, the third waits. *)
Definition three : job_queue :=
  {| jq_jobs := [((1, 0)%N, job "a"); ((1, 1)%N, job "b"); ((7, 0)%N, job "c")];
     jq_group := {| g_delivered := (1, 1)%N;
       g_pending := [ {| pe_id := (1, 0)%N; pe_consumer := "e1"; pe_delivered := 1000 |};
                      {| pe_id := (1, 1)%N; pe_consumer := "e2"; pe_delivered := 50000 |}] |} |}.
Definition c2 : JobConsumer := {| jc_config := default_streams_config; consumer_name := "e2" |}.

Lemma three_at : queue_at three (db (place three (7, 0)%N 60000)).
Proof.
  apply place_at; [repeat constructor; vm_compute; lia..| | | |];
    by apply (bool_decide_unpack _).
Qed.

Lemma job_queue_refines_witness :
  let w := place three (7, 0)%N 60000 in
  (∃ d', run (next_job c2 0) w = (Ok (Some (consumed ((7, 0)%N, job "c"))), set_db d' w)
    ∧ queue_at (spec_next "e2" 60000 three).2 d' ∧ only REQUEST_STREAM (db w) d')
  ∧ (∃ d', run (reclaim_stale c2 30000) w = (Ok (Some (consumed ((1, 0)%N, job "a"))), set_db d' w)
    ∧ queue_at (spec_reclaim "e2" 30000 60000 three).2 d' ∧ only REQUEST_STREAM (db w) d')
  ∧ (∃ d', run (acknowledge "1-1") w = (Ok true, set_db d' w)
    ∧ queue_at (spec_ack (1, 1)%N three).2 d' ∧ only REQUEST_STREAM (db w) d').
Proof.
  destruct (@job_queue_refines ref_codec ref_codec_laws ref_db ref_valkey ref_view ref_laws
    ref_numbers default_streams_config (place three (7, 0)%N 60000) c2 three eq_refl three_at)
    as (Hn & Hr & Ha & _).
  split; [exact (Hn 0%N)|split; [exact (Hr 30000%N)|exact (Ha (1, 1)%N ltac:(done))]].
Defined.

(** A job is published, taken by an engine that dies, and reclaimed a minute
    later; another one is published; the first is acknowledged. *)
Definition c1 : JobConsumer := {| jc_config := default_streams_config; consumer_name := "e1" |}.
Definition w0 : world ref_db := place empty_queue (0, 0)%N 5.
Definition w1 : world ref_db := (run (publish_generation default_streams_config (job "a")) w0).2.
Definition w2 : world ref_db := (run (next_job c1 0) w1).2.
Definition w3 : world ref_db := env_apply w2 (Elapse 60000).
Definition w4 : world ref_db := (run (reclaim_stale c2 30000) w3).2.
Definition w5 : world ref_db := (run (publish_generation default_streams_config (job "b")) w4).2.
Definition w6 : world ref_db := (run (acknowledge (show_id (5, 0)%N)) w5).2.
Definition job_a : stream_id * GenerationJob := ((5, 0)%N, job "a").
Definition job_b : stream_id * GenerationJob := ((60005, 0)%N, job "b").

Lemma answers :
  run (publish_generation default_streams_config (job "a")) w0 = (Ok (show_id (5, 0)%N), w1)
  ∧ run (next_job c1 0) w1 = (Ok (consumed <$> Some job_a), w2)
  ∧ run (reclaim_stale c2 30000) w3 = (Ok (consumed <$> Some job_a), w4)
  ∧ run (publish_generation default_streams_config (job "b")) w4 = (Ok (show_id (60005, 0)%N), w5)
  ∧ run (acknowledge (show_id (5, 0)%N)) w5 = (Ok true, w6).
Proof.
  split_and!; [unfold w1|unfold w2|unfold w4|unfold w5|unfold w6]; apply run_answers;
    vm_compute; reflexivity.
Qed.

Lemma calm_worlds : Forall calm [w0; w1; w3; w4; w5; w6].
Proof. vm_compute. repeat constructor. Qed.

Lemma room_at (w : world ref_db) s k h :
  stream_at (db w) REQUEST_STREAM = Some s → id_ok (s_last s) →
  (N.max (server_time (db w)) (s_last s).1 + 1 < u64_max)%N → hash_at (db w) k = Some h →
  queue_room 1 (db w) ∧ is_Some (hash_at (db w) k).
Proof. intros Hs ?? Hh. split; [by exists s|by exists h]. Qed.

Lemma rooms :
  (queue_room 1 (db w0) ∧ is_Some (hash_at (db w0) (status_key "a")))
  ∧ (queue_room 1 (db w4) ∧ is_Some (hash_at (db w4) (status_key "b"))).
Proof.
  split; (eapply room_at; [vm_compute; reflexivity|done|vm_compute; reflexivity|vm_compute; reflexivity]).
Qed.

Lemma aged : same_key REQUEST_STREAM (db w2) (db w3).
Proof. split; vm_compute; reflexivity. Qed.

Lemma start_at : queue_at empty_queue (db w0).
Proof. apply place_at; by constructor. Qed.

Lemma ttl_ok : (0 < as_secs (active_ttl default_streams_config) < 2 ^ 52)%N.
Proof. done. Qed.
Lemma id_small : id_ok (5, 0)%N.
Proof. done. Qed.
#[local] Opaque w0 w1 w2 w3 w4 w5 w6.

Lemma all_steps :
  rtc (queue_step default_streams_config) (db w0, [])
    (db w6, [Published job_a; Taken "e1" job_a; Reclaimed "e2" job_a; Published job_b; Acked (5, 0)%N]).
Proof.
  destruct answers as (A1 & A2 & A3 & A4 & A5). pose proof calm_worlds as Hcalm.
  rewrite !Forall_cons in Hcalm. destruct Hcalm as (C0 & C1 & C3 & C4 & C5 & _).
  destruct rooms as [[R0 S0] [R4 S4]].
  eapply rtc_l; [exact (step_publish _ w0 w1 (job "a") _ [] C0 R0 S0 ttl_ok A1)|].
  eapply rtc_l; [exact (step_next _ w1 w2 c1 0 (Some job_a) _ C1 A2)|].
  eapply rtc_l; [exact (step_env _ (db w2) (db w3) _ aged)|].
  eapply rtc_l; [exact (step_reclaim _ w3 w4 c2 30000 (Some job_a) _ C3 A3)|].
  eapply rtc_l; [exact (step_publish _ w4 w5 (job "b") _ _ C4 R4 S4 ttl_ok A4)|].
  apply rtc_once. exact (step_ack _ w5 w6 _ true _ C5 id_small A5).
Qed.

Lemma no_job_is_lost_witness :
  ∃ q, queue_at q (db w6) ∧ jq_jobs q = [job_a; job_b] ∧ NoDup [job_a; job_b]
    ∧ [job_a; job_b] = [job_a] ++ waiting q
    ∧ (∀ c block, (run (next_job c block) w6).1 = Ok (consumed <$> head (waiting q))).
Proof.
  destruct (@no_job_is_lost ref_codec ref_codec_laws ref_db ref_valkey ref_view ref_laws
    ref_numbers default_streams_config (db w0) (db w6) _
    start_at all_steps)
    as (q & Hq & Hj & Hnd & Htaken & _ & _ & Hnext & _).
  exists q. split; [exact Hq|split; [exact Hj|split; [exact Hnd|split; [exact Htaken|]]]].
  intros c block. pose proof calm_worlds as Hcalm. rewrite !Forall_cons in Hcalm. apply Hnext; [apply Hcalm|done].
Defined.

(** Ten engines have just reclaimed their jobs; an eleventh job has been idle
    for an hour. *)
Definition eleven : list N := [1; 2; 3; 4; 5; 6; 7; 8; 9; 10; 11]%N.
Definition crowded : job_queue :=
  {| jq_jobs := (λ n, ((n, 0)%N, job (pretty n))) <$> eleven;
     jq_group := {| g_delivered := (11, 0)%N;
       g_pending := (λ n, {| pe_id := (n, 0)%N; pe_consumer := "e" +:+ pretty n;
         pe_delivered := if (n =? 11)%N then 0 else 3590000 |}) <$> eleven |} |}.

Lemma crowded_at : queue_at crowded (db (place crowded (11, 0)%N 3600000)).
Proof.
  apply place_at; [repeat constructor; vm_compute; lia| | | | |];
    apply (bool_decide_unpack _); vm_compute; exact I.
Qed.

Lemma reclaim_looks_at_ten_entries_witness :
  (∃ p, g_pending (jq_group crowded) !! 10 = Some p ∧ (3600000 - pe_delivered p = 3600000)%N)
  ∧ run (reclaim_stale c2 30000) (place crowded (11, 0)%N 3600000)
    = (Ok None, place crowded (11, 0)%N 3600000).
Proof.
  split; [eexists; split; reflexivity|].
  apply (@reclaim_looks_at_ten_entries ref_codec ref_codec_laws ref_db ref_valkey ref_view ref_laws
    ref_numbers (place crowded (11, 0)%N 3600000) c2 30000%N crowded eq_refl crowded_at).
  repeat constructor.
Defined.
End JobWitness.
