(* ===== verification/FrontendProps.v ===== *)
(** * What the frontend promises

    Admission ([admit_and_dispatch]): what a request that gets through has
    passed and what it costs (a rejected one is in [Rejection]).
    Delivery ([stream_generation], [collect_generation]): the frames and the
    response are those of the stored results.  Requests: cursors, API keys,
    the cached prefix, and the request the engine reads back.  [Demo] runs
    the whole system on the reference broker. *)
From Stdlib Require Import Ascii.
From stdpp Require Import sorting options.
From S2P Require Import Prelude Text Valkey Lua RefServer Snapshot TokenBudget Program Effects.
From S2P Require Import Wire RefCodec Json Replies Streams Envelope Engine.
From S2P Require Import EngineStream Frontend StreamLog ResultStream.

#[local] Set Default Proof Using "Type*".

(** ** Small functions *)

(** [trim] never returns surrounding white space, in particular an empty
    string stays empty. *)
Lemma clean_keys_spec keys k : k ∈ clean_keys keys ↔ k ≠ "" ∧ ∃ raw, raw ∈ keys ∧ k = trim raw.
Proof.
  unfold clean_keys. rewrite elem_of_list_to_set, list_elem_of_filter, list_elem_of_fmap.
  split; [intros (? & raw & -> & ?)|intros (? & raw & ? & ->)]; eauto.
Qed.

Lemma parse_show_id i : id_ok i →
  split_once "-" (show_id i) = Some (pretty i.1, pretty i.2)
  ∧ parse_u64 (pretty i.1) = Some i.1 ∧ parse_u64 (pretty i.2) = Some i.2.
Proof.
  intros [H1 H2]. rewrite !parse_u64_pretty by done. split; [|done].
  unfold show_id. rewrite (append_cons "-" ""). rewrite append_nil_l. apply split_once_app.
  assert (∀ n s, char_in "-" s = false → char_in "-" (pretty_N_go n s) = false) as Hgo.
  { intros n. induction (N.lt_wf_0 n) as [n' _ IH]; intros s Hs.
    destruct (decide (n' = 0)%N) as [->|Hn]; [done|].
    rewrite pretty_N_go_step by lia. apply IH; [apply N.div_lt; lia|]. simpl. rewrite Hs, orb_false_r.
    apply bool_decide_eq_false. intros E.
    assert (digit (pretty_N_char (n' `mod` 10)) = Some (n' `mod` 10)%N) as Hd
      by (apply digit_pretty; by apply N.mod_lt).
    by rewrite E in Hd. }
  unfold pretty, pretty_N. case_decide; [done|by apply Hgo].
Qed.

Section admission.
Context `{Codec, SerdeJson, Sha256, HeaderText} (state : AppState).

(** ** Admission *)

(** What [preflight] has established. *)
Lemma preflight_ok h request key model budget :
  preflight state h request = Ok (key, model, budget) →
  bearer_token h = Some key ∧ key ∈ api_keys state ∧ model = mc_id (app_model state)
  ∧ (req_model request = "" ∨ req_model request = model)
  ∧ ∃ prompt, request_prompt request = Ok prompt
    ∧ decide_budget MkApproxTokenCounter (budget_request state model prompt request) = Ok budget
    ∧ admitted budget = true.
Proof.
  unfold preflight, authenticate. destruct (bearer_token h) as [token|]; [|done].
  destruct (decide (token ∈ api_keys state)) as [Hin|]; [|done]. simpl. destruct (request_prompt request) as [prompt|]; [|done].
  simpl. set (m := if decide (req_model request = "") then _ else _).
  destruct (decide (m ≠ _)) as [|Hm]; [done|]. apply dec_stable in Hm.
  destruct (decide_budget _ _) as [b|] eqn:Hb; [|done]. simpl.
  destruct (admitted b) eqn:Ha; [|done]. intros [= <- <- <-].
  split_and!; try done; [|by exists prompt].
  subst m. case_decide; auto.
Qed.

(** The reservation a client asks for. *)
Lemma reserve_quota_trace key p g limits t r :
  traces (reserve_quota key p g limits) t r →
  ∃ id now x,
    t = [Ev NewUuid id; Ev NowMs now;
         Ev (Eval (reserve_script_for id key (now `div` 60000) p g limits)) x]
    ∧ r = match x with
          | Err e => Err (QuotaBroker e)
          | Ok (RInt _) => Err (QuotaBroker ["Response was of incompatible type"])
          | Ok (RInts values) => parse_reservation id values end.
Proof.
  unfold reserve_quota. intros Ht.
  apply traces_bind_perform in Ht as (id & t1 & -> & Ht).
  apply traces_bind_perform in Ht as (now & t2 & -> & Ht).
  apply traces_bind_perform in Ht as (x & t3 & -> & Ht).
  exists id, now, x.
  destruct x as [[z|l]|e]; apply traces_ret in Ht as [-> ->]; done.
Qed.

Lemma parse_reservation_id id l res : parse_reservation id l = Ok res → reservation_id res = id.
Proof. unfold parse_reservation. intros Hr. by repeat case_match; simplify_eq/=. Qed.

(** The publication of a job: all or nothing, as far as the client can see. *)
Definition job_entry (job : GenerationJob) : effect :=
  Call (XADD REQUEST_STREAM [("payload", encode job)]).
Definition queued (config : StreamsConfig) (job : GenerationJob) (id : string) : effect :=
  Multi [HSET (status_key (job_request_id job))
           [("state", "queued"); ("model_id", job_model_id job); ("request_entry_id", id)];
         EXPIRE (status_key (job_request_id job)) (as_secs (active_ttl config))].

Lemma publish_generation_trace config job t r :
  job_schema_version job = SCHEMA_VERSION →
  traces (publish_generation config job) t r →
  (∃ id, t = [Ev (job_entry job) (Ok id); Ev (queued config job id) (Ok tt)] ∧ r = Ok id)
  ∨ (∃ e, r = Err e ∧ (t = [Ev (job_entry job) (Err e)]
       ∨ ∃ id, t = [Ev (job_entry job) (Ok id); Ev (queued config job id) (Err e)])).
Proof.
  intros Hs. unfold publish_generation, validate_schema. rewrite Hs. intros Ht.
  change (try_bind (lift _) ?f) with (f ()) in Ht. cbv beta zeta in Ht.
  apply traces_try_bind in Ht as [(t1 & t2 & id & -> & H1' & Ht)|(e & H1' & ->)];
    apply traces_perform in H1' as ->.
  2:{ right. exists e. split; [done|]. by left. }
  apply traces_try_bind in Ht as [(t3 & t4 & [] & -> & H2' & Ht)|(e & H2' & ->)];
    apply traces_perform in H2' as ->.
  - apply traces_ret in Ht as [-> ->]. left. by exists id.
  - right. exists e. split; [done|]. right. by exists id.
Qed.

(** The events of an admission up to and including the reservation. *)
Definition reservation_events (id key : string) (now : N) (budget : BudgetDecision)
    (x : result error lua_reply) : list event :=
  [Ev NewUuid id; Ev NowMs now;
   Ev (Eval (reserve_script_for id key (now `div` 60000) (prompt_tokens budget)
               (admitted_max_tokens budget) (app_quota state))) x].

(** Every trace of an admission. *)
Lemma admit_trace h request t r :
  traces (admit_and_dispatch state h request) t r →
  match preflight state h request with
  | Err resp => t = [] ∧ r = Err resp
  | Ok (key, model, budget) =>
    ∃ id now x, let reserved := reservation_events id key now budget x in
      (∃ e, t = reserved ∧ r = Err (error_response TOO_MANY_REQUESTS e)
         ∧ ∀ l, x = Ok (RInts l) → is_ok (parse_reservation id l) = false)
      ∨ ∃ l rid now' t',
          x = Ok (RInts l) ∧ is_ok (parse_reservation id l) = true
          ∧ let job := job_for state rid id model budget now' request in
            t = reserved ++ [Ev NewUuid rid; Ev NowMs now'] ++ t'
            ∧ ((∃ entry, t' = [Ev (job_entry job) (Ok entry);
                               Ev (queued (app_streams state) job entry) (Ok tt)]
                  ∧ r = Ok {| ad_request_id := rid; ad_request_entry_id := entry;
                              ad_reservation_id := id; ad_prompt_tokens := prompt_tokens budget |})
               ∨ (∃ t'' y, t' = t'' ++ [Ev (Eval (CancelQuota (reservation_key id))) y]
                  ∧ r = Err (error_response BAD_GATEWAY "failed to dispatch generation")))
  end.
Proof.
  unfold admit_and_dispatch. intros Ht.
  destruct (preflight state h request) as [[[key model] budget]|resp];
    [|by apply traces_ret in Ht].
  change (try_bind (lift (Ok ?a)) ?f) with (f a) in Ht. cbv beta iota zeta in Ht.
  apply traces_try_bind in Ht as [(t1 & t2 & res & -> & H1' & Ht)|(e & H1' & ->)];
    apply traces_bind in H1' as (t3 & t4 & q & -> & Hq & H1');
    apply traces_ret in H1' as [-> Hres]; rewrite app_nil_r;
    apply reserve_quota_trace in Hq as (id & now & x & -> & ->); exists id, now, x.
  2:{ left. destruct x as [[z|l]|e']; simpl in Hres;
        [..|destruct (parse_reservation id l) as [?|e'] eqn:E; [done|]|]; simplify_eq/=;
        eexists; (split; [done|]); (split; [done|]); intros l' Hl; simplify_eq; by rewrite ?E. }
  right. destruct x as [[z|l]|e']; simpl in Hres; try done.
  destruct (parse_reservation id l) as [res'|e'] eqn:E; simpl in Hres; [|done].
  injection Hres as ->.
  apply parse_reservation_id in E as Hid.
  apply traces_bind_perform in Ht as (rid & t5 & -> & Ht).
  apply traces_bind_perform in Ht as (now' & t6 & -> & Ht). cbv zeta in Ht. rewrite Hid in Ht.
  exists l, rid, now', t6. rewrite E. split_and!; [done..|].
  apply traces_bind in Ht as (t7 & t8 & entry & -> & Hp & Ht).
  apply publish_generation_trace in Hp; [|done].
  destruct Hp as [(entry_id & -> & ->)|(e & -> & Hp)].
  - left. apply traces_ret in Ht as [-> ->]. by exists entry_id.
  - right. apply traces_bind in Ht as (t9 & t10 & y & -> & Hc & Ht).
    apply traces_ret in Ht as [-> ->]. rewrite app_nil_r.
    unfold cancel_quota in Hc.
    apply traces_try_bind in Hc as [(t11 & t12 & z & -> & Hc & Hz)|(e' & Hc & _)];
      apply traces_perform in Hc as ->.
    + assert (t12 = []) as ->
        by (apply traces_try_bind in Hz as [(?&?&?&->&Hz&Hz')|(?&Hz&_)]; by trace_inv).
      rewrite app_nil_r. eauto.
    + eauto.
Qed.

Lemma strict_count r d :
  decide_budget MkApproxTokenCounter r = Ok d → br_policy r = StrictReject →
  prompt_tokens d = approx_count_prompt (br_prompt r).
Proof.
  unfold decide_budget, strict_decision. intros Hd Hp. rewrite Hp in Hd.
  by repeat case_match; simplify_eq/=.
Qed.

(** ** Properties of admission *)

(** C12.  What an admitted request has passed, and what it costs.  If
    [admit_and_dispatch] admits a request, then its bearer token is one of
    the configured keys, its model (if it names one) is the configured one,
    and the strict budget decision admitted its prompt; with sizes that fit
    64 bits, prompt and output tokens together fit the context window.  The
    broker saw exactly this: one reservation, against that key's quota, for
    the counted prompt tokens and the granted output tokens; one job, with
    the reservation's identifier, the granted tokens and the deadline; and
    its status. *)
Theorem admitted_request_is_checked h request t ad :
  traces (admit_and_dispatch state h request) t (Ok ad) →
  ∃ key prompt budget id now x rid now' entry,
    let model := mc_id (app_model state) in
    let job := job_for state rid id model budget now' request in
    bearer_token h = Some key ∧ key ∈ api_keys state
    ∧ (req_model request = "" ∨ req_model request = model)
    ∧ request_prompt request = Ok prompt
    ∧ decide_budget MkApproxTokenCounter (budget_request state model prompt request) = Ok budget
    ∧ admitted budget = true
    ∧ ((prompt_weight prompt + mc_max_output_tokens (app_model state) < u64_modulus)%N →
       (prompt_tokens budget + admitted_max_tokens budget
        ≤ mc_context_limit (app_model state))%N
       ∧ (admitted_max_tokens budget ≤ mc_max_output_tokens (app_model state))%N)
    ∧ t = reservation_events id key now budget x
          ++ [Ev NewUuid rid; Ev NowMs now'; Ev (job_entry job) (Ok entry);
              Ev (queued (app_streams state) job entry) (Ok tt)]
    ∧ ad = {| ad_request_id := rid; ad_request_entry_id := entry; ad_reservation_id := id;
              ad_prompt_tokens := prompt_tokens budget |}.
Proof.
  intros Ht. apply admit_trace in Ht.
  destruct (preflight state h request) as [[[key model] budget]|resp] eqn:Hpre;
    [|by destruct Ht].
  apply preflight_ok in Hpre as (Hkey & Hin & -> & Hmodel & prompt & Hprompt & Hb & Hadm).
  destruct Ht as (id & now & x & [(e & _ & [=] & _)|(l & rid & now' & t' & _ & _ & -> &
    [(entry & -> & [= ->])|(t'' & y & _ & [=])])]).
  exists key, prompt, budget, id, now, x, rid, now', entry.
  cbv zeta. split_and!; try done. intros Hsize.
  set (r := budget_request state (mc_id (app_model state)) prompt request) in *.
  assert (requested_tokens r ≤ mc_max_output_tokens (app_model state))%N
    by (unfold requested_tokens; simpl; lia).
  pose proof (strict_count r budget Hb eq_refl) as Hcount. simpl in Hcount.
  pose proof (approx_count_prompt_le prompt). pose proof (approx_count_prompt_pos prompt).
  destruct (decision_within_limit _ r budget Hb Hadm) as (_ & Hm & Hlim & _); [lia..|].
  rewrite Hm in *. by split.
Qed.

End admission.

(** ** Delivery *)
Section delivery.
Context `{CodecLaws, SerdeJson, Sha256, HeaderText} (state : AppState).
Context {DB : Type} `{ValkeyLaws DB, LuaNumbers}.

(** The events a client is shown of a list of results, up to the first
    terminal one, and whether there is one. *)
Fixpoint visible (request_id : string) (es : list ResultEntry) : list GenerationEvent * bool :=
  match es with
  | [] => ([], false)
  | e :: es =>
    match event_for state request_id e with
    | None => visible request_id es
    | Some (ev, true) => ([ev], true)
    | Some (ev, false) => let '(evs, ended) := visible request_id es in (ev :: evs, ended)
    end
  end.

(** The frames of a stream: the visible events, and the time-out if there is
    no terminal one. *)
Definition frames_of (request_id : string) (es : list ResultEntry) : list bytes :=
  let '(evs, ended) := visible request_id es in
  ((λ ev, connect_envelope ev false) <$> evs)
  ++ if ended then [] else [connect_error_envelope request_id "generation timed out"].

(** The response of a list of results: the fold of [collect_entry]. *)
Fixpoint collect_entries (es : list ResultEntry) (text attempt : string) : collected :=
  match es with
  | [] => Aborted (error_response GATEWAY_TIMEOUT "generation timed out")
  | e :: es =>
    match collect_entry (entry_result e) text attempt with
    | inl (text, attempt) => collect_entries es text attempt
    | inr done => done
    end
  end.

Lemma holds_id_ok d k es e : holds d k es → e ∈ es → id_ok e.1.
Proof. intros (s & _ & [_ _ Hi _]). rewrite Forall_forall in Hi. intros He. by apply Hi. Qed.

Lemma after_ids d k es i e rest : holds d k es → after i es = e :: rest →
  id_ok e.1 ∧ after e.1 es = rest.
Proof.
  intros Hes E. split.
  - eapply holds_id_ok; [done|]. assert (e ∈ after i es) as [_ Hin]%list_elem_of_filter
      by (rewrite E; left). done.
  - eapply after_step; [by eapply holds_sorted|done].
Qed.

Lemma stream_loop_calm (w : world DB) k request_id es i fuel :
  calm w → holds (db w) k es → id_ok i → length (after i es) < fuel →
  run (stream_loop state fuel request_id {| rs_stream := k; last_event_id := show_id i |}) w
  = ((frames_of request_id (delivered <$> after i es), true), w).
Proof.
  intros Hw Hes. revert i. induction fuel as [|fuel IH]; intros i Hi Hlen; [lia|].
  cbn [stream_loop]. rewrite run_bind, (next_calm w k i es) by done.
  destruct (after i es) as [|e rest] eqn:E; [done|].
  destruct (after_ids _ _ _ _ _ _ Hes E) as [Hei Hrest].
  rewrite fmap_cons. unfold frames_of. cbn [visible].
  destruct (event_for state request_id (delivered e)) as [[ev []]|] eqn:Hev; [done| |].
  - rewrite run_bind, IH by (done || (rewrite Hrest; simpl in Hlen; lia)). rewrite Hrest.
    unfold frames_of. by destruct (visible request_id (delivered <$> rest)).
  - rewrite IH by (done || (rewrite Hrest; simpl in Hlen; lia)). by rewrite Hrest.
Qed.

Lemma collect_loop_calm (w : world DB) k es i fuel text attempt :
  calm w → holds (db w) k es → id_ok i → length (after i es) < fuel →
  run (collect_loop fuel {| rs_stream := k; last_event_id := show_id i |} text attempt) w
  = (Some (collect_entries (delivered <$> after i es) text attempt), w).
Proof.
  intros Hw Hes. revert i text attempt.
  induction fuel as [|fuel IH]; intros i text attempt Hi Hlen; [lia|].
  cbn [collect_loop]. rewrite run_bind, (next_calm w k i es) by done.
  destruct (after i es) as [|e rest] eqn:E; [done|].
  destruct (after_ids _ _ _ _ _ _ Hes E) as [Hei Hrest].
  rewrite fmap_cons. cbn [collect_entries].
  destruct (collect_entry (entry_result (delivered e)) text attempt) as [[text' attempt']|d];
    [|done].
  rewrite IH by (done || (rewrite Hrest; simpl in Hlen; lia)). by rewrite Hrest.
Qed.

(** Subscribing to a generation that exists. *)
Lemma subscribe_calm (w : world DB) request_id cursor :
  calm w → is_Some (obj_at (db w) (result_stream request_id)) →
  run (subscribe request_id cursor) w
  = (Ok (Some {| rs_stream := result_stream request_id;
                 last_event_id := default "0-0" cursor |}), w).
Proof.
  intros Hw Hs. unfold subscribe.
  rewrite (run_call (EXISTS [result_stream request_id; status_key request_id])) by done.
  rewrite exec_exists. assert (set_db (db w) w = w) as -> by by destruct w.
  rewrite filter_cons_True by done. simpl length.
  assert ((Z.of_nat (S (length (filter (λ k, is_Some (obj_at (db w) k)) [status_key request_id])))
    =? 0)%Z = false) as -> by (apply Z.eqb_neq; lia).
  by rewrite run_connect.
Qed.

(** Its status. *)
Lemma status_calm (w : world DB) request_id h :
  calm w → hash_at (db w) (status_key request_id) = Some h →
  run (status request_id) w = (Ok (parse_status ((λ f, h !! f) <$>
    ["state"; "model_id"; "active_attempt_id"; "terminal_event_id"])), w).
Proof.
  intros Hw Hh. unfold status. rewrite (run_call (HMGET _ _)) by done.
  rewrite (exec_hmget _ _ h) by done. by destruct w.
Qed.

(** The stream of a generation that exists, and what the client reads of it. *)
Lemma stream_generation_calm (w : world DB) request_id cursor i es fuel :
  calm w → holds (db w) (result_stream request_id) es → id_ok i →
  is_Some (obj_at (db w) (result_stream request_id)) → default "0-0" cursor = show_id i →
  length (after i es) < fuel →
  run (stream_generation state fuel request_id cursor) w
  = (stream_response (frames_of request_id (delivered <$> after i es)) true, w).
Proof.
  intros Hw Hes Hi Hs Hc Hfuel. unfold stream_generation.
  rewrite run_bind, subscribe_calm by done. rewrite Hc.
  by rewrite run_bind, (stream_loop_calm w _ request_id es i) by done.
Qed.

Lemma read_frames_of request_id es cs :
  Forall (λ e, slen (encode e) < 2 ^ 32)%N
    (error_event request_id "generation timed out" :: (visible request_id es).1) →
  String.concat "" cs = String.concat "" (frames_of request_id es) →
  read_stream (Ok <$> cs) = if (visible request_id es).2 then Ok (visible request_id es).1
                            else Err ["stream error: generation timed out"].
Proof.
  intros [Herr Hsize]%Forall_cons Hcs. rewrite read_stream_whole, Hcs. unfold frames_of.
  destruct (visible request_id es) as [evs ended]. simpl in *. rewrite concat_nil_app.
  destruct ended.
  - simpl. by rewrite drain_envelopes.
  - rewrite drain_envelopes by done. simpl. rewrite <-(append_nil_r (connect_error_envelope _ _)).
    unfold connect_error_envelope. by rewrite drain_error_envelope.
Qed.

(** ** Properties of delivery *)

(** C9.  A replay is exact.  On a broker that answers, the stream of a
    generation that holds the results [es] is sent, from a cursor [i], as the
    frames of the visible results after [i], in order, up to the first
    terminal one; without a terminal one it ends with the time-out.  And
    however the body is cut into chunks, the smoke-test client reads back
    exactly these events, or the time-out error. *)
Theorem replay_is_exact (w : world DB) request_id i es fuel cs :
  calm w → holds (db w) (result_stream request_id) es → id_ok i →
  is_Some (obj_at (db w) (result_stream request_id)) →
  length (after i es) < fuel →
  let shown := visible request_id (delivered <$> after i es) in
  let frames := frames_of request_id (delivered <$> after i es) in
  run (stream_generation state fuel request_id (Some (show_id i))) w
    = (stream_response frames true, w)
  ∧ (Forall (λ e, slen (encode e) < 2 ^ 32)%N
       (error_event request_id "generation timed out" :: shown.1) →
     String.concat "" cs = String.concat "" frames →
     read_stream (Ok <$> cs) = if shown.2 then Ok shown.1
                               else Err ["stream error: generation timed out"]).
Proof.
  intros Hw Hes Hi Hs Hfuel shown frames. split; [by apply stream_generation_calm|].
  intros Hsize Hcs. by apply read_frames_of.
Qed.

(** An attempt as it is stored: its start, tokens, its completion. *)
Definition is_token (e : ResultEntry) : Prop :=
  ∃ c, res_event (entry_result e) = Some (Token c).
Definition token_text (e : ResultEntry) : string :=
  match res_event (entry_result e) with Some (Token c) => Wire.text c | _ => "" end.

Lemma collect_tokens mid rest text attempt :
  Forall is_token mid →
  collect_entries (mid ++ rest) text attempt
  = collect_entries rest (text +:+ String.concat "" (token_text <$> mid)) attempt.
Proof.
  intros Hmid. revert text. induction Hmid as [|e mid [c Hc] _ IH]; intros text.
  { simpl. by rewrite append_nil_r. }
  simpl app. cbn [collect_entries]. unfold collect_entry. rewrite Hc, IH, fmap_cons, concat_nil_cons.
  unfold token_text at 2. rewrite Hc. by rewrite append_assoc.
Qed.

(** Before the last attempt: no terminal result, and what is remembered of it. *)
Definition not_terminal (e : ResultEntry) : Prop :=
  terminal_event (res_event (entry_result e)) = false.
Definition attempt_after (old : list ResultEntry) (attempt : string) : string :=
  foldl (λ a e, match res_event (entry_result e) with
                | Some AttemptStarted => res_attempt_id (entry_result e) | _ => a end) attempt old.

Lemma collect_old old rest text attempt :
  Forall not_terminal old →
  ∃ text', collect_entries (old ++ rest) text attempt
    = collect_entries rest text' (attempt_after old attempt).
Proof.
  intros Hold. revert text attempt. induction Hold as [|e old He _ IH]; intros text attempt.
  { by exists text. }
  simpl app. cbn [collect_entries attempt_after foldl]. unfold collect_entry.
  unfold not_terminal in He. destruct (res_event (entry_result e)) as [[]|]; try done; apply IH.
Qed.

Lemma collect_attempt old start mid done rest d :
  Forall not_terminal old →
  res_event (entry_result start) = Some AttemptStarted →
  old = [] ∨ attempt_after old "" ∉ [""; res_attempt_id (entry_result start)] →
  Forall is_token mid →
  res_event (entry_result done) = Some (Completed d) →
  collect_entries (old ++ start :: mid ++ done :: rest) "" ""
  = Finished (String.concat "" (token_text <$> mid))
      (done_generated_tokens d) (done_finish_reason d).
Proof.
  intros Hold Hstart Hdiff Hmid Hdone.
  assert (collect_entries (old ++ start :: mid ++ done :: rest) "" ""
    = collect_entries (mid ++ done :: rest) "" (res_attempt_id (entry_result start))) as ->.
  { destruct Hdiff as [->|Hdiff].
    - simpl app. cbn [collect_entries]. unfold collect_entry at 1. rewrite Hstart.
      by case_decide.
    - apply not_elem_of_cons in Hdiff as [Hne [Hd _]%not_elem_of_cons].
      destruct (collect_old old (start :: mid ++ done :: rest) "" "" Hold) as [t ->].
      cbn [collect_entries]. unfold collect_entry at 1. rewrite Hstart.
      by rewrite decide_True by done. }
  rewrite collect_tokens by done. cbn [collect_entries]. unfold collect_entry. rewrite Hdone.
  by rewrite append_nil_l.
Qed.

(** [collect_generation] on a broker that answers. *)
Lemma collect_generation_calm (w : world DB) admission es fuel :
  calm w → holds (db w) (result_stream (ad_request_id admission)) es →
  is_Some (obj_at (db w) (result_stream (ad_request_id admission))) →
  length (after (0, 0)%N es) < fuel →
  run (collect_generation state fuel admission) w
  = (Some match collect_entries (delivered <$> after (0, 0)%N es) "" "" with
          | Finished text n reason => generate_response state admission text n reason
          | Aborted response => response
          end, w).
Proof.
  intros Hw Hes Hs Hfuel.
  unfold collect_generation. rewrite run_bind, subscribe_calm by done. cbn [default].
  rewrite run_bind. change "0-0" with (show_id (0, 0)%N).
  rewrite (collect_loop_calm w _ es (0, 0)%N fuel "" "" Hw Hes (conj eq_refl eq_refl) Hfuel).
  by destruct (collect_entries _ "" "").
Qed.

(** The attempts that start, and the text of the tokens of one attempt. *)
Definition attempt_of (e : ResultEntry) : string := res_attempt_id (entry_result e).
Definition started_by (e : ResultEntry) : option string :=
  match res_event (entry_result e) with
  | Some AttemptStarted => Some (attempt_of e) | _ => None end.
Definition attempts (es : list ResultEntry) : list string := omap started_by es.
Definition text_of (attempt : string) (es : list ResultEntry) : string :=
  String.concat "" (token_text <$> filter (λ e, attempt_of e = attempt) es).

(** No attempt publishes a token after another one has started, and every
    attempt starts once, under a name of its own (engines draw a UUID). *)
Record one_at_a_time (es : list ResultEntry) : Prop := {
  ot_tokens p e s : es = p ++ e :: s → is_token e →
    attempt_of e ∈ attempts p ∧ attempt_of e = attempt_after p "";
  ot_distinct : NoDup (attempts es);
  ot_named : "" ∉ attempts es;
}.

Lemma attempts_snoc es e : attempts (es ++ [e]) = attempts es ++ option_list (started_by e).
Proof. unfold attempts. rewrite omap_app. simpl. by destruct (started_by e). Qed.

Lemma attempt_after_snoc es e a :
  attempt_after (es ++ [e]) a = default (attempt_after es a) (started_by e).
Proof.
  unfold attempt_after. rewrite foldl_app. simpl. unfold started_by, attempt_of.
  by destruct (res_event (entry_result e)) as [[]|].
Qed.

Lemma attempt_after_last es : attempt_after es "" = List.last (attempts es) "".
Proof.
  induction es as [|e es IH] using rev_ind; [done|].
  rewrite attempt_after_snoc, attempts_snoc. destruct (started_by e); simpl.
  - by rewrite last_last.
  - by rewrite app_nil_r.
Qed.

Lemma attempt_after_started es : attempt_after es "" ∈ "" :: attempts es.
Proof.
  induction es as [|e es IH] using rev_ind; [by left|].
  rewrite attempt_after_snoc, attempts_snoc. destruct (started_by e) as [a|]; simpl.
  - right. apply elem_of_app. right. by left.
  - by rewrite app_nil_r.
Qed.

Lemma one_at_a_time_prefix p s : one_at_a_time (p ++ s) → one_at_a_time p.
Proof.
  intros [Ht Hd Hn]. unfold attempts in *. rewrite omap_app in Hd, Hn. split.
  - intros p' e s' -> He. apply (Ht p' e (s' ++ s)); [|done]. by rewrite <-app_assoc.
  - by apply NoDup_app in Hd as (Hd & _).
  - intros Hin. apply Hn, elem_of_app. by left.
Qed.

Lemma one_at_a_time_snoc es e :
  one_at_a_time es →
  (is_token e → attempt_of e ∈ attempts es ∧ attempt_of e = attempt_after es "") →
  (∀ a, started_by e = Some a → a ∉ "" :: attempts es) →
  one_at_a_time (es ++ [e]).
Proof.
  intros [Ht Hd Hn] Htok Hst. split.
  - intros p e' s E. destruct s as [|x s' _] using rev_ind.
    + apply app_inj_tail in E as [<- <-]. exact Htok.
    + rewrite app_comm_cons, app_assoc in E. apply app_inj_tail in E as [-> _]. by eapply Ht.
  - rewrite attempts_snoc. destruct (started_by e) as [a|]; simpl; [|by rewrite app_nil_r].
    specialize (Hst a eq_refl). apply not_elem_of_cons in Hst as [_ Hst].
    apply NoDup_app. split_and!; [done| |apply NoDup_singleton].
    intros x Hx ->%list_elem_of_singleton. done.
  - rewrite attempts_snoc, elem_of_app. intros [?|Hin]; [done|].
    destruct (started_by e) as [a|]; [|by apply elem_of_nil in Hin].
    apply list_elem_of_singleton in Hin as <-. apply (Hst "" eq_refl). by left.
Qed.

(** The condition, decided from left to right. *)
Fixpoint in_order (seen : list string) (current : string) (es : list ResultEntry) : bool :=
  match es with
  | [] => true
  | e :: es =>
    match res_event (entry_result e) with
    | Some AttemptStarted =>
        bool_decide (attempt_of e ∉ "" :: seen) && in_order (seen ++ [attempt_of e]) (attempt_of e) es
    | Some (Token _) =>
        bool_decide (attempt_of e ∈ seen ∧ attempt_of e = current) && in_order seen current es
    | _ => in_order seen current es
    end
  end.

Lemma in_order_one p es :
  one_at_a_time p → in_order (attempts p) (attempt_after p "") es = true → one_at_a_time (p ++ es).
Proof.
  revert p. induction es as [|e es IH]; intros p Hp; [by rewrite app_nil_r|].
  cbn [in_order]. intros Hin. rewrite (app_assoc p [e] es : p ++ e :: es = (p ++ [e]) ++ es). apply IH.
  - apply one_at_a_time_snoc; [done|..].
    + intros [c Hc]. rewrite Hc in Hin. apply andb_true_iff in Hin as [Hin _]. by apply bool_decide_eq_true in Hin.
    + unfold started_by. intros a. destruct (res_event (entry_result e)) as [[]|]; try done.
      intros [= <-]. apply andb_true_iff in Hin as [Hin _]. by apply bool_decide_eq_true in Hin.
  - rewrite attempts_snoc, attempt_after_snoc. unfold started_by.
    destruct (res_event (entry_result e)) as [[]|]; simpl; rewrite ?app_nil_r; by bool_to_prop.
Qed.

Lemma in_order_ok es : in_order [] "" es = true → one_at_a_time es.
Proof.
  apply (in_order_one []). split; [|apply NoDup_nil_2|by apply not_elem_of_nil].
  intros p e s E. by destruct p.
Qed.

Lemma token_text_other e : ¬ is_token e → token_text e = "".
Proof.
  unfold is_token, token_text. destruct (res_event (entry_result e)) as [[|c| |]|]; try done.
  intros Hno. destruct Hno. by exists c.
Qed.

Lemma text_of_snoc a es e :
  text_of a (es ++ [e]) = text_of a es +:+ if decide (attempt_of e = a) then token_text e else "".
Proof.
  unfold text_of. rewrite filter_app, fmap_app, concat_nil_app. f_equal.
  case_decide; [by rewrite filter_cons_True|by rewrite filter_cons_False].
Qed.

(** An attempt that has not started has no tokens. *)
Lemma text_of_unstarted a es : one_at_a_time es → a ∉ attempts es → text_of a es = "".
Proof.
  induction es as [|e es IH] using rev_ind; [done|]. intros Hone Ha.
  rewrite text_of_snoc, IH.
  - case_decide as He; [|done]. rewrite append_nil_l. apply token_text_other. intros Htok.
    destruct (ot_tokens _ Hone es e [] eq_refl Htok) as [Hin _]. apply Ha.
    rewrite attempts_snoc, elem_of_app. left. congruence.
  - by eapply one_at_a_time_prefix.
  - rewrite attempts_snoc, elem_of_app in Ha. tauto.
Qed.

(** The fold of [collect_entry], before the end of the generation. *)
Lemma collect_one_at_a_time es rest :
  Forall not_terminal es → one_at_a_time es →
  collect_entries (es ++ rest) "" ""
  = collect_entries rest (text_of (attempt_after es "") es) (attempt_after es "").
Proof.
  revert rest. induction es as [|e es IH] using rev_ind; intros rest; [done|].
  intros [Hes [He _]%Forall_cons]%Forall_app Hone.
  pose proof (one_at_a_time_prefix _ _ Hone) as Hone'.
  rewrite <-app_assoc, IH by done. simpl app. cbn [collect_entries].
  rewrite attempt_after_snoc, text_of_snoc. unfold not_terminal in He. unfold collect_entry.
  destruct (res_event (entry_result e)) as [[|c| |]|] eqn:Ee; try done;
    assert (token_text e = match res_event (entry_result e) with
      | Some (Token c) => Wire.text c | _ => "" end) as -> by done; rewrite Ee.
  - assert (started_by e = Some (attempt_of e)) as Hst by (unfold started_by; by rewrite Ee).
    rewrite Hst. cbn [default from_option id].
    pose proof (ot_distinct _ Hone) as Hd. pose proof (ot_named _ Hone) as Hn.
    rewrite attempts_snoc, Hst in Hd, Hn. simpl option_list in Hd, Hn.
    apply NoDup_app in Hd as (_ & Hd & _).
    assert (attempt_of e ∉ attempts es) as Hnew by (intros Hin; apply (Hd _ Hin); by left).
    rewrite (text_of_unstarted (attempt_of e)), append_nil_l by done.
    rewrite (decide_True (P := attempt_of e = attempt_of e)) by done.
    unfold attempt_of at 1. case_decide as Hc; [done|].
    assert (attempt_after es "" = "") as ->.
    { destruct (decide (attempt_after es "" = "")) as [|Hne]; [done|]. destruct Hc.
      split; [done|]. intros E. pose proof (attempt_after_started es) as Hin.
      apply elem_of_cons in Hin as [|Hin]; [done|]. apply Hnew. unfold attempt_of. congruence. }
    rewrite text_of_unstarted; [done..|]. intros Hin. apply Hn, elem_of_app. by left.
  - destruct (ot_tokens _ Hone es e [] eq_refl) as [_ Ha]; [by exists c|].
    assert (started_by e = None) as -> by (unfold started_by; by rewrite Ee).
    simpl default. by rewrite decide_True by done.
  - assert (started_by e = None) as -> by (unfold started_by; by rewrite Ee).
    simpl default. case_decide; by rewrite append_nil_r.
Qed.

(** C17.  A generation is collected from its last attempt.  If the results
    before the completion are those of attempts that ran one after the other
    (no attempt publishes a token once another one has started), whatever
    number of them was abandoned, the response has exactly the text of the
    tokens of the attempt that started last, in order, and the completion's
    count and reason.  Without that condition the collector mixes attempts,
    as [stale_attempt_is_mixed_in] shows. *)
Theorem collected_text_is_last_attempt (w : world DB) admission es fuel run_up done rest d :
  calm w → holds (db w) (result_stream (ad_request_id admission)) es →
  is_Some (obj_at (db w) (result_stream (ad_request_id admission))) →
  length (after (0, 0)%N es) < fuel →
  delivered <$> after (0, 0)%N es = run_up ++ done :: rest →
  Forall not_terminal run_up → one_at_a_time run_up →
  res_event (entry_result done) = Some (Completed d) →
  run (collect_generation state fuel admission) w
  = (Some (generate_response state admission (text_of (List.last (attempts run_up) "") run_up)
             (done_generated_tokens d) (done_finish_reason d)), w).
Proof.
  intros Hw Hes Hs Hfuel Haft Hrun Hone Hdone.
  rewrite (collect_generation_calm w admission es fuel) by done.
  rewrite Haft, collect_one_at_a_time by done. cbn [collect_entries]. unfold collect_entry.
  rewrite Hdone. by rewrite attempt_after_last.
Qed.

End delivery.

(** ** A stale attempt *)
Definition started (a : string) : GenerationResult :=
  {| res_schema_version := 1; res_request_id := "r"; res_attempt_id := a;
     res_event := Some AttemptStarted |}.
Definition said (a s : string) (n : N) : GenerationResult :=
  {| res_schema_version := 1; res_request_id := "r"; res_attempt_id := a;
     res_event := Some (Token {| text := s; cumulative_generated_tokens := n |}) |}.
Definition finished (a : string) (n : N) : GenerationResult :=
  {| res_schema_version := 1; res_request_id := "r"; res_attempt_id := a;
     res_event := Some (Completed {| done_prompt_tokens := 1; done_generated_tokens := n;
                                     done_finish_reason := "stop" |}) |}.
(** The results with the identifiers 1-0, 2-0, ... *)
Definition numbered (rs : list GenerationResult) : list ResultEntry :=
  imap (λ n r, {| event_id := show_id (N.of_nat n + 1, 0)%N; entry_result := r |}) rs.

(** A stale attempt's tokens are mixed in.  Engine "a" loses its lease
    (its heartbeat only logs that) and goes on publishing; engine "b" starts
    over and completes with one token.  Whatever the texts are, the response
    is "b"'s token followed by the token "a" published in between, although
    the completion counts one token: the collector looks at an event's
    attempt only when an attempt starts. *)
Theorem stale_attempt_is_mixed_in old new late :
  collect_entries
    (numbered [started "a"; said "a" old 1; started "b"; said "b" new 1; said "a" late 2;
               finished "b" 1]) "" ""
  = Finished (new +:+ late) 1 "stop".
Proof. simpl. by rewrite append_nil_l. Qed.

(** ** Requests *)

(** Cursors.  The check of [after_event_id] accepts every identifier the
    broker can return; it also accepts texts that no identifier is written
    as, such as "+1-+2", which go to the broker as they are. *)
Theorem cursor_check_is_permissive :
  (∀ i, id_ok i → valid_stream_id (show_id i) = true)
  ∧ valid_stream_id "+1-+2" = true ∧ (∀ i, show_id i ≠ "+1-+2").
Proof.
  split; [|split; [done|]].
  - intros i Hi. destruct (parse_show_id i Hi) as (Hsplit & H1 & H2).
    unfold valid_stream_id. rewrite Hsplit, H1, H2. done.
  - intros i Hi. unfold show_id in Hi.
    assert (∃ c s, pretty i.1 = String c s ∧ is_Some (digit c)) as (c & s & E & Hc).
    { unfold pretty, pretty_N. case_decide; [by do 2 eexists|].
      destruct (pretty_N_go_head i.1 "") as (c & s & -> & ?); [lia|eauto]. }
    rewrite E, append_cons in Hi. injection Hi as -> _. by destruct Hc.
Qed.

(** C35.  Who can authenticate.  A request is authenticated only by a bearer
    token that is, after trimming, one of the comma-separated values of
    [API_KEYS], or one of the configured keys when [API_KEYS] is not set;
    and never by the empty token. *)
Theorem authenticated_by_configured_key `{HeaderText} env config h key :
  authenticate (app_state env config) h = Ok key →
  bearer_token h = Some key ∧ key ≠ ""
  ∧ ∃ raw, key = trim raw
      ∧ match env "API_KEYS" with
        | Some keys => raw ∈ split_char "," keys
        | None => raw ∈ sc_api_keys config
        end.
Proof.
  unfold authenticate, app_state, api_keys_from_env. simpl.
  destruct (bearer_token h) as [token|]; [|done].
  case_decide as Hin; [|done]. intros [= <-]. split; [done|].
  destruct (env "API_KEYS") as [keys|]; simpl in Hin;
    apply clean_keys_spec in Hin as (Hne & raw & Hraw & Hk); (split; [done|]); by exists raw.
Qed.

(** ** The prefix that is cached *)

(** The characters of a text, encoded again, are the text's characters. *)
Lemma chars_take s n : valid_utf8 s = true →
  valid_utf8 (collect_chars (take n (chars s))) = true
  ∧ chars (collect_chars (take n (chars s))) = take n (chars s)
  ∧ ∃ rest, s = collect_chars (take n (chars s)) +:+ rest.
Proof.
  revert n. induction s as [s IH] using string_len_ind. intros n Hv.
  destruct (decide (s = "")) as [->|Hne]; [destruct n; split_and!; by try exists ""|].
  destruct (valid_utf8_inv s Hv Hne) as (e & cp & rest & Hs & Hlen & Hsc & Hscan & Hr).
  destruct n as [|n]; [split_and!; [done..|by exists s]|].
  assert (chars s = (e, cp) :: chars rest) as -> by (unfold chars; by rewrite Hscan).
  simpl take. unfold collect_chars. rewrite fmap_cons, concat_nil_cons.
  fold (collect_chars (take n (chars rest))). cbn [fst].
  destruct (IH rest Hlen n Hr) as (Hv' & Hc' & tl & Htl). split_and!.
  - unfold valid_utf8. rewrite Hsc. by simpl.
  - unfold chars at 1. rewrite Hsc. cbn [omap list_omap]. fold (chars (collect_chars (take n (chars rest)))).
    by rewrite Hc'.
  - exists tl. rewrite Hs at 1. rewrite Htl at 1. by rewrite append_assoc.
Qed.

Lemma take_chars_whole s n : valid_utf8 s = true → length (chars s) ≤ n →
  collect_chars (take n (chars s)) = s.
Proof. intros Hv Hn. rewrite take_ge by done. by apply collect_chars_chars. Qed.

(** C34.  The prefix that keys the cache.  For a request whose text is UTF-8
    (a protobuf string always is), [prompt_prefix] is UTF-8, of at most 4096
    characters, and a prefix of the text; it is the whole text when that has
    at most 4096 characters; and two requests have the same prefix exactly
    when their texts have the same first 4096 characters. *)
Theorem cached_prefix_is_exact request :
  valid_utf8 (rendered request) = true →
  let prefix := prompt_prefix request in
  valid_utf8 prefix = true ∧ length (chars prefix) ≤ 4096
  ∧ (∃ rest, rendered request = prefix +:+ rest)
  ∧ (length (chars (rendered request)) ≤ 4096 → prefix = rendered request)
  ∧ ∀ request', valid_utf8 (rendered request') = true →
      prompt_prefix request' = prefix ↔
      take 4096 (chars (rendered request')) = take 4096 (chars (rendered request)).
Proof.
  intros Hv prefix. unfold prefix, prompt_prefix, MAX_PREFIX_CHARS.
  destruct (chars_take _ 4096 Hv) as (Hv' & Hc & rest & Hrest). split_and!.
  - done.
  - rewrite Hc, length_take. apply Nat.le_min_l.
  - by exists rest.
  - intros Hlen. by apply take_chars_whole.
  - intros request' Hv1. destruct (chars_take _ 4096 Hv1) as (_ & Hc' & _).
    split; [|by intros ->]. intros E. by rewrite <-Hc', <-Hc, E.
Qed.

(** ** From the frontend to the engine *)
Section handover.
Context `{SerdeJsonLaws, Sha256} (state : AppState).

(** The conversation a prompt stands for, as the model server is sent it. *)
Definition conversation (prompt : Prompt) : list json :=
  match prompt with
  | PText t => [message_json {| role := "user"; content := t |}]
  | PChat ms => message_json <$> ms
  end.
Definition prompt_text (prompt : Prompt) : string :=
  match prompt with
  | PText t => t
  | PChat ms => String.concat newline (content <$> ms)
  end.

Lemma message_contents (ms : list ChatMessage) :
  omap (λ m, get "content" m ≫= as_str) (message_json <$> ms) = content <$> ms.
Proof. induction ms as [|m ms IH]; [done|]. exact (f_equal (cons (content m)) IH). Qed.

(** The text the engine reads is the prompt's. *)
Lemma received_prompt request prompt model max_tokens :
  request_prompt request = Ok prompt →
  extract_prompt (received (runtime_request model max_tokens request)) = prompt_text prompt.
Proof.
  intros Hp. unfold request_prompt in Hp. unfold runtime_request, extract_prompt, received.
  destruct (req_messages request) as [|m ms] eqn:Hm.
  - destruct (decide (req_prompt request = "")) as [|Hne]; [done|]. by injection Hp as <-.
  - injection Hp as <-. unfold chat_messages. rewrite Hm.
    cbn [rr_messages fr_messages option_map prompt_text]. f_equal. apply message_contents.
Qed.

(** C18.  The engine runs the request that was admitted.  The two crates
    declare the request separately; what the frontend's serializer writes
    into a job, the engine's visitor reads as a request for the admitted
    number of tokens, with the temperature that was written, whose
    conversation, sent to the model server, is the one the budget was decided
    on and whose text is the prompt's, provided that the temperature is
    finite.  A NaN or an infinity, which the frontend does not refuse, is
    written as null, and the engine's visitor rejects the job. *)
Theorem dispatched_request_is_read_back request prompt rid reservation model budget now :
  request_prompt request = Ok prompt →
  let job := job_for state rid reservation model budget now request in
  if finite_f32 (req_temperature request) then
    ∃ r, request_from_slice (job_request_json job) = Ok r
      ∧ rr_model r = model ∧ rr_max_tokens r = admitted_max_tokens budget
      ∧ rr_temperature r = f32_of_number (json_of_f32 (req_temperature request))
      ∧ extract_prompt r = prompt_text prompt
      ∧ get "messages" (request_payload r) = Some (JArray (conversation prompt))
  else request_from_slice (job_request_json job)
       = Err (json_error (job_request_json job) (InvalidType JNull "f32")).
Proof.
  intros Hp job. set (fr := runtime_request model (admitted_max_tokens budget) request).
  destruct (finite_f32 (req_temperature request)) eqn:Hf; [|by apply (request_not_finite fr)].
  exists (received fr). split; [by apply request_roundtrip|]. do 3 (split; [done|]).
  split; [by apply received_prompt|].
  unfold request_prompt in Hp. unfold fr, runtime_request.
  destruct (req_messages request) as [|m ms] eqn:Hm.
  - destruct (decide (req_prompt request = "")) as [|Hne]; [done|]. by injection Hp as <-.
  - injection Hp as <-. unfold chat_messages. by rewrite Hm.
Qed.
End handover.

(** ** The whole system on the reference broker

    A request is admitted, an engine that crashes publishes part of an
    answer, another one runs the job, and the frontend collects it. *)
Module Demo.
Definition serde : SerdeJson := canned "request" (JObject [("model", JString "m");
  ("prompt", JString "hello world"); ("max_tokens", JU64 3); ("temperature", JU64 0)]).
#[local] Existing Instance serde.
Definition hex : Sha256 := λ b, b.
#[local] Existing Instance hex.
Definition header_text : HeaderText := Some.
#[local] Existing Instance header_text.

Definition model : ModelConfig :=
  {| mc_id := "m"; mc_revision := "main"; mc_endpoint := ""; mc_context_limit := 100;
     mc_default_max_tokens := 10; mc_max_output_tokens := 50 |}.
Definition config (requests : Z) : ServiceConfig :=
  {| sc_model := model; sc_api_keys := [" key "; ""];
     sc_quota := {| requests_per_minute := Z.to_N requests; prompt_tokens_per_minute := 100;
                    generated_tokens_per_minute := 100 |};
     sc_streams := default_stream_settings |}.
Definition no_env (name : string) : option string := None.
Definition state : AppState := app_state no_env (config 2).
Definition h : headers :=
  λ name, if decide (name = "authorization") then Some "Bearer key" else None.
Definition request : GenerateRequest :=
  {| req_model := ""; req_messages := []; req_prompt := "hello world"; req_max_tokens := 3;
     req_temperature := 0 |}.
Definition engine_config : EngineConfig :=
  {| backend := Synthetic; ec_model := "m"; ec_endpoint := ""; synthetic_token_delay := 5 |}.

Definition start : world ref_db :=
  {| db := ref_empty 60000; clock := 60000; uuids := ["q1"; "r1"; "a1"]; responses := [];
     sched := [] |}.
Definition result_of (attempt : string) (e : Event) : GenerationResult :=
  {| res_schema_version := 1; res_request_id := "r1"; res_attempt_id := attempt;
     res_event := Some e |}.
Definition token (s : string) (n : N) : Event :=
  Token {| text := s; cumulative_generated_tokens := n |}.

(** The crashed attempt and the one that completes. *)
Definition system : prog (result error ()) :=
  let streams := app_streams state in
  _ ← admit_and_dispatch state h request;
  _ ?← publish_result streams (result_of "a0" AttemptStarted);
  _ ?← publish_result streams (result_of "a0" (token "Gen" 1));
  c ?← consumer streams "engine-1";
  _ ?← engine_round streams engine_config 90 "engine-1" c;
  mret (Ok ()).
Definition final : world ref_db := (run system start).2.

Definition admission : Admission :=
  {| ad_request_id := "r1"; ad_request_entry_id := "60000-0"; ad_reservation_id := "q1";
     ad_prompt_tokens := 3 |}.
Definition stored_old : list (stream_id * GenerationResult) :=
  [((60000, 0)%N, result_of "a0" AttemptStarted);
   ((60000, 1)%N, result_of "a0" (token "Gen" 1))].
Definition stored_tokens : list (stream_id * GenerationResult) :=
  [((60000, 3)%N, result_of "a1" (token "Generated " 1));
   ((60005, 0)%N, result_of "a1" (token "response " 2));
   ((60010, 0)%N, result_of "a1" (token "for: " 3))].
Definition usage : GenerationCompleted :=
  {| done_prompt_tokens := 2; done_generated_tokens := 3; done_finish_reason := "stop" |}.
Definition start_entry := ((60000, 2)%N, result_of "a1" AttemptStarted).
Definition done_entry := ((60015, 0)%N, result_of "a1" (Completed usage)).
Definition stored : list (stream_id * GenerationResult) :=
  stored_old ++ start_entry :: stored_tokens ++ [done_entry].

Lemma final_exists : is_Some (obj_at (db final) (result_stream "r1")).
Proof. vm_compute. by eexists. Qed.
Lemma final_calm : calm final.
Proof. vm_compute. reflexivity. Qed.
Lemma final_holds : holds (db final) (result_stream "r1") stored.
Proof.
  destruct (stream_at (db final) (result_stream "r1")) as [s|] eqn:E; [|by vm_compute in E].
  exists s. split; [done|].
  assert (s_entries s = (λ e, (e.1, result_fields e.2)) <$> stored) as He.
  { revert E. vm_compute. by intros [= <-]. }
  assert (s_last s = (60015, 0)%N) as Hl.
  { revert E. vm_compute. by intros [= <-]. }
  split; [done| | |by repeat constructor].
  - repeat first [apply SSorted_nil | apply SSorted_cons | apply Forall_nil_2
      | apply Forall_cons_2]; apply (bool_decide_unpack _); vm_compute; done.
  - rewrite Hl. apply (bool_decide_unpack _). vm_compute. done.
Qed.

(** The response of the whole run, computed. *)
Example collected_response :
  (run (collect_generation state 10 admission) final).1
  = Some (generate_response state admission "Generated response for: " 3 "stop").
Proof. vm_compute. reflexivity. Qed.

Lemma collected_text_is_last_attempt_witness :
  run (collect_generation state 10 admission) final
  = (Some (generate_response state admission "Generated response for: " 3 "stop"), final).
Proof.
  refine (@collected_text_is_last_attempt ref_codec ref_codec_laws state
    ref_db ref_valkey ref_view ref_laws ref_numbers final admission stored 10
    (delivered <$> stored_old ++ start_entry :: stored_tokens)
    (delivered done_entry) [] usage final_calm final_holds final_exists _ eq_refl _ _ eq_refl).
  - vm_compute. lia.
  - by repeat constructor.
  - apply in_order_ok. vm_compute. reflexivity.
Defined.

(** The body of the replay, in chunks of which one cuts a frame's header. *)
Definition frames : list bytes := frames_of state "r1" (delivered <$> after (60005, 0)%N stored).
Definition chunks : list bytes :=
  [take_bytes 3 (String.concat "" frames); drop_bytes 3 (String.concat "" frames)].

Lemma replay_is_exact_witness :
  run (stream_generation state 10 "r1" (Some "60005-0")) final
    = (stream_response frames true, final)
  ∧ read_stream (Ok <$> chunks)
    = Ok (visible state "r1" (delivered <$> after (60005, 0)%N stored)).1.
Proof.
  destruct (@replay_is_exact ref_codec ref_codec_laws state ref_db ref_valkey ref_view ref_laws
    ref_numbers final "r1" (60005, 0)%N stored 10 chunks final_calm final_holds
    (conj eq_refl eq_refl) final_exists) as [Hrun Hread]; [vm_compute; lia|].
  split; [exact Hrun|]. apply Hread.
  - apply (bool_decide_unpack _). vm_compute. done.
  - vm_compute. reflexivity.
Defined.

Definition dispatch (state : AppState) : prog (result Response Admission) :=
  admit_and_dispatch state h request.

Lemma admitted_request_is_checked_witness :
  ∃ key prompt budget id now x rid now' entry,
    let job := job_for state rid id "m" budget now' request in
    bearer_token h = Some key ∧ key ∈ api_keys state
    ∧ (req_model request = "" ∨ req_model request = "m")
    ∧ request_prompt request = Ok prompt
    ∧ decide_budget MkApproxTokenCounter (budget_request state "m" prompt request) = Ok budget
    ∧ admitted budget = true
    ∧ ((prompt_weight prompt + 50 < u64_modulus)%N →
       (prompt_tokens budget + admitted_max_tokens budget ≤ 100)%N
       ∧ (admitted_max_tokens budget ≤ 50)%N)
    ∧ run_trace (dispatch state) start = reservation_events state id key now budget x
          ++ [Ev NewUuid rid; Ev NowMs now'; Ev (job_entry job) (Ok entry);
              Ev (queued (app_streams state) job entry) (Ok tt)]
    ∧ admission = {| ad_request_id := rid; ad_request_entry_id := entry;
                     ad_reservation_id := id; ad_prompt_tokens := prompt_tokens budget |}.
Proof.
  refine (@admitted_request_is_checked ref_codec serde hex header_text state h request
    (run_trace (dispatch state) start) admission _).
  replace (Ok admission) with (run (dispatch state) start).1 by by vm_compute.
  apply run_traces.
Defined.

Lemma authenticated_by_configured_key_witness :
  bearer_token h = Some "key" ∧ "key" ≠ ""
  ∧ ∃ raw, "key" = trim raw ∧ raw ∈ [" key "; ""].
Proof.
  exact (@authenticated_by_configured_key header_text no_env (config 2) h "key" eq_refl).
Defined.

Lemma cached_prefix_is_exact_witness :
  let prefix := prompt_prefix request in
  valid_utf8 prefix = true ∧ length (chars prefix) ≤ 4096
  ∧ (∃ rest, rendered request = prefix +:+ rest)
  ∧ (length (chars (rendered request)) ≤ 4096 → prefix = rendered request)
  ∧ ∀ request', valid_utf8 (rendered request') = true →
      prompt_prefix request' = prefix ↔
      take 4096 (chars (rendered request')) = take 4096 (chars (rendered request)).
Proof. exact (cached_prefix_is_exact request eq_refl). Defined.

Lemma cursor_check_is_permissive_witness : valid_stream_id "60015-0" = true.
Proof. exact (proj1 cursor_check_is_permissive (60015, 0)%N (conj eq_refl eq_refl)). Defined.

(** A serializer that satisfies [SerdeJsonLaws]. *)
Definition ref_serde : SerdeJson := {|
  json_from_str := toy_json; json_to_string := ref_json_print;
  json_of_f32 b := if finite_f32 b then JNumber (pretty b) else JNull;
  value_of_f32 b := if finite_f32 b then JNumber (pretty b) else JNull;
  json_from_slice := ref_json_parse;
  f32_of_number v := match v with
    | JU64 n => n | JNumber s => default 0%N (parse_u64 s) | _ => 0%N end;
  json_error _ _ := "invalid type" |}.
Lemma ref_serde_laws : @SerdeJsonLaws ref_serde.
Proof.
  split.
  - intros v _. apply ref_json_roundtrip.
  - intros b Hb. exists (pretty b). cbn [json_of_f32 ref_serde]. by rewrite Hb.
  - intros b Hb. cbn [json_of_f32 ref_serde]. by rewrite Hb.
Qed.

Definition some_budget : BudgetDecision :=
  {| admitted := true; reason := ""; bd_model := "m"; prompt_tokens := 3;
     requested_max_tokens := 3; admitted_max_tokens := 3; available_generation_tokens := 97;
     truncated_messages := 0; bd_prompt := PText "hello world" |}.
Lemma dispatched_request_is_read_back_witness :
  ∃ r, @request_from_slice ref_serde
      (job_request_json (@job_for ref_serde hex state "r1" "q1" "m" some_budget 60000 request))
      = Ok r
    ∧ rr_model r = "m" ∧ rr_max_tokens r = 3%N
    ∧ rr_temperature r = @f32_of_number ref_serde (JNumber "0")
    ∧ extract_prompt r = "hello world"
    ∧ get "messages" (@request_payload ref_serde r)
      = Some (JArray (conversation (PText "hello world"))).
Proof.
  exact (@dispatched_request_is_read_back ref_serde ref_serde_laws hex state request
    (PText "hello world") "r1" "q1" "m" some_budget 60000 eq_refl).
Defined.
End Demo.
