(* ===== verification/Served.v ===== *)
(** * A job from end to end

    The whole path of a generation on a broker that answers: the engine runs
    the job ([Engine.run_job]), the frontend collects its results
    ([Frontend.collect_generation]).  The theorems compose the publication
    of results ([ResultStream]), the lease, the quota scripts ([Quota]) and
    the collector ([FrontendProps]). *)
From stdpp Require Import functions sorting options.
From S2P Require Import Prelude Text Valkey Lua RefServer Snapshot Program Effects Wire RefCodec.
From S2P Require Import Json Replies Streams Engine Quota Frontend StreamLog ResultStream EngineProps.
From S2P Require Import FrontendProps.

#[local] Set Default Proof Using "Type*".

(** Two keys that differ in a letter of their prefixes. *)
Ltac keys_differ n := let E := fresh in
  intros E; apply (f_equal (String.get n)) in E; discriminate E.

Lemma lease_result_ne a b : lease_key a ≠ result_stream b. Proof. keys_differ 10. Qed.
Lemma lease_status_ne a b : lease_key a ≠ status_key b. Proof. keys_differ 10. Qed.
Lemma lease_reservation_ne a b : lease_key a ≠ reservation_key b. Proof. keys_differ 10. Qed.
Lemma reservation_result_ne a b : reservation_key a ≠ result_stream b. Proof. keys_differ 13. Qed.
Lemma reservation_status_ne a b : reservation_key a ≠ status_key b. Proof. keys_differ 10. Qed.

Section quota_keys.
Context `{Sha256} (key : string) (bucket : N).
Definition requests_counter : string := quota_prefix key bucket +:+ ":requests".
Definition prompt_counter : string := quota_prefix key bucket +:+ ":prompt".
Definition generated_counter : string := quota_prefix key bucket +:+ ":generated".

Lemma counter_result_ne a : generated_counter ≠ result_stream a. Proof. keys_differ 10. Qed.
Lemma counter_status_ne a : generated_counter ≠ status_key a. Proof. keys_differ 10. Qed.
Lemma counter_lease_ne a : generated_counter ≠ lease_key a. Proof. keys_differ 10. Qed.

Lemma quota_keys_distinct id :
  NoDup [requests_counter; prompt_counter; generated_counter; reservation_key id].
Proof.
  assert (∀ s, reservation_key id ≠ quota_prefix key bucket +:+ s) as Hne by (intros s; keys_differ 10).
  unfold requests_counter, prompt_counter, generated_counter.
  repeat (apply NoDup_cons; split); try apply NoDup_nil_2;
    repeat first [apply not_elem_of_nil | apply not_elem_of_cons; split];
    intros E; first [by apply (inj (String.append _)) in E | by apply (Hne _ (eq_sym E))].
Qed.
End quota_keys.

(** ** The engine's operations on a broker that answers *)
Section served.
Context `{CodecLaws, SerdeJson, Sha256, HeaderText}.
Context {DB : Type} `{ValkeyLaws DB, LuaNumbers, !LuaNumberLaws}.
Context (sconf : StreamsConfig) (config : EngineConfig) (job : GenerationJob).
Abbreviation rid := (job_request_id job).

(** The configured times are not zero and fit the server's integers. *)
Record times_ok : Prop := {
  active_ok : (0 < as_secs (active_ttl sconf) < 2 ^ 52)%N;
  retention_ok : (0 < as_secs (result_retention sconf) < 2 ^ 52)%N;
  lease_ok : (0 < lease_duration sconf < 2 ^ 62)%N;
}.
Context (Htimes : times_ok).

Lemma result_ttl_ok r : (0 < result_ttl sconf r < 2 ^ 52)%N.
Proof. unfold result_ttl. destruct Htimes. by case_match. Qed.

Lemma publish_event_generation (w : world DB) attempt e es h n :
  calm w → generation rid es h (n + 1) (db w) →
  ∃ i d', run (publish_event sconf job attempt e) w = (Ok tt, set_db d' w)
    ∧ generation rid (es ++ [(i, result_for job attempt e)])
        (status_fields (result_for job attempt e) (show_id i) h) n d'
    ∧ frame rid (db w) d' ∧ is_Some (obj_at d' (result_stream rid)).
Proof.
  intros Hw Hg.
  destruct (publish_result_generation sconf (result_for job attempt e) w es h n)
    as (i & d' & Hrun & Hg' & Hf & Hs); [done..|apply result_ttl_ok|].
  exists i, d'. split; [|done]. unfold publish_event. by rewrite run_try_bind, Hrun.
Qed.

(** Some results more, none of them terminal. *)
Definition more (attempt : string) (events : list Event) (es : list (stream_id * GenerationResult))
    (n : N) (d d' : DB) : Prop :=
  ∃ new h', new.*2 = result_for job attempt <$> events
    ∧ generation rid (es ++ new) h' n d' ∧ frame rid d d'.

Lemma publish_words_generation (w : world DB) attempt i words es h n :
  synthetic_token_delay config = 0%N →
  calm w → generation rid es h (n + nlen words) (db w) →
  ∃ d', run (publish_words sconf config job attempt i words) w = (Ok tt, set_db d' w)
    ∧ more attempt (word_tokens i words) es n (db w) d'.
Proof.
  intros Hdelay. revert i w es h. induction words as [|word words IH]; intros i w es h Hw Hg.
  { exists (db w). assert (set_db (db w) w = w) as -> by by destruct w. split; [done|].
    exists [], h. rewrite app_nil_r. change (nlen []) with 0%N in Hg. rewrite N.add_0_r in Hg.
    split; [done|]. split; [done|apply frame_refl]. }
  cbn [publish_words]. rewrite run_try_bind.
  set (e := Token {| text := word +:+ " "; cumulative_generated_tokens := wadd i 1 |}).
  destruct (publish_event_generation w attempt e es h (n + nlen words))
    as (j & d1 & Hrun & Hg1 & Hf1 & _); [done| |].
  { replace (n + nlen words + 1)%N with (n + nlen (word :: words))%N; [done|].
    unfold nlen. simpl. lia. }
  unfold publish_token. fold e. rewrite Hrun, Hdelay. cbv beta iota. rewrite N.eqb_refl.
  change (run (mret () ≫= λ _, ?p) ?v) with (run p v).
  destruct (IH (i + 1)%N (set_db d1 w) _ _ Hw Hg1) as (d' & Hrun' & new & h' & Hnew & Hg' & Hf').
  exists d'. rewrite Hrun'. split; [done|].
  exists ((j, result_for job attempt e) :: new), h'.
  rewrite word_tokens_cons, !fmap_cons, Hnew. split; [done|].
  rewrite <-app_assoc in Hg'. split; [done|]. by eapply frame_trans.
Qed.

(** The synthetic attempt. *)
Lemma execute_attempt_generation (w : world DB) attempt request es h n :
  backend config = Synthetic → synthetic_token_delay config = 0%N →
  job_model_id job = ec_model config →
  request_from_slice (job_request_json job) = Ok request →
  calm w → generation rid es h (n + nlen (synthetic_words request) + 1) (db w) →
  ∃ d', run (execute_attempt sconf config job attempt) w
      = (Ok {| usage_prompt_tokens := estimate_tokens (extract_prompt request);
               usage_generated_tokens := nlen (synthetic_words request);
               usage_finish_reason := "stop" |}, set_db d' w)
    ∧ more attempt (AttemptStarted :: word_tokens 0 (synthetic_words request)) es n (db w) d'.
Proof.
  intros Hb Hdelay Hm Hr Hw Hg. unfold execute_attempt. rewrite decide_False by (by intros []).
  rewrite Hr. change (try_bind (lift (map_err ?g (Ok ?a))) ?f) with (f a). cbv beta.
  rewrite run_try_bind.
  destruct (publish_event_generation w attempt AttemptStarted es h _ Hw Hg)
    as (i & d1 & Hrun & Hg1 & Hf1 & _).
  rewrite Hrun, Hb. unfold stream_synthetic. rewrite run_try_bind, run_try_bind.
  destruct (publish_words_generation (set_db d1 w) attempt 0 (synthetic_words request) _ _ n
    Hdelay Hw Hg1) as (d' & Hrun' & new & h' & Hnew & Hg' & Hf').
  rewrite Hrun'. exists d'. split; [done|].
  exists ((i, result_for job attempt AttemptStarted) :: new), h'.
  rewrite !fmap_cons, Hnew. rewrite <-app_assoc in Hg'. split; [done|].
  split; [done|]. by eapply frame_trans.
Qed.

(** One key has a new value, the others are as before. *)
Definition updated (k : string) (o : option obj) (d d' : DB) : Prop :=
  obj_at d' k = o ∧ only k d d'.

Lemma acquire_free (w : world DB) owner :
  calm w → obj_at (db w) (lease_key rid) = None →
  ∃ d', run (acquire_lease sconf rid owner) w = (Ok true, set_db d' w)
    ∧ updated (lease_key rid) (Some (OString owner)) (db w) d'
    ∧ server_time d' = server_time (db w).
Proof.
  intros Hw Hfree. unfold acquire_lease. rewrite as_millis_small by apply Htimes.
  rewrite (run_call (SET_NX_PX _ _ _)) by done.
  pose proof (exec_time (SET_NX_PX (lease_key rid) owner (lease_duration sconf)) (db w)) as Ht.
  destruct (exec_set_nx_free (db w) (lease_key rid) owner (lease_duration sconf))
    as (d' & He & Ho & _ & Honly); [apply Htimes|done|].
  rewrite He in *. exists d'. done.
Qed.

(** A script that succeeds, from the client. *)
Lemma eval_calm {A} s (w : world DB) (f : lua_reply → prog (result error A)) Q :
  calm w → lua_wp (script_body s) (snap (db w)) Q →
  ∃ r d' f', run (try_bind (perform (Eval s)) f) w = run (f r) (set_db d' w)
    ∧ sees d' f' ∧ Q r f' ∧ server_time d' = server_time (db w).
Proof.
  intros Hw Hwp. destruct (wp_run _ (db w) Q Hwp) as (r & d' & f' & Hr & Hs & HQ).
  exists r, d', f'. rewrite run_eval by done.
  pose proof (run_lua_time (script_body s) (db w)) as Ht. rewrite Hr in *. done.
Qed.

Lemma release_held (w : world DB) owner :
  calm w → obj_at (db w) (lease_key rid) = Some (OString owner) →
  ∃ d', run (release_lease rid owner) w = (Ok tt, set_db d' w)
    ∧ updated (lease_key rid) None (db w) d' ∧ server_time d' = server_time (db w).
Proof.
  intros Hw Hheld. set (k := lease_key rid) in *.
  destruct (eval_calm (ReleaseLease k owner) w (λ r, _ ?← lift (as_int r); mret (Ok tt))
    (λ r f', (∃ z, r = RInt z) ∧ f' = <[k := (None, None)]> (snap (db w))))
    as (r & d' & f' & Hrun & Hs & [[z ->] ->] & Ht); [done| |].
  { cbn [script_body]. unfold release_lease_lua. apply wp_bind. wp_command.
    { apply does_get. right. exists owner. unfold snap. by rewrite Hheld. }
    cbv beta iota. rewrite decide_True by done. apply wp_bind. wp_command; [apply does_del|].
    apply wp_ret. eauto. }
  exists d'. unfold release_lease. fold k. rewrite Hrun. split; [done|]. split; [|done]. split.
  - rewrite (sees_obj _ _ k Hs). by rewrite fn_lookup_insert.
  - intros k' Hne. unfold same_key.
    by rewrite (sees_obj _ _ k' Hs), (sees_ttl _ _ k' Hs), !fn_lookup_insert_ne by done.
Qed.

(** ** The settlement *)
Abbreviation reservation := (reservation_key (job_reservation_id job)).

(** The job's reservation is open, for [g] tokens of a counter that is at [z]. *)
Record open_reservation (key : string) (bucket : N) (g z : Z) (d : DB) : Prop := {
  open_hash : ∃ h p, hash_at d reservation = Some h
    ∧ reservation_hash (requests_counter key bucket) (prompt_counter key bucket)
        (generated_counter key bucket) h p g;
  open_counter : counter_at d (generated_counter key bucket) z;
  open_small : small g ∧ small z;
}.

(** It has been settled for [actual] tokens. *)
Record settled_reservation (key : string) (bucket : N) (g z actual : Z) (d : DB) : Prop := {
  settled_hash : ∃ h, hash_at d reservation = Some h ∧ h !! "status" = Some "reconciled"
    ∧ h !! "actual_generated" = Some (pretty actual);
  settled_counter : counter_at d (generated_counter key bucket) (z - Z.max (g - actual) 0)%Z;
}.

Lemma hash_at_cell (d : DB) k : hash_at d k = cell_hash (snap d k).
Proof. done. Qed.

Lemma pretty_of_N (n : N) : pretty (Z.of_N n) = pretty n.
Proof. by destruct n. Qed.

Lemma reconcile_open (w : world DB) key bucket g z (actual : N) :
  calm w → open_reservation key bucket g z (db w) → small (Z.of_N actual) →
  ∃ n d', run (reconcile_quota (job_reservation_id job) actual) w = (Ok n, set_db d' w)
    ∧ settled_reservation key bucket g z (Z.of_N actual) d'
    ∧ (∀ k, k ≠ reservation → k ≠ generated_counter key bucket → same_key k (db w) d')
    ∧ server_time d' = server_time (db w).
Proof.
  intros Hw [(hr & p & Hh & Hres) Hz [Hg Hsz]] Ha.
  set (k3 := generated_counter key bucket) in *. set (f := snap (db w)).
  pose proof (quota_keys_distinct key bucket (job_reservation_id job)) as Hkeys.
  assert (k3 ≠ reservation) as Hne.
  { intros E. do 2 apply NoDup_cons in Hkeys as [_ Hkeys].
    apply NoDup_cons in Hkeys as [Hkeys _]. apply Hkeys. fold k3. rewrite E. left. }
  destruct (eval_calm (ReconcileQuota reservation (pretty actual)) w
    (λ r, refunded ?← lift (as_int r); mret (Ok (clamp refunded)))
    (λ r f', (∃ n, r = RInt n) ∧ ∀ k, f' k =
       reconciled_snapshot k3 reservation hr z (Z.of_N actual) (refund_amount g (Z.of_N actual)) f k))
    as (r & d' & f' & Hrun & Hs & [[n ->] Hf'] & Ht); [done| |].
  { cbn [script_body]. rewrite <-pretty_of_N.
    eapply (reconcile_wp _ _ _ _ Hkeys); [done..|]. intros f' Hf'. split; [by eexists|done]. }
  exists (clamp n), d'. unfold reconcile_quota. rewrite Hrun. split; [done|].
  assert (∀ k, snap d' k = reconciled_snapshot k3 reservation hr z (Z.of_N actual)
    (refund_amount g (Z.of_N actual)) f k) as Hsnap by (intros k; by rewrite (Hs k), Hf').
  clear Hf' Hs Hrun. unfold reconciled_snapshot in Hsnap. split; [split| split; [|done]].
  - eexists. rewrite hash_at_cell, Hsnap, fn_lookup_insert. split; [reflexivity|].
    by unfold hset_fields, reconciled_fields; simpl; simplify_map_eq.
  - specialize (Hsnap k3). rewrite fn_lookup_insert_ne in Hsnap by done.
    unfold counter_at in *. fold k3. fold (refund_amount g (Z.of_N actual)).
    destruct (0 <? refund_amount g (Z.of_N actual))%Z eqn:E.
    + rewrite fn_lookup_insert in Hsnap. apply (f_equal fst) in Hsnap. simpl in Hsnap.
      by rewrite Hsnap.
    + apply (f_equal fst) in Hsnap. simpl in Hsnap. rewrite Hsnap.
      assert (refund_amount g (Z.of_N actual) = 0%Z) as ->
        by (unfold refund_amount in *; apply Z.ltb_ge in E; lia).
      by rewrite Z.sub_0_r.
  - intros k Hk1 Hk3. specialize (Hsnap k). rewrite fn_lookup_insert_ne in Hsnap by done.
    case_match; [rewrite fn_lookup_insert_ne in Hsnap by done|];
      apply pair_equal_spec in Hsnap as [H1' H2']; by split.
Qed.

(** ** Frames *)
Lemma generation_same es h n (d d' : DB) :
  generation rid es h n d → same_key (result_stream rid) d d' → same_key (status_key rid) d d' →
  server_time d' = server_time d → generation rid es h n d'.
Proof.
  intros [(s & Hs & Hes) Hpos Hh (s0 & Hs0 & Hroom)] [Hr _] [Hst _] Ht. split.
  - exists s. split; [unfold stream_at in *; by rewrite Hr|done].
  - done.
  - unfold hash_at in *. by rewrite Hst.
  - exists s0. split; [unfold stream_at in *; by rewrite Hr|]. by rewrite Ht.
Qed.

Lemma open_reservation_same key bucket g z (d d' : DB) :
  open_reservation key bucket g z d → same_key reservation d d' →
  same_key (generated_counter key bucket) d d' → open_reservation key bucket g z d'.
Proof.
  intros [(h & p & Hh & Hr) Hz Hs] [H1' _] [H2' _]. split; [|by unfold counter_at in *; rewrite H2'|done].
  exists h, p. split; [|done]. unfold hash_at in *. by rewrite H1'.
Qed.

Lemma settled_reservation_same key bucket g z actual (d d' : DB) :
  settled_reservation key bucket g z actual d → same_key reservation d d' →
  same_key (generated_counter key bucket) d d' → settled_reservation key bucket g z actual d'.
Proof.
  intros [(h & Hh & Hr) Hz] [H1' _] [H2' _]. split; [|by unfold counter_at in *; rewrite H2'].
  exists h. split; [|done]. unfold hash_at in *. by rewrite H1'.
Qed.

(** The keys of a job are distinct. *)
Create HintDb keys.
#[local] Hint Resolve lease_result_ne lease_status_ne lease_reservation_ne reservation_result_ne
  reservation_status_ne counter_result_ne counter_status_ne counter_lease_ne : keys.

Lemma only_same k k' (d d' : DB) : only k d d' → k' ≠ k → same_key k' d d'.
Proof. auto. Qed.
#[local] Hint Resolve only_same : keys.
#[local] Hint Extern 1 (_ ≠ _) => apply not_eq_sym; solve [auto with keys nocore] : keys.

(** ** Running a job *)

(** A queued job, as an engine finds it: its deadline has not passed, its
    model is loaded, nobody holds its lease, its reservation is open, and it
    is not completed. *)
Record queued_job (request : RuntimeRequest) (attempt : string)
    (es : list (stream_id * GenerationResult)) (key : string) (bucket : N) (g z : Z)
    (w : world DB) : Prop := {
  q_calm : calm w;
  q_uuid : head (uuids w) = Some attempt;
  q_deadline : (job_deadline_unix_ms job = 0 ∨ clock w ≤ job_deadline_unix_ms job)%N;
  q_model : job_model_id job = ec_model config;
  q_request : request_from_slice (job_request_json job) = Ok request;
  q_generation : ∃ h, generation rid es h (nlen (synthetic_words request) + 2) (db w)
    ∧ h !! "state" ≠ Some "completed";
  q_lease : obj_at (db w) (lease_key rid) = None;
  q_reservation : open_reservation key bucket g z (db w);
  q_small : small (Z.of_N (nlen (synthetic_words request)));
}.

Lemma past_deadline_no (w : world DB) :
  calm w → (job_deadline_unix_ms job = 0 ∨ clock w ≤ job_deadline_unix_ms job)%N →
  run (past_deadline job) w = (false, w).
Proof.
  intros Hw Hd. unfold past_deadline.
  destruct (0 <? job_deadline_unix_ms job)%N eqn:E; [|done]. apply N.ltb_lt in E.
  simpl. rewrite step_calm by done. simpl. repeat f_equal. apply N.ltb_ge. lia.
Qed.

Lemma parse_status_state (h : gmap string string) fs :
  h !! "state" ≠ Some "completed" →
  st_state <$> parse_status ((λ f, h !! f) <$> "state" :: fs) ≠ Some "completed".
Proof.
  intros Hh. unfold parse_status. simpl. destruct (h !! "state") as [st|] eqn:E; [|done].
  simpl. case_match; [|done]. simpl. congruence.
Qed.

(** The same world with the next identifier drawn. *)
Definition drawn (w : world DB) : world DB :=
  {| db := db w; clock := clock w; uuids := tail (uuids w); responses := responses w;
     sched := sched w |}.

Lemma run_uuid {A} (f : string → prog A) (w : world DB) :
  calm w → run (perform NewUuid ≫= f) w = run (f (default "" (head (uuids w)))) (drawn w).
Proof. intros Hw. simpl. by rewrite step_calm. Qed.
Lemma run_spawn {A} id owner (f : unit → prog A) (w : world DB) :
  calm w → run (perform (SpawnHeartbeat id owner) ≫= f) w = run (f tt) w.
Proof. intros Hw. simpl. by rewrite step_calm. Qed.
Lemma run_stop {A} id owner (f : unit → prog A) (w : world DB) :
  calm w → run (perform (StopHeartbeat id owner) ≫= f) w = run (f tt) w.
Proof. intros Hw. simpl. by rewrite step_calm. Qed.

(** What [run_job] leaves behind. *)
Record served_job (request : RuntimeRequest) (attempt : string)
    (es : list (stream_id * GenerationResult)) (key : string) (bucket : N) (g z : Z)
    (w : world DB) : Prop := {
  s_calm : calm w;
  s_results : ∃ new h, generation rid (es ++ new) h 0 (db w)
    ∧ new.*2 = result_for job attempt <$>
        AttemptStarted :: word_tokens 0 (synthetic_words request)
        ++ [Completed {| done_prompt_tokens := estimate_tokens (extract_prompt request);
                         done_generated_tokens := nlen (synthetic_words request);
                         done_finish_reason := "stop" |}]
    ∧ h !! "state" = Some "completed";
  s_exists : is_Some (obj_at (db w) (result_stream rid));
  s_lease : obj_at (db w) (lease_key rid) = None;
  s_reservation : settled_reservation key bucket g z (Z.of_N (nlen (synthetic_words request)))
    (db w);
}.

(** The keys a job may change. *)
Definition job_keys (key : string) (bucket : N) : list string :=
  [lease_key rid; result_stream rid; status_key rid; reservation; generated_counter key bucket].
Definition job_frame (key : string) (bucket : N) (d d' : DB) : Prop :=
  ∀ k, k ∉ job_keys key bucket → same_key k d d'.

Lemma run_job_served engine_id (w : world DB) request attempt es key bucket g z :
  backend config = Synthetic → synthetic_token_delay config = 0%N →
  queued_job request attempt es key bucket g z w →
  ∃ d', run (run_job sconf config engine_id job) w = (Ok Acknowledge, set_db d' (drawn w))
    ∧ served_job request attempt es key bucket g z (set_db d' (drawn w))
    ∧ job_frame key bucket (db w) d'.
Proof.
  intros Hb Hdelay [Hw Huuid Hd Hm Hreq (h & Hg & Hstate) Hlease Hres Hsmall].
  unfold run_job. rewrite run_bind, past_deadline_no by done. cbv iota.
  rewrite run_try_bind, (status_calm w rid h Hw (gen_status _ _ _ _ _ Hg)).
  rewrite bool_decide_eq_false_2 by by apply parse_status_state.
  rewrite run_uuid, Huuid by done. cbn [default from_option id].
  set (w0 := drawn w). assert (calm w0) as Hw0 by done.
  set (owner := engine_id +:+ ":" +:+ attempt). rewrite run_try_bind.
  destruct (acquire_free w0 owner Hw0 Hlease) as (d1 & Hrun & [Ho1 Hs1] & Ht1).
  rewrite Hrun. cbn [negb]. cbv iota. rewrite run_spawn, run_bind by done.
  destruct (execute_attempt_generation (set_db d1 w0) attempt request es h 1
    Hb Hdelay Hm Hreq Hw0) as (d2 & Hrun2 & new & h2 & Hnew & Hg2 & Hf2).
  { eapply generation_same; [|eauto with keys..|done].
    by replace (1 + nlen (synthetic_words request) + 1)%N
      with (nlen (synthetic_words request) + 2)%N by lia. }
  rewrite Hrun2, run_stop, run_try_bind by done.
  destruct (release_held (set_db d2 w0) owner Hw0) as (d3 & Hrun3 & [Ho3 Hs3] & Ht3).
  { destruct (Hf2 (lease_key rid)) as [E _]; [auto with keys..|]. simpl in E. simpl.
    by rewrite E. }
  change (set_db d2 (set_db d1 w0)) with (set_db d2 w0). rewrite Hrun3.
  cbn [finish_job]. rewrite run_try_bind.
  change (db (set_db ?d ?v)) with d in *. change (set_db ?d (set_db ?d' ?v)) with (set_db d v) in *.
  change (db w0) with (db w) in *.
  assert (∀ k, k ≠ lease_key rid → k ≠ result_stream rid → k ≠ status_key rid →
    same_key k (db w) d3) as H03.
  { intros k Hl Hr Hst. destruct (Hs1 k Hl), (Hf2 k Hr Hst), (Hs3 k Hl). split; congruence. }
  destruct (reconcile_open (set_db d3 w0) key bucket g z (nlen (synthetic_words request)) Hw0)
    as (n & d4 & Hrun4 & Hset & Hs4 & Ht4); [|done|].
  { eapply open_reservation_same; [exact Hres|..]; apply H03; auto with keys. }
  cbn [usage_generated_tokens]. rewrite Hrun4, run_try_bind.
  change (db (set_db ?d ?v)) with d in *.
  destruct (publish_event_generation (set_db d4 w0) attempt
    (Completed {| done_prompt_tokens := estimate_tokens (extract_prompt request);
                  done_generated_tokens := nlen (synthetic_words request);
                  done_finish_reason := "stop" |}) (es ++ new) h2 0 Hw0)
    as (i & d5 & Hrun5 & Hg5 & Hf5 & Hs5).
  { apply (generation_same _ _ _ d3); [|auto with keys..|done].
    apply (generation_same _ _ _ d2); [exact Hg2|auto with keys..|done]. }
  unfold publish_completion. cbn [usage_prompt_tokens usage_generated_tokens usage_finish_reason].
  change (set_db ?d (set_db ?d' ?v)) with (set_db d v) in *. rewrite Hrun5.
  exists d5. split; [reflexivity|]. change (db (set_db ?d ?v)) with d in *.
  split; [|intros k Hk; repeat apply not_elem_of_cons in Hk as [? Hk];
    destruct (H03 k), (Hs4 k), (Hf5 k); try done; split; congruence]. split.
  - done.
  - exists (new ++ [(i, result_for job attempt (Completed {|
      done_prompt_tokens := estimate_tokens (extract_prompt request);
      done_generated_tokens := nlen (synthetic_words request); done_finish_reason := "stop" |}))]).
    eexists. rewrite app_assoc. split; [exact Hg5|]. split; [|].
    + by rewrite fmap_app, Hnew, !fmap_cons, fmap_app.
    + unfold status_fields, hset_fields. simpl. by simplify_map_eq.
  - done.
  - change (obj_at d5 (lease_key rid) = None).
    destruct (Hf5 (lease_key rid)) as [E5 _], (Hs4 (lease_key rid)) as [E4 _]; auto with keys.
    congruence.
  - eapply settled_reservation_same; [exact Hset|..]; apply Hf5; auto with keys.
Qed.

(** ** Collecting its results *)
Lemma delivered_tokens attempt i words (mid : list (stream_id * GenerationResult)) :
  mid.*2 = result_for job attempt <$> word_tokens i words →
  Forall is_token (delivered <$> mid)
  ∧ token_text <$> (delivered <$> mid) = (λ word, word +:+ " ") <$> words.
Proof.
  revert i mid. induction words as [|word words IH]; intros i mid Hmid.
  { by apply fmap_nil_inv in Hmid as ->. }
  rewrite word_tokens_cons, fmap_cons in Hmid.
  destruct mid as [|[j r] mid]; [done|]. rewrite fmap_cons in Hmid. injection Hmid as -> Hmid.
  destruct (IH _ _ Hmid) as [H1' H2']. rewrite !fmap_cons, H2'.
  split; [|done]. constructor; [by eexists|done].
Qed.

(** What the frontend collects, whatever earlier, unfinished attempts left. *)
Lemma collect_served (w : world DB) request attempt es new h n state admission fuel :
  calm w → generation rid (es ++ new) h n (db w) →
  new.*2 = result_for job attempt <$>
    AttemptStarted :: word_tokens 0 (synthetic_words request)
    ++ [Completed {| done_prompt_tokens := estimate_tokens (extract_prompt request);
                     done_generated_tokens := nlen (synthetic_words request);
                     done_finish_reason := "stop" |}] →
  is_Some (obj_at (db w) (result_stream rid)) →
  Forall not_terminal (delivered <$> es) →
  es = [] ∨ attempt_after (delivered <$> es) "" ∉ [""; attempt] →
  ad_request_id admission = rid →
  let words := synthetic_words request in
  length es + length words + 2 < fuel →
  run (collect_generation state fuel admission) w
  = (Some (generate_response state admission
             (String.concat "" ((λ word, word +:+ " ") <$> words)) (nlen words) "stop"), w).
Proof.
  intros Hw Hg Hnew Hs Hold Hdiff Hadm words Hfuel. fold words in Hnew.
  destruct new as [|[i0 r0] new]; [done|]. rewrite fmap_cons in Hnew.
  injection Hnew as -> Hnew. rewrite fmap_app in Hnew.
  apply fmap_app_inv in Hnew as (mid & dones & Hmid & Hdone & ->).
  destruct dones as [|[i1 r1] []]; [done| |done].
  assert (r1 = result_for job attempt (Completed {| done_prompt_tokens :=
    estimate_tokens (extract_prompt request); done_generated_tokens := nlen words;
    done_finish_reason := "stop" |})) as -> by (by injection Hdone).
  destruct (delivered_tokens attempt 0 words mid (eq_sym Hmid)) as [Htok Htext].
  assert (length mid = length words) as Hlen
    by (apply (f_equal length) in Htext; by rewrite !length_fmap in Htext).
  pose proof (after_start _ (gen_ids _ _ _ _ _ Hg)) as Hafter.
  rewrite (collect_generation_calm state w admission _ fuel Hw
    ltac:(rewrite Hadm; exact (gen_results _ _ _ _ _ Hg)) ltac:(by rewrite Hadm)).
  2:{ rewrite Hafter, !length_app. simpl. rewrite length_app. simpl. lia. }
  rewrite Hafter, fmap_app, fmap_cons, fmap_app, fmap_cons.
  erewrite (collect_attempt _ _ _ _ _ _ Hold); [|done| |done|reflexivity].
  - by rewrite Htext.
  - destruct Hdiff as [->|?]; [by left|by right].
Qed.

(** ** Properties *)

(** C3.  A job is served.  On a broker that answers, a queued job whose
    deadline has not passed is run by an engine with the synthetic backend
    and no token delay: [run_job] returns, the job can be acknowledged, and
    the response collected from its results has exactly the generated words
    in order, their number, and "stop", whatever earlier, unfinished attempts
    left in the stream; the lease is free again; and the reservation is
    settled for the generated tokens, the rest being given back to the
    counter. *)
Theorem job_is_served engine_id (w : world DB) request attempt es key bucket g z
    state admission fuel :
  backend config = Synthetic → synthetic_token_delay config = 0%N →
  queued_job request attempt es key bucket g z w →
  Forall not_terminal (delivered <$> es) →
  es = [] ∨ attempt_after (delivered <$> es) "" ∉ [""; attempt] →
  ad_request_id admission = rid →
  let words := synthetic_words request in
  length es + length words + 2 < fuel →
  ∃ w', run (run_job sconf config engine_id job) w = (Ok Acknowledge, w')
    ∧ run (collect_generation state fuel admission) w'
      = (Some (generate_response state admission
                 (String.concat "" ((λ word, word +:+ " ") <$> words)) (nlen words) "stop"), w')
    ∧ obj_at (db w') (lease_key rid) = None
    ∧ settled_reservation key bucket g z (Z.of_N (nlen words)) (db w').
Proof.
  intros Hb Hdelay Hq Hold Hdiff Hadm words Hfuel.
  destruct (run_job_served engine_id w request attempt es key bucket g z Hb Hdelay Hq)
    as (d' & Hrun & [Hw' (new & h & Hg & Hnew & _) Hs Hl Hr] & _).
  eexists. split; [exact Hrun|]. split; [|done]. by eapply collect_served.
Qed.

(** The cancellation of a reservation that is not open. *)
Lemma cancel_settled (w : world DB) :
  calm w → not_reserved (snap (db w) reservation) →
  ∃ d', run (cancel_quota (job_reservation_id job)) w = (Ok tt, set_db d' w)
    ∧ sees d' (snap (db w)) ∧ server_time d' = server_time (db w).
Proof.
  intros Hw Hn.
  destruct (eval_calm (CancelQuota reservation) w (λ r, _ ?← lift (as_int r); mret (Ok tt))
    (λ r f', r = RInt 0 ∧ f' = snap (db w))) as (r & d' & f' & Hrun & Hs & [-> ->] & Ht);
    [done| |].
  { cbn [script_body].
    by apply (cancel_settled_wp _ _ _ _ (@quota_keys_distinct id "" 0 (job_reservation_id job))). }
  exists d'. unfold cancel_quota. by rewrite Hrun.
Qed.

(** C36.  A completed job can fail afterwards.  An engine that picks up a job
    after its deadline (one that was completed, but whose entry was not
    acknowledged) does not look at its status: it publishes a failure after
    the completion, so the stream has two terminal results, and the status,
    still "completed", names the failure as the terminal event. *)
Theorem completed_job_fails_late engine_id (w : world DB) es h i done d :
  calm w → (0 < job_deadline_unix_ms job < clock w)%N →
  generation rid (es ++ [(i, done)]) h 1 (db w) →
  res_event done = Some (Completed d) → h !! "state" = Some "completed" →
  not_reserved (snap (db w) reservation) →
  ∃ w' j h',
    let failure := result_for job engine_id (Failed {| code := "deadline_exceeded";
      message := "generation deadline exceeded"; retryable := false |}) in
    run (run_job sconf config engine_id job) w = (Ok Acknowledge, w')
    ∧ generation rid (es ++ [(i, done); (j, failure)]) h' 0 (db w')
    ∧ h' !! "state" = Some "completed" ∧ h' !! "terminal_event_id" = Some (show_id j)
    ∧ h' !! "active_attempt_id" = Some engine_id.
Proof.
  intros Hw [Hpos Hlate] Hg Hdone Hstate Hn. unfold run_job, past_deadline.
  apply N.ltb_lt in Hpos, Hlate. rewrite Hpos, run_bind.
  assert (run (now ← perform NowMs; mret (job_deadline_unix_ms job <? now)%N) w = (true, w)) as ->.
  { simpl. rewrite step_calm by done. simpl. by rewrite Hlate. }
  rewrite run_try_bind. destruct (cancel_settled w Hw Hn) as (d1 & Hrun & Hsees & Ht).
  rewrite Hrun, run_try_bind.
  destruct (publish_event_generation (set_db d1 w) engine_id (Failed {| code := "deadline_exceeded";
      message := "generation deadline exceeded"; retryable := false |}) (es ++ [(i, done)]) h 0 Hw)
    as (j & d2 & Hrun2 & Hg2 & _).
  { eapply generation_same; [exact Hg|..|exact Ht];
      (split; [apply (sees_obj _ _ _ Hsees)|apply (sees_ttl _ _ _ Hsees)]). }
  unfold publish_failure. rewrite Hrun2. do 3 eexists. split; [reflexivity|].
  rewrite <-app_assoc in Hg2. split; [exact Hg2|].
  unfold status_fields, hset_fields. simpl. by simplify_map_eq.
Qed.

End served.

(** ** The properties on the reference server *)
Module Demo.
Import FrontendProps.Demo.
#[local] Existing Instance serde.
#[local] Existing Instance hex.
#[local] Existing Instance header_text.

Definition streams : StreamsConfig := app_streams state.
Definition engine : EngineConfig :=
  {| backend := Synthetic; ec_model := "m"; ec_endpoint := ""; synthetic_token_delay := 0 |}.
Definition asked : GenerateRequest :=
  {| req_model := "m"; req_messages := []; req_prompt := "hello world"; req_max_tokens := 10;
     req_temperature := 0 |}.
Definition queued : GenerationJob :=
  {| job_schema_version := 1; job_request_id := "r1"; job_model_id := "m";
     job_model_revision := "main"; job_model_endpoint := ""; job_request_json := "request";
     job_deadline_unix_ms := 360000; job_reservation_id := "q1";
     job_cache := Some {| cache_key := cache_key_of "m" "hello world";
                          prefix_tokens_estimate := 3 |} |}.
Definition runtime : RuntimeRequest :=
  {| rr_model := "m"; rr_messages := None; rr_prompt := Some "hello world"; rr_max_tokens := 3;
     rr_temperature := 0 |}.

(** Admitted, and left over by an engine that crashed. *)
Definition prepared : world ref_db :=
  (run (_ ← admit_and_dispatch state h asked;
        _ ?← publish_result streams (result_of "a0" AttemptStarted);
        _ ?← publish_result streams (result_of "a0" (token "Gen" 1));
        mret (Ok tt)) start).2.

Example queued_is_published :
  (run (perform (Call (XREAD 0 REQUEST_STREAM "0-0"))) prepared).1
  = Ok (read_value REQUEST_STREAM (Some ((60000, 0)%N, [("payload", encode queued)]))).
Proof. vm_compute. reflexivity. Qed.

Lemma times : times_ok streams.
Proof. by split. Qed.

Lemma generation_at d rid es s h n :
  stream_at d (result_stream rid) = Some s →
  s_entries s = (λ e, (e.1, result_fields e.2)) <$> es →
  bool_decide (Forall (λ e, id_ok e.1 ∧ (e.1 = s_last s ∨ id_lt e.1 (s_last s))) es
    ∧ Forall (λ e, id_lt (0, 0)%N e.1) es ∧ id_ok (s_last s)
    ∧ Forall (λ e, res_schema_version e.2 = SCHEMA_VERSION) es
    ∧ (N.max (r_now d) (s_last s).1 + n < u64_max)%N) = true →
  StronglySorted id_lt es.*1 → hash_at d (status_key rid) = Some h →
  generation rid es h n d.
Proof.
  intros Hs He (Hids & Hpos & Hlast & Hv & Hn)%bool_decide_eq_true Hsort Hh.
  split; [by exists s|done..|by exists s].
Qed.

Ltac sorted := repeat first [apply SSorted_nil | apply SSorted_cons | apply Forall_nil_2
  | apply Forall_cons_2]; apply (bool_decide_unpack _); vm_compute; done.

Definition prepared_stream : stream :=
  {| s_entries := (λ e, (e.1, result_fields e.2)) <$> stored_old; s_last := (60000, 1)%N;
     s_groups := ∅ |}.
Definition prepared_status : gmap string string :=
  hset_fields [("state", "running"); ("model_id", "m"); ("request_entry_id", "60000-0");
               ("active_attempt_id", "a0")] ∅.
Definition prepared_reservation : gmap string string :=
  hset_fields (reservation_fields (requests_counter "key" 1) (prompt_counter "key" 1)
    (generated_counter "key" 1) {| d_prompt := 3; d_generated := 10; d_limit_requests := 2;
    d_limit_prompt := 100; d_limit_generated := 100 |}) ∅.

Lemma prepared_hashes :
  hash_at (db prepared) (status_key "r1") = Some prepared_status
  ∧ hash_at (db prepared) (reservation_key "q1") = Some prepared_reservation.
Proof. apply (bool_decide_unpack _). vm_compute. exact I. Qed.

Lemma prepared_keys :
  stream_at (db prepared) (result_stream "r1") = Some prepared_stream
  ∧ counter_at (db prepared) (generated_counter "key" 1) 10
  ∧ obj_at (db prepared) (lease_key "r1") = None
  ∧ r_now (db prepared) = 60000%N ∧ clock prepared = 60000%N ∧ sched prepared = []
  ∧ head (uuids prepared) = Some "a1".
Proof. vm_compute. repeat split. Qed.
Opaque prepared.

Lemma prepared_generation : generation "r1" stored_old prepared_status 5 (db prepared).
Proof.
  destruct prepared_hashes as [Hh _], prepared_keys as (Hs & _ & _ & Hnow & _).
  apply (generation_at _ _ _ prepared_stream); [done..| |sorted|done].
  rewrite Hnow. vm_compute. reflexivity.
Qed.

Lemma numbers_small : small 10 ∧ small 10.
Proof. by split. Qed.
Lemma words_three : nlen (synthetic_words runtime) = 3%N.
Proof. vm_compute. reflexivity. Qed.

Lemma prepared_queued : queued_job engine queued runtime "a1" stored_old "key" 1 10 10 prepared.
Proof.
  destruct prepared_hashes as [_ Hr], prepared_keys as (_ & Hc & Hl & _ & Hclock & Hcalm & Hu).
  split; [exact Hcalm|exact Hu| |reflexivity..| |exact Hl| |].
  - right. by rewrite Hclock.
  - exists prepared_status. rewrite words_three. split; [exact prepared_generation|].
    apply (bool_decide_unpack _). vm_compute. done.
  - split; [|exact Hc|exact numbers_small].
    exists prepared_reservation, 3%Z. split; [exact Hr|apply reservation_fields_hash].
  - rewrite words_three. clear. by split.
Qed.

Lemma job_is_served_witness :
  ∃ w', run (run_job streams engine "engine-1" queued) prepared = (Ok Acknowledge, w')
    ∧ run (collect_generation state 8 admission) w'
      = (Some (generate_response state admission "Generated response for: " 3 "stop"), w')
    ∧ obj_at (db w') (lease_key "r1") = None
    ∧ settled_reservation queued "key" 1 10 10 3 (db w').
Proof.
  refine (@job_is_served ref_codec ref_codec_laws serde hex ref_db ref_valkey ref_view ref_laws
    ref_numbers ref_number_laws streams engine queued times "engine-1" prepared runtime "a1"
    stored_old "key" 1 10 10 state admission 8 eq_refl eq_refl prepared_queued _ _ eq_refl _).
  - by repeat constructor.
  - right. apply (bool_decide_unpack _). vm_compute. done.
  - vm_compute. lia.
Defined.

(** Five minutes after its completion, the job is found again. *)
Definition late : world ref_db := env_apply final (Elapse 300000).
Definition late_stream : stream :=
  {| s_entries := (λ e, (e.1, result_fields e.2)) <$> stored; s_last := (60015, 0)%N;
     s_groups := ∅ |}.
Definition late_status : gmap string string :=
  hset_fields [("state", "completed"); ("model_id", "m"); ("request_entry_id", "60000-0");
               ("active_attempt_id", "a1"); ("terminal_event_id", "60015-0")] ∅.

Lemma late_keys :
  stream_at (db late) (result_stream "r1") = Some late_stream
  ∧ snap (db late) (reservation_key "q1") = (None, None)
  ∧ r_now (db late) = 360015%N ∧ clock late = 360015%N ∧ sched late = [].
Proof. vm_compute. repeat split. Qed.
Lemma late_hash : hash_at (db late) (status_key "r1") = Some late_status.
Proof. apply (bool_decide_unpack _). vm_compute. exact I. Qed.
Opaque late.

Lemma late_generation :
  generation "r1" ((stored_old ++ start_entry :: stored_tokens) ++ [done_entry])
    late_status 1 (db late).
Proof.
  destruct late_keys as (Hs & _ & Hnow & _).
  apply (generation_at _ _ _ late_stream); [exact Hs|reflexivity| |sorted|exact late_hash].
  rewrite Hnow. vm_compute. reflexivity.
Qed.

Lemma completed_job_fails_late_witness :
  ∃ w' j h',
    let failure := result_for queued "engine-2" (Failed {| code := "deadline_exceeded";
      message := "generation deadline exceeded"; retryable := false |}) in
    run (run_job streams engine "engine-2" queued) late = (Ok Acknowledge, w')
    ∧ generation "r1" ((stored_old ++ start_entry :: stored_tokens) ++ [done_entry; (j, failure)])
        h' 0 (db w')
    ∧ h' !! "state" = Some "completed" ∧ h' !! "terminal_event_id" = Some (show_id j)
    ∧ h' !! "active_attempt_id" = Some "engine-2".
Proof.
  destruct late_keys as (_ & Hr & _ & Hclock & Hcalm).
  apply (@completed_job_fails_late ref_codec ref_codec_laws serde ref_db ref_valkey ref_view
    ref_laws ref_numbers ref_number_laws streams engine queued times "engine-2" late
    (stored_old ++ start_entry :: stored_tokens) late_status (60015, 0)%N done_entry.2 usage Hcalm).
  - rewrite Hclock. split; reflexivity.
  - exact late_generation.
  - reflexivity.
  - apply (bool_decide_unpack _). vm_compute. exact I.
  - change (not_reserved (snap (db late) (reservation_key "q1"))). rewrite Hr. exists ∅.
    split; [reflexivity|]. clear. done.
Defined.
End Demo.
