(* ===== verification/EndToEnd.v ===== *)
(** * A request from end to end

    The whole path on a broker that answers: the frontend admits a request
    and dispatches its job ([Frontend.admit_and_dispatch]), an engine takes
    it from the queue, runs it and acknowledges it ([Engine.engine_round]),
    and the frontend collects the response.  The theorem composes the quota
    scripts ([Quota]), the job queue ([JobQueue]) and the job ([Served]). *)
From Stdlib Require Import Ascii.
From stdpp Require Import functions sorting options.
From S2P Require Import Prelude Text Valkey Lua RefServer Snapshot Program Effects Wire RefCodec.
From S2P Require Import TokenBudget Json Replies Streams Engine Quota Frontend StreamLog ResultStream.
From S2P Require Import EngineProps JobQueue FrontendProps Served.

#[local] Set Default Proof Using "Type*".

Section end_to_end.
Context `{CodecLaws, SerdeJson, !SerdeJsonLaws, Sha256, HeaderText}.
Context {DB : Type} `{ValkeyLaws DB, LuaNumbers, !LuaNumberLaws}.

(** ** The reservation *)
Definition demand_of (p g : N) (limits : QuotaLimits) : demand :=
  {| d_prompt := Z.of_N p; d_generated := Z.of_N g;
     d_limit_requests := Z.of_N (requests_per_minute limits);
     d_limit_prompt := Z.of_N (prompt_tokens_per_minute limits);
     d_limit_generated := Z.of_N (generated_tokens_per_minute limits) |}.

Definition charged (key : string) (bucket : N) (u : usage) (d : DB) : Prop :=
  counts (requests_counter key bucket) (prompt_counter key bucket) (generated_counter key bucket)
    (snap d) u.

Lemma run_now {A} (f : N → prog A) (w : world DB) :
  calm w → run (perform NowMs ≫= f) w = run (f (clock w)) w.
Proof. intros Hw. simpl. by rewrite step_calm. Qed.

Lemma reserve_quota_calm (w : world DB) id key p g limits u hr :
  let bucket := (clock w `div` 60000)%N in
  calm w → head (uuids w) = Some id →
  charged key bucket u (db w) → usage_small u →
  demand_small (demand_of p g limits) → refusal (demand_of p g limits) u = None →
  hash_at (db w) (reservation_key id) = Some hr →
  ∃ rem d', run (reserve_quota key p g limits) w = (Ok rem, set_db d' (drawn w))
    ∧ reservation_id rem = id
    ∧ (∀ k, snap d' k = reserved_snapshot (requests_counter key bucket) (prompt_counter key bucket)
         (generated_counter key bucket) (reservation_key id) (demand_of p g limits) u hr
         (snap (db w)) k)
    ∧ server_time d' = server_time (db w).
Proof.
  intros bucket Hw Hid Hc Hu Hd Hr Hh. set (d := demand_of p g limits) in *.
  pose proof (quota_keys_distinct key bucket id) as Hkeys.
  destruct (wp_run (script_body (reserve_script_for id key bucket p g limits)) (db w)
    (λ r f', r = admitted_reply d u ∧ ∀ k, f' k = reserved_snapshot (requests_counter key bucket)
       (prompt_counter key bucket) (generated_counter key bucket) (reservation_key id) d u hr
       (snap (db w)) k)) as (r & d' & f' & He & Hs & -> & Hf').
  { cbn [script_body reserve_script_for]. rewrite <-!pretty_of_N.
    eapply (reserve_wp _ _ _ (reservation_key id) Hkeys d u); [exact Hc|done..|]. rewrite Hr.
    eapply (reserve_commit_wp _ _ _ _ Hkeys); done || eauto. }
  pose proof (run_lua_time (script_body (reserve_script_for id key bucket p g limits)) (db w)) as Ht.
  rewrite He in Ht. unfold reserve_quota. rewrite run_uuid, Hid by done.
  cbn [default from_option]. unfold Datatypes.id. rewrite run_now by done. 
  change (clock (drawn w)) with (clock w). fold bucket.
  rewrite run_bind, (run_perform (Eval _)), step_calm by done.
  unfold deliver. change (db (drawn w)) with (db w). rewrite He. cbn [broker map_err].
  eexists _, d'. split; [reflexivity|]. split; [done|]. split; [|done].
  intros k. by rewrite (Hs k), Hf'.
Qed.
(** ** Keys *)

(** The keys of one API key's minute and of one reservation. *)
Definition quota_keys (key : string) (bucket : N) (id : string) : list string :=
  [requests_counter key bucket; prompt_counter key bucket; generated_counter key bucket;
   reservation_key id].

(** The tenth letter tells the counters, the status and the lease from the
    other keys. *)
Lemma quota_key_ne key bucket s k :
  String.get 10 k ≠ Some "q"%char → quota_prefix key bucket +:+ s ≠ k.
Proof using Type. intros Hk <-. by apply Hk. Qed.

Lemma not_quota_key key bucket id k :
  String.get 10 k ≠ Some "q"%char → k ≠ reservation_key id → k ∉ quota_keys key bucket id.
Proof using Type.
  intros Hk Hr. unfold quota_keys, requests_counter, prompt_counter, generated_counter.
  repeat (apply not_elem_of_cons; split); try apply not_elem_of_nil; [..|done];
    apply not_eq_sym; by apply quota_key_ne.
Qed.

Lemma request_reservation_ne id : REQUEST_STREAM ≠ reservation_key id.
Proof using Type. keys_differ 12. Qed.

Lemma request_not_quota key bucket id : REQUEST_STREAM ∉ quota_keys key bucket id.
Proof using Type. apply not_quota_key; [done|apply request_reservation_ne]. Qed.
Lemma result_not_quota key bucket id a : result_stream a ∉ quota_keys key bucket id.
Proof using Type. apply not_quota_key; [done|apply not_eq_sym, reservation_result_ne]. Qed.
Lemma status_not_quota key bucket id a : status_key a ∉ quota_keys key bucket id.
Proof using Type. apply not_quota_key; [done|apply not_eq_sym, reservation_status_ne]. Qed.
Lemma lease_not_quota key bucket id a : lease_key a ∉ quota_keys key bucket id.
Proof using Type. apply not_quota_key; [done|apply lease_reservation_ne]. Qed.

Lemma reserved_frame k1 k2 k3 k4 d u hr f k :
  k ∉ [k1; k2; k3; k4] → reserved_snapshot k1 k2 k3 k4 d u hr f k = f k.
Proof using Type.
  intros Hk. repeat apply not_elem_of_cons in Hk as [? Hk]. unfold reserved_snapshot.
  by rewrite !fn_lookup_insert_ne by done.
Qed.

Lemma snap_same (d d' : DB) k : snap d' k = snap d k → same_key k d d'.
Proof using Type. intros E. by apply pair_equal_spec in E as [??]. Qed.

(** ** Dispatch *)
Section dispatch.
Context (state : AppState) (h : headers) (request : GenerateRequest).
Context (key model : string) (budget : BudgetDecision) (id rid : string) (u : usage).

(** Nothing is stored yet under the identifiers of the request. *)
Definition fresh (d : DB) : Prop :=
  Forall (λ k, obj_at d k = None)
    [reservation_key id; result_stream rid; status_key rid; lease_key rid].

Definition request_demand : demand :=
  demand_of (prompt_tokens budget) (admitted_max_tokens budget) (app_quota state).

(** The reservation leaves the other keys alone, and is open. *)
Lemma reserved_charged bucket hr (d0 d : DB) :
  (∀ k, snap d k = reserved_snapshot (requests_counter key bucket) (prompt_counter key bucket)
     (generated_counter key bucket) (reservation_key id) request_demand u hr (snap d0) k) →
  charged key bucket (charge_usage request_demand u) d
  ∧ hash_at d (reservation_key id) = Some (hset_fields (reservation_fields
      (requests_counter key bucket) (prompt_counter key bucket) (generated_counter key bucket)
      request_demand) hr).
Proof.
  intros Hs. pose proof (quota_keys_distinct key bucket id) as Hkeys.
  destruct (keys_distinct _ _ _ _ Hkeys) as (?&?&?&?&?&?). split.
  - unfold charged, counts. rewrite !Hs. unfold reserved_snapshot. by snap_simpl.
  - rewrite hash_at_cell, Hs. unfold reserved_snapshot. by snap_simpl.
Qed.
(** The broker and the frontend, when the request arrives. *)
Record ready (q : job_queue) (w : world DB) : Prop := {
  rd_calm : calm w;
  rd_uuids : ∃ us, uuids w = id :: rid :: us;
  rd_preflight : preflight state h request = Ok (key, model, budget);
  rd_fresh : fresh (db w);
  rd_charged : charged key (clock w `div` 60000)%N u (db w);
  rd_usage : usage_small u;
  rd_demand : demand_small request_demand;
  rd_granted : refusal request_demand u = None;
  rd_queue : queue_at q (db w);
  rd_room : queue_room 1 (db w);
}.

(** The same world with two more identifiers drawn. *)
Definition dispatched (d : DB) (w : world DB) : world DB := set_db d (drawn (drawn w)).

Definition queued_hash (i : stream_id) : gmap string string :=
  queued_status (job_for state rid id model budget 0 request) (show_id i) ∅.

Lemma dispatch_calm q (w : world DB) :
  ready q w → (0 < as_secs (active_ttl (app_streams state)) < 2 ^ 52)%N →
  let bucket := (clock w `div` 60000)%N in
  let job := job_for state rid id model budget (clock w) request in
  ∃ i d, run (admit_and_dispatch state h request) w
      = (Ok {| ad_request_id := rid; ad_request_entry_id := show_id i; ad_reservation_id := id;
               ad_prompt_tokens := prompt_tokens budget |}, dispatched d w)
    ∧ queue_at (spec_publish i job q) d
    ∧ id_lt (0, 0)%N i ∧ Forall (λ e, id_lt e.1 i) (jq_jobs q)
    ∧ charged key bucket (charge_usage request_demand u) d
    ∧ hash_at d (reservation_key id) = Some (hset_fields (reservation_fields
        (requests_counter key bucket) (prompt_counter key bucket) (generated_counter key bucket)
        request_demand) ∅)
    ∧ obj_at d (result_stream rid) = None ∧ obj_at d (lease_key rid) = None
    ∧ hash_at d (status_key rid) = Some (queued_hash i)
    ∧ server_time d = server_time (db w).
Proof.
  intros [Hw [us Hus] Hpre Hfresh Hc Hu Hd Hr (s & Hs & Hq) (s0 & Hs0 & Hok & Hroom)] Httl bucket job.
  unfold fresh in Hfresh. rewrite !Forall_cons in Hfresh. destruct Hfresh as (F1 & F2 & F3 & F4 & _).
  destruct (reserve_quota_calm w id key (prompt_tokens budget) (admitted_max_tokens budget)
    (app_quota state) u ∅) as (rem & d1 & Hrun1 & Hid & Hs1 & Ht1); try done.
  { by rewrite Hus. }
  { unfold hash_at. by rewrite F1. }
  destruct (reserved_charged bucket ∅ (db w) d1 Hs1) as [Hc1 Hh1].
  assert (∀ k, k ∉ quota_keys key bucket id → same_key k (db w) d1) as Hf1.
  { intros k Hk. apply snap_same. rewrite Hs1. by apply reserved_frame. }
  set (w1 := drawn (set_db d1 (drawn w))).
  destruct (Hf1 _ (request_not_quota key bucket id)) as [Hreq _].
  destruct (Hf1 _ (result_not_quota key bucket id rid)) as [Hres _].
  destruct (Hf1 _ (status_not_quota key bucket id rid)) as [Hst _].
  destruct (Hf1 _ (lease_not_quota key bucket id rid)) as [Hlease _].
  destruct (publish_generation_refines (app_streams state) w1 job q ∅ 0)
    as (i & d & Hrun & Hq' & _ & Hi & Hall & Hsnap & Hframe & Ht); try done.
  { exists s. split; [|done]. unfold stream_at in *. simpl. by rewrite Hreq. }
  { exists s0. split; [unfold stream_at in *; simpl; by rewrite Hreq|]. simpl. by rewrite Ht1. }
  { unfold hash_at. simpl. by rewrite Hst, F3. }
  change (db w1) with d1 in *. change (set_db d w1) with (dispatched d w) in Hrun.
  assert (∀ k, String.get 10 k = Some "q"%char → same_key k d1 d) as Hquota.
  { intros k Hk. apply Hframe; intros ->; discriminate Hk. }
  exists i, d. split_and!; try done.
  - unfold admit_and_dispatch. rewrite Hpre. change (try_bind (lift (Ok ?a)) ?f) with (f a).
    cbv beta iota. rewrite run_try_bind, run_bind, Hrun1. cbn [map_err]. cbv beta iota.
    change (run (mret ?a) ?v) with (a, v). cbv beta iota.
    rewrite run_uuid, run_now by done. simpl uuids. rewrite Hus. simpl head. simpl default.
    rewrite Hid. change (clock (drawn (set_db d1 (drawn w)))) with (clock w). fold job w1.
    rewrite run_bind, Hrun. reflexivity.
  - destruct Hc1 as (C1 & C2 & C3). unfold charged, counts, snap, cell_counter in *.
    destruct (Hquota (requests_counter key bucket) eq_refl) as [-> _],
      (Hquota (prompt_counter key bucket) eq_refl) as [-> _],
      (Hquota (generated_counter key bucket) eq_refl) as [-> _]. done.
  - destruct (Hframe (reservation_key id)) as [E _]; [apply not_eq_sym, request_reservation_ne|
      apply reservation_status_ne|]. unfold hash_at in *. by rewrite E.
  - destruct (Hframe (result_stream rid)) as [E _]; [keys_differ 12|apply result_status_ne|].
    by rewrite E, Hres.
  - destruct (Hframe (lease_key rid)) as [E _]; [keys_differ 10|apply lease_status_ne|].
    by rewrite E, Hlease.
  - apply (f_equal fst) in Hsnap. simpl in Hsnap. unfold hash_at. by rewrite Hsnap.
  - by rewrite Ht, Ht1.
Qed.
End dispatch.

(** ** One round of the engine *)

(** One call leaves the clock of the server alone. *)
Lemma call_time {B} (c : command) (g : reply c → result error B) (w w' : world DB) r :
  calm w → run (try_bind (perform (Call c)) (λ x, lift (g x))) w = (r, w') →
  server_time (db w') = server_time (db w).
Proof.
  intros Hw. rewrite run_call by done. pose proof (exec_time c (db w)) as Ht.
  destruct (exec c (db w)) as [[]]; intros [= <- <-]; exact Ht.
Qed.

Section round.
Context (sconf : StreamsConfig) (config : EngineConfig) (job : GenerationJob).
Context (key : string) (bucket : N).

Lemma job_keys_request : REQUEST_STREAM ∉ job_keys job key bucket.
Proof.
  unfold job_keys. repeat (apply not_elem_of_cons; split); try apply not_elem_of_nil;
    try (by keys_differ 10); keys_differ 12.
Qed.

(** What a job reads and writes is as before. *)
Definition job_same (d d' : DB) : Prop :=
  (∀ k, k ∈ job_keys job key bucket → same_key k d d') ∧ server_time d' = server_time d.

Lemma only_job_same d d' :
  only REQUEST_STREAM d d' → server_time d' = server_time d → job_same d d'.
Proof.
  intros Ho Ht. split; [|done]. intros k Hk. apply Ho. intros ->. by apply job_keys_request.
Qed.

Ltac in_keys := repeat first [by left | right].

Lemma queued_job_same request attempt es g z d (w : world DB) :
  job_same (db w) d → queued_job config job request attempt es key bucket g z w →
  queued_job config job request attempt es key bucket g z (set_db d w).
Proof using All.
  intros [Hs Ht] []. unfold job_keys in Hs. split; try done; simpl.
  - destruct q_generation as (hh & Hg & Hne). exists hh. split; [|done].
    eapply generation_same; [exact Hg|apply Hs; in_keys..|done].
  - destruct (Hs (lease_key (job_request_id job))) as [-> _]; [in_keys|done].
  - eapply open_reservation_same; [done|apply Hs; in_keys..].
Qed.

Lemma served_job_same request attempt es g z d (w : world DB) :
  job_same (db w) d → served_job job request attempt es key bucket g z w →
  served_job job request attempt es key bucket g z (set_db d w).
Proof using All.
  intros [Hs Ht] []. unfold job_keys in Hs. split; try done; simpl.
  - destruct s_results as (new & hh & Hg & Hnew & Hst). exists new, hh. split; [|done].
    eapply generation_same; [exact Hg|apply Hs; in_keys..|done].
  - destruct (Hs (result_stream (job_request_id job))) as [-> _]; [in_keys|done].
  - destruct (Hs (lease_key (job_request_id job))) as [-> _]; [in_keys|done].
  - eapply settled_reservation_same; [done|apply Hs; in_keys..].
Qed.
(** The queue after the job has been taken and acknowledged. *)
Definition after_round (consumer : string) (now : N) (i : stream_id) (q : job_queue) : job_queue :=
  (spec_ack i (spec_next consumer now q).2).2.

Lemma engine_round_serves (w : world DB) c q i idle worker_id request attempt es g z :
  backend config = Synthetic → synthetic_token_delay config = 0%N → times_ok sconf →
  queue_at q (db w) → head (waiting q) = Some (i, job) → id_ok i →
  queued_job config job request attempt es key bucket g z w →
  ∃ d, run (engine_round sconf config idle worker_id c) w = (Ok c, set_db d (drawn w))
    ∧ queue_at (after_round (consumer_name c) (server_time (db w)) i q) d
    ∧ served_job job request attempt es key bucket g z (set_db d (drawn w))
    ∧ ∀ k, k ≠ REQUEST_STREAM → k ∉ job_keys job key bucket → same_key k (db w) d.
Proof using All.
  intros Hb Hdelay Htimes Hq Hhead Hok Hqueued. pose proof (q_calm _ _ _ _ _ _ _ _ _ _ Hqueued) as Hw.
  pose proof (next_job_refines w c (from_secs 5) q Hw Hq) as Hn. unfold spec_next in Hn.
  rewrite Hhead in Hn. destruct Hn as (d1 & Hrun1 & Hq1 & Ho1). simpl in Hq1.
  pose proof (call_time _ _ w (set_db d1 w) _ Hw Hrun1) as Ht1. simpl in Ht1.
  destruct (run_job_served sconf config job Htimes worker_id (set_db d1 w) request attempt es key
    bucket g z Hb Hdelay) as (d2 & Hrun2 & Hs2 & Hf2).
  { apply queued_job_same; [|done]. by apply only_job_same. }
  simpl in Hf2. change (drawn (set_db d1 w)) with (set_db d1 (drawn w)) in *.
  change (set_db d2 (set_db d1 ?v)) with (set_db d2 v) in *.
  set (q1 := with_jq q _) in Hq1.
  pose proof (acknowledge_refines (set_db d2 (drawn w)) i q1 Hw) as Ha. unfold spec_ack in Ha.
  destruct Ha as (d3 & Hrun3 & Hq3 & Ho3); [|done|].
  { eapply queue_at_same; [|exact Hq1]. apply Hf2, job_keys_request. }
  pose proof (call_time _ _ (set_db d2 (drawn w)) _ _ Hw Hrun3) as Ht3. simpl in Ht3, Ho3.
  exists d3. split.
  { unfold engine_round, next_consumed. rewrite run_try_bind, run_bind, Hrun1.
    cbn [fmap option_fmap option_map]. change (run (mret ?a) ?v) with (a, v). cbv beta iota.
    rewrite run_bind. change (Replies.job (consumed (i, job))) with job. rewrite Hrun2.
    change (entry_id (consumed (i, job))) with (show_id i). by rewrite run_try_bind, Hrun3. }
  split; [|split].
  - unfold after_round, spec_next. rewrite Hhead. exact Hq3.
  - apply (served_job_same _ _ _ _ _ d3 (set_db d2 (drawn w))); [|done].
    by apply only_job_same.
  - intros k Hk Hnk. destruct (Ho1 k Hk), (Hf2 k Hnk), (Ho3 k Hk). split; congruence.
Qed.

(** The only job that waits is taken and acknowledged: what was pending before
    is what is pending afterwards. *)
Lemma after_round_only s q i consumer now :
  queue_in s (spec_publish i job q) → waiting (spec_publish i job q) = [(i, job)] →
  i ∉ pending q →
  let q' := after_round consumer now i (spec_publish i job q) in
  jq_jobs q' = jq_jobs q ++ [(i, job)] ∧ waiting q' = [] ∧ pending q' = pending q.
Proof.
  intros Hin Hwait Hnot. unfold after_round, spec_next. rewrite Hwait. cbn [head].
  split; [done|]. split.
  - pose proof (waiting_deliver s _ consumer now (i, job) Hin) as E. rewrite Hwait in E.
    specialize (E eq_refl). simpl in E. by injection E.
  - unfold pending in *. simpl jq_group. rewrite group_ack_ids. simpl. rewrite fmap_app, filter_app.
    simpl. rewrite (filter_cons_False _ i) by (intros Hne; by apply Hne).
    rewrite filter_nil, app_nil_r.
    induction (pe_id <$> g_pending (jq_group q)) as [|j l IH]; [done|].
    apply not_elem_of_cons in Hnot as [??]. rewrite filter_cons_True by done. by rewrite IH.
Qed.
End round.

(** ** Properties *)
Section request_served.
Context (state : AppState) (h : headers) (request : GenerateRequest).
Context (key model : string) (budget : BudgetDecision) (id rid : string) (u : usage).
Context (sconf : StreamsConfig) (config : EngineConfig).

(** What the synthetic backend answers. *)
Definition answer_words (prompt : Prompt) : list string :=
  take (N.to_nat (admitted_max_tokens budget))
    (split_whitespace ("Generated response for: " +:+ prompt_text prompt)).

Lemma answer_small prompt :
  demand_small (request_demand state budget) → small (Z.of_N (nlen (answer_words prompt)))
  ∧ (nlen (answer_words prompt) ≤ admitted_max_tokens budget)%N.
Proof.
  intros (_ & Hg & _). unfold answer_words. set (ws := split_whitespace _).
  assert (nlen (take (N.to_nat (admitted_max_tokens budget)) ws) ≤ admitted_max_tokens budget)%N.
  { unfold nlen. rewrite length_take. lia. }
  split; [|done]. unfold small in *. simpl in Hg. lia.
Qed.
Definition response_admission (i : stream_id) : Admission :=
  {| ad_request_id := rid; ad_request_entry_id := show_id i; ad_reservation_id := id;
     ad_prompt_tokens := prompt_tokens budget |}.

(** What the key has used in this minute, once the response is there: the
    prompt and the tokens that were generated. *)
Definition used (words : N) : usage :=
  {| u_requests := u_requests u + 1; u_prompt := u_prompt u + Z.of_N (prompt_tokens budget);
     u_generated := u_generated u + Z.of_N words |}.

Lemma granted_small :
  usage_small u → demand_small (request_demand state budget) →
  refusal (request_demand state budget) u = None →
  small (Z.of_N (admitted_max_tokens budget))
  ∧ small (u_generated u + Z.of_N (admitted_max_tokens budget)).
Proof.
  intros (_ & _ & Hu) (_ & Hg & _ & _ & Hl) (_ & _ & Hle)%refusal_none. simpl in *.
  split; [done|]. unfold small in *. lia.
Qed.

Lemma empty_results : results_stream empty_stream [].
Proof. split; by constructor. Qed.

(** The job, as the engine finds it. *)
Lemma dispatched_is_queued q (w : world DB) d i prompt attempt us :
  let bucket := (clock w `div` 60000)%N in
  let job := job_for state rid id model budget (clock w) request in
  ready state h request key model budget id rid u q w →
  uuids w = id :: rid :: attempt :: us →
  finite_f32 (req_temperature request) = true → request_prompt request = Ok prompt →
  model = ec_model config →
  (clock w + generation_timeout state < u64_modulus)%N →
  (server_time (db w) + nlen (answer_words prompt) + 2 < u64_max)%N →
  charged key bucket (charge_usage (request_demand state budget) u) d →
  hash_at d (reservation_key id) = Some (hset_fields (reservation_fields
    (requests_counter key bucket) (prompt_counter key bucket) (generated_counter key bucket)
    (request_demand state budget)) ∅) →
  obj_at d (result_stream rid) = None → obj_at d (lease_key rid) = None →
  hash_at d (status_key rid) = Some (queued_hash state request model budget id rid i) →
  server_time d = server_time (db w) →
  queued_job config job (received (runtime_request model (admitted_max_tokens budget) request))
    attempt [] key bucket (Z.of_N (admitted_max_tokens budget))
    (u_generated u + Z.of_N (admitted_max_tokens budget)) (dispatched d w).
Proof.
  intros bucket job [Hw _ Hpre _ _ Hu Hd Hr _ _] Hus Hfin Hp Hm Hclock Htime Hc Hh Hres Hl Hst Ht.
  destruct (answer_small prompt Hd) as [Hsmall _].
  assert (synthetic_words (received (runtime_request model (admitted_max_tokens budget) request))
    = answer_words prompt) as Hwords.
  { unfold synthetic_words. by rewrite (received_prompt _ _ _ _ Hp). }
  split.
  - exact Hw.
  - simpl. by rewrite Hus.
  - right. simpl. unfold wadd. rewrite N.mod_small by exact Hclock. lia.
  - exact Hm.
  - by apply request_roundtrip.
  - rewrite Hwords. exists (queued_hash state request model budget id rid i).
    split; [|by vm_compute].
    split; [|constructor|exact Hst|].
    + exists empty_stream. split; [unfold stream_at; simpl; by rewrite Hres|apply empty_results].
    + exists empty_stream. split; [unfold stream_at; simpl; by rewrite Hres|]. split; [split; reflexivity|].
      simpl. rewrite Ht. clear -Htime. lia.
  - exact Hl.
  - split; [|apply Hc|by apply granted_small].
    eexists _, _. split; [exact Hh|]. apply reservation_fields_hash.
  - rewrite Hwords. exact Hsmall.
Qed.
(** The counters after the settlement. *)
Lemma counter_not_job_key job bucket s :
  s ≠ ":generated" → quota_prefix key bucket +:+ s ∉ job_keys job key bucket.
Proof.
  intros Hs. unfold job_keys. repeat (apply not_elem_of_cons; split); try apply not_elem_of_nil;
    try (by apply quota_key_ne). unfold generated_counter.
  intros E. by apply (inj (String.append _)) in E.
Qed.

Lemma used_counters job bucket (d2 d3 : DB) words :
  charged key bucket (charge_usage (request_demand state budget) u) d2 →
  (∀ k, k ≠ REQUEST_STREAM → k ∉ job_keys job key bucket → same_key k d2 d3) →
  (words ≤ admitted_max_tokens budget)%N →
  settled_reservation job key bucket (Z.of_N (admitted_max_tokens budget))
    (u_generated u + Z.of_N (admitted_max_tokens budget)) (Z.of_N words) d3 →
  charged key bucket (used words) d3.
Proof.
  intros (C1 & C2 & _) Hsame Hle [_ Hset]. unfold charged, counts.
  assert (∀ s, s ≠ ":generated" → snap d3 (quota_prefix key bucket +:+ s)
    = snap d2 (quota_prefix key bucket +:+ s)) as Hs.
  { intros s Hne. destruct (Hsame (quota_prefix key bucket +:+ s)) as [E1 E2];
      [by apply quota_key_ne|by apply counter_not_job_key|]. unfold snap. by rewrite E1, E2. }
  unfold requests_counter, prompt_counter in *. rewrite !Hs by done. split_and!; [done..|].
  simpl. replace (u_generated u + Z.of_N words)%Z with (u_generated u
    + Z.of_N (admitted_max_tokens budget)
    - Z.max (Z.of_N (admitted_max_tokens budget) - Z.of_N words) 0)%Z by lia.
  exact Hset.
Qed.

(** The job is the only one that waits. *)
Lemma dispatched_waits q d i job :
  queue_at q d → waiting q = [] → id_lt (0, 0)%N i → Forall (λ e, id_lt e.1 i) (jq_jobs q) →
  waiting (spec_publish i job q) = [(i, job)] ∧ i ∉ pending q.
Proof.
  intros (s & _ & Hq) Hwait Hi Hall. split.
  - rewrite waiting_publish; [by rewrite Hwait|done|done|apply Hq].
  - intros Hin. pose proof (q_pending _ _ Hq) as Hp. rewrite Forall_forall in Hp. rewrite Forall_forall in Hall.
    destruct (Hp _ Hin) as [(e & -> & He)%list_elem_of_fmap _]. by destruct (id_lt_irrefl e.1 (Hall _ He)).
Qed.

(** C1.  A request is served.  The broker answers, nothing else acts, and the
    request ([ready]) passes the checks, is within the key's quota in this
    minute, and draws identifiers under which nothing is stored; its
    temperature is finite and its deadline does not wrap around.  The engine
    has the synthetic backend without a token delay and serves the model, and
    no other job waits in the queue.  Then the request is admitted and its job
    appended to the queue; one round of the engine takes the job, runs it and
    acknowledges it; and the collected response is exactly the generated
    words, with their number and the reason [stop].  The key has been charged
    one request, its prompt and the words that were generated; the lease is
    free; the queue has one job more, none waits, and the same deliveries are
    pending as before. *)
Theorem request_is_served (w : world DB) q prompt attempt us c idle worker_id fuel :
  times_ok sconf → times_ok (app_streams state) →
  backend config = Synthetic → synthetic_token_delay config = 0%N →
  ec_model config = mc_id (app_model state) →
  ready state h request key model budget id rid u q w → waiting q = [] →
  uuids w = id :: rid :: attempt :: us →
  finite_f32 (req_temperature request) = true → request_prompt request = Ok prompt →
  (clock w + generation_timeout state < u64_modulus)%N →
  let words := answer_words prompt in
  (server_time (db w) + nlen words + 2 < u64_max)%N →
  length words + 2 < fuel →
  ∃ i w1 w2,
    run (admit_and_dispatch state h request) w = (Ok (response_admission i), w1)
    ∧ run (engine_round sconf config idle worker_id c) w1 = (Ok c, w2)
    ∧ run (collect_generation state fuel (response_admission i)) w2
      = (Some (generate_response state (response_admission i)
                 (String.concat "" ((λ word, word +:+ " ") <$> words)) (nlen words) "stop"), w2)
    ∧ charged key (clock w `div` 60000)%N (used (nlen words)) (db w2)
    ∧ obj_at (db w2) (lease_key rid) = None
    ∧ ∃ q', queue_at q' (db w2)
        ∧ jq_jobs q' = jq_jobs q ++ [(i, job_for state rid id model budget (clock w) request)]
        ∧ waiting q' = [] ∧ pending q' = pending q.
Proof.
  intros Hts Htf Hb Hdelay Hm Hready Hwait Hus Hfin Hp Hclock words Htime Hfuel.
  set (bucket := (clock w `div` 60000)%N).
  set (job := job_for state rid id model budget (clock w) request).
  destruct (dispatch_calm state h request key model budget id rid u q w Hready (active_ok _ Htf))
    as (i & d1 & Hrun1 & Hq1 & Hi & Hall & Hc1 & Hh1 & Hres1 & Hl1 & Hst1 & Ht1).
  fold bucket job in Hq1, Hc1, Hh1.
  assert (model = ec_model config) as Hmodel.
  { rewrite Hm. pose proof (rd_preflight _ _ _ _ _ _ _ _ _ _ _ Hready) as Hpre.
    by apply preflight_ok in Hpre as (_ & _ & -> & _). }
  pose proof (dispatched_is_queued q w d1 i prompt attempt us Hready Hus Hfin Hp Hmodel Hclock Htime
    Hc1 Hh1 Hres1 Hl1 Hst1 Ht1) as Hqueued. fold bucket job in Hqueued.
  set (rt := received (runtime_request model (admitted_max_tokens budget) request)) in *.
  pose proof (rd_queue _ _ _ _ _ _ _ _ _ _ _ Hready) as Hq.
  destruct (dispatched_waits q (db w) i job Hq Hwait Hi Hall) as [Hwait1 Hnot].
  pose proof Hq1 as (s1 & _ & Hin1).
  assert (id_ok i) as Hok.
  { pose proof (q_ids _ _ Hin1) as Hids. unfold ids_upto in Hids. rewrite Forall_forall in Hids.
    apply (Hids (i, job)). simpl. apply elem_of_app. right. by left. }
  destruct (engine_round_serves sconf config job key bucket (dispatched d1 w) c
    (spec_publish i job q) i idle worker_id rt attempt [] (Z.of_N (admitted_max_tokens budget))
    (u_generated u + Z.of_N (admitted_max_tokens budget)) Hb Hdelay Hts Hq1)
    as (d2 & Hrun2 & Hq2 & Hserved & Hframe); [by rewrite Hwait1|exact Hok|exact Hqueued|].
  destruct Hserved as [Hw2 (new & hh & Hg & Hnew & _) Hs2 Hl2 Hset].
  assert (synthetic_words rt = words) as Hwords.
  { unfold synthetic_words, rt. by rewrite (received_prompt _ _ _ _ Hp). }
  pose proof (collect_served job _ rt attempt [] new hh 0 state (response_admission i) fuel Hw2 Hg
    Hnew Hs2) as Hcollect. rewrite Hwords in *.
  destruct (after_round_only job s1 q i (consumer_name c) (server_time d1) Hin1 Hwait1 Hnot)
    as (Hj & Hwt & Hpd).
  eexists i, _, _. split; [exact Hrun1|]. split; [exact Hrun2|]. split_and!.
  - apply Hcollect; [constructor|by left|reflexivity|exact Hfuel].
  - eapply used_counters; [exact Hc1|exact Hframe| |exact Hset].
    apply answer_small, (rd_demand _ _ _ _ _ _ _ _ _ _ _ Hready).
  - exact Hl2.
  - exists (after_round (consumer_name c) (server_time d1) i (spec_publish i job q)).
    exact (conj Hq2 (conj Hj (conj Hwt Hpd))).
Qed.
End request_served.
End end_to_end.

(** ** The property on the reference server *)
Module Story.
Import FrontendProps.Demo.
#[local] Existing Instance hex.
#[local] Existing Instance header_text.
#[local] Existing Instance ref_serde.

(** An empty queue, a minute after the server was started. *)
Definition begin : world ref_db :=
  {| db := db (JobWitness.place empty_queue (0, 0)%N 60000); clock := 60000;
     uuids := ["q1"; "r1"; "a1"]; responses := []; sched := [] |}.
Definition unused : Quota.usage := {| u_requests := 0; u_prompt := 0; u_generated := 0 |}.
Definition answered : Quota.usage := {| u_requests := 1; u_prompt := 3; u_generated := 3 |}.
Definition granted : BudgetDecision :=
  {| admitted := true; reason := "admitted"; bd_model := "m"; prompt_tokens := 3;
     requested_max_tokens := 3; admitted_max_tokens := 3; available_generation_tokens := 97;
     truncated_messages := 0; bd_prompt := PText "hello world" |}.
Definition engine_1 : JobConsumer :=
  {| jc_config := app_streams state; consumer_name := "engine-1" |}.

Lemma begin_queue : queue_at empty_queue (db begin).
Proof. apply JobWitness.place_at; by constructor. Qed.

Lemma begin_ready : ready state h request "key" "m" granted "q1" "r1" unused empty_queue begin.
Proof.
  split.
  - reflexivity.
  - exists ["a1"]. reflexivity.
  - vm_compute. reflexivity.
  - vm_compute. repeat constructor.
  - vm_compute. repeat constructor.
  - by repeat split.
  - by repeat split.
  - reflexivity.
  - exact begin_queue.
  - exists (JobWitness.stored empty_queue (0, 0)%N). repeat split.
Qed.

Lemma request_is_served_witness :
  ∃ i w1 w2, let ad := response_admission granted "q1" "r1" i in
    run (admit_and_dispatch state h request) begin = (Ok ad, w1)
    ∧ run (engine_round (app_streams state) Served.Demo.engine 90 "engine-1" engine_1) w1
      = (Ok engine_1, w2)
    ∧ run (collect_generation state 6 ad) w2
      = (Some (generate_response state ad "Generated response for: " 3 "stop"), w2)
    ∧ charged "key" 1 answered (db w2)
    ∧ obj_at (db w2) (lease_key "r1") = None
    ∧ ∃ q', queue_at q' (db w2)
        ∧ jq_jobs q' = [(i, job_for state "r1" "q1" "m" granted 60000 request)]
        ∧ waiting q' = [] ∧ pending q' = [].
Proof.
  exact (@request_is_served ref_codec ref_codec_laws ref_serde ref_serde_laws hex header_text
    ref_db ref_valkey ref_view ref_laws ref_numbers ref_number_laws state h request "key" "m" granted
    "q1" "r1" unused (app_streams state) Served.Demo.engine begin empty_queue (PText "hello world")
    "a1" [] engine_1 90%N "engine-1" 6 Served.Demo.times Served.Demo.times eq_refl eq_refl eq_refl
    begin_ready eq_refl eq_refl eq_refl eq_refl eq_refl eq_refl ltac:(vm_compute; lia)).
Defined.
End Story.
