(* ===== verification/Rejection.v ===== *)
(** * A rejected request

    What a request that the frontend rejects leaves behind: its API key's
    counters are as they were, and its reservation, if there was one, is
    cancelled, whatever happened to the publication of the job, as long as
    the broker answers the two quota scripts ([rejected_request_keeps_no_quota]).
    If the answer of the reserving script is lost, the quota stays charged
    ([lost_answer_keeps_quota]). *)
From stdpp Require Import functions options.
From S2P Require Import Prelude Text Valkey Lua RefServer Snapshot Program Effects Wire RefCodec.
From S2P Require Import TokenBudget Json Replies Streams Engine Quota Frontend StreamLog ResultStream.
From S2P Require Import EngineStream EngineProps JobQueue FrontendProps Served EndToEnd.

#[local] Set Default Proof Using "Type*".

(** ** Runs with their events *)
Section runs.
Context {DB : Type} `{Valkey DB, LuaNumbers}.

Definition runs {A} (p : prog A) (w : world DB) (t : list event) (a : A) (w' : world DB) : Prop :=
  run p w = (a, w') ∧ run_trace p w = t.

Lemma run_trace_bind {A B} (p : prog A) (f : A → prog B) (w : world DB) :
  run_trace (p ≫= f) w = run_trace p w ++ let '(a, w1) := run p w in run_trace (f a) w1.
Proof.
  revert w. induction p as [a|e k IH]; intros w; [done|].
  change (run_trace (Vis e (λ x, prog_bind (k x) f)) w
    = run_trace (Vis e k) w ++ let '(a, w1) := run (Vis e k) w in run_trace (f a) w1).
  simpl. destruct (step_effect e w) as [x w1]. simpl. f_equal. apply IH.
Qed.

Lemma runs_bind {A B} (p : prog A) (f : A → prog B) w t b w' :
  runs (p ≫= f) w t b w' →
  ∃ t1 t2 a w1, t = t1 ++ t2 ∧ runs p w t1 a w1 ∧ runs (f a) w1 t2 b w'.
Proof.
  unfold runs. rewrite run_bind, run_trace_bind. destruct (run p w) as [a w1].
  intros [Hr <-]. by exists (run_trace p w), (run_trace (f a) w1), a, w1.
Qed.

Lemma runs_try {E A B} (p : prog (result E A)) (f : A → prog (result E B)) w t b w' :
  runs (try_bind p f) w t b w' →
  (∃ t1 t2 a w1, t = t1 ++ t2 ∧ runs p w t1 (Ok a) w1 ∧ runs (f a) w1 t2 b w')
  ∨ (∃ e, runs p w t (Err e) w' ∧ b = Err e).
Proof.
  intros (t1 & t2 & [a|e] & w1 & -> & H1 & H2)%runs_bind; [left; by eauto 10|].
  right. destruct H2 as [[= <- <-] <-]. rewrite app_nil_r. by exists e.
Qed.

Lemma runs_ret {A} (a b : A) w t w' : runs (mret a) w t b w' → t = [] ∧ b = a ∧ w' = w.
Proof. by intros [[= <- <-] <-]. Qed.

Lemma runs_perform e w t (x : answer e) w' :
  runs (perform e) w t x w' → step_effect e w = (x, w') ∧ t = [Ev e x].
Proof. intros [Hr Ht]. simpl in *. destruct (step_effect e w) as [y w1]. by simplify_eq. Qed.

(** ** Nobody else acts, and no time passes; requests and replies may be lost *)
Definition alone (w : world DB) : Prop := Forall (λ t, t_before t = []) (sched w).

(** An effect takes place, or fails with or without having taken place. *)
Lemma alone_step e w x w' : alone w → step_effect e w = (x, w') →
  alone w' ∧
  ((x = (deliver e w).1 ∧ db w' = db (deliver e w).2 ∧ clock w' = clock (deliver e w).2
    ∧ uuids w' = uuids (deliver e w).2)
   ∨ (∃ err, failed e err = Some x ∧ clock w' = clock w ∧ uuids w' = uuids w
      ∧ (db w' = db w ∨ db w' = db (deliver e w).2))).
Proof.
  unfold alone, step_effect. intros Hw.
  assert (∃ f s, default {| t_before := []; t_fate := Delivered |} (head (sched w))
      = {| t_before := []; t_fate := f |} ∧ tail (sched w) = s
    ∧ Forall (λ t : turn DB, t_before t = []) s) as (f & s & -> & -> & Hs).
  { destruct (sched w) as [|[b f] s]; [by exists Delivered, []|].
    apply Forall_cons in Hw as [Hb Hs]. simpl in Hb. subst b. by exists f, s. }
  clear Hw. destruct w as [d c us rs sc]. simpl.
  destruct e; simpl; unfold deliver, set_db; simpl;
    repeat match goal with |- context [let '(_, _) := ?p in _] => destruct p end;
    destruct f; intros [= <- <-]; simpl;
    first [split; [exact Hs|left; by split_and!]
          |split; [exact Hs|right; by eexists; split_and!; eauto]].
Qed.

(** Local effects always take place. *)
Lemma alone_uuid w id w' : alone w → step_effect NewUuid w = (id, w') →
  alone w' ∧ db w' = db w ∧ clock w' = clock w ∧ id = default "" (head (uuids w))
  ∧ uuids w' = tail (uuids w).
Proof. intros Hw [Ha [(-> & -> & -> & ->)|(err & [=] & _)]]%alone_step; done. Qed.

Lemma alone_now w now w' : alone w → step_effect NowMs w = (now, w') →
  alone w' ∧ db w' = db w ∧ clock w' = clock w ∧ now = clock w ∧ uuids w' = uuids w.
Proof. intros Hw [Ha [(-> & -> & -> & ->)|(err & [=] & _)]]%alone_step; done. Qed.

(** The broker answered, if the event is that of a script. *)
Definition script_answered (ev : event) : Prop :=
  match ev_effect ev as e return answer e → Prop with
  | Eval _ => λ x, is_ok x = true
  | _ => λ _, True
  end (ev_answer ev).

Lemma alone_eval s w x w' : alone w → step_effect (Eval s) w = (x, w') → is_ok x = true →
  alone w' ∧ clock w' = clock w ∧ uuids w' = uuids w
  ∧ ∃ r, x = Ok r ∧ run_lua (script_body s) (db w) = (Ok r, db w').
Proof.
  intros Hw [Ha [(Hx & Hd & Hc & Hu)|(err & [= <-] & _)]]%alone_step Hok; try done.
  simpl in *. destruct (run_lua (script_body s) (db w)) as [[r|e] d]; simpl in *; subst; [|done].
  split_and!; try done. by exists r.
Qed.

End runs.

(** ** The programs of an admission *)
Section rejection.
Context `{CodecLaws, SerdeJson, Sha256, HeaderText}.
Context {DB : Type} `{ValkeyLaws DB, LuaNumbers, !LuaNumberLaws}.

(** [publish_generation], whatever gets lost: the other keys are as before. *)
Lemma publish_frame config job (w : world DB) t r w' h :
  runs (publish_generation config job) w t r w' → alone w →
  job_schema_version job = SCHEMA_VERSION →
  (0 < as_secs (active_ttl config) < 2 ^ 52)%N →
  queue_room 1 (db w) → hash_at (db w) (status_key (job_request_id job)) = Some h →
  alone w' ∧ uuids w' = uuids w
  ∧ ∀ k, k ≠ REQUEST_STREAM → k ≠ status_key (job_request_id job) → same_key k (db w) (db w').
Proof.
  intros Hr Hw Hv Httl (s & Hs & Hid & Hroom) Hh. set (ks := status_key (job_request_id job)) in *.
  unfold publish_generation in Hr.
  assert (validate_schema (job_schema_version job) = Ok ()) as Hval by (by rewrite Hv).
  rewrite Hval in Hr. change (try_bind (lift (Ok ())) ?f) with (f ()) in Hr. cbv beta zeta in Hr.
  destruct (exec_xadd (db w) REQUEST_STREAM s (job_fields job) Hs ltac:(done) Hid ltac:(lia))
    as (i & d1 & He & _ & _ & _ & Ho & _ & Honly).
  assert (∀ x w1, step_effect (Call (XADD REQUEST_STREAM (job_fields job))) w = (x, w1) →
    alone w1 ∧ uuids w1 = uuids w ∧ (db w1 = db w ∨ db w1 = d1)
    ∧ (is_ok x = true → x = Ok (show_id i))) as Hadd.
  { intros x w1 [Ha [(Hx & Hd & _ & Hu)|(err & Hx & _ & Hu & Hd)]]%alone_step; [| |done];
      simpl in *; rewrite He in *; simpl in *.
    - subst x. split_and!; [done|done|by right|done].
    - split_and!; [done|done|by destruct Hd; [left|right]|by simplify_eq]. }
  assert (∀ d, d = db w ∨ d = d1 → ∀ k, k ≠ REQUEST_STREAM → same_key k (db w) d) as Hsame.
  { intros d [->| ->] k Hk; [done|by apply Honly]. }
  apply runs_try in Hr as [(t1 & t2 & x & w1 & -> & Hx & Hr)|(e & Hx & ->)];
    apply (runs_perform (Call _)) in Hx as [Hx _]; apply Hadd in Hx as (Ha & Hu & Hd & Hok).
  2:{ split_and!; try done. intros k Hk _. by apply Hsame. }
  specialize (Hok eq_refl) as [= ->].
  assert (hash_at (db w1) ks = Some h) as Hh1.
  { pose proof (request_status_ne (job_request_id job)) as Hne. fold ks in Hne.
    destruct (Hsame _ Hd ks ltac:(done)) as [E _]. unfold hash_at in *. by rewrite E. }
  destruct (queued_does config job (show_id i) h (snap (db w1)) Hh1 Httl (db w1) (sees_snap _))
    as (d2 & He2 & Hs2). fold ks in He2, Hs2.
  assert (∀ y w2, step_effect (Multi [HSET ks [("state", "queued"); ("model_id", job_model_id job);
      ("request_entry_id", show_id i)]; EXPIRE ks (as_secs (active_ttl config))]) w1 = (y, w2) →
    alone w2 ∧ uuids w2 = uuids w ∧ (db w2 = db w1 ∨ db w2 = d2)) as Hmulti.
  { intros y w2 [Ha2 [(Hy & Hd2 & _ & Hu2)|(err & Hy & _ & Hu2 & Hd2)]]%alone_step; [| |done];
      simpl in *; rewrite He2 in *; simpl in *; split_and!; try done; try congruence; by right. }
  assert (∀ w2, db w2 = db w1 ∨ db w2 = d2 →
    ∀ k, k ≠ REQUEST_STREAM → k ≠ ks → same_key k (db w) (db w2)) as Hfinal.
  { intros w2 [->| ->] k Hk Hks; [by apply Hsame|].
    destruct (Hsame _ Hd k Hk) as [E1 E2]. specialize (Hs2 k).
    rewrite fn_lookup_insert_ne in Hs2 by done. apply pair_equal_spec in Hs2 as [E3 E4].
    split; congruence. }
  apply runs_try in Hr as [(t3 & t4 & y & w2 & -> & Hy & Hr)|(e & Hy & ->)];
    apply (runs_perform (Multi _)) in Hy as [Hy _]; apply Hmulti in Hy as (Ha2 & Hu2 & Hd2).
  - apply runs_ret in Hr as (_ & _ & ->). split_and!; [done|done|by apply Hfinal].
  - split_and!; [done|done|by apply Hfinal].
Qed.
Section rejected.
Context (state : AppState) (h : headers) (request : GenerateRequest).
Context (key model : string) (budget : BudgetDecision) (id rid : string) (u : usage).

(** The frontend and the broker when the request arrives: nobody else acts,
    the key has used [u] in this minute, all numbers are exact doubles,
    nothing is stored under the identifiers that will be drawn, and the
    request stream can be added to. *)
Record asking (w : world DB) : Prop := {
  as_alone : alone w;
  as_uuids : ∃ us, uuids w = id :: rid :: us;
  as_charged : charged key (clock w `div` 60000)%N u (db w);
  as_usage : usage_small u;
  as_demand : demand_small (request_demand state budget);
  as_reservation : obj_at (db w) (reservation_key id) = None;
  as_status : obj_at (db w) (status_key rid) = None;
  as_room : queue_room 1 (db w);
}.

Abbreviation demanded := (request_demand state budget).
Abbreviation verdict := (refusal demanded u).
Abbreviation reserving bucket := (reserve_script_for id key bucket (prompt_tokens budget)
  (admitted_max_tokens budget) (app_quota state)).

(** What the reserving script does. *)
Lemma reserve_outcome (d : DB) bucket :
  charged key bucket u d → usage_small u → demand_small demanded →
  obj_at d (reservation_key id) = None →
  ∃ r d', run_lua (script_body (reserving bucket)) d = (Ok r, d')
  ∧ match verdict with
    | Some c => r = RInts [0%Z; c] ∧ ∀ k, snap d' k = snap d k
    | None => r = admitted_reply demanded u
        ∧ ∀ k, snap d' k = reserved_snapshot (requests_counter key bucket) (prompt_counter key bucket)
            (generated_counter key bucket) (reservation_key id) demanded u ∅ (snap d) k
    end.
Proof.
  intros Hc Hu Hd Hfree. pose proof (quota_keys_distinct key bucket id) as Hkeys.
  destruct (wp_run (script_body (reserving bucket)) d (λ r f', match verdict with
    | Some c => r = RInts [0%Z; c] ∧ ∀ k, f' k = snap d k
    | None => r = admitted_reply demanded u ∧ ∀ k, f' k =
        reserved_snapshot (requests_counter key bucket) (prompt_counter key bucket)
          (generated_counter key bucket) (reservation_key id) demanded u ∅ (snap d) k end))
    as (r & d' & f' & He & Hs & HQ).
  { cbn [script_body reserve_script_for]. rewrite <-!pretty_of_N.
    eapply (reserve_wp _ _ _ (reservation_key id) Hkeys demanded u); [exact Hc|done..|].
    destruct verdict eqn:Hv; [done|].
    eapply (reserve_commit_wp _ _ _ _ Hkeys); try done.
    unfold cell_hash, snap. simpl. by rewrite Hfree. }
  exists r, d'. split; [exact He|].
  destruct verdict; destruct HQ as [-> HQ]; (split; [done|]); intros k; by rewrite (Hs k).
Qed.

(** The cancelling script takes the charge back. *)
Lemma cancel_outcome (d d' : DB) bucket hr r :
  charged key bucket (charge_usage demanded u) d → usage_small u → demand_small demanded →
  verdict = None → hash_at d (reservation_key id) = Some hr →
  reservation_hash (requests_counter key bucket) (prompt_counter key bucket)
    (generated_counter key bucket) hr (d_prompt demanded) (d_generated demanded) →
  run_lua (script_body (CancelQuota (reservation_key id))) d = (Ok r, d') →
  charged key bucket u d' ∧ not_reserved (snap d' (reservation_key id)).
Proof.
  intros Hc (U1 & U2 & U3) (D1 & D2 & D3 & D4 & D5) Hv Hh Hres Hrun.
  pose proof (quota_keys_distinct key bucket id) as Hkeys.
  apply refusal_none in Hv as (V1 & V2 & V3).
  destruct (wp_run (script_body (CancelQuota (reservation_key id))) d (λ r f', ∀ k, f' k =
    cancelled_snapshot (requests_counter key bucket) (prompt_counter key bucket)
      (generated_counter key bucket) (reservation_key id) hr (charge_usage demanded u)
      (d_prompt demanded) (d_generated demanded) (snap d) k)) as (r' & d1 & f' & He & Hs & Hf').
  { cbn [script_body]. eapply (cancel_wp _ _ _ _ Hkeys); [exact Hh|exact Hres|exact Hc| |done..].
    unfold usage_small, small in *. simpl in *. lia. }
  rewrite Hrun in He. injection He as <- <-.
  assert (∀ k, snap d' k = cancelled_snapshot (requests_counter key bucket) (prompt_counter key bucket)
      (generated_counter key bucket) (reservation_key id) hr (charge_usage demanded u)
      (d_prompt demanded) (d_generated demanded) (snap d) k) as Hsnap
    by (intros k; by rewrite (Hs k), Hf').
  clear Hs Hf' Hrun. destruct (keys_distinct _ _ _ _ Hkeys) as (?&?&?&?&?&?).
  unfold cancelled_snapshot in Hsnap. split.
  - unfold charged, counts. rewrite !Hsnap. snap_simpl. unfold count_cell, cell_counter. simpl.
    split_and!; f_equal; lia.
  - exists (hset_fields [("status", "cancelled")] hr). rewrite Hsnap. snap_simpl.
    split; [done|]. unfold hset_fields. simpl. by rewrite lookup_insert_eq.
Qed.

(** Keys of the quota are neither the request stream nor a status. *)
Lemma quota_same bucket (d d' : DB) :
  (∀ k, k ≠ REQUEST_STREAM → k ≠ status_key rid → same_key k d d') →
  ∀ k, k ∈ quota_keys key bucket id → snap d' k = snap d k.
Proof.
  intros Hsame k Hk. destruct (Hsame k) as [E1 E2].
  - intros ->. by apply (request_not_quota key bucket id).
  - intros ->. by apply (status_not_quota key bucket id rid).
  - unfold snap. congruence.
Qed.

Lemma charged_same bucket v (d d' : DB) :
  (∀ k, k ∈ quota_keys key bucket id → snap d' k = snap d k) →
  charged key bucket v d → charged key bucket v d'.
Proof.
  intros Hsame (C1 & C2 & C3). unfold charged, counts.
  rewrite !Hsame by (unfold quota_keys; repeat first [by left|right]). by split_and!.
Qed.

(** The reservation has been granted: nothing else is lost by its script. *)
Lemma after_reservation (d d' : DB) bucket :
  (∀ k, snap d' k = reserved_snapshot (requests_counter key bucket) (prompt_counter key bucket)
    (generated_counter key bucket) (reservation_key id) demanded u ∅ (snap d) k) →
  server_time d' = server_time d → queue_room 1 d → obj_at d (status_key rid) = None →
  queue_room 1 d' ∧ hash_at d' (status_key rid) = Some ∅.
Proof.
  intros Hs Ht (s & Hs0 & Hok & Hroom) Hst.
  assert (∀ k, k ∉ quota_keys key bucket id → snap d' k = snap d k) as Hsame.
  { intros k Hk. rewrite Hs. by apply reserved_frame. }
  split.
  - exists s. pose proof (Hsame _ (request_not_quota key bucket id)) as E.
    apply (f_equal fst) in E. simpl in E. unfold stream_at in *. rewrite E, Ht. done.
  - pose proof (Hsame _ (status_not_quota key bucket id rid)) as E.
    apply (f_equal fst) in E. simpl in E. unfold hash_at. by rewrite E, Hst.
Qed.

(** The events of an admission up to the reserving script. *)
Lemma reserve_quota_runs (w : world DB) t r w' :
  alone w → (∃ us, uuids w = id :: rid :: us) →
  runs (reserve_quota key (prompt_tokens budget) (admitted_max_tokens budget) (app_quota state))
    w t r w' → Forall script_answered t →
  alone w' ∧ clock w' = clock w ∧ (∃ us, uuids w' = rid :: us)
  ∧ ∃ x, run_lua (script_body (reserving (clock w `div` 60000)%N)) (db w) = (Ok x, db w')
    ∧ r = match x with
          | RInt _ => Err (QuotaBroker ["Response was of incompatible type"])
          | RInts values => parse_reservation id values end.
Proof.
  intros Hw [us Hus] Hr Hans. unfold reserve_quota in Hr.
  apply runs_bind in Hr as (t1 & t2 & i & w1 & -> & [H1' _]%(runs_perform NewUuid) & Hr).
  apply runs_bind in Hr as (t3 & t4 & now & w2 & -> & [H2' _]%(runs_perform NowMs) & Hr).
  apply runs_bind in Hr as (t5 & t6 & x & w3 & -> & [H3' ->]%(runs_perform (Eval _)) & Hr).
  apply alone_uuid in H1' as (Ha1 & Hd1 & Hc1 & -> & Hu1); [|done].
  apply alone_now in H2' as (Ha2 & Hd2 & Hc2 & -> & Hu2); [|done].
  rewrite Hus in H3', Hr, Hu1. simpl in H3', Hr, Hu1. rewrite Hc1 in H3'.
  apply alone_eval in H3' as (Ha3 & Hc3 & Hu3 & y & -> & Hrun); [|done|].
  2:{ do 2 apply Forall_app in Hans as [_ Hans]. by apply Forall_app in Hans as [[Hans _]%Forall_cons _]. }
  assert (w' = w3 ∧ r = match y with
    | RInt _ => Err (QuotaBroker ["Response was of incompatible type"])
    | RInts values => parse_reservation id values end) as [-> ->].
  { destruct y; by apply runs_ret in Hr as (_ & -> & ->). }
  split_and!; [done|congruence|exists us; congruence|].
  exists y. split; [|done]. rewrite Hd2, Hd1 in Hrun. exact Hrun.
Qed.

(** The end of a dispatch that failed, from a granted reservation on. *)
Lemma failed_dispatch (w : world DB) bucket job t r w' :
  alone w → charged key bucket (charge_usage demanded u) (db w) →
  usage_small u → demand_small demanded → verdict = None →
  hash_at (db w) (reservation_key id) = Some (hset_fields (reservation_fields
    (requests_counter key bucket) (prompt_counter key bucket) (generated_counter key bucket)
    demanded) ∅) →
  queue_room 1 (db w) → hash_at (db w) (status_key rid) = Some ∅ →
  (0 < as_secs (active_ttl (app_streams state)) < 2 ^ 52)%N →
  job_schema_version job = SCHEMA_VERSION → job_request_id job = rid →
  runs (publish_generation (app_streams state) job ≫= λ entry,
    match entry with
    | Err _ => _ ← cancel_quota id;
               mret (Err (error_response BAD_GATEWAY "failed to dispatch generation"))
    | Ok entry_id => mret (Ok {| ad_request_id := rid; ad_request_entry_id := entry_id;
        ad_reservation_id := id; ad_prompt_tokens := prompt_tokens budget |}) end) w t (Err r) w' →
  Forall script_answered t →
  charged key bucket u (db w') ∧ not_reserved (snap (db w') (reservation_key id))
  ∧ response_status r = BAD_GATEWAY.
Proof.
  intros Hw Hc Hu Hd Hv Hh Hroom Hst Httl Hschema Hrid Hr Hans.
  apply runs_bind in Hr as (t1 & t2 & entry & w1 & -> & Hp & Hr).
  destruct (publish_frame _ _ _ _ _ _ ∅ Hp Hw Hschema Httl Hroom) as (Ha1 & _ & Hsame);
    [by rewrite Hrid|]. rewrite Hrid in Hsame.
  pose proof (quota_same bucket (db w) (db w1) Hsame) as Hq.
  destruct entry as [entry_id|e]; [by apply runs_ret in Hr as (_ & [=] & _)|].
  apply runs_bind in Hr as (t3 & t4 & x & w2 & -> & Hx & [_ [[= ->] ->]]%runs_ret).
  apply Forall_app in Hans as [_ [Hans _]%Forall_app].
  assert (∃ y, step_effect (Eval (CancelQuota (reservation_key id))) w1 = (y, w2)
    ∧ Forall script_answered [Ev (Eval (CancelQuota (reservation_key id))) y]) as (y & Hy & Hok).
  { unfold cancel_quota in Hx.
    apply runs_try in Hx as [(t5 & t6 & y & w3 & -> & Hy & Hr)|(e' & Hy & _)];
      apply (runs_perform (Eval _)) in Hy as [Hy ->].
    - exists (Ok y). apply Forall_app in Hans as [Hans _]. split; [|done].
      apply runs_try in Hr as [(t7 & t8 & z & w4 & -> & [_ [_ ->]]%runs_ret & [_ [_ ->]]%runs_ret)
        |(e2 & [_ [_ ->]]%runs_ret & _)]; exact Hy.
    - by exists (Err e'). }
  apply Forall_cons in Hok as [Hok _]. apply alone_eval in Hy as (_ & _ & _ & z & -> & Hrun); [|done..].
  destruct (cancel_outcome (db w1) (db w2) bucket (hset_fields (reservation_fields
    (requests_counter key bucket) (prompt_counter key bucket) (generated_counter key bucket)
    demanded) ∅) z) as [Hc2 Hn2]; try done.
  - by eapply charged_same.
  - rewrite hash_at_cell, Hq by (unfold quota_keys; repeat first [by left|right]).
    by rewrite <-hash_at_cell.
Qed.

(** The answered reservation: refused, and nothing has changed, or granted. *)
Lemma reserve_answered (w : world DB) t r w' :
  let bucket := (clock w `div` 60000)%N in
  asking w →
  runs (reserve_quota key (prompt_tokens budget) (admitted_max_tokens budget) (app_quota state))
    w t r w' → Forall script_answered t →
  alone w' ∧ (∃ us, uuids w' = rid :: us)
  ∧ match verdict with
    | Some _ => is_ok r = false ∧ ∀ k, snap (db w') k = snap (db w) k
    | None => ∃ q, r = Ok q ∧ reservation_id q = id
        ∧ server_time (db w') = server_time (db w)
        ∧ ∀ k, snap (db w') k = reserved_snapshot (requests_counter key bucket)
           (prompt_counter key bucket) (generated_counter key bucket) (reservation_key id)
           demanded u ∅ (snap (db w)) k
    end.
Proof.
  intros bucket [Hw Hus Hc Hu Hd Hfree _ _] Hr Hans.
  destruct (reserve_quota_runs w t r w') as (Ha & _ & Hus1 & x & Hx & ->); [done..|].
  fold bucket in Hx, Hc. pose proof (run_lua_time (script_body (reserving bucket)) (db w)) as Ht.
  rewrite Hx in Ht. split; [done|]. split; [done|].
  destruct (reserve_outcome (db w) bucket Hc Hu Hd Hfree) as (x' & d' & Hx' & Ho).
  rewrite Hx in Hx'. injection Hx' as <- <-.
  destruct verdict as [c|] eqn:Hv; destruct Ho as [-> Ho]; [|by eexists].
  split; [|done]. unfold refusal in Hv.
  do 3 (destruct (_ <? _)%Z in Hv; [by injection Hv as <-|]). done.
Qed.

(** C13.  A rejected request keeps no quota.  Nobody else acts meanwhile, but
    any request to the broker or any reply may be lost, except for the two
    quota scripts: these are answered.  If the checks fail, nothing happens.
    Otherwise, when the request is rejected in a state as in [asking], the counters of its key show
    what they showed before, and no reservation is left open: either a limit
    refused it (429), or it was granted but its job could not be published
    (502), and the reservation has been cancelled. *)
Theorem rejected_request_keeps_no_quota (w : world DB) resp w' :
  let admission := admit_and_dispatch state h request in
  (0 < as_secs (active_ttl (app_streams state)) < 2 ^ 52)%N →
  run admission w = (Err resp, w') →
  Forall script_answered (run_trace admission w) →
  (∀ r, preflight state h request = Err r → resp = r ∧ w' = w)
  ∧ (preflight state h request = Ok (key, model, budget) → asking w →
     charged key (clock w `div` 60000)%N u (db w')
     ∧ not_reserved (snap (db w') (reservation_key id))
     ∧ response_status resp
       = if verdict is Some _ then TOO_MANY_REQUESTS else BAD_GATEWAY).
Proof.
  intros admission Httl Hrun Hans. assert (runs admission w (run_trace admission w) (Err resp) w')
    as Hr by done. clear Hrun. revert Hr Hans. generalize (run_trace admission w). intros t Hr Hans.
  unfold admission, admit_and_dispatch in Hr.
  split; [intros r Hpre|intros Hpre Hask]; rewrite Hpre in Hr; [by destruct Hr as [[= -> ->] _]|].
  change (try_bind (lift (Ok ?a)) ?f) with (f a) in Hr. cbv beta iota in Hr.
  pose proof (λ t r w1, reserve_answered w t r w1 Hask) as Hreserve. cbv zeta in Hreserve.
  destruct Hask as [_ _ Hc Hu Hd Hfree Hst Hroom]. set (bucket := (clock w `div` 60000)%N) in *.
  apply runs_try in Hr as [(t1 & t2 & q & w1 & -> & Hq & Hr)|(e & Hq & [= <-])];
    [apply Forall_app in Hans as [Hans1 Hans2]|];
    apply runs_bind in Hq as (t3 & t4 & r & w3 & -> & Hq & (-> & Hmap & ->)%runs_ret);
    rewrite app_nil_r in *.
  all: edestruct Hreserve as (Ha & [us Hus] & Hr1); [exact Hq|done|].
  - destruct verdict eqn:Hv; [by destruct Hr1 as [Hr1 _], r|].
    destruct Hr1 as (q' & -> & Hid & Ht & Hs). injection Hmap as ->.
    apply runs_bind in Hr as (t1 & t4 & rid' & w4 & -> & [H1' ->]%(runs_perform NewUuid) & Hr).
    apply runs_bind in Hr as (t5 & t6 & now & w5 & -> & [H2' ->]%(runs_perform NowMs) & Hr).
    apply alone_uuid in H1' as (Ha4 & Hd4 & _ & Hrid & _); [|done].
    apply alone_now in H2' as (Ha5 & Hd5 & _); [|done]. rewrite Hus in Hrid. simpl in Hrid.
    subst rid'. rewrite Hid in Hr. do 2 apply Forall_app in Hans2 as [_ Hans2].
    destruct (reserved_charged state key budget id u bucket ∅ (db w) (db w3) Hs) as [Hc3 Hh3].
    destruct (after_reservation (db w) (db w3) bucket Hs Ht Hroom Hst) as [Hroom3 Hst3].
    rewrite <-Hd4, <-Hd5 in Hc3, Hh3, Hroom3, Hst3.
    by eapply (failed_dispatch w5 bucket); [..|exact Hr|].
  - destruct verdict eqn:Hv; [|by destruct Hr1 as (q & -> & _)].
    destruct Hr1 as [_ Hs], r as [q|err]; [done|]. injection Hmap as ->.
    split; [by apply (charged_same bucket u (db w))|]. split; [|done].
    rewrite Hs. exists ∅. unfold snap, cell_hash. simpl. by rewrite Hfree.
Qed.

(** If the script ran but its answer is lost, the request is rejected all the
    same, and the quota stays charged: the frontend does not know the
    reservation, and cancels nothing. *)
Lemma lost_answer_keeps_quota (w : world DB) err s :
  preflight state h request = Ok (key, model, budget) → asking w → verdict = None →
  let quiet := {| t_before := []; t_fate := Delivered |} in
  sched w = quiet :: quiet :: {| t_before := []; t_fate := LostReply err |} :: s →
  ∃ resp w', run (admit_and_dispatch state h request) w = (Err resp, w')
    ∧ response_status resp = TOO_MANY_REQUESTS
    ∧ charged key (clock w `div` 60000)%N (charge_usage demanded u) (db w')
    ∧ hash_at (db w') (reservation_key id) = Some (hset_fields (reservation_fields
        (requests_counter key (clock w `div` 60000)%N) (prompt_counter key (clock w `div` 60000)%N)
        (generated_counter key (clock w `div` 60000)%N) demanded) ∅).
Proof.
  set (bucket := (clock w `div` 60000)%N).
  intros Hpre [_ [us Hus] Hc Hu Hd Hfree _ _] Hv quiet Hsched. fold bucket in Hc.
  destruct (reserve_outcome (db w) bucket Hc Hu Hd Hfree) as (r & d' & Hrun & Ho).
  rewrite Hv in Ho. destruct Ho as [-> Hs].
  destruct (reserved_charged state key budget id u bucket ∅ (db w) d' Hs) as [Hc1 Hh1].
  assert (∃ w', run (reserve_quota key (prompt_tokens budget) (admitted_max_tokens budget)
    (app_quota state)) w = (Err (QuotaBroker err), w') ∧ db w' = d') as (w' & Hreserve & Hd').
  { unfold reserve_quota.
    set (f := λ (i : string) (now : N), Eval (reserve_script_for i key (now `div` 60000)%N
      (prompt_tokens budget) (admitted_max_tokens budget) (app_quota state))).
    assert (∃ w3, (let '(i, w1) := step_effect NewUuid w in let '(now, w2) := step_effect NowMs w1 in
      step_effect (f i now) w2) = (Err err, w3) ∧ db w3 = d') as (w3 & E & Hw3).
    { destruct w as [d c us' rs sc]. simpl in Hus, Hsched. subst us' sc. subst f.
      cbn -[run_lua script_body reserve_script_for] in *. fold bucket. rewrite Hrun. by eexists. }
    exists w3. split; [|done]. rewrite run_bind, (run_perform NewUuid).
    destruct (step_effect NewUuid w) as [i w1]. rewrite run_bind, (run_perform NowMs).
    destruct (step_effect NowMs w1) as [now w2]. rewrite run_bind, (run_perform (Eval _)).
    unfold f in E. rewrite E. reflexivity. }
  eexists _, w'. unfold admit_and_dispatch. rewrite Hpre.
  change (try_bind (lift (Ok ?a)) ?f) with (f a). cbv beta iota.
  rewrite run_try_bind, run_bind, Hreserve, Hd'. by split_and!.
Qed.

End rejected.
End rejection.

(** ** The property on the reference server *)
Module Witness.
Import FrontendProps.Demo EndToEnd.Story.
#[local] Existing Instance hex.
#[local] Existing Instance header_text.
#[local] Existing Instance ref_serde.

(** The command that publishes the job gets lost, on its way there or back. *)
Definition quiet : turn ref_db := {| t_before := []; t_fate := Delivered |}.
Definition losing (f : error → fate) : world ref_db :=
  {| db := db begin; clock := 60000; uuids := ["q1"; "r1"; "a1"]; responses := [];
     sched := replicate 5 quiet ++ [{| t_before := []; t_fate := f ["timed out"] |}] |}.

Lemma losing_asking f : asking state "key" granted "q1" "r1" unused (losing f).
Proof.
  split.
  - by repeat constructor.
  - by exists ["a1"].
  - vm_compute. repeat constructor.
  - by repeat split.
  - by repeat split.
  - vm_compute. reflexivity.
  - vm_compute. reflexivity.
  - exists (JobWitness.stored empty_queue (0, 0)%N). repeat split.
Qed.

Definition undispatched : Response :=
  error_response BAD_GATEWAY "failed to dispatch generation".

Lemma rejected_request_keeps_no_quota_witness :
  let w' := (run (admit_and_dispatch state h request) (losing LostReply)).2 in
  run (admit_and_dispatch state h request) (losing LostReply) = (Err undispatched, w')
  ∧ charged "key" 1 unused (db w') ∧ not_reserved (snap (db w') (reservation_key "q1"))
  ∧ response_status undispatched = BAD_GATEWAY.
Proof.
  intros w'.
  assert (run (admit_and_dispatch state h request) (losing LostReply) = (Err undispatched, w'))
    as Hrun by (apply run_answers; vm_compute; reflexivity).
  split; [exact Hrun|].
  refine (proj2 (@rejected_request_keeps_no_quota ref_codec ref_codec_laws ref_serde hex header_text
    ref_db ref_valkey ref_view ref_laws ref_numbers ref_number_laws state h request "key" "m" granted
    "q1" "r1" unused (losing LostReply) undispatched w' _ Hrun _) _ (losing_asking LostReply)).
  - exact (active_ok _ Served.Demo.times).
  - vm_compute. repeat constructor.
  - vm_compute. reflexivity.
Defined.
End Witness.
