(* ===== verification/Smoke.v ===== *)
(** * The smoke-test client: crates/inference-frontend/src/bin/connect_smoke.rs

    The program that checks a running frontend from the outside: one unary
    generation, one streamed generation, and the replay of the latter, whose
    text must be the same.  The HTTP client is a parameter ([HttpClient]): it
    posts a body under a bearer token and gives the chunks of a successful
    response, or an error.  Latencies are not modelled; what [main] prints is
    its result ([SmokeReport]). *)
From stdpp Require Import options.
From S2P Require Import Prelude Text Valkey Lua RefServer Program Effects Wire RefCodec Json Replies.
From S2P Require Import Streams Engine Envelope Frontend StreamLog ResultStream FrontendProps Served.

#[local] Set Default Proof Using "Type*".

(** [client.post(url).bearer_auth(key).body(body).send()?.error_for_status()?],
    and the chunks of the body. *)
Class HttpClient := post : string → string → bytes → prog (result error chunks).

Record SmokeConfig := {
  sm_base_url : string;
  sm_api_key : string;
  sm_model : string;
  sm_max_tokens : N;
}.
Definition smoke_config (env : string → option string) : SmokeConfig :=
  {| sm_base_url := default "http://localhost:8080" (env "BASE_URL");
     sm_api_key := default "dev-key" (env "API_KEY");
     sm_model := default "mlx-community/SmolLM2-135M-Instruct" (env "MODEL");
     sm_max_tokens := default 96%N (env "MAX_TOKENS" ≫= parse_u64) |}.

(** What is printed. *)
Record SmokeReport := {
  unary : GenerateResponse;
  stream_generated_tokens : N;
  replay_request_id : string;
  replay_events : nat;
  replay_text : string;
}.

(** [response.bytes()]. *)
Fixpoint whole_body (body : chunks) : result error bytes :=
  match body with
  | [] => Ok ""
  | chunk :: body => chunk ← chunk; rest ← whole_body body; Ok (chunk +:+ rest)
  end.

Definition event_text (events : list GenerationEvent) : string :=
  String.concat "" (ev_delta <$> events).

Section smoke.
Context `{Codec, HttpClient} (config : SmokeConfig).

Definition service_url (method : string) : string :=
  sm_base_url config +:+ "/inference.v1.InferenceService/" +:+ method.

Definition question (content : string) : GenerateRequest :=
  {| req_model := sm_model config;
     req_messages := [{| api_role := "user"; api_content := content |}];
     req_prompt := ""; req_max_tokens := sm_max_tokens config; req_temperature := 0 |}.
Definition unary_request : GenerateRequest := question "Explain token budgeting in one sentence.".
Definition streaming_request : GenerateRequest := question "Count from one to five.".
Definition replay_request (request_id : string) : SubscribeGenerationRequest :=
  {| sub_request_id := request_id; sub_after_event_id := None |}.

(** [read_stream], from the request on. *)
Definition fetch_stream (method : string) (body : bytes)
    : prog (result error (list GenerationEvent)) :=
  body ?← post (service_url method) (sm_api_key config) body;
  lift (read_stream body).

Definition smoke_main : prog (result error SmokeReport) :=
  body ?← post (service_url "Generate") (sm_api_key config) (encode unary_request);
  bytes ?← lift (whole_body body);
  decoded ?← lift (context "decode unary protobuf response" (decode_message bytes));
  live ?← fetch_stream "StreamGenerate" (encode streaming_request);
  request_id ?← lift (match live with
    | event :: _ => Ok (ev_request_id event)
    | [] => Err ["live stream returned no events"]
    end);
  replay ?← fetch_stream "SubscribeGeneration" (encode (replay_request request_id));
  if decide (event_text replay = event_text live) then
    mret (Ok {| unary := decoded;
                stream_generated_tokens := foldr N.max 0%N (ev_generated_tokens <$> live);
                replay_request_id := request_id;
                replay_events := length replay;
                replay_text := trim (event_text replay) |})
  else mret (Err ["replayed token sequence differs from live stream"]).
End smoke.

(** ** The client against the frontend *)
Lemma whole_body_concat cs : whole_body (Ok <$> cs) = Ok (String.concat "" cs).
Proof.
  induction cs as [|c cs IH]; [done|]. rewrite concat_nil_cons. cbn [fmap list_fmap whole_body].
  change (list_fmap bytes (result error bytes) Ok cs) with (Ok (E := error) <$> cs). by rewrite IH.
Qed.

(** The headers of [bearer_auth]. *)
Definition bearer_headers (key : string) : headers :=
  λ name, if decide (name = "authorization") then Some ("Bearer " +:+ key) else None.

(** The bytes of a response. *)
Definition body_bytes (b : Body) : bytes :=
  match b with
  | Plain text => text
  | Proto_ payload => payload
  | Stream frames _ => String.concat "" frames
  | ErrorJson _ _ => ""
  end.

Section against.
Context `{CodecLaws, SerdeJson, Sha256, HeaderText, HttpClient}.
Context {DB : Type} `{ValkeyLaws DB, LuaNumbers}.
Context (state : AppState) (config : SmokeConfig) (fuel : nat).

(** HTTP: a request to a routed path runs its RPC, and the client gets the
    bytes of a successful response, cut anywhere. *)
Context (http : ∀ (w w' : world DB) path rpc body response,
  route "POST" path = Some rpc →
  run (handle state fuel rpc (bearer_headers (sm_api_key config)) body) w = (Some response, w') →
  response_status response = 200%N →
  ∃ cs, run (post (sm_base_url config +:+ path) (sm_api_key config) body) w = (Ok (Ok <$> cs), w')
    ∧ String.concat "" cs = body_bytes (response_body response)).

(** The key is one of the frontend's, and readable as a header. *)
Context (Hkey : sm_api_key config ∈ api_keys state).
Context (Htext : to_str ("Bearer " +:+ sm_api_key config) = Some ("Bearer " +:+ sm_api_key config)).

Lemma authenticate_key :
  authenticate state (bearer_headers (sm_api_key config)) = Ok (sm_api_key config).
Proof using Hkey Htext.
  assert (bearer_token (bearer_headers (sm_api_key config)) = Some (sm_api_key config)) as Hb.
  { unfold bearer_token, bearer_headers. cbn [mbind option_bind decide]. rewrite decide_True by done.
    cbn. rewrite Htext. done. }
  unfold authenticate. rewrite Hb. by rewrite decide_True.
Qed.

(** A generation that is over, on the broker. *)
Record finished_generation (rid : string) (es : list (stream_id * GenerationResult)) (d : DB)
    : Prop := {
  fg_results : holds d (result_stream rid) es;
  fg_ids : Forall (λ e, id_lt (0, 0)%N e.1) es;
  fg_status : ∃ h, hash_at d (status_key rid) = Some h ∧ is_Some (parse_status ((λ f, h !! f) <$>
    ["state"; "model_id"; "active_attempt_id"; "terminal_event_id"]));
  fg_exists : is_Some (obj_at d (result_stream rid));
  fg_over : (visible state rid (delivered <$> es)).2 = true;
}.

Lemma replay_served (w : world DB) rid es :
  calm w → rid ≠ "" → finished_generation rid es (db w) → length es < fuel →
  run (rpc_subscribe_generation state fuel (bearer_headers (sm_api_key config))
         (encode (replay_request rid))) w
  = (stream_response (frames_of state rid (delivered <$> es)) true, w).
Proof using All.
  intros Hw Hrid [Hes Hids (hs & Hh & st & Hst) Hex _] Hfuel. unfold rpc_subscribe_generation.
  assert (subscribe_request state (bearer_headers (sm_api_key config)) (encode (replay_request rid))
    = Ok (rid, None)) as ->.
  { unfold subscribe_request. rewrite authenticate_key.
    change (mbind ?f (Ok ?a)) with (f a). cbv beta. unfold decode_request. rewrite decode_encode.
    cbn [map_err]. change (mbind ?f (Ok ?a)) with (f a). cbn [sub_request_id replay_request].
    by rewrite decide_False. }
  rewrite run_bind, (status_calm w rid hs) by done. rewrite Hst.
  rewrite (stream_generation_calm state w rid None (0, 0)%N es);
    rewrite ?(after_start es Hids); done.
Qed.

(** The events of a generation carry its identifier; one that is over has a
    last event. *)
Lemma visible_ids rid es :
  Forall (λ ev, ev_request_id ev = rid) (visible state rid es).1
  ∧ ((visible state rid es).2 = true → (visible state rid es).1 ≠ []).
Proof using Type.
  induction es as [|e es [IH1 IH2]]; [by split|]. cbn [visible].
  assert (∀ ev b, event_for state rid e = Some (ev, b) → ev_request_id ev = rid) as Hev.
  { unfold event_for. intros ev b. by destruct (res_event (entry_result e)) as [[]|]; intros [= <- _]. }
  destruct (event_for state rid e) as [[ev []]|] eqn:E; [| |done].
  - split; [|done]. constructor; [by eapply Hev|constructor].
  - specialize (Hev _ _ eq_refl). destruct (visible state rid es) as [evs ended]. simpl in *.
    split; [by constructor|done].
Qed.

(** Fetching a stream, live or again. *)
Lemma fetch_stream_run (w w' : world DB) method body cs events :
  run (post (service_url config method) (sm_api_key config) body) w = (Ok (Ok <$> cs), w') →
  String.concat "" cs = String.concat "" ((λ e, connect_envelope e false) <$> events) →
  Forall (λ e, slen (encode e) < 2 ^ 32)%N events →
  run (fetch_stream config method body) w = (Ok events, w').
Proof using All.
  intros Hpost Hcs Hsize. unfold fetch_stream. rewrite run_try_bind, Hpost, read_stream_whole, Hcs.
  rewrite <-(append_nil_r (String.concat _ _)). by rewrite drain_envelopes.
Qed.

Lemma replay_fetched (w : world DB) rid es :
  let shown := (visible state rid (delivered <$> es)).1 in
  Forall (λ e, slen (encode e) < 2 ^ 32)%N shown →
  calm w → rid ≠ "" → finished_generation rid es (db w) → length es < fuel →
  run (fetch_stream config "SubscribeGeneration" (encode (replay_request rid))) w = (Ok shown, w).
Proof using All.
  intros shown Hsize Hw Hrid Hfin Hfuel.
  destruct (http w w "/inference.v1.InferenceService/SubscribeGeneration" RpcSubscribeGeneration
    (encode (replay_request rid)) (stream_response (frames_of state rid (delivered <$> es)) true))
    as (cs & Hpost & Hcs); [done| |done|].
  { cbn [handle]. by rewrite run_bind, (replay_served w rid es). }
  apply (fetch_stream_run _ _ _ _ cs); [exact Hpost| |done]. rewrite Hcs. simpl. unfold frames_of.
  pose proof (fg_over _ _ _ Hfin) as Hover. subst shown.
  destruct (visible state rid (delivered <$> es)) as [evs ended]. simpl in *.
  by rewrite Hover, app_nil_r.
Qed.

(** ** Property *)

(** C26.  The replay is the live stream.  If the body of the streamed
    generation was its visible events, and the generation is over when the
    test asks for its replay, then the smoke test passes against the
    frontend: the replay request is routed, authenticated and decoded, it
    asks for the generation the first event names, from its start, and the
    events read back, however the bodies are cut, are those of the live
    stream; the report has the unary response, decoded, and the number and
    the text of these events. *)
Theorem smoke_test_passes (w0 w1 w : world DB) response rid es cs1 cs2 :
  run (post (service_url config "Generate") (sm_api_key config)
         (encode (unary_request config))) w0 = (Ok (Ok <$> cs1), w1) →
  String.concat "" cs1 = encode response →
  let shown := (visible state rid (delivered <$> es)).1 in
  run (post (service_url config "StreamGenerate") (sm_api_key config)
         (encode (streaming_request config))) w1 = (Ok (Ok <$> cs2), w) →
  String.concat "" cs2 = String.concat "" ((λ e, connect_envelope e false) <$> shown) →
  Forall (λ e, slen (encode e) < 2 ^ 32)%N shown →
  calm w → rid ≠ "" → finished_generation rid es (db w) → length es < fuel →
  ∃ report, run (smoke_main config) w0 = (Ok report, w)
    ∧ unary report = response ∧ replay_request_id report = rid
    ∧ replay_events report = length shown ∧ replay_text report = trim (event_text shown).
Proof using All.
  intros Hunary Hcs1 shown Hlive Hcs2 Hsize Hw Hrid Hfin Hfuel.
  destruct (visible_ids rid (delivered <$> es)) as [Hids Hne].
  specialize (Hne (fg_over _ _ _ Hfin)). fold shown in Hids, Hne.
  pose proof (fetch_stream_run _ _ _ _ _ _ Hlive Hcs2 Hsize) as Hfetch.
  pose proof (replay_fetched w rid es Hsize Hw Hrid Hfin Hfuel) as Hreplay. fold shown in Hreplay.
  unfold smoke_main. rewrite run_try_bind, Hunary, whole_body_concat, Hcs1.
  change (try_bind (lift (Ok ?a)) ?f) with (f a). cbv beta. unfold decode_message.
  rewrite decode_encode. change (try_bind (lift (context ?m (map_err ?g (Ok ?a)))) ?f) with (f a).
  cbv beta. rewrite run_try_bind, Hfetch. destruct shown as [|ev evs] eqn:Eshown; [done|].
  change (try_bind (lift (Ok ?a)) ?f) with (f a). cbv beta.
  assert (ev_request_id ev = rid) as -> by by apply Forall_cons in Hids as [-> _].
  rewrite run_try_bind, Hreplay, decide_True by done. by eexists.
Qed.
End against.

(** ** The property on the reference server

    The test runs against the frontend; each time it waits for results, an
    engine takes the job and runs it. *)
Module Rehearsal.
Import FrontendProps.Demo.
#[local] Existing Instance hex.
#[local] Existing Instance header_text.
#[local] Existing Instance ref_serde.

Definition smoke_env (name : string) : option string :=
  if decide (name = "BASE_URL") then Some "http://frontend" else
  if decide (name = "API_KEY") then Some "key" else
  if decide (name = "MODEL") then Some "m" else
  if decide (name = "MAX_TOKENS") then Some "1" else None.
Definition client : SmokeConfig := smoke_config smoke_env.

(** A server behind HTTP, that sends every body in one chunk. *)
Definition http_client : HttpClient := λ url key body,
  match strip_prefix (sm_base_url client) url ≫= route "POST" with
  | None => mret (Err ["404 Not Found"])
  | Some rpc =>
    r ← handle state 10 rpc (bearer_headers key) body;
    mret (match r with
          | None => Err ["operation timed out"]
          | Some r => if (response_status r =? 200)%N
                      then Ok [Ok (body_bytes (response_body r))]
                      else Err ["HTTP status error"]
          end)
  end.
#[local] Existing Instance http_client.

(** Another process: the engine. *)
Definition engine_runs (attempt : string) (d : ref_db) : ref_db :=
  Program.db (run (c ← Streams.consumer (app_streams state) "engine-1";
    match c with
    | Ok c => Engine.engine_round (app_streams state) Served.Demo.engine 90 "engine-1" c
    | Err e => mret (Err e)
    end) {| Program.db := d; clock := 60000; uuids := [attempt]; responses := []; sched := [] |}).2.

Definition quiet : turn ref_db := {| t_before := []; t_fate := Delivered |}.
Definition engine_turn (attempt : string) : turn ref_db :=
  {| t_before := [Foreign (engine_runs attempt)]; t_fate := Delivered |}.
Definition day : list (turn ref_db) :=
  replicate 9 quiet ++ [engine_turn "a1"] ++ replicate 11 quiet ++ [engine_turn "a2"].

Definition w0 : world ref_db :=
  {| Program.db := ref_empty 60000; clock := 60000; uuids := ["q1"; "r1"; "q2"; "r2"];
     responses := []; sched := day |}.

Lemma http_client_serves (w w' : world ref_db) path rpc body response :
  route "POST" path = Some rpc →
  run (handle state 10 rpc (bearer_headers "key") body) w = (Some response, w') →
  response_status response = 200%N →
  ∃ cs, run (post (sm_base_url client +:+ path) "key" body) w = (Ok (Ok <$> cs), w')
    ∧ String.concat "" cs = body_bytes (response_body response).
Proof.
  intros Hroute Hrun Hok. exists [body_bytes (response_body response)]. split; [|done].
  unfold post, http_client.
  change (strip_prefix (sm_base_url client) (sm_base_url client +:+ path)) with (Some path).
  cbn [mbind option_bind]. rewrite Hroute, run_bind, Hrun, Hok. done.
Qed.

(** The first answer, the stream of the second generation, and its events. *)
Definition first_response : GenerateResponse :=
  {| rsp_request_id := "r1"; rsp_model := "m"; rsp_text := "Generated ";
     rsp_prompt_tokens := 17; rsp_generated_tokens := 1; rsp_finish_reason := "stop" |}.
Definition second (e : Event) : GenerationResult :=
  {| res_schema_version := 1; res_request_id := "r2"; res_attempt_id := "a2"; res_event := Some e |}.
Definition second_results : list (stream_id * GenerationResult) :=
  [((60000, 0)%N, second AttemptStarted); ((60000, 1)%N, second (token "Generated " 1));
   ((60000, 2)%N, second (Completed {| done_prompt_tokens := 5; done_generated_tokens := 1;
      done_finish_reason := "stop" |}))].
Definition second_shown : list GenerationEvent :=
  (visible state "r2" (delivered <$> second_results)).1.

Definition w1 : world ref_db :=
  (run (post (service_url client "Generate") "key" (encode (unary_request client))) w0).2.
Definition w2 : world ref_db :=
  (run (post (service_url client "StreamGenerate") "key" (encode (streaming_request client))) w1).2.
Definition second_stream : stream :=
  {| s_entries := (λ e, (e.1, result_fields e.2)) <$> second_results; s_last := (60000, 2)%N;
     s_groups := ∅ |}.
Definition second_status : gmap string string :=
  hset_fields [("state", "completed"); ("model_id", "m"); ("request_entry_id", "60000-1");
               ("active_attempt_id", "a2"); ("terminal_event_id", "60000-2")] ∅.

Lemma first_answered :
  run (post (service_url client "Generate") "key" (encode (unary_request client))) w0
  = (Ok (Ok <$> [encode first_response]), w1).
Proof. unfold w1. apply run_answers. vm_compute. reflexivity. Qed.

Definition second_body : bytes :=
  String.concat "" ((λ e, connect_envelope e false) <$> second_shown).
Lemma second_streamed :
  run (post (service_url client "StreamGenerate") "key" (encode (streaming_request client))) w1
  = (Ok (Ok <$> [second_body]), w2).
Proof. unfold w2. apply run_answers. apply (bool_decide_unpack _). vm_compute. exact I. Qed.

Lemma second_keys :
  stream_at (Program.db w2) (result_stream "r2") = Some second_stream
  ∧ is_Some (obj_at (Program.db w2) (result_stream "r2")) ∧ sched w2 = []
  ∧ r_now (Program.db w2) = 60000%N.
Proof. vm_compute. repeat split. by eexists. Qed.
Lemma hash_decided (o : option (gmap string string)) h :
  bool_decide (o = Some h) = true → o = Some h.
Proof. apply bool_decide_eq_true. Qed.
Lemma second_hash : hash_at (Program.db w2) (status_key "r2") = Some second_status.
Proof. apply hash_decided. vm_compute. reflexivity. Qed.
#[local] Opaque w1 w2.

Lemma second_finished : finished_generation state "r2" second_results (Program.db w2).
Proof.
  destruct second_keys as (Hs & Hex & _ & Hnow).
  assert (generation "r2" second_results second_status 1 (Program.db w2)) as [].
  { apply (Served.Demo.generation_at _ _ _ second_stream); [exact Hs|reflexivity| | |exact second_hash].
    - rewrite Hnow. vm_compute. reflexivity.
    - Served.Demo.sorted. }
  split; [done..| |done|].
  - exists second_status. split; [exact second_hash|]. eexists. vm_compute. reflexivity.
  - vm_compute. reflexivity.
Qed.

Lemma smoke_test_passes_witness :
  ∃ report, run (smoke_main client) w0 = (Ok report, w2)
    ∧ unary report = first_response ∧ replay_request_id report = "r2"
    ∧ replay_events report = 2 ∧ replay_text report = "Generated".
Proof.
  destruct second_keys as (_ & _ & Hcalm & _).
  refine (@smoke_test_passes ref_codec ref_codec_laws ref_serde hex header_text http_client ref_db
    ref_valkey ref_view ref_laws ref_numbers state client 10 http_client_serves _ eq_refl
    w0 w1 w2 first_response "r2" second_results [encode first_response] [second_body]
    first_answered eq_refl second_streamed eq_refl _ Hcalm _ second_finished _).
  - apply (bool_decide_unpack _). vm_compute. exact I.
  - apply (bool_decide_unpack _). vm_compute. exact I.
  - done.
  - vm_compute. lia.
Defined.
End Rehearsal.
